(* ===== verification/_CoqProject ===== *)
-Q . S2P
Prelude.v
Memory.v
KString.v
Riscv.v
Spinlock.v
Mmio.v
Csr.v
Kalloc.v
Vm.v
VmSpec.v
VmOps.v
VmProps.v
VmCopy.v
VmFree.v
VmSpace.v
VmGrow.v
VmFault.v
Sched.v
Sleeplock.v
Disk.v
Bio.v
BioSpec.v
BioInv.v
BioOps.v
BioProps.v
Log.v
LogSpec.v
LogOps.v
Crash.v
LogTx.v
LogProps.v
FsRep.v
Fs.v
Virtio.v
VirtioProps.v
Console.v
ConsoleProps.v
FsBlocks.v
FsData.v
FsInode.v
FsProps.v
Itable.v
Dir.v
DirProps.v
DirLookup.v
Namei.v
Mkfs.v
MkfsProps.v
Pipe.v
PipeProps.v
File.v
FileProps.v
Proc.v
SchedLive.v
ProcProps.v
ProcAlloc.v
Fork.v
Exec.v
Sbrk.v
Sysfile.v
Trap.v
TrapProps.v
Boot.v
Ulib.v
Uprintf.v
Umalloc.v
Uinit.v
