(* ===== verification/Prelude.v ===== *)
(** * Verification of the OS-study RISC-V kernel

    The repository is a small Unix-like kernel for RISC-V (kernel/, in C with a little
    assembly), the library and first programs of its user space (user/) and the
    program that builds the initial disk image (mkfs/). This library models the C
    code, function by function, and proves what makes it correct.

    ** How the program is put together, and which file models which part

    Machine. kernel/riscv.h, param.h, memlayout.h are Riscv.v (constants, macros at
    64-bit width) and Csr.v (control registers, kernel/start.c). Memory.v is physical
    memory with its loads and stores, KString.v kernel/string.c. Mmio.v is
    kernel/uart.c and kernel/plic.c over a list of register accesses.

    Locks and threads. Spinlock.v is kernel/spinlock.c with the executing hart and
    Module Smp, the interleaving of several CPUs; Sched.v is the process table of
    kernel/proc.c with sleep, wakeup, sched, yield, kill, and Module Cond, the
    interleaving of sleepers and wakers; Sleeplock.v is kernel/sleeplock.c.

    Memory. Kalloc.v is kernel/kalloc.c, Vm.v kernel/vm.c; VmSpec.v, VmOps.v,
    VmProps.v, VmCopy.v and VmFree.v read page tables as maps from addresses to entries,
    VmSpace.v builds a whole address space and copies one, VmGrow.v grows and shrinks one,
    VmFault.v fills its holes.

    Disk. Disk.v is the interface [BlockDev] the buffer cache has to the driver, with a
    RAM disk as instance; Virtio.v is the driver itself, kernel/virtio_disk.c, and
    VirtioProps.v the life of a request. Bio.v is kernel/bio.c; BioSpec.v, BioInv.v,
    BioOps.v and BioProps.v show it to be a cache of blocks. Log.v is kernel/log.c;
    LogSpec.v, LogOps.v, LogTx.v, Crash.v and LogProps.v show that it makes
    transactions atomic.

    File system. Fs.v is the block and inode part of kernel/fs.c, FsRep.v the state
    inside a transaction, FsBlocks.v the block allocator, FsData.v and FsInode.v the
    contents of files, FsProps.v the theorems. Itable.v is the inode table. Dir.v is
    the directory part of fs.c, DirProps.v the elements of a path, DirLookup.v the
    entries of a directory, Namei.v path resolution. Mkfs.v and MkfsProps.v are
    mkfs/mkfs.c, read with the kernel's own layout of the disk.

    Processes and system calls. Pipe.v and PipeProps.v are kernel/pipe.c, File.v and
    FileProps.v kernel/file.c, Proc.v the life of a process in kernel/proc.c, SchedLive.v
    the scheduler, ProcProps.v wait, ProcAlloc.v allocproc, Fork.v fork and Sbrk.v sbrk; Exec.v kernel/exec.c and sysproc.c, Sysfile.v kernel/sysfile.c,
    Console.v and ConsoleProps.v kernel/console.c and printf.c. Trap.v is the machine as a
    whole with kernel/trap.c and the dispatch of kernel/syscall.c, TrapProps.v its
    theorems; Boot.v is kernel/main.c, forkret, procdump and the kernel page table.

    User space. Ulib.v is user/ulib.c, Uprintf.v user/printf.c, Umalloc.v
    user/umalloc.c, Uinit.v user/init.c and test.c, over the class [UserSys] of system
    calls.

    ** How the model reads

    A C function is a value of the state and error monad [M S A] below, with the name it has
    in the source; where two sources use one name, a Module separates them. A component has
    a record of its static data, and uses another component through a lens on its own
    state ([zoom]), so that the states nest as the calls do: [mem] in [kst] in [vst],
    [hart] in [pst] in [bst], [lst], [fst], [pip], [fil], [sys] and finally [mach]. A
    pointer to an element of a static array is its index; other pointers are addresses in
    [mem]. Integers are [Z] with the wrap-around of their width written out wherever a
    value can reach it. A call that does not come back is [Halt]: a panic with its message,
    a switch to the scheduler, a wait that nothing on this hart can end, a wild pointer.
    [wp c Q s] says that [c] returns from [s], in a state with [Q]: it is total.

    ** What the theorems show

    - Crash safety: a transaction is all or nothing for a crash after any of its disk
      writes (LogProps.v); the reservation of begin_op is enough for every interleaving;
      but a transaction that fills the log cannot be committed.
    - Concurrency: mutual exclusion of spinlocks and the absence of lost wakeups for every
      interleaving, and that acquire, release, sleep and wakeup run as these protocols
      say (Spinlock.v, Sched.v); the scheduler runs every runnable process (SchedLive.v);
      a disk request reaches the device through the avail ring, is completed, and its
      caller woken (VirtioProps.v).
    - Refinement: the allocator is a stack of pages, a page table a map, the buffer cache a
      map of blocks with LRU replacement, a pipe a queue, the file table a count of
      pointers, a directory a list of entries, a path a walk through the tree.
    - Processes: allocproc gives a slot with its own trapframe and page table, or gives back
      what it took; fork makes a child with a copy of the parent's memory, files and
      registers, and a result of 0; wait gives back every page of a child that has exited,
      and otherwise sleeps or fails; sbrk grows, eagerly or lazily, and shrinks the memory of
      a process, and vmfault fills a hole of it, without losing a page or a byte of the rest.
    - Round trips: copyout and copyin, mappages and uvmunmap, balloc and bfree, writei and
      readi, dirlink and dirlookup, printint and atoi (but for the sign, which atoi does not
      read).
    - No leaks: a reaped child gives back every page of its address space, free of the user
      library every block; path resolution leaves no reference but the one it returns.
    - Errors and bounds: range checks at 32 bits, double locking, unknown system calls and
      user exceptions, requests that wrap in malloc.
    - The user library agrees with the kernel's: memmove; and printf for %d, %c, %s and %%,
      while %x and %p print other digits (Uprintf.v says which). What mkfs appends to
      a file, and its free map, are what the kernel's layout of the disk reads.
    - Boot: start() enters main with the delegable exceptions and interrupts delegated and
      enabled (Csr.v), sie being a view of mie and sstatus of mstatus.
    The theorems named as properties carry their number C<n>; witnesses apply them to
    concrete machines, which each file builds under names starting with [demo].

    ** Fuel and bounds

    Loops that are not structural use [loop] with fuel, and running out is the outcome
    [NoFuel], never a result. Where a theorem says that a function returns, the fuel is
    shown to be enough: a walk has three levels; readi and writei take one iteration per
    block and two for the ends; namex consumes a character of a path shorter than MAXPATH
    per iteration; printint has at most 64 digits; the loops of the user string functions
    and of malloc take fuel as an argument and the theorems say how much they need
    (the length of the string, twice the length of the ring). A loop around sleep() runs
    once, because sleep() leaves the thread; what it does when resumed is in
    [sleep_resume]. scheduler() never returns and is modelled up to [n] iterations.

    ** What is not modelled

    - The assembly (entry.S, swtch.S, trampoline.S, kernelvec.S, usys.S): switches to and
      from it are outcomes or parameters. The compiler and linker, kernel.ld, user.ld.
    - The hardware: caches, TLB contents, devices beyond what a driver reads and writes (for
      the disk, VirtioProps.v says what the device does with a queue); memory is total and
      sequentially consistent.
    - The diagnostic printfs of kalloc.c, vm.c, fs.c, log.c, sys_open, sys_mknod and
      sys_getpid (the printing of traps and procdump is modelled).
    - Interrupts between two statements of one function: a function runs undisturbed, and
      interleaving is at lock operations, in Module Smp and Module Cond.
    - Overflow of reference counts that are [int]: the tables are too small to reach it. *)

From stdpp Require Export base gmap list list_numbers strings numbers sorting.
#[export] Set Default Goal Selector "!".
#[global] Open Scope Z_scope.

(** ** Outcomes of kernel code

    A C function of the kernel that touches state is a value of [M S A]: from
    a state of type [S] it either returns an [A] in a new state, or it halts.
    The ways of halting are the ways control never comes back to the caller in
    the C code. *)
Inductive fault : Type :=
| Panicked (msg : string)  (* panic(msg): prints and loops for ever *)
| Slept                    (* sleep() switched to the scheduler *)
| Spun                     (* busy wait that nothing on this hart can end *)
| Wild                     (* null or out of table pointer dereferenced *)
| NoFuel.                  (* fuel of a modelled loop exhausted *)

Inductive outcome (S A : Type) : Type :=
| Ok (a : A) (s : S)
| Halt (f : fault) (s : S).
Arguments Ok {S A} a s.
Arguments Halt {S A} f s.

(** The value returned, if the code returned. *)
Definition result {S A} (o : outcome S A) : option A :=
  match o with Ok a _ => Some a | Halt _ _ => None end.

Definition M (S A : Type) : Type := S → outcome S A.

Definition ret {S A} (a : A) : M S A := λ s, Ok a s.
Definition bind {S A B} (c : M S A) (k : A → M S B) : M S B := λ s,
  match c s with
  | Ok a s' => k a s'
  | Halt f s' => Halt f s'
  end.
Definition halt {S A} (f : fault) : M S A := λ s, Halt f s.
Definition panic {S A} (msg : string) : M S A := halt (Panicked msg).
Definition get {S} : M S S := λ s, Ok s s.
Definition gets {S A} (f : S → A) : M S A := λ s, Ok (f s) s.
Definition modify {S} (f : S → S) : M S unit := λ s, Ok tt (f s).
Definition when {S} (b : bool) (c : M S unit) : M S unit := if b then c else ret tt.
Definition of_option {S A} (o : option A) : M S A :=
  match o with Some a => ret a | None => halt Wild end.

(** A lens picks the part of a state a called component works on; [zoom] runs
    the component's code on that part. *)
Record lens (S T : Type) : Type := Lens { view : S → T; over : T → S → S }.
Arguments Lens {S T} view over.
Arguments view {S T} l s.
Arguments over {S T} l t s.

Definition zoom {S T A} (l : lens S T) (c : M T A) : M S A := λ s,
  match c (view l s) with
  | Ok a t => Ok a (over l t s)
  | Halt f t => Halt f (over l t s)
  end.

Declare Scope kernel_scope.
Delimit Scope kernel_scope with K.
Notation "'do' x <- c ; k" := (bind c (λ x, k))
  (at level 10, x name, c at level 100, k at level 200) : kernel_scope.
Notation "c ;; k" := (bind c (λ _, k))
  (at level 100, k at level 200, right associativity) : kernel_scope.
#[global] Open Scope kernel_scope.

(** ** Loops

    [each l f] runs the body for every element of [l]; [first l f] is a loop
    whose body may leave it with a result; [loop fuel f a] iterates a body that
    either goes on ([inl]) or leaves ([inr]). *)
Section loops.
Context {S A B : Type}.

Fixpoint each (l : list A) (f : A → M S unit) : M S unit :=
  match l with
  | [] => ret tt
  | x :: l' => f x ;; each l' f
  end.

Fixpoint first (l : list A) (f : A → M S (option B)) : M S (option B) :=
  match l with
  | [] => ret None
  | x :: l' => do r <- f x; match r with Some b => ret (Some b) | None => first l' f end
  end.

Fixpoint loop (fuel : nat) (f : A → M S (A + B)) (a : A) : M S B :=
  match fuel with
  | O => halt NoFuel
  | Datatypes.S n => do r <- f a; match r with inl a' => loop n f a' | inr b => ret b end
  end.
End loops.

(** ** Total-correctness weakest preconditions

    [wp c Q s]: from [s] the code returns, and [Q] holds of its result and
    final state. Code that panics, sleeps or runs out of fuel does not satisfy
    any [wp]. *)
Definition wp {S A} (c : M S A) (Q : A → S → Prop) (s : S) : Prop :=
  match c s with Ok a s' => Q a s' | Halt _ _ => False end.

(** [leads c s f]: the code halts with fault [f]. *)
Definition faults {S A} (c : M S A) (s : S) (f : fault) : Prop :=
  match c s with Ok _ _ => False | Halt g _ => g = f end.

Arguments wp : simpl never.
Arguments bind : simpl never.
Arguments zoom : simpl never.

Section wp_rules.
Context {S A B : Type}.
Implicit Types (Q : A → S → Prop) (s : S).

Lemma wp_ret (a : A) Q s : Q a s → wp (ret a) Q s.
Proof. done. Qed.

Lemma wp_bind (c : M S B) (k : B → M S A) Q s :
  wp c (λ b s', wp (k b) Q s') s → wp (bind c k) Q s.
Proof. unfold wp, bind. by destruct (c s). Qed.

Lemma wp_mono (c : M S A) Q Q' s :
  wp c Q s → (∀ a s', Q a s' → Q' a s') → wp c Q' s.
Proof. unfold wp. destruct (c s); eauto. Qed.

Lemma wp_Ok (c : M S A) Q s : wp c Q s → ∃ a s', c s = Ok a s' ∧ Q a s'.
Proof. unfold wp. destruct (c s); [eauto|done]. Qed.

Lemma wp_and (c : M S A) Q Q' s : wp c Q s → wp c Q' s → wp c (λ a s', Q a s' ∧ Q' a s') s.
Proof. unfold wp. by destruct (c s). Qed.

Lemma wp_of_Ok (c : M S A) Q s a s' : c s = Ok a s' → Q a s' → wp c Q s.
Proof. unfold wp. by intros ->. Qed.

Lemma wp_get (Q : S → S → Prop) s : Q s s → wp get Q s.
Proof. done. Qed.

Lemma wp_gets (f : S → A) Q s : Q (f s) s → wp (gets f) Q s.
Proof. done. Qed.

Lemma wp_modify (f : S → S) (Q : unit → S → Prop) s : Q tt (f s) → wp (modify f) Q s.
Proof. done. Qed.

Lemma wp_zoom {T} (l : lens S T) (c : M T A) Q s :
  wp c (λ a t, Q a (over l t s)) (view l s) → wp (zoom l c) Q s.
Proof. unfold wp, zoom. by destruct (c (view l s)). Qed.

Lemma wp_of_option (o : option A) a Q s : o = Some a → Q a s → wp (of_option o) Q s.
Proof. by intros ->. Qed.

Lemma bind_Ok (c : M S B) (k : B → M S A) s b s' :
  c s = Ok b s' → bind c k s = k b s'.
Proof. unfold bind. by intros ->. Qed.

Lemma zoom_Ok {T} (l : lens S T) (c : M T A) s a t :
  c (view l s) = Ok a t → zoom l c s = Ok a (over l t s).
Proof. unfold zoom. by intros ->. Qed.

Lemma zoom_Halt {T} (l : lens S T) (c : M T A) s f t :
  c (view l s) = Halt f t → zoom l c s = Halt f (over l t s).
Proof. unfold zoom. by intros ->. Qed.

Lemma bind_Halt (c : M S B) (k : B → M S A) s f s' :
  c s = Halt f s' → bind c k s = Halt f s'.
Proof. unfold bind. by intros ->. Qed.
End wp_rules.

Section loop_rules.
Context {S A B : Type}.
Implicit Types (s : S).

(** The invariant rule of [each], indexed by the elements already visited. *)
Lemma wp_each_ind (l : list A) (f : A → M S unit) (I : list A → S → Prop) s :
  I [] s →
  (∀ pre x post s', l = pre ++ x :: post → I pre s' →
     wp (f x) (λ _ s'', I (pre ++ [x]) s'') s') →
  wp (each l f) (λ _ s', I l s') s.
Proof.
  intros H0 Hstep.
  cut (∀ rest before s', l = before ++ rest → I before s' →
         wp (each rest f) (λ _ s'', I l s'') s').
  { intros H. by apply (H l []). }
  induction rest as [|x rest IH]; intros before s' Hl HI; cbn.
  - apply wp_ret. by rewrite Hl, app_nil_r.
  - apply wp_bind. eapply wp_mono; [by eapply Hstep|].
    intros [] s'' HI'. apply (IH (before ++ [x])); [by rewrite <- app_assoc|done].
Qed.

Lemma wp_each (l : list A) (f : A → M S unit) (I : S → Prop) s :
  I s → (∀ x s', x ∈ l → I s' → wp (f x) (λ _, I) s') → wp (each l f) (λ _, I) s.
Proof.
  intros H0 Hstep. apply (wp_each_ind l f (λ _, I)); [done|].
  intros pre x post s' Hl HI. apply Hstep; [set_solver|done].
Qed.

(** The measure rule of [loop]: the body decreases [m] or leaves. *)
Lemma wp_loop (I : A → S → Prop) (m : A → S → nat) (f : A → M S (A + B))
    (Q : B → S → Prop) fuel a s :
  (∀ x s', I x s' →
     wp (f x) (λ r s'', match r with
                        | inl x' => I x' s'' ∧ (m x' s'' < m x s')%nat
                        | inr b => Q b s''
                        end) s') →
  I a s → (m a s < fuel)%nat → wp (loop fuel f a) Q s.
Proof.
  intros Hbody. revert a s.
  induction fuel as [|n IH]; intros a s HI Hm; [lia|cbn].
  apply wp_bind. eapply wp_mono; [by apply Hbody|].
  intros [a'|b] s'; [|done]. intros [??]. apply IH; [done|lia].
Qed.

Lemma loop_leave n (f : A → M S (A + B)) a s b s' : f a s = Ok (inr b) s' → loop (Datatypes.S n) f a s = Ok b s'.
Proof. intros E. cbn. by rewrite (bind_Ok _ _ _ _ _ E). Qed.

Lemma loop_Halt n (f : A → M S (A + B)) a s g s' : f a s = Halt g s' → loop (Datatypes.S n) f a s = Halt g s'.
Proof. intros E. cbn. by rewrite (bind_Halt _ _ _ _ _ E). Qed.

(** [first] leaves with a result of the body, or visits every element. *)
Lemma wp_first (l : list A) (f : A → M S (option B)) (I : list A → S → Prop)
    (Q : option B → S → Prop) s :
  I [] s →
  (∀ pre x post s', l = pre ++ x :: post → I pre s' →
     wp (f x) (λ r s'', match r with
                        | Some b => Q (Some b) s''
                        | None => I (pre ++ [x]) s''
                        end) s') →
  (∀ s', I l s' → Q None s') →
  wp (first l f) Q s.
Proof.
  intros H0 Hstep Hend.
  cut (∀ rest before s', l = before ++ rest → I before s' → wp (first rest f) Q s').
  { intros H. by apply (H l []). }
  induction rest as [|x rest IH]; intros before s' Hl HI; cbn.
  - apply wp_ret, Hend. by rewrite Hl, app_nil_r.
  - apply wp_bind. eapply wp_mono; [by eapply Hstep|].
    intros [b|] s''; [done|]. intros HI'.
    apply (IH (before ++ [x])); [by rewrite <- app_assoc|done].
Qed.
End loop_rules.

(** ** Automation *)
Create HintDb wp discriminated.
Create Rewrite HintDb cint.
Create Rewrite HintDb hart.
Create HintDb hart discriminated.
#[export] Hint Resolve wp_ret wp_get wp_gets wp_modify : wp.

(** [wp_step]: one primitive at the head of the code; [wp_call H]: a call whose
    specification is [H]; the result and final state are introduced. *)
Ltac wp_step :=
  lazymatch goal with
  | |- wp (bind _ _) _ _ => apply wp_bind
  | |- wp (ret _) _ _ => apply wp_ret
  | |- wp get _ _ => apply wp_get
  | |- wp (gets _) _ _ => apply wp_gets
  | |- wp (modify _) _ _ => apply wp_modify
  | |- wp (zoom _ _) _ _ => apply wp_zoom
  | |- wp (when ?b _) _ _ => unfold when
  end; cbn beta iota.
Ltac wp_steps := repeat wp_step.
Tactic Notation "wp_call" uconstr(H) := eapply wp_mono; [eapply H|].

(** Case analysis on the boolean tests of the code. *)
Ltac case_test :=
  match goal with
  | |- context [if ?b then _ else _] =>
      lazymatch b with
      | context [if _ then _ else _] => fail
      | _ => destruct b eqn:?
      end
  end.

(** Linear arithmetic with division and remainder by constants. *)
Ltac dlia := Z.to_euclidean_division_equations; lia.

(** ** Lists as arrays *)
Lemma list_alter_at {A} (f : A → A) (l : list A) i x :
  l !! i = Some x → alter f i l = <[i := f x]> l.
Proof.
  intros Hx. rewrite list_insert_alter. apply list_alter_ext; [|done].
  intros y Hy. congruence.
Qed.

(** A loop over a table: the slots visited before slot [i]. *)
Lemma seq_split n pre i post :
  seq 0 n = pre ++ i :: post → (i < n)%nat ∧ pre = seq 0 i.
Proof.
  intros H. assert (seq 0 n !! length pre = Some i) as Hi
    by (rewrite H; by apply list_lookup_middle).
  apply lookup_seq in Hi as [-> Hlt]. split; [lia|].
  rewrite <- (take_app_length pre ((0 + length pre)%nat :: post)), <- H, take_seq.
  rewrite length_seq. f_equal.
Qed.

Lemma elem_of_seq_lookup {A} (l : list A) n i x :
  length l = n → l !! i = Some x → i ∈ seq 0 n.
Proof. intros <- Hx. apply elem_of_seq. apply lookup_lt_Some in Hx. lia. Qed.
