(* ===== verification/Memory.v ===== *)
(** * Byte-addressed memory and little-endian words

    The physical memory the kernel works on, its 1/2/4/8-byte loads and stores
    (RV64 is little-endian) and the same encodings on byte lists, which is what
    the C code does when it casts [b->data] to [struct dinode *], [uint *] or
    [struct logheader *]. Memory is total: a byte never written reads as 0. *)
From S2P Require Import Prelude.

(** ** C integer widths *)
Definition u8 (x : Z) : Z := x `mod` 256.
Definition u16 (x : Z) : Z := x `mod` 2 ^ 16.
Definition u32 (x : Z) : Z := x `mod` 2 ^ 32.
Definition u64 (x : Z) : Z := x `mod` 2 ^ 64.
(** Conversion of a 32-bit pattern to the signed type [int]. *)
Definition i32 (x : Z) : Z := let y := u32 x in if y <? 2 ^ 31 then y else y - 2 ^ 32.
Definition i16 (x : Z) : Z := let y := u16 x in if y <? 2 ^ 15 then y else y - 2 ^ 16.

Lemma u8_range x : 0 ≤ u8 x < 256.
Proof. unfold u8. dlia. Qed.
Lemma u8_small x : 0 ≤ x < 256 → u8 x = x.
Proof. unfold u8. dlia. Qed.
Lemma u8_u8 x : u8 (u8 x) = u8 x.
Proof. unfold u8. dlia. Qed.
Lemma u16_range x : 0 ≤ u16 x < 65536.
Proof. unfold u16. dlia. Qed.
Lemma u16_small x : 0 ≤ x < 65536 → u16 x = x.
Proof. unfold u16. dlia. Qed.
Lemma u32_range x : 0 ≤ u32 x < 4294967296.
Proof. unfold u32. dlia. Qed.
Lemma u32_small x : 0 ≤ x < 4294967296 → u32 x = x.
Proof. unfold u32. dlia. Qed.
Lemma u64_range x : 0 ≤ u64 x < 2 ^ 64.
Proof. unfold u64. dlia. Qed.
Lemma u64_small x : 0 ≤ x < 2 ^ 64 → u64 x = x.
Proof. unfold u64. dlia. Qed.
Lemma i32_small x : - 2 ^ 31 ≤ x < 2 ^ 31 → i32 x = x.
Proof. unfold i32, u32. intros. case_match; dlia. Qed.
Lemma i32_range x : -2 ^ 31 ≤ i32 x < 2 ^ 31.
Proof. unfold i32. pose proof (u32_range x). destruct (Z.ltb_spec (u32 x) (2 ^ 31)); lia. Qed.

Lemma i32_u32 x : i32 (u32 x) = i32 x.
Proof. unfold i32, u32. by rewrite Z.mod_mod. Qed.
#[export] Hint Rewrite u8_u8 : cint.

(** ** Little-endian encodings of byte lists *)
Fixpoint le_val (l : list Z) : Z :=
  match l with
  | [] => 0
  | b :: l' => b + 256 * le_val l'
  end.

Fixpoint le_bytes (n : nat) (v : Z) : list Z :=
  match n with
  | O => []
  | S n' => u8 v :: le_bytes n' (v `div` 256)
  end.

Definition byte_list (l : list Z) : Prop := Forall (λ b, 0 ≤ b < 256) l.

Lemma length_le_bytes n v : length (le_bytes n v) = n.
Proof. revert v. induction n; intros; f_equal/=; auto. Qed.

Lemma le_bytes_byte_list n v : byte_list (le_bytes n v).
Proof. revert v. induction n; intros; constructor; [apply u8_range|apply IHn]. Qed.

Lemma pow256_succ n : 256 ^ Z.of_nat (S n) = 256 * 256 ^ Z.of_nat n.
Proof. rewrite Nat2Z.inj_succ, Z.pow_succ_r; lia. Qed.

Lemma pow256_pos n : 0 < 256 ^ Z.of_nat n.
Proof. apply Z.pow_pos_nonneg; lia. Qed.

Lemma le_val_bytes n v : 0 ≤ v < 256 ^ Z.of_nat n → le_val (le_bytes n v) = v.
Proof.
  revert v. induction n as [|n IH]; intros v Hv; cbn [le_bytes le_val].
  - change (256 ^ Z.of_nat 0) with 1 in Hv. lia.
  - rewrite pow256_succ in Hv. rewrite IH by (pose proof (pow256_pos n); dlia).
    unfold u8. dlia.
Qed.

Lemma le_val_range l : byte_list l → 0 ≤ le_val l < 256 ^ Z.of_nat (length l).
Proof.
  induction 1 as [|b l Hb _ IH]; cbn [le_val length].
  - done.
  - rewrite pow256_succ. lia.
Qed.

Lemma le_bytes_val l : byte_list l → le_bytes (length l) (le_val l) = l.
Proof.
  induction 1 as [|b l Hb _ IH]; cbn [le_val le_bytes length]; [done|].
  unfold u8. f_equal; [dlia|].
  replace ((b + 256 * le_val l) `div` 256) with (le_val l) by dlia. done.
Qed.

(** ** Memory *)
Abbreviation mem := (gmap Z Z).

Definition rd (m : mem) (a : Z) : Z := u8 (default 0 (m !! a)).
Definition wr (m : mem) (a v : Z) : mem := <[a := u8 v]> m.

Definition rds (m : mem) (a : Z) (n : nat) : list Z :=
  (λ i, rd m (a + i)) <$> seqZ 0 (Z.of_nat n).
Fixpoint wrs (m : mem) (a : Z) (l : list Z) : mem :=
  match l with
  | [] => m
  | b :: l' => wrs (wr m a b) (a + 1) l'
  end.

Definition ld (n : nat) (m : mem) (a : Z) : Z := le_val (rds m a n).
Definition st (n : nat) (m : mem) (a v : Z) : mem := wrs m a (le_bytes n v).
Arguments ld : simpl never.
Arguments st : simpl never.
Arguments rds : simpl never.
Abbreviation ld64 := (ld 8).
Abbreviation st64 := (st 8).

(** Two memories with the same bytes; the underlying finite maps may differ
    on bytes that were never written. *)
Definition meq (m m' : mem) : Prop := ∀ a, rd m a = rd m' a.
Infix "≐" := meq (at level 70) : kernel_scope.

#[export] Instance meq_equiv : Equivalence meq.
Proof.
  split; unfold meq; [done|intros ??; symmetry; done|].
  intros ??? H1 H2 a. by rewrite H1.
Qed.

Lemma rd_range m a : 0 ≤ rd m a < 256.
Proof. apply u8_range. Qed.

Lemma rd_wr m a v x : rd (wr m a v) x = if decide (x = a) then u8 v else rd m x.
Proof.
  unfold rd, wr. case_decide; subst.
  - rewrite lookup_insert_eq. apply u8_u8.
  - by rewrite lookup_insert_ne by congruence.
Qed.

Lemma rd_wr_eq m a v : rd (wr m a v) a = u8 v.
Proof. rewrite rd_wr. by case_decide. Qed.

Lemma rd_wr_ne m a v x : x ≠ a → rd (wr m a v) x = rd m x.
Proof. intros. rewrite rd_wr. by case_decide. Qed.

#[export] Instance rd_proper : Proper (meq ==> eq ==> eq) rd.
Proof. intros m m' H a ? <-. apply H. Qed.

#[export] Instance wr_proper : Proper (meq ==> eq ==> eq ==> meq) wr.
Proof. intros m m' H a ? <- v ? <- x. rewrite !rd_wr. by case_decide. Qed.

#[export] Instance wrs_proper : Proper (meq ==> eq ==> eq ==> meq) wrs.
Proof.
  intros m m' H a ? <- l ? <-. revert m m' H a.
  induction l as [|b l IH]; intros m m' H a; cbn; [done|].
  apply IH. by rewrite H.
Qed.

Lemma length_rds m a n : length (rds m a n) = n.
Proof. unfold rds. rewrite length_fmap, length_seqZ. lia. Qed.

Lemma rds_byte_list m a n : byte_list (rds m a n).
Proof. apply Forall_fmap, Forall_true. intros. apply rd_range. Qed.

Lemma lookup_rds m a n i :
  rds m a n !! i = if decide (i < n)%nat then Some (rd m (a + Z.of_nat i)) else None.
Proof.
  unfold rds. rewrite list_lookup_fmap. case_decide.
  - rewrite lookup_seqZ_lt by lia. done.
  - rewrite lookup_seqZ_ge by lia. done.
Qed.

Lemma rds_ext m m' a a' n :
  (∀ i, 0 ≤ i < Z.of_nat n → rd m (a + i) = rd m' (a' + i)) → rds m a n = rds m' a' n.
Proof.
  intros H. apply list_eq. intros i. rewrite !lookup_rds.
  case_decide; [|done]. f_equal. apply H. lia.
Qed.

Lemma ld_ext n m m' a :
  (∀ x, a ≤ x < a + Z.of_nat n → rd m x = rd m' x) → ld n m a = ld n m' a.
Proof. intros H. unfold ld. f_equal. apply rds_ext. intros. apply H. lia. Qed.

#[export] Instance ld_proper n : Proper (meq ==> eq ==> eq) (ld n).
Proof. intros m m' H a ? <-. apply ld_ext. intros. apply H. Qed.

Lemma rd_wrs m a l x :
  rd (wrs m a l) x =
    if decide (a ≤ x < a + Z.of_nat (length l))
    then u8 (l !!! Z.to_nat (x - a)) else rd m x.
Proof.
  revert m a. induction l as [|b l IH]; intros m a; cbn [wrs length].
  - case_decide; [lia|done].
  - rewrite IH, rd_wr.
    destruct (decide (x = a)) as [->|Hne].
    + rewrite decide_False by lia. rewrite decide_True by lia.
      by replace (Z.to_nat (a - a)) with 0%nat by lia.
    + destruct (decide (a ≤ x < a + Z.of_nat (S (length l)))).
      * rewrite decide_True by lia.
        by replace (Z.to_nat (x - a)) with (S (Z.to_nat (x - (a + 1)))) by lia.
      * by rewrite decide_False by lia.
Qed.

Lemma rd_wrs_out m a l x :
  ¬ (a ≤ x < a + Z.of_nat (length l)) → rd (wrs m a l) x = rd m x.
Proof. intros. rewrite rd_wrs. by case_decide. Qed.

Lemma rds_wrs m a l : byte_list l → rds (wrs m a l) a (length l) = l.
Proof.
  intros Hl. apply list_eq. intros i. rewrite lookup_rds. case_decide.
  - rewrite rd_wrs, decide_True by lia.
    replace (Z.to_nat (a + Z.of_nat i - a)) with i by lia.
    destruct (lookup_lt_is_Some_2 l i) as [b Hb]; [done|].
    rewrite (list_lookup_total_correct _ _ _ Hb), Hb. f_equal.
    apply u8_small. by apply (proj1 (Forall_lookup _ _) Hl i).
  - by rewrite lookup_ge_None_2 by lia.
Qed.

Lemma rd_st_out n m a v x :
  ¬ (a ≤ x < a + Z.of_nat n) → rd (st n m a v) x = rd m x.
Proof. intros. apply rd_wrs_out. by rewrite length_le_bytes. Qed.

Lemma ld_st_eq n m a v : 0 ≤ v < 256 ^ Z.of_nat n → ld n (st n m a v) a = v.
Proof.
  intros Hv. unfold ld, st.
  pose proof (rds_wrs m a (le_bytes n v) (le_bytes_byte_list n v)) as H.
  rewrite length_le_bytes in H. by rewrite H, le_val_bytes.
Qed.

Lemma ld_st_ne n k m a b v :
  b + Z.of_nat k ≤ a ∨ a + Z.of_nat n ≤ b → ld n (st k m b v) a = ld n m a.
Proof. intros. apply ld_ext. intros. apply rd_st_out. lia. Qed.

Lemma ld_range n m a : 0 ≤ ld n m a < 256 ^ Z.of_nat n.
Proof.
  unfold ld. pose proof (le_val_range _ (rds_byte_list m a n)) as H.
  by rewrite length_rds in H.
Qed.

Lemma ld64_range m a : 0 ≤ ld64 m a < 2 ^ 64.
Proof. apply (ld_range 8). Qed.

Lemma ld_zero n m a : (∀ x, a ≤ x < a + Z.of_nat n → rd m x = 0) → ld n m a = 0.
Proof.
  intros H. rewrite (ld_ext n m (∅ : mem)) by (intros; rewrite H; [done|lia]).
  unfold ld, rds. generalize (seqZ 0 (Z.of_nat n)). intros l.
  induction l as [|x l IH]; cbn; [done|]. change (rd ∅ (a + x)) with 0. lia.
Qed.
