(* ===== verification/KString.v ===== *)
(** * kernel/string.c: memory and string routines

    Every routine works on the byte memory of [Memory], with the loops of the C
    code; a [char] compared or assigned is the byte that is read. [cstr m a l]
    says that the NUL-terminated string at [a] is [l]. *)
From S2P Require Import Prelude Memory.

(** ** The routines *)
Definition memset (dst c n : Z) : M mem Z :=
  each (seqZ 0 n) (λ i, modify (λ m, wr m (dst + i) c)) ;; ret dst.

Fixpoint memcmp_loop (n : nat) (m : mem) (s1 s2 : Z) : Z :=
  match n with
  | O => 0
  | S n' => if rd m s1 =? rd m s2 then memcmp_loop n' m (s1 + 1) (s2 + 1)
            else rd m s1 - rd m s2
  end.
Definition memcmp (v1 v2 n : Z) : M mem Z := gets (λ m, memcmp_loop (Z.to_nat n) m v1 v2).

Fixpoint copy_fwd (n : nat) (d s : Z) (m : mem) : mem :=
  match n with
  | O => m
  | S n' => copy_fwd n' (d + 1) (s + 1) (wr m d (rd m s))
  end.
Fixpoint copy_bwd (n : nat) (d s : Z) (m : mem) : mem :=
  match n with
  | O => m
  | S n' => copy_bwd n' (d - 1) (s - 1) (wr m (d - 1) (rd m (s - 1)))
  end.
Definition memmove (dst src n : Z) : M mem Z :=
  if n =? 0 then ret dst
  else if (src <? dst) && (dst <? src + n)
  then modify (copy_bwd (Z.to_nat n) (dst + n) (src + n)) ;; ret dst
  else modify (copy_fwd (Z.to_nat n) dst src) ;; ret dst.

Definition memcpy (dst src n : Z) : M mem Z := memmove dst src n.

Fixpoint strncmp_loop (n : nat) (m : mem) (p q : Z) : Z :=
  match n with
  | O => 0
  | S n' => if negb (rd m p =? 0) && (rd m p =? rd m q)
            then strncmp_loop n' m (p + 1) (q + 1)
            else rd m p - rd m q
  end.
Definition strncmp (p q n : Z) : M mem Z := gets (λ m, strncmp_loop (Z.to_nat n) m p q).

Fixpoint zero_pad (n : nat) (s : Z) (m : mem) : mem :=
  match n with
  | O => m
  | S n' => zero_pad n' (s + 1) (wr m s 0)
  end.
Fixpoint strncpy_loop (n : nat) (s t : Z) (m : mem) : mem :=
  match n with
  | O => m
  | S n' => let c := rd m t in
            if c =? 0 then zero_pad n' (s + 1) (wr m s c)
            else strncpy_loop n' (s + 1) (t + 1) (wr m s c)
  end.
Definition strncpy (s t n : Z) : M mem Z :=
  modify (strncpy_loop (Z.to_nat n) s t) ;; ret s.

Fixpoint safestrcpy_loop (n : nat) (s t : Z) (m : mem) : mem :=
  match n with
  | O => wr m s 0
  | S n' => let c := rd m t in
            if c =? 0 then wr (wr m s c) (s + 1) 0
            else safestrcpy_loop n' (s + 1) (t + 1) (wr m s c)
  end.
Definition safestrcpy (s t n : Z) : M mem Z :=
  if n <=? 0 then ret s
  else modify (safestrcpy_loop (Z.to_nat (n - 1)) s t) ;; ret s.

(** [strlen] scans for the NUL; [fuel] bounds the scan. *)
Definition strlen (fuel : nat) (s : Z) : M mem Z :=
  loop fuel (λ n, gets (λ m, if rd m (s + n) =? 0 then inr n else inl (n + 1))) 0.

(** ** Strings in memory *)
Definition char_list (l : list Z) : Prop := Forall (λ b, 0 < b < 256) l.
Definition cstr (m : mem) (a : Z) (l : list Z) : Prop :=
  char_list l ∧ rds m a (S (length l)) = l ++ [0].

Lemma char_list_byte_list l : char_list l → byte_list l.
Proof. intros H. eapply Forall_impl; [exact H|]. cbn. lia. Qed.

Lemma rds_cons m a n : rds m a (S n) = rd m a :: rds m (a + 1) n.
Proof.
  apply list_eq. intros [|i]; rewrite lookup_rds; cbn [lookup list_lookup].
  - rewrite decide_True by lia. do 2 f_equal. lia.
  - rewrite lookup_rds. repeat case_decide; try lia; [|done]. do 2 f_equal. lia.
Qed.

Lemma rds_0 m a : rds m a 0 = [].
Proof. done. Qed.

Lemma rds_app m a n k :
  rds m a (n + k) = rds m a n ++ rds m (a + Z.of_nat n) k.
Proof.
  revert a. induction n as [|n IH]; intros a; cbn [Nat.add app].
  - by replace (a + Z.of_nat 0) with a by lia.
  - rewrite !rds_cons, IH. cbn. by replace (a + 1 + Z.of_nat n) with (a + Z.of_nat (S n)) by lia.
Qed.

Lemma cstr_nil m a : cstr m a [] ↔ rd m a = 0.
Proof.
  unfold cstr. cbn [length]. rewrite rds_cons, rds_0. cbn. split.
  - by intros [_ [=]].
  - intros ->. split; [constructor|done].
Qed.

Lemma cstr_cons m a b l : cstr m a (b :: l) ↔ rd m a = b ∧ b ≠ 0 ∧ cstr m (a + 1) l.
Proof.
  unfold cstr. cbn [length]. rewrite (rds_cons _ a). cbn [app]. split.
  - intros [Hc [= Hb Hl]]. inversion Hc; subst. repeat split; [lia|done|done].
  - intros (<- & ? & Hc & ->). pose proof (rd_range m a).
    split; [constructor; [lia|done]|done].
Qed.

(** ** memset *)
Lemma memset_rd dst c n m :
  wp (memset dst c n)
     (λ r m', r = dst ∧ ∀ a, rd m' a = if decide (dst ≤ a < dst + n) then u8 c else rd m a) m.
Proof.
  unfold memset. wp_step.
  eapply wp_mono; [apply (wp_each_ind _ _ (λ pre m', ∀ a, rd m' a =
    if decide (dst ≤ a < dst + Z.of_nat (length pre)) then u8 c else rd m a))|].
  - intros a. cbn. case_decide; [lia|done].
  - intros pre x post m' Hl HI. wp_step. intros a.
    assert (x = Z.of_nat (length pre)) as ->.
    { pose proof (f_equal (λ l, l !! length pre) Hl) as Hx. cbn beta in Hx.
      rewrite list_lookup_middle in Hx by done.
      apply lookup_seqZ in Hx as [-> _]. lia. }
    rewrite rd_wr, HI, length_app. cbn [length].
    repeat case_decide; done || lia.
  - intros [] m' HI. wp_step. split; [done|]. intros a. rewrite HI, length_seqZ.
    repeat case_decide; done || lia.
Qed.

(** ** memmove *)
Lemma copy_fwd_rd n d s m a :
  ¬ (s < d < s + Z.of_nat n) →
  rd (copy_fwd n d s m) a =
    if decide (d ≤ a < d + Z.of_nat n) then rd m (s + (a - d)) else rd m a.
Proof.
  revert d s m. induction n as [|n IH]; intros d s m Hov; cbn [copy_fwd].
  - case_decide; [lia|done].
  - rewrite IH by lia. repeat case_decide; try lia.
    + rewrite rd_wr_ne by lia. f_equal. lia.
    + assert (a = d) as -> by lia. rewrite rd_wr_eq, u8_small by apply rd_range. f_equal. lia.
    + by rewrite rd_wr_ne by lia.
Qed.

Lemma copy_bwd_rd n d s m a :
  ¬ (d < s < d + Z.of_nat n) →
  rd (copy_bwd n d s m) a =
    if decide (d - Z.of_nat n ≤ a < d) then rd m (s + (a - d)) else rd m a.
Proof.
  revert d s m. induction n as [|n IH]; intros d s m Hov; cbn [copy_bwd].
  - case_decide; [lia|done].
  - rewrite IH by lia. repeat case_decide; try lia.
    + rewrite rd_wr_ne by lia. f_equal. lia.
    + assert (a = d - 1) as -> by lia. rewrite rd_wr_eq, u8_small by apply rd_range. f_equal. lia.
    + by rewrite rd_wr_ne by lia.
Qed.

Lemma memmove_rd dst src n m :
  0 ≤ n →
  wp (memmove dst src n)
     (λ r m', r = dst ∧ ∀ a, rd m' a =
        if decide (dst ≤ a < dst + n) then rd m (src + (a - dst)) else rd m a) m.
Proof.
  intros Hn. unfold memmove. destruct (Z.eqb_spec n 0) as [->|].
  - wp_step. split; [done|]. intros a. case_decide; [lia|done].
  - destruct ((src <? dst) && (dst <? src + n)) eqn:Hov; do 3 wp_step; (split; [done|]); intros a.
    + rewrite copy_bwd_rd by lia. repeat case_decide; try lia. f_equal. lia.
    + rewrite copy_fwd_rd by lia. repeat case_decide; done || lia.
Qed.

(** ** Comparisons *)
Lemma memcmp_loop_zero n m s1 s2 :
  memcmp_loop n m s1 s2 = 0 ↔ rds m s1 n = rds m s2 n.
Proof.
  revert s1 s2. induction n as [|n IH]; intros s1 s2; cbn [memcmp_loop]; [done|].
  rewrite !rds_cons. destruct (Z.eqb_spec (rd m s1) (rd m s2)) as [Heq|Hne].
  - rewrite IH, Heq. split; [by intros ->|by intros [=]].
  - split; [lia|by intros [=]].
Qed.

Lemma strncmp_loop_zero n m p q l1 l2 :
  cstr m p l1 → cstr m q l2 →
  strncmp_loop n m p q = 0 ↔ take n l1 = take n l2.
Proof.
  revert p q l1 l2. induction n as [|n IH]; intros p q l1 l2 H1 H2; cbn [strncmp_loop].
  { by rewrite !take_0. }
  destruct l1 as [|b1 l1], l2 as [|b2 l2];
    repeat match goal with
    | H : cstr _ _ [] |- _ => apply cstr_nil in H
    | H : cstr _ _ (_ :: _) |- _ => apply cstr_cons in H as (? & ? & ?)
    end; cbn [take].
  - rewrite H1, H2. cbn. done.
  - rewrite H1. cbn. split; [lia|done].
  - rewrite (proj2 (Z.eqb_neq (rd m p) 0)) by lia. cbn.
    rewrite H2. destruct (Z.eqb_spec (rd m p) 0); [lia|]. split; [lia|done].
  - rewrite (proj2 (Z.eqb_neq (rd m p) 0)) by lia. cbn.
    destruct (Z.eqb_spec (rd m p) (rd m q)).
    + rewrite (IH _ _ l1 l2) by done. replace b2 with b1 by congruence.
      split; [by intros ->|by intros [=]].
    + split; [lia|]. intros [=]. congruence.
Qed.

(** ** Copies of strings *)
Lemma zero_pad_rd n s m a :
  rd (zero_pad n s m) a = if decide (s ≤ a < s + Z.of_nat n) then 0 else rd m a.
Proof.
  revert s m. induction n as [|n IH]; intros s m; cbn [zero_pad].
  - case_decide; [lia|done].
  - rewrite IH, rd_wr. repeat case_decide; done || lia.
Qed.

Lemma zero_pad_rds n s m : rds (zero_pad n s m) s n = replicate n 0.
Proof.
  apply list_eq. intros i. rewrite lookup_rds, zero_pad_rd. case_decide.
  - rewrite decide_True by lia. by rewrite lookup_replicate_2.
  - rewrite lookup_ge_None_2; [done|]. rewrite length_replicate. lia.
Qed.

(** The source string survives the writes when it does not overlap [n] bytes
    of destination. *)
Lemma cstr_ext m m' a l :
  (∀ x, a ≤ x ≤ a + Z.of_nat (length l) → rd m' x = rd m x) → cstr m a l → cstr m' a l.
Proof.
  intros H [Hc Hl]. split; [done|]. rewrite <- Hl. apply rds_ext. intros. apply H. lia.
Qed.

Lemma strncpy_loop_rd n s t m a :
  ¬ (s ≤ a < s + Z.of_nat n) → rd (strncpy_loop n s t m) a = rd m a.
Proof.
  revert s t m. induction n as [|n IH]; intros s t m Ha; cbn [strncpy_loop]; [done|].
  case_match.
  - rewrite zero_pad_rd, rd_wr. repeat case_decide; done || lia.
  - rewrite IH, rd_wr by lia. case_decide; done || lia.
Qed.

Lemma strncpy_loop_rds n s t m l :
  cstr m t l →
  s + Z.of_nat n ≤ t ∨ t + Z.of_nat (length l) < s →
  rds (strncpy_loop n s t m) s n = take n (l ++ replicate n 0).
Proof.
  revert s t m l. induction n as [|n IH]; intros s t m l Hl Hd; cbn [strncpy_loop]; [done|].
  rewrite rds_cons. destruct l as [|b l].
  - apply cstr_nil in Hl. rewrite Hl. cbn.
    rewrite zero_pad_rds, zero_pad_rd, decide_False, rd_wr_eq, take_replicate by lia.
    by rewrite Nat.min_l by lia.
  - pose proof Hl as Hl'. apply cstr_cons in Hl as (Hb & ? & Hl). cbn [length] in Hd.
    rewrite (proj2 (Z.eqb_neq (rd m t) 0)) by lia.
    rewrite strncpy_loop_rd, rd_wr_eq, u8_small, Hb by (lia || apply rd_range).
    rewrite (IH _ _ _ l).
    + cbn [take app]. f_equal. by rewrite !take_app, !take_replicate, !Nat.min_l by lia.
    + eapply cstr_ext; [|exact Hl]. intros x Hx. rewrite rd_wr_ne by lia. done.
    + lia.
Qed.

Lemma safestrcpy_loop_rd n s t m a :
  ¬ (s ≤ a ≤ s + Z.of_nat n) → rd (safestrcpy_loop n s t m) a = rd m a.
Proof.
  revert s t m. induction n as [|n IH]; intros s t m Ha; cbn [safestrcpy_loop].
  - by rewrite rd_wr_ne by lia.
  - case_match.
    + by rewrite !rd_wr_ne by lia.
    + by rewrite IH, rd_wr_ne by lia.
Qed.

Lemma safestrcpy_loop_cstr n s t m l :
  cstr m t l →
  s + Z.of_nat n < t ∨ t + Z.of_nat (length l) < s →
  cstr (safestrcpy_loop n s t m) s (take n l).
Proof.
  revert s t m l. induction n as [|n IH]; intros s t m l Hl Hd; cbn [safestrcpy_loop].
  - rewrite take_0. apply cstr_nil. by rewrite rd_wr_eq.
  - destruct l as [|b l].
    + apply cstr_nil in Hl. rewrite Hl. cbn. apply cstr_nil.
      by rewrite rd_wr_ne, rd_wr_eq by lia.
    + apply cstr_cons in Hl as (Hb & ? & Hl). cbn [length] in Hd.
      rewrite (proj2 (Z.eqb_neq (rd m t) 0)) by lia. cbn [take]. apply cstr_cons.
      split_and!; [|done|].
      * rewrite safestrcpy_loop_rd by lia. rewrite rd_wr_eq, u8_small; [done|apply rd_range].
      * apply IH; [|lia]. eapply cstr_ext; [|exact Hl]. intros x Hx.
        by rewrite rd_wr_ne by lia.
Qed.

(** ** strlen *)
Lemma strlen_loop_run fuel s k m l :
  cstr m (s + k) l → (length l < fuel)%nat →
  loop fuel (λ n, gets (λ m, if rd m (s + n) =? 0 then inr n else inl (n + 1))) k m
  = Ok (k + Z.of_nat (length l)) m.
Proof.
  revert k l. induction fuel as [|fuel IH]; intros k l Hl Hf; [lia|].
  cbn [loop]. unfold bind, gets. destruct l as [|b l].
  - apply cstr_nil in Hl. rewrite Hl. cbn. unfold ret. f_equal. lia.
  - apply cstr_cons in Hl as (Hb & ? & Hl). cbn [length] in *.
    rewrite (proj2 (Z.eqb_neq (rd m (s + k)) 0)) by lia.
    unfold bind, gets in IH. rewrite (IH (k + 1) l); [f_equal; lia| |lia].
    by replace (s + (k + 1)) with (s + k + 1) by lia.
Qed.

(** [strncmp] against a field of [n] bytes filled by [strncpy], which need not
    end in NUL. *)
Lemma strncmp_loop_padded n m p q l1 l2 :
  cstr m p l1 → char_list l2 → rds m q n = take n (l2 ++ replicate n 0) →
  strncmp_loop n m p q = 0 ↔ take n l1 = take n l2.
Proof.
  revert p q l1 l2. induction n as [|n IH]; intros p q l1 l2 H1 H2 Hq; cbn [strncmp_loop].
  { by rewrite !take_0. }
  rewrite rds_cons in Hq.
  destruct l1 as [|b1 l1]; [apply cstr_nil in H1|apply cstr_cons in H1 as (Hb1 & ? & H1)];
    (destruct l2 as [|b2 l2]; [|apply Forall_cons in H2 as [Hb2 H2]]);
    cbn [take app replicate] in Hq |- *; injection Hq as Hq0 Hq.
  - rewrite H1. cbn. rewrite Hq0. done.
  - rewrite H1. cbn. split; [lia|done].
  - rewrite (proj2 (Z.eqb_neq (rd m p) 0)) by lia. cbn. rewrite Hq0.
    destruct (Z.eqb_spec (rd m p) 0); [lia|]. split; [lia|done].
  - rewrite (proj2 (Z.eqb_neq (rd m p) 0)) by lia. cbn.
    destruct (Z.eqb_spec (rd m p) (rd m q)).
    + rewrite (IH _ _ l1 l2); [|done|done|].
      * replace b2 with b1 by congruence. split; [by intros ->|by intros [=]].
      * rewrite Hq. change (0 :: replicate n 0) with (replicate (S n) 0).
        by rewrite !take_app, !take_replicate, !Nat.min_l by lia.
    + split; [lia|]. intros [=]. congruence.
Qed.

(** ** Properties *)

(** Memmove returns its destination and leaves there the bytes the source
    had before the call, for every placement of the two regions, overlapping
    ones included; no byte outside the destination changes. *)
Theorem memmove_copies dst src n m :
  0 ≤ n →
  ∃ m', memmove dst src n m = Ok dst m' ∧
        rds m' dst (Z.to_nat n) = rds m src (Z.to_nat n) ∧
        ∀ a, ¬ (dst ≤ a < dst + n) → rd m' a = rd m a.
Proof.
  intros Hn. destruct (wp_Ok _ _ _ (memmove_rd dst src n m Hn)) as (r & m' & -> & -> & H).
  exists m'. split_and!; [done| |].
  - apply rds_ext. intros i Hi. rewrite H, decide_True by lia. f_equal. lia.
  - intros a Ha. rewrite H. by rewrite decide_False.
Qed.

Lemma memmove_copies_witness :
  ∃ m', memmove 102 100 4 (wrs ∅ 100 [1; 2; 3; 4; 5; 6]) = Ok 102 m' ∧
        rds m' 102 4 = rds (wrs ∅ 100 [1; 2; 3; 4; 5; 6]) 100 4 ∧
        ∀ a, ¬ (102 ≤ a < 102 + 4) → rd m' a = rd (wrs ∅ 100 [1; 2; 3; 4; 5; 6]) a.
Proof. apply (memmove_copies 102 100 4). lia. Defined.

(** Safestrcpy into a buffer of [n > 0] bytes that does not overlap the
    source always leaves a NUL-terminated string, the first n-1 characters of
    the source, and writes nothing outside the buffer. *)
Theorem safestrcpy_terminates s t n m l :
  0 < n → cstr m t l → s + n ≤ t ∨ t + Z.of_nat (length l) < s →
  ∃ m', safestrcpy s t n m = Ok s m' ∧ cstr m' s (take (Z.to_nat (n - 1)) l) ∧
        ∀ a, ¬ (s ≤ a < s + n) → rd m' a = rd m a.
Proof.
  intros Hn Hl Hd. unfold safestrcpy. rewrite (proj2 (Z.leb_gt n 0)) by lia.
  eexists. split_and!; [done|apply safestrcpy_loop_cstr; [done|lia]|].
  intros a Ha. apply safestrcpy_loop_rd. lia.
Qed.

Lemma safestrcpy_terminates_witness :
  ∃ m', safestrcpy 10 100 3 (wrs ∅ 100 [97; 98; 99; 100; 0]) = Ok 10 m' ∧
        cstr m' 10 [97; 98] ∧
        ∀ a, ¬ (10 ≤ a < 10 + 3) → rd m' a = rd (wrs ∅ 100 [97; 98; 99; 100; 0]) a.
Proof.
  apply (safestrcpy_terminates 10 100 3 _ [97; 98; 99; 100]); [lia| |cbn; lia].
  split; [repeat constructor; lia|reflexivity].
Defined.

(** The name field of a directory entry written by strncpy(f, name, n) is
    matched by strncmp(name', f, n) exactly when the two names agree on their
    first [n] characters: dirlink and dirlookup agree on names, also on names of
    [n] or more characters, which the field stores without a NUL. *)
Theorem strncpy_strncmp f t p n m l l' :
  0 ≤ n → cstr m t l → f + n ≤ t ∨ t + Z.of_nat (length l) < f →
  cstr m p l' → f + n ≤ p ∨ p + Z.of_nat (length l') < f →
  ∃ m' r, strncpy f t n m = Ok f m' ∧ strncmp p f n m' = Ok r m' ∧
          (r = 0 ↔ take (Z.to_nat n) l' = take (Z.to_nat n) l).
Proof.
  intros Hn Hl Hd Hl' Hd'. eexists _, _. split_and!; [done|done|].
  apply strncmp_loop_padded.
  - eapply cstr_ext; [|exact Hl']. intros x Hx. apply strncpy_loop_rd. lia.
  - apply Hl.
  - apply strncpy_loop_rds; [done|lia].
Qed.

Lemma strncpy_strncmp_witness :
  ∃ m' r, strncpy 10 100 2 (wrs ∅ 100 [97; 98; 99; 0]) = Ok 10 m' ∧
          strncmp 100 10 2 m' = Ok r m' ∧ (r = 0 ↔ [97; 98] = [97; 98]).
Proof.
  apply (strncpy_strncmp 10 100 100 2 _ [97; 98; 99] [97; 98; 99]);
    [lia|split; [repeat constructor; lia|reflexivity]|cbn; lia
        |split; [repeat constructor; lia|reflexivity]|cbn; lia].
Defined.
