(* ===== verification/Riscv.v ===== *)
(** * kernel/param.h, memlayout.h, riscv.h: constants and address arithmetic

    The sizes of the kernel's tables, the memory layout, and the macros of
    riscv.h that round addresses, take Sv39 virtual addresses apart and pack
    page-table entries, written with the bit operations of the C macros. The
    lemmas give each of them its arithmetic meaning. *)
From S2P Require Import Prelude Memory.

(** ** param.h *)
Definition NPROC : Z := 64.
Definition NCPU : Z := 1.
Definition NOFILE : Z := 16.
Definition NFILE : Z := 100.
Definition NINODE : Z := 50.
Definition NDEV : Z := 10.
Definition ROOTDEV : Z := 1.
Definition MAXARG : Z := 32.
Definition MAXOPBLOCKS : Z := 10.
Definition LOGBLOCKS : Z := MAXOPBLOCKS * 3.
Definition NBUF : Z := MAXOPBLOCKS * 3.
Definition FSSIZE : Z := 2000.
Definition MAXPATH : Z := 128.
Definition USERSTACK : Z := 1.

(** ** riscv.h: pages and page-table entries *)
Definition PGSIZE : Z := 4096.
Definition PGSHIFT : Z := 12.
Definition PGROUNDUP (sz : Z) : Z := Z.land (u64 (sz + PGSIZE - 1)) (Z.lnot (PGSIZE - 1)).
Definition PGROUNDDOWN (a : Z) : Z := Z.land a (Z.lnot (PGSIZE - 1)).

Definition PTE_V : Z := Z.shiftl 1 0.
Definition PTE_R : Z := Z.shiftl 1 1.
Definition PTE_W : Z := Z.shiftl 1 2.
Definition PTE_X : Z := Z.shiftl 1 3.
Definition PTE_U : Z := Z.shiftl 1 4.

Definition PA2PTE (pa : Z) : Z := u64 (Z.shiftl (Z.shiftr pa 12) 10).
Definition PTE2PA (pte : Z) : Z := u64 (Z.shiftl (Z.shiftr pte 10) 12).
Definition PTE_FLAGS (pte : Z) : Z := Z.land pte 0x3FF.

Definition PXMASK : Z := 0x1FF.
Definition PXSHIFT (level : Z) : Z := PGSHIFT + 9 * level.
Definition PX (level va : Z) : Z := Z.land (Z.shiftr va (PXSHIFT level)) PXMASK.
Definition MAXVA : Z := Z.shiftl 1 (9 + 9 + 9 + 12 - 1).

Definition SATP_SV39 : Z := Z.shiftl 8 60.
Definition MAKE_SATP (pagetable : Z) : Z := Z.lor SATP_SV39 (Z.shiftr pagetable 12).

(** ** riscv.h: the interrupt-enable bit of sstatus *)
Definition SSTATUS_SPP : Z := Z.shiftl 1 8.
Definition SSTATUS_SPIE : Z := Z.shiftl 1 5.
Definition SSTATUS_SIE : Z := Z.shiftl 1 1.

(** ** memlayout.h *)
Definition UART0 : Z := 0x10000000.
Definition UART0_IRQ : Z := 10.
Definition VIRTIO0 : Z := 0x10001000.
Definition VIRTIO0_IRQ : Z := 1.
Definition PLIC : Z := 0x0c000000.
Definition PLIC_SENABLE (hart : Z) : Z := PLIC + 0x2080 + hart * 0x100.
Definition PLIC_SPRIORITY (hart : Z) : Z := PLIC + 0x201000 + hart * 0x2000.
Definition PLIC_SCLAIM (hart : Z) : Z := PLIC + 0x201004 + hart * 0x2000.
Definition KERNBASE : Z := 0x80000000.
Definition PHYSTOP : Z := KERNBASE + 128 * 1024 * 1024.
Definition TRAMPOLINE : Z := MAXVA - PGSIZE.
Definition KSTACK (p : Z) : Z := TRAMPOLINE - (p + 1) * 2 * PGSIZE.
Definition TRAPFRAME : Z := TRAMPOLINE - PGSIZE.

(** ** Bit tests

    The C test [x & f] against zero for a one-bit flag. *)
Definition has (x f : Z) : bool := negb (Z.land x f =? 0).

Lemma land_lnot_ones a n : 0 ≤ n → Z.land a (Z.lnot (Z.ones n)) = a - a `mod` 2 ^ n.
Proof.
  intros Hn. rewrite <- Z.ldiff_land, Z.ldiff_ones_r by done.
  rewrite Z.shiftr_div_pow2, Z.shiftl_mul_pow2 by done.
  pose proof (Z.div_mod a (2 ^ n) (Z.pow_nonzero 2 n ltac:(lia) Hn)). lia.
Qed.

Lemma PGROUNDDOWN_eq a : PGROUNDDOWN a = a - a `mod` PGSIZE.
Proof. apply (land_lnot_ones a 12). lia. Qed.

Lemma PGROUNDUP_eq a :
  0 ≤ a → a + PGSIZE ≤ 2 ^ 64 →
  PGROUNDUP a = a + PGSIZE - 1 - (a + PGSIZE - 1) `mod` PGSIZE.
Proof.
  intros. unfold PGROUNDUP. rewrite u64_small by (unfold PGSIZE in *; lia).
  apply (land_lnot_ones _ 12). lia.
Qed.

Lemma PGROUNDUP_bounds a :
  0 ≤ a → a + PGSIZE ≤ 2 ^ 64 →
  a ≤ PGROUNDUP a < a + PGSIZE ∧ PGROUNDUP a `mod` PGSIZE = 0.
Proof. intros. rewrite PGROUNDUP_eq by done. unfold PGSIZE in *. split; dlia. Qed.

Lemma PGROUNDUP_aligned a :
  0 ≤ a → a + PGSIZE ≤ 2 ^ 64 → a `mod` PGSIZE = 0 → PGROUNDUP a = a.
Proof. intros. rewrite PGROUNDUP_eq by done. unfold PGSIZE in *. dlia. Qed.

Lemma PX_eq level va : 0 ≤ level → PX level va = (va `div` 2 ^ (PXSHIFT level)) `mod` 512.
Proof.
  intros. unfold PX. change PXMASK with (Z.ones 9).
  by rewrite Z.land_ones, Z.shiftr_div_pow2 by (unfold PXSHIFT, PGSHIFT; lia).
Qed.

Lemma PX_range level va : 0 ≤ level → 0 ≤ PX level va < 512.
Proof. intros. rewrite PX_eq by done. dlia. Qed.

(** Below [MAXVA] the three indices and the page offset determine the address. *)
Lemma va_decompose va :
  0 ≤ va < MAXVA →
  va = PX 2 va * 2 ^ 30 + PX 1 va * 2 ^ 21 + PX 0 va * 2 ^ 12 + va `mod` PGSIZE.
Proof.
  intros Hva. change MAXVA with (2 ^ 38) in Hva. rewrite !PX_eq by lia.
  change (PXSHIFT 2) with 30. change (PXSHIFT 1) with 21. change (PXSHIFT 0) with 12.
  unfold PGSIZE. dlia.
Qed.

Lemma PX_inj va va' :
  0 ≤ va < MAXVA → 0 ≤ va' < MAXVA → va `mod` PGSIZE = va' `mod` PGSIZE →
  (∀ level, 0 ≤ level ≤ 2 → PX level va = PX level va') → va = va'.
Proof.
  intros Hva Hva' Hoff H.
  pose proof (va_decompose va Hva) as E. pose proof (va_decompose va' Hva') as E'.
  rewrite Hoff, (H 0), (H 1), (H 2), <- E' in E by lia. done.
Qed.

(** Packing a page-aligned physical address with flags loses neither. *)
Lemma lor_add_low a b n : 0 ≤ n → 0 ≤ b < 2 ^ n → a `mod` 2 ^ n = 0 → Z.lor a b = a + b.
Proof.
  intros Hn Hb Ha. rewrite <- Z.add_lor_land.
  cut (Z.land a b = 0); [lia|].
  apply Z.bits_inj'. intros i Hi. rewrite Z.land_spec, Z.bits_0.
  destruct (decide (i < n)).
  - apply andb_false_intro1. rewrite <- (Z.mod_pow2_bits_low a n i) by lia. by rewrite Ha, Z.bits_0.
  - apply andb_false_intro2. rewrite <- (Z.mod_small b (2 ^ n)) by done.
    apply Z.mod_pow2_bits_high. lia.
Qed.

Lemma PA2PTE_eq pa : 0 ≤ pa < 2 ^ 56 → PA2PTE pa = pa `div` PGSIZE * 1024.
Proof.
  intros. unfold PA2PTE, PGSIZE. rewrite Z.shiftr_div_pow2, Z.shiftl_mul_pow2 by lia.
  apply u64_small. change (2 ^ 12) with 4096. change (2 ^ 10) with 1024. dlia.
Qed.

Lemma PTE2PA_eq pte : 0 ≤ pte < 2 ^ 54 → PTE2PA pte = pte `div` 1024 * PGSIZE.
Proof.
  intros. unfold PTE2PA, PGSIZE. rewrite Z.shiftr_div_pow2, Z.shiftl_mul_pow2 by lia.
  apply u64_small. change (2 ^ 12) with 4096. change (2 ^ 10) with 1024. dlia.
Qed.

Lemma pack_eq pa f :
  0 ≤ pa < 2 ^ 56 → 0 ≤ f < 1024 → Z.lor (PA2PTE pa) f = pa `div` PGSIZE * 1024 + f.
Proof.
  intros. rewrite PA2PTE_eq by done. apply (lor_add_low _ _ 10); [lia|done|].
  change (2 ^ 10) with 1024. dlia.
Qed.

Lemma pack_range pa f :
  0 ≤ pa < 2 ^ 56 → 0 ≤ f < 1024 → 0 ≤ Z.lor (PA2PTE pa) f < 2 ^ 54.
Proof. intros. rewrite pack_eq by done. unfold PGSIZE. dlia. Qed.

Lemma PTE2PA_pack pa f :
  0 ≤ pa < 2 ^ 56 → pa `mod` PGSIZE = 0 → 0 ≤ f < 1024 →
  PTE2PA (Z.lor (PA2PTE pa) f) = pa.
Proof.
  intros. rewrite PTE2PA_eq by (by apply pack_range). rewrite pack_eq by done.
  unfold PGSIZE in *. dlia.
Qed.

Lemma PTE_FLAGS_pack pa f :
  0 ≤ pa < 2 ^ 56 → 0 ≤ f < 1024 → PTE_FLAGS (Z.lor (PA2PTE pa) f) = f.
Proof.
  intros. unfold PTE_FLAGS. change 0x3FF with (Z.ones 10).
  rewrite Z.land_ones, pack_eq by lia. change (2 ^ 10) with 1024. unfold PGSIZE. dlia.
Qed.

Lemma land_ones_low x f n :
  0 ≤ n → 0 ≤ f < 2 ^ n → Z.land (Z.land x (Z.ones n)) f = Z.land x f.
Proof.
  intros Hn Hf. rewrite <- Z.land_assoc. f_equal.
  rewrite Z.land_comm, Z.land_ones by done. by apply Z.mod_small.
Qed.

(** A flag test on a packed entry reads the flags that were packed. *)
Lemma has_pack pa f g :
  0 ≤ pa < 2 ^ 56 → 0 ≤ f < 1024 → 0 ≤ g < 1024 →
  has (Z.lor (PA2PTE pa) f) g = has f g.
Proof.
  intros. unfold has. do 2 f_equal.
  rewrite <- (land_ones_low (Z.lor _ _) g 10) by lia.
  change (Z.ones 10) with 0x3FF. fold (PTE_FLAGS (Z.lor (PA2PTE pa) f)).
  by rewrite PTE_FLAGS_pack.
Qed.

Lemma has_0 f : has 0 f = false.
Proof. unfold has. by rewrite Z.land_0_l. Qed.

Lemma page_mod_0 a b : a `mod` PGSIZE = 0 → b `mod` PGSIZE = 0 → a < b → a + PGSIZE ≤ b.
Proof. unfold PGSIZE. dlia. Qed.
