(* ===== verification/Spinlock.v ===== *)
(** * kernel/spinlock.c, riscv.h interrupt control, proc.c cpuid/mycpu/myproc

    The state of the executing hart ([hart]: sstatus, tp and the per-CPU array
    [cpus]) and the spinlock operations on it. The functions are the code run by
    one hart; a lock found held by another CPU makes [acquire] spin, which is
    the outcome [Spun]. Module [Smp] is the interleaving of several CPUs that
    compete for one lock, one atomic access per step. *)
From S2P Require Import Prelude Memory Riscv.

(** ** State *)
Record cpu : Type := Cpu { cpu_proc : option nat; noff : Z; intena : bool }.
Record hart : Type := Hart { sstatus : Z; tp : Z; cpus : list cpu }.
Record spinlock : Type := Spin { locked : Z; lk_name : string; lk_cpu : option Z }.

(** A lock operation sees the hart and the lock. *)
Definition lockst : Type := (hart * spinlock)%type.
Definition hart_l : lens lockst hart := Lens fst (λ h s, (h, s.2)).

(** ** riscv.h *)
Definition intr_on : M hart unit :=
  modify (λ h, Hart (Z.lor (sstatus h) SSTATUS_SIE) (tp h) (cpus h)).
Definition intr_off : M hart unit :=
  modify (λ h, Hart (Z.land (sstatus h) (Z.lnot SSTATUS_SIE)) (tp h) (cpus h)).
Definition intr_get (h : hart) : bool := has (sstatus h) SSTATUS_SIE.

(** ** proc.c *)
Definition cpuid : M hart Z := gets tp.
Definition mycpu : M hart cpu :=
  do id <- cpuid; do h <- get; of_option (cpus h !! Z.to_nat id).
Definition set_mycpu (f : cpu → cpu) : M hart unit :=
  modify (λ h, Hart (sstatus h) (tp h) (alter f (Z.to_nat (tp h)) (cpus h))).

(** ** spinlock.c *)
Definition push_off : M hart unit :=
  do old <- gets intr_get;
  intr_off ;;
  do c <- mycpu;
  when (noff c =? 0) (set_mycpu (λ c, Cpu (cpu_proc c) (noff c) old)) ;;
  set_mycpu (λ c, Cpu (cpu_proc c) (noff c + 1) (intena c)).

Definition pop_off : M hart unit :=
  do c <- mycpu;
  do on <- gets intr_get;
  if on then panic "pop_off - interruptible"
  else if noff c <? 1 then panic "pop_off"
  else
    set_mycpu (λ c, Cpu (cpu_proc c) (noff c - 1) (intena c)) ;;
    do c <- mycpu;
    when ((noff c =? 0) && intena c) intr_on.

Definition myproc : M hart (option nat) :=
  push_off ;;
  do c <- mycpu;
  pop_off ;;
  ret (cpu_proc c).

Definition initlock (name : string) : M lockst unit :=
  modify (λ s, (s.1, Spin 0 name None)).

Definition holding : M lockst bool :=
  do id <- zoom hart_l cpuid;
  gets (λ s, negb (locked s.2 =? 0) && bool_decide (lk_cpu s.2 = Some id)).

(** One [__sync_lock_test_and_set(&lk->locked, 1)]: the old value. *)
Definition test_and_set : M lockst Z :=
  do s <- get;
  modify (λ s, (s.1, Spin 1 (lk_name s.2) (lk_cpu s.2))) ;;
  ret (locked s.2).

Definition acquire : M lockst unit :=
  zoom hart_l push_off ;;
  do h <- holding;
  if h then panic "acquire"
  else
    do old <- test_and_set;
    if negb (old =? 0) then halt Spun
    else
      do id <- zoom hart_l cpuid;
      modify (λ s, (s.1, Spin (locked s.2) (lk_name s.2) (Some id))).

Definition release : M lockst unit :=
  do h <- holding;
  if negb h then panic "release"
  else
    modify (λ s, (s.1, Spin (locked s.2) (lk_name s.2) None)) ;;
    modify (λ s, (s.1, Spin 0 (lk_name s.2) (lk_cpu s.2))) ;;
    zoom hart_l pop_off.

(** ** Closed forms

    [push h] is what push_off leaves; [sync h] is what a balanced
    push_off ... pop_off leaves: the hart it found, except that [intena]
    records the interrupt state when the nesting depth was 0. *)
Definition cur (h : hart) : cpu := default (Cpu None 0 false) (cpus h !! Z.to_nat (tp h)).
Definition with_cur (c : cpu) (h : hart) : hart :=
  Hart (sstatus h) (tp h) (<[Z.to_nat (tp h) := c]> (cpus h)).
Definition push (h : hart) : hart :=
  Hart (Z.land (sstatus h) (Z.lnot SSTATUS_SIE)) (tp h)
       (<[Z.to_nat (tp h) := Cpu (cpu_proc (cur h)) (noff (cur h) + 1)
            (if noff (cur h) =? 0 then intr_get h else intena (cur h))]> (cpus h)).
Definition sync (h : hart) : hart :=
  with_cur (Cpu (cpu_proc (cur h)) (noff (cur h))
              (if noff (cur h) =? 0 then intr_get h else intena (cur h))) h.

(** The hart is sane: its CPU slot exists, the depth is not negative, and
    interrupts are off while a push_off is pending. *)
Record hart_ok (h : hart) : Prop := {
  ok_slot : (Z.to_nat (tp h) < length (cpus h))%nat;
  ok_noff : 0 ≤ noff (cur h);
  ok_intr : 0 < noff (cur h) → intr_get h = false
}.

Definition lock_free (lk : spinlock) : Prop := locked lk = 0 ∧ lk_cpu lk = None.
Definition held (lk : spinlock) (id : Z) : spinlock := Spin 1 (lk_name lk) (Some id).

Section hart_lemmas.
Implicit Types h : hart.

Lemma lookup_cur h : hart_ok h → cpus h !! Z.to_nat (tp h) = Some (cur h).
Proof.
  intros [Hs _ _]. unfold cur. destruct (lookup_lt_is_Some_2 _ _ Hs) as [c Hc].
  by rewrite Hc.
Qed.

Lemma cur_with_cur c h : hart_ok h → cur (with_cur c h) = c.
Proof. intros [Hs _ _]. unfold cur, with_cur. cbn. by rewrite list_lookup_insert_eq. Qed.

Lemma with_cur_cur h : hart_ok h → with_cur (cur h) h = h.
Proof.
  intros H. unfold with_cur. rewrite list_insert_id by (by apply lookup_cur).
  by destruct h.
Qed.

Lemma SIE_off x : has (Z.land x (Z.lnot SSTATUS_SIE)) SSTATUS_SIE = false.
Proof.
  unfold has. rewrite <- Z.land_assoc, (Z.land_comm (Z.lnot _)), Z.land_lnot_diag.
  by rewrite Z.land_0_r.
Qed.

Lemma SIE_test x : has x SSTATUS_SIE = Z.testbit x 1.
Proof.
  unfold has. change SSTATUS_SIE with (2 ^ 1).
  destruct (Z.testbit x 1) eqn:E.
  - apply negb_true_iff, Z.eqb_neq. intros H.
    apply (f_equal (λ z, Z.testbit z 1)) in H.
    rewrite Z.land_spec, Z.pow2_bits_true, E in H by lia. done.
  - apply negb_false_iff, Z.eqb_eq, Z.bits_inj'. intros i Hi.
    rewrite Z.land_spec, Z.bits_0, Z.pow2_bits_eqb by lia.
    destruct (Z.eqb_spec 1 i); [subst; by rewrite E|by rewrite andb_false_r].
Qed.

Lemma SIE_restore x :
  has x SSTATUS_SIE = true → Z.lor (Z.land x (Z.lnot SSTATUS_SIE)) SSTATUS_SIE = x.
Proof.
  rewrite SIE_test. intros E. change SSTATUS_SIE with (2 ^ 1). apply Z.bits_inj'. intros i Hi.
  rewrite Z.lor_spec, Z.land_spec, Z.lnot_spec, Z.pow2_bits_eqb by lia.
  destruct (Z.eqb_spec 1 i); [subst; by rewrite E, orb_true_r|].
  by rewrite orb_false_r, andb_true_r.
Qed.

Lemma SIE_clear x : has x SSTATUS_SIE = false → Z.land x (Z.lnot SSTATUS_SIE) = x.
Proof.
  rewrite SIE_test. intros E. change SSTATUS_SIE with (2 ^ 1). apply Z.bits_inj'. intros i Hi.
  rewrite Z.land_spec, Z.lnot_spec, Z.pow2_bits_eqb by lia.
  destruct (Z.eqb_spec 1 i); [subst; by rewrite E|by rewrite andb_true_r].
Qed.

Lemma cur_push h :
  hart_ok h →
  cur (push h) = Cpu (cpu_proc (cur h)) (noff (cur h) + 1)
                   (if noff (cur h) =? 0 then intr_get h else intena (cur h)).
Proof. intros [Hs _ _]. unfold cur, push. cbn. by rewrite list_lookup_insert_eq. Qed.

Lemma push_ok h : hart_ok h → hart_ok (push h).
Proof.
  intros H. split.
  - cbn. rewrite length_insert. apply H.
  - rewrite cur_push by done. cbn. pose proof (ok_noff _ H). lia.
  - intros _. apply SIE_off.
Qed.

Lemma intr_push h : intr_get (push h) = false.
Proof. apply SIE_off. Qed.

Lemma cur_sync h :
  hart_ok h →
  cur (sync h) = Cpu (cpu_proc (cur h)) (noff (cur h))
                   (if noff (cur h) =? 0 then intr_get h else intena (cur h)).
Proof. apply cur_with_cur. Qed.

Lemma sync_ok h : hart_ok h → hart_ok (sync h).
Proof.
  intros H. split.
  - cbn. rewrite length_insert. apply H.
  - rewrite cur_sync by done. apply H.
  - rewrite cur_sync by done. apply H.
Qed.

Lemma sync_sync h : hart_ok h → sync (sync h) = sync h.
Proof.
  intros H. unfold sync at 1. rewrite cur_sync by done. cbn.
  unfold sync, with_cur. cbn. rewrite list_insert_insert_eq.
  do 3 f_equal. case_match; [|done]. done.
Qed.

Lemma sync_push h : hart_ok h → sync (push h) = push h.
Proof.
  intros H. pose proof (ok_noff _ H). unfold sync. rewrite cur_push by done. cbn.
  rewrite (proj2 (Z.eqb_neq (noff (cur h) + 1) 0)) by lia.
  unfold with_cur, push. cbn. by rewrite list_insert_insert_eq.
Qed.
End hart_lemmas.

#[export] Hint Resolve push_ok sync_ok : hart.

(** What balanced locking leaves of the hart it found. *)
Definition hart_same (h h' : hart) : Prop := h' = h ∨ h' = sync h.

Lemma hart_same_ok h h' : hart_ok h → hart_same h h' → hart_ok h'.
Proof. intros H [->| ->]; auto with hart. Qed.

Lemma hart_same_refl h : hart_same h h.
Proof. by left. Qed.

Lemma hart_same_sync h : hart_same h (sync h).
Proof. by right. Qed.

Lemma hart_same_trans h h' h'' :
  hart_ok h → hart_same h h' → hart_same h' h'' → hart_same h h''.
Proof.
  unfold hart_same. intros H [->| ->] [->| ->]; rewrite ?sync_sync by done; auto.
Qed.

Lemma hart_same_proc h h' :
  hart_ok h → hart_same h h' → cpu_proc (cur h') = cpu_proc (cur h) ∧ noff (cur h') = noff (cur h).
Proof. intros H [->| ->]; [done|]. by rewrite cur_sync. Qed.
#[export] Hint Resolve hart_same_refl hart_same_sync : hart.

(** ** Behaviour of the operations *)
Section ops.
Implicit Types (h : hart) (lk : spinlock).

Lemma mycpu_run h : hart_ok h → mycpu h = Ok (cur h) h.
Proof. intros H. unfold mycpu, cpuid, bind, gets, get. cbn. by rewrite lookup_cur. Qed.

Lemma set_mycpu_run f h : hart_ok h → set_mycpu f h = Ok tt (with_cur (f (cur h)) h).
Proof.
  intros H. unfold set_mycpu, modify, with_cur. do 2 f_equal.
  apply list_alter_at. by apply lookup_cur.
Qed.

Lemma push_off_run h : hart_ok h → push_off h = Ok tt (push h).
Proof.
  intros H. unfold push_off, intr_off.
  set (h0 := Hart (Z.land (sstatus h) (Z.lnot SSTATUS_SIE)) (tp h) (cpus h)).
  assert (hart_ok h0) as H0 by (split; [apply H|apply H|intros; apply SIE_off]).
  change (bind _ _ h) with ((do c <- mycpu;
    when (noff c =? 0) (set_mycpu (λ c, Cpu (cpu_proc c) (noff c) (intr_get h))) ;;
    set_mycpu (λ c, Cpu (cpu_proc c) (noff c + 1) (intena c))) h0).
  rewrite (bind_Ok _ _ _ _ _ (mycpu_run h0 H0)). change (cur h0) with (cur h).
  unfold when, push, bind. destruct (noff (cur h) =? 0) eqn:E.
  - rewrite set_mycpu_run by done.
    assert (hart_ok (with_cur (Cpu (cpu_proc (cur h)) (noff (cur h)) (intr_get h)) h0)).
    { split; [cbn; rewrite length_insert; apply H| |].
      - rewrite cur_with_cur by done. apply H.
      - intros; apply SIE_off. }
    rewrite set_mycpu_run by done. rewrite cur_with_cur by done. cbn.
    unfold with_cur. cbn. by rewrite list_insert_insert_eq.
  - cbn. by rewrite set_mycpu_run.
Qed.

(** pop_off undoes push_off, whatever the nesting depth. *)
Lemma pop_off_run h : hart_ok h → pop_off (push h) = Ok tt (sync h).
Proof.
  intros H. unfold pop_off. pose proof (ok_noff _ H).
  rewrite (bind_Ok _ _ _ _ _ (mycpu_run _ (push_ok _ H))).
  rewrite (bind_Ok _ _ _ (intr_get (push h)) (push h)) by done.
  rewrite intr_push, cur_push by done. cbn.
  rewrite (proj2 (Z.ltb_ge (noff (cur h) + 1) 1)) by lia.
  assert (∀ b, hart_ok (with_cur (Cpu (cpu_proc (cur h)) (noff (cur h)) b) (push h))) as Hok.
  { intros b. split; [cbn; rewrite !length_insert; apply H| |intros; apply SIE_off].
    rewrite cur_with_cur by auto with hart. done. }
  rewrite (bind_Ok _ _ _ _ _ (set_mycpu_run _ _ (push_ok _ H))).
  rewrite cur_push by done. cbn. replace (noff (cur h) + 1 - 1) with (noff (cur h)) by lia.
  rewrite (bind_Ok _ _ _ _ _ (mycpu_run _ (Hok _))).
  rewrite cur_with_cur by auto with hart. cbn.
  unfold when, sync, with_cur, push. cbn. rewrite list_insert_insert_eq.
  destruct (noff (cur h) =? 0) eqn:E; cbn.
  - destruct (intr_get h) eqn:Ei; cbn; unfold intr_on, modify, ret; cbn.
    + by rewrite SIE_restore.
    + by rewrite SIE_clear.
  - unfold ret. by rewrite SIE_clear by (apply (ok_intr _ H); lia).
Qed.

Lemma myproc_run h : hart_ok h → myproc h = Ok (cpu_proc (cur h)) (sync h).
Proof.
  intros H. unfold myproc. rewrite (bind_Ok _ _ _ _ _ (push_off_run h H)).
  rewrite (bind_Ok _ _ _ _ _ (mycpu_run _ (push_ok _ H))).
  rewrite (bind_Ok _ _ _ _ _ (pop_off_run h H)), cur_push by done. done.
Qed.

Lemma acquire_run h lk :
  hart_ok h → lock_free lk → acquire (h, lk) = Ok tt (push h, held lk (tp h)).
Proof.
  intros H [Hl Hc]. unfold acquire, zoom, bind, holding, zoom, bind. cbn.
  rewrite push_off_run by done. cbn. rewrite Hl. cbn.
  unfold test_and_set, bind, get, modify, ret. cbn. by rewrite Hl.
Qed.

Lemma release_run h lk :
  hart_ok h → lock_free lk → release (push h, held lk (tp h)) = Ok tt (sync h, lk).
Proof.
  intros H [Hl Hc]. unfold release, zoom, bind, holding, zoom, bind. cbn.
  rewrite bool_decide_true by done. cbn. rewrite pop_off_run by done.
  destruct lk; cbn in *; by subst.
Qed.

(** Locking a lock this CPU already holds panics. *)
Lemma acquire_twice h lk :
  hart_ok h → locked lk ≠ 0 → lk_cpu lk = Some (tp h) →
  faults acquire (h, lk) (Panicked "acquire").
Proof.
  intros H Hl Hc. unfold faults, acquire, zoom, bind, holding, zoom, bind. cbn.
  rewrite push_off_run by done. cbn. rewrite (proj2 (Z.eqb_neq _ _) Hl), Hc.
  rewrite bool_decide_true by done. done.
Qed.

(** Releasing a lock this CPU does not hold panics. *)
Lemma release_not_held h lk :
  locked lk = 0 ∨ lk_cpu lk ≠ Some (tp h) → faults release (h, lk) (Panicked "release").
Proof.
  intros Hd. unfold faults, release, bind, holding, zoom, bind. cbn.
  destruct Hd as [->|Hc]; [done|]. rewrite bool_decide_false by done.
  by rewrite andb_false_r.
Qed.
End ops.

(** ** A critical section through a lens *)
Lemma zoom_acquire {S} (L : lens S lockst) (s : S) h lk :
  view L s = (h, lk) → hart_ok h → lock_free lk → zoom L acquire s = Ok tt (over L (push h, held lk (tp h)) s).
Proof. intros E Hh Hl. unfold zoom. rewrite E. by rewrite acquire_run. Qed.

Lemma zoom_release {S} (L : lens S lockst) (s : S) h lk :
  view L s = (push h, held lk (tp h)) → hart_ok h → lock_free lk → zoom L release s = Ok tt (over L (sync h, lk) s).
Proof. intros E Hh Hl. unfold zoom. rewrite E. by rewrite release_run. Qed.

#[export] Hint Rewrite sync_sync sync_push using (auto with hart) : hart.

(** ** Several CPUs

    Each CPU that runs acquire ... release is at one of these points; a step is
    one atomic access of the code to the shared lock. *)
Module Smp.
Inductive pc : Type :=
| Outside            (* not in acquire or release *)
| Spinning           (* holding() was false: in the test-and-set loop *)
| Got                (* test-and-set returned 0 *)
| Inside             (* lk->cpu = mycpu() done: the critical section *)
| Leaving.           (* release() has cleared lk->cpu *)

#[export] Instance pc_eq_dec : EqDecision pc.
Proof. solve_decision. Defined.

Record state : Type := State { lk : spinlock; pcs : gmap Z pc }.

Definition at_pc (s : state) (i : Z) : pc := default Outside (pcs s !! i).
Definition goto (i : Z) (p : pc) (l : spinlock) (s : state) : state :=
  State l (<[i := p]> (pcs s)).

(** [holding(lk)] evaluated by CPU [i]. *)
Definition holding_by (l : spinlock) (i : Z) : bool :=
  negb (locked l =? 0) && bool_decide (lk_cpu l = Some i).

Inductive step : state → state → Prop :=
| step_enter s i :
    at_pc s i = Outside → holding_by (lk s) i = false →
    step s (goto i Spinning (lk s) s)
| step_tas_busy s i :
    at_pc s i = Spinning → locked (lk s) ≠ 0 →
    step s (goto i Spinning (Spin 1 (lk_name (lk s)) (lk_cpu (lk s))) s)
| step_tas_free s i :
    at_pc s i = Spinning → locked (lk s) = 0 →
    step s (goto i Got (Spin 1 (lk_name (lk s)) (lk_cpu (lk s))) s)
| step_record s i :
    at_pc s i = Got →
    step s (goto i Inside (Spin (locked (lk s)) (lk_name (lk s)) (Some i)) s)
| step_clear s i :
    at_pc s i = Inside → holding_by (lk s) i = true →
    step s (goto i Leaving (Spin (locked (lk s)) (lk_name (lk s)) None) s)
| step_unlock s i :
    at_pc s i = Leaving →
    step s (goto i Outside (Spin 0 (lk_name (lk s)) (lk_cpu (lk s))) s).

Definition init (name : string) : state := State (Spin 0 name None) ∅.

(** The CPU between its successful test-and-set and its unlocking store. *)
Definition owns (p : pc) : Prop := p = Got ∨ p = Inside ∨ p = Leaving.

Record inv (s : state) : Prop := {
  inv_free : locked (lk s) = 0 → ∀ i, ¬ owns (at_pc s i);
  inv_unique : ∀ i j, owns (at_pc s i) → owns (at_pc s j) → i = j;
  inv_cpu : ∀ i, lk_cpu (lk s) = Some i ↔ at_pc s i = Inside
}.

Lemma smp_at_goto s i p l j :
  at_pc (goto i p l s) j = if decide (i = j) then p else at_pc s j.
Proof. unfold at_pc, goto. cbn. rewrite lookup_insert. by case_decide. Qed.

Lemma smp_inv_init name : inv (init name).
Proof.
  split; unfold at_pc, owns; cbn; intros; rewrite ?lookup_empty in *; cbn in *;
    naive_solver.
Qed.

Lemma smp_inv_step s s' : step s s' → inv s → inv s'.
Proof.
  intros Hstep [Hf Hu Hc].
  destruct Hstep as [s i Hp Hh|s i Hp Hl|s i Hp Hl|s i Hp|s i Hp Hh|s i Hp]; split;
    cbn -[at_pc goto]; unfold owns in *;
    first [intros Hl0 j|intros j k|intros j]; rewrite !smp_at_goto; repeat case_decide; subst;
    try rewrite Hp in *; unfold goto; cbn;
    first [naive_solver|rewrite Hc, Hp; naive_solver].
Qed.
End Smp.

(** ** Properties *)

Fixpoint times {S} (n : nat) (c : M S unit) : M S unit :=
  match n with O => ret tt | S n' => c ;; times n' c end.

Lemma times_snoc {S} n (c : M S unit) s :
  times (Datatypes.S n) c s = (times n c ;; c) s.
Proof.
  revert s. induction n as [|n IH]; intros s.
  - cbn. unfold bind, ret. by destruct (c s) as [[]|].
  - change (times (Datatypes.S (Datatypes.S n)) c) with (c ;; times (Datatypes.S n) c).
    unfold bind at 1. cbn [times]. unfold bind at 2 3. destruct (c s); [|done]. apply IH.
Qed.

Lemma nest_run n h :
  hart_ok h → times n push_off h = Ok tt (Nat.iter n push h) ∧ hart_ok (Nat.iter n push h).
Proof.
  intros H. induction n as [|n [IH Hok]]; [done|]. split; [|by apply push_ok].
  by rewrite times_snoc, (bind_Ok _ _ _ _ _ IH), push_off_run.
Qed.

Lemma unnest_run n h :
  hart_ok h → times (S n) pop_off (Nat.iter (S n) push h) = Ok tt (sync h).
Proof.
  intros H. induction n as [|n IH].
  - cbn. by rewrite (bind_Ok _ _ _ _ _ (pop_off_run h H)).
  - change (times (S (S n)) pop_off) with (pop_off ;; times (S n) pop_off).
    pose proof (proj2 (nest_run (S n) h H)) as Hok.
    pose proof (proj2 (nest_run n h H)) as Hok'.
    change (Nat.iter (S (S n)) push h) with (push (Nat.iter (S n) push h)).
    rewrite (bind_Ok _ _ _ _ _ (pop_off_run _ Hok)).
    change (Nat.iter (S n) push h) with (push (Nat.iter n push h)) at 1.
    by rewrite sync_push.
Qed.

(** Push_off nests: after [n+1] calls interrupts are off at depth noff+n+1,
    and the same number of pop_off calls restores sstatus, the depth, the current
    process and so the interrupt state the first push_off found. *)
Theorem push_pop_nested n h :
  hart_ok h →
  ∃ h1 h2, times (S n) push_off h = Ok tt h1 ∧
    intr_get h1 = false ∧ noff (cur h1) = noff (cur h) + Z.of_nat (S n) ∧
    times (S n) pop_off h1 = Ok tt h2 ∧
    sstatus h2 = sstatus h ∧ noff (cur h2) = noff (cur h) ∧
    cpu_proc (cur h2) = cpu_proc (cur h).
Proof.
  intros H. exists (Nat.iter (S n) push h), (sync h). split_and!.
  - by apply nest_run.
  - apply intr_push.
  - induction n as [|n IH].
    + by rewrite cur_push.
    + change (Nat.iter (S (S n)) push h) with (push (Nat.iter (S n) push h)).
      rewrite cur_push by (by apply nest_run). cbn [noff]. lia.
  - by apply unnest_run.
  - done.
  - by rewrite cur_sync.
  - by rewrite cur_sync.
Qed.

(** A hart with interrupts enabled running process 3. *)
Definition demo_hart : hart := Hart 2 0 [Cpu (Some 3%nat) 0 false].

Lemma demo_hart_ok : hart_ok demo_hart.
Proof. split; vm_compute; [lia|discriminate|discriminate]. Qed.

Lemma push_pop_nested_witness :
  ∃ h1 h2, times 3 push_off demo_hart = Ok tt h1 ∧
    intr_get h1 = false ∧ noff (cur h1) = 0 + 3 ∧
    times 3 pop_off h1 = Ok tt h2 ∧
    sstatus h2 = 2 ∧ noff (cur h2) = 0 ∧ cpu_proc (cur h2) = Some 3%nat.
Proof. apply (push_pop_nested 2 demo_hart), demo_hart_ok. Defined.

(** A CPU may acquire a lock it does not hold and no other; acquiring a lock
    it holds and releasing one it does not hold panic, and acquire followed by
    release leaves the lock free and the interrupt state and depth as found. *)
Theorem acquire_release_checks h lk :
  hart_ok h →
  (lock_free lk → (acquire ;; release) (h, lk) = Ok tt (sync h, lk) ∧
                  sstatus (sync h) = sstatus h ∧ noff (cur (sync h)) = noff (cur h)) ∧
  (lock_free lk → faults (acquire ;; acquire) (h, lk) (Panicked "acquire")) ∧
  (locked lk ≠ 0 → lk_cpu lk ≠ Some (tp h) → faults acquire (h, lk) Spun) ∧
  (locked lk = 0 ∨ lk_cpu lk ≠ Some (tp h) → faults release (h, lk) (Panicked "release")).
Proof.
  intros H. split_and!.
  - intros Hf. rewrite (bind_Ok _ _ _ _ _ (acquire_run h lk H Hf)).
    rewrite release_run by done. split_and!; [done|done|by rewrite cur_sync].
  - intros Hf. unfold faults. rewrite (bind_Ok _ _ _ _ _ (acquire_run h lk H Hf)).
    by apply acquire_twice; [apply push_ok| |].
  - intros Hl Hc. unfold faults, acquire, zoom, bind, holding, zoom, bind. cbn.
    rewrite push_off_run by done. cbn. rewrite bool_decide_false by done.
    rewrite andb_false_r. unfold test_and_set, bind, get, modify, ret. cbn.
    by rewrite (proj2 (Z.eqb_neq _ 0) Hl).
  - apply release_not_held.
Qed.

Lemma acquire_release_checks_witness :
  (acquire ;; release) (demo_hart, Spin 0 "kmem" None)
    = Ok tt (sync demo_hart, Spin 0 "kmem" None) ∧
  faults release (demo_hart, Spin 1 "kmem" (Some 4)) (Panicked "release").
Proof.
  split.
  - apply (proj1 (acquire_release_checks demo_hart (Spin 0 "kmem" None) demo_hart_ok)).
    split; reflexivity.
  - apply (proj2 (proj2 (proj2
      (acquire_release_checks demo_hart (Spin 1 "kmem" (Some 4)) demo_hart_ok)))).
    right. discriminate.
Defined.

Lemma Smp_reachable_inv name s : rtc Smp.step (Smp.init name) s → Smp.inv s.
Proof.
  intros Hs. pose proof (Smp.smp_inv_init name) as Hi. revert Hi.
  induction Hs as [|s0 s1 s2 Hst _ IH]; [done|]. intros Hi. apply IH.
  by apply (Smp.smp_inv_step s0).
Qed.

(** C14: however the atomic accesses of any number of CPUs interleave, at most
    one of them is between the test-and-set that succeeded and the store that
    unlocks, and holding() answers true exactly on the CPU in its critical
    section. *)
Theorem mutual_exclusion name s :
  rtc Smp.step (Smp.init name) s →
  (∀ i j, Smp.owns (Smp.at_pc s i) → Smp.owns (Smp.at_pc s j) → i = j) ∧
  (∀ i, Smp.holding_by (Smp.lk s) i = true ↔ Smp.at_pc s i = Smp.Inside).
Proof.
  intros Hs. destruct (Smp_reachable_inv name s Hs) as [Hf Hu Hc]. split; [done|].
  intros i. unfold Smp.holding_by. rewrite andb_true_iff, negb_true_iff, Z.eqb_neq, bool_decide_eq_true.
  rewrite Hc. split; [by intros [_ ?]|]. intros Hi. split; [|done].
  intros H0. apply (Hf H0 i). unfold Smp.owns. auto.
Qed.

Lemma mutual_exclusion_witness :
  ∃ s, Smp.at_pc s 0 = Smp.Inside ∧ Smp.at_pc s 1 = Smp.Spinning ∧
    ∀ i j, Smp.owns (Smp.at_pc s i) → Smp.owns (Smp.at_pc s j) → i = j.
Proof.
  eexists. split; [|split].
  3: { apply (mutual_exclusion "kmem").
       eapply rtc_l; [apply (Smp.step_enter _ 0); reflexivity|].
       eapply rtc_l; [apply (Smp.step_enter _ 1); reflexivity|].
       eapply rtc_l; [apply (Smp.step_tas_free _ 0); reflexivity|].
       eapply rtc_l; [apply (Smp.step_tas_busy _ 1); [reflexivity|cbn; lia]|].
       eapply rtc_l; [apply (Smp.step_record _ 0); reflexivity|].
       apply rtc_refl. }
  - reflexivity.
  - reflexivity.
Defined.

(** C15: the sequential functions are runs of the interleaving: an acquire (a
    release) that returns on CPU [tp h] is a sequence of its atomic steps, from
    outside to the critical section (and back), with the same effect on the lock. *)
Theorem acquire_release_refine h h' lk' s :
  hart_ok h →
  (acquire (h, Smp.lk s) = Ok tt (h', lk') → Smp.at_pc s (tp h) = Smp.Outside →
   ∃ s', rtc Smp.step s s' ∧ Smp.lk s' = lk' ∧ Smp.at_pc s' (tp h) = Smp.Inside) ∧
  (release (h, Smp.lk s) = Ok tt (h', lk') → Smp.at_pc s (tp h) = Smp.Inside →
   ∃ s', rtc Smp.step s s' ∧ Smp.lk s' = lk' ∧ Smp.at_pc s' (tp h) = Smp.Outside).
Proof.
  intros Hok. split.
  - intros Ha Hpc. unfold acquire, zoom, bind, holding, zoom, bind in Ha. cbn in Ha.
    rewrite push_off_run in Ha by done. cbn in Ha.
    destruct (negb _ && _) eqn:Hh in Ha; [done|].
    unfold test_and_set, bind, get, modify, ret in Ha. cbn in Ha.
    destruct (Z.eqb_spec (locked (Smp.lk s)) 0) as [Hl|]; [|done]. cbn in Ha. simplify_eq.
    eexists. split_and!.
    + eapply rtc_l; [apply (Smp.step_enter _ (tp h)); [done|]|].
      { unfold Smp.holding_by. by rewrite Hl. }
      eapply rtc_l; [apply (Smp.step_tas_free _ (tp h)); [|done]|].
      { by rewrite Smp.smp_at_goto, decide_True. }
      eapply rtc_l; [apply (Smp.step_record _ (tp h))|apply rtc_refl].
      by rewrite Smp.smp_at_goto, decide_True.
    + done.
    + by rewrite Smp.smp_at_goto, decide_True.
  - intros Hr Hpc. unfold release, bind, holding, zoom, bind in Hr. cbn in Hr.
    destruct (negb (_ =? 0) && _) eqn:Hh in Hr; [|done]. cbn in Hr.
    destruct (pop_off h) as [[] h1|] eqn:Hp in Hr; [|done]. cbn in Hr. simplify_eq.
    eexists. split_and!.
    + eapply rtc_l; [by apply (Smp.step_clear _ (tp h))|].
      eapply rtc_l; [apply (Smp.step_unlock _ (tp h))|apply rtc_refl].
      by rewrite Smp.smp_at_goto, decide_True.
    + done.
    + by rewrite Smp.smp_at_goto, decide_True.
Qed.

Lemma acquire_release_refine_witness :
  ∃ s', rtc Smp.step (Smp.init "kmem") s' ∧ Smp.lk s' = Spin 1 "kmem" (Some 0) ∧
        Smp.at_pc s' 0 = Smp.Inside.
Proof.
  apply (proj1 (acquire_release_refine demo_hart (push demo_hart) (Spin 1 "kmem" (Some 0))
           (Smp.init "kmem") demo_hart_ok)); reflexivity.
Defined.
