(* ===== verification/Mmio.v ===== *)
(** * Memory-mapped devices: kernel/uart.c and kernel/plic.c

    The driver code sees a device through its registers. [mm_in] are the values
    the device will answer to the coming reads, in order; [mm_out] the writes made,
    as pairs of address and value, latest last. A read that is never answered is
    the outcome [Spun]. *)
From S2P Require Import Prelude Memory Riscv Spinlock.

Record mmio : Type := Mmio { mm_in : list Z; mm_out : list (Z * Z) }.

Definition mmio_read (a : Z) : M mmio Z := λ s,
  match mm_in s with
  | [] => Halt Spun s
  | v :: l => Ok v (Mmio l (mm_out s))
  end.
Definition mmio_write (a v : Z) : M mmio unit := modify (λ s, Mmio (mm_in s) (mm_out s ++ [(a, v)])).

(** ** uart.c *)
Definition RHR : Z := 0.
Definition THR : Z := 0.
Definition LCR : Z := 3.
Definition LCR_EIGHT_BITS : Z := Z.shiftl 3 0.
Definition LCR_BAUD_LATCH : Z := Z.shiftl 1 7.
Definition LSR : Z := 5.
Definition LSR_TX_IDLE : Z := Z.shiftl 1 5.
Definition Reg (reg : Z) : Z := UART0 + reg.
Definition ReadReg (reg : Z) : M mmio Z := do v <- mmio_read (Reg reg); ret (u8 v).
Definition WriteReg (reg v : Z) : M mmio unit := mmio_write (Reg reg) (u8 v).

Definition uartinit : M mmio unit :=
  WriteReg LCR LCR_BAUD_LATCH ;;
  WriteReg 0 0x03 ;;
  WriteReg 1 0x00 ;;
  WriteReg LCR LCR_EIGHT_BITS.

(** The wait reads LSR until the device is idle: one iteration per answer. *)
Definition uartputc (c : Z) : M mmio unit :=
  do n <- gets (λ s, length (mm_in s));
  loop (S n) (λ _, do v <- ReadReg LSR; ret (if Z.land v LSR_TX_IDLE =? 0 then inl tt else inr tt)) tt ;;
  WriteReg THR c.

Definition uartputs (s : list Z) : M mmio unit := each s uartputc.

(** ** plic.c; [cpuid()] is the hart's tp *)
Definition on_mm : lens (hart * mmio) mmio := Lens snd (λ m s, (s.1, m)).
Definition on_mh : lens (hart * mmio) hart := Lens fst (λ h s, (h, s.2)).

Definition plicinit : M mmio unit :=
  mmio_write (PLIC + UART0_IRQ * 4) 1 ;;
  mmio_write (PLIC + VIRTIO0_IRQ * 4) 1.

Definition plicinithart : M (hart * mmio) unit :=
  do hart <- zoom on_mh cpuid;
  zoom on_mm (mmio_write (PLIC_SENABLE hart) (Z.lor (Z.shiftl 1 UART0_IRQ) (Z.shiftl 1 VIRTIO0_IRQ))) ;;
  zoom on_mm (mmio_write (PLIC_SPRIORITY hart) 0).

Definition plic_claim : M (hart * mmio) Z :=
  do hart <- zoom on_mh cpuid;
  do irq <- zoom on_mm (mmio_read (PLIC_SCLAIM hart));
  ret (i32 irq).

Definition plic_complete (irq : Z) : M (hart * mmio) unit :=
  do hart <- zoom on_mh cpuid;
  zoom on_mm (mmio_write (PLIC_SCLAIM hart) (u32 irq)).

(** ** The transmitter *)

(** The device becomes idle: some coming read of LSR has the idle bit. *)
Fixpoint idles (l : list Z) : option (list Z) :=
  match l with
  | [] => None
  | v :: l => if Z.land (u8 v) LSR_TX_IDLE =? 0 then idles l else Some l
  end.

Lemma uartputc_loop n s :
  (length (mm_in s) < n)%nat →
  loop n (λ _, do v <- ReadReg LSR; ret (if Z.land v LSR_TX_IDLE =? 0 then inl tt else inr tt)) tt s =
    match idles (mm_in s) with Some l => Ok tt (Mmio l (mm_out s)) | None => Halt Spun (Mmio [] (mm_out s)) end.
Proof.
  revert s. induction n as [|n IH]; intros [l o] Hn; cbn [mm_in] in *; [lia|]. cbn [loop].
  destruct l as [|v l]; [done|]. cbn [idles]. unfold bind at 1. unfold bind, ReadReg, mmio_read, bind, ret. cbn [mm_in mm_out].
  destruct (Z.land (u8 v) LSR_TX_IDLE =? 0).
  - rewrite IH; [done|]. cbn in *. lia.
  - done.
Qed.

(** uartputc sends its character as soon as the device is idle, and never else. *)
Lemma uartputc_run c s :
  uartputc c s = match idles (mm_in s) with
                 | Some l => Ok tt (Mmio l (mm_out s ++ [(UART0, u8 c)]))
                 | None => Halt Spun (Mmio [] (mm_out s))
                 end.
Proof.
  unfold uartputc. rewrite (bind_Ok (gets _) _ _ _ _ eq_refl). unfold bind.
  rewrite uartputc_loop by lia. by destruct (idles (mm_in s)).
Qed.
