(* ===== verification/Csr.v ===== *)
(** * kernel/riscv.h and kernel/start.c: control and status registers, machine mode

    The registers a hart's privileged code reads and writes through the inline
    assembly of riscv.h, as the privileged architecture has them. sie is a view of mie: it
    shows the interrupts that mideleg delegates, and writing it changes these in mie.
    sstatus is a view of mstatus: the fields of sstatus are kept in [hart] (Spinlock.v), with
    tp, and the others here, so that mstatus is both. medeleg, mideleg and mie have the
    bits of a machine without the hypervisor extension; the others read as zero. The other
    registers hold the 64-bit value last written. [fenced] says that the TLB was flushed
    since satp was last written, [priv] is the privilege mode (0 user, 1 supervisor, 3
    machine) and [pc] where the last mret went. *)
From Stdlib Require Import Btauto.
From S2P Require Import Prelude Memory Riscv Spinlock.

(** The numbers of the registers. *)
Definition MHARTID : Z := 0xf14.
Definition MSTATUS : Z := 0x300.
Definition MEPC : Z := 0x341.
Definition SIP : Z := 0x144.
Definition SIE : Z := 0x104.
Definition MIE : Z := 0x304.
Definition SEPC : Z := 0x141.
Definition MEDELEG : Z := 0x302.
Definition MIDELEG : Z := 0x303.
Definition STVEC : Z := 0x105.
Definition STIMECMP : Z := 0x14d.
Definition MENVCFG : Z := 0x30a.
Definition PMPCFG0 : Z := 0x3a0.
Definition PMPADDR0 : Z := 0x3b0.
Definition SATP : Z := 0x180.
Definition SCAUSE : Z := 0x142.
Definition STVAL : Z := 0x143.
Definition MCOUNTEREN : Z := 0x306.
Definition TIME : Z := 0xc01.
Definition SSCRATCH : Z := 0x140.

Record csrs : Type := Csrs { csr : Z → Z; fenced : bool; priv : Z; pc : Z }.

(** The bits that medeleg, mideleg and mie have: the exceptions 0 to 9, 12, 13 and 15; the
    supervisor's software, timer and external interrupts; these and the machine's. *)
Definition MEDELEG_BITS : Z := 0xb3ff.
Definition MIDELEG_BITS : Z := 0x222.
Definition MIE_BITS : Z := 0xaaa.
(** The fields of sstatus: SIE, SPIE, UBE, SPP, VS, FS, XS, SUM, MXR, UXL and SD. *)
Definition SSTATUS_BITS : Z := 0x80000003000de762.

Definition legal (r x : Z) : Z :=
  if r =? MEDELEG then Z.land x MEDELEG_BITS
  else if r =? MIDELEG then Z.land x MIDELEG_BITS
  else if r =? MIE then Z.land x MIE_BITS
  else u64 x.

Definition csr_get (c : csrs) (r : Z) : Z :=
  if r =? SIE then Z.land (csr c MIE) (csr c MIDELEG) else csr c r.
Definition csr_put (c : csrs) (r x : Z) : Z → Z :=
  let store r x q := if q =? r then legal r x else csr c q in
  if r =? SIE
  then store MIE (Z.lor (Z.land (csr c MIE) (Z.lnot (csr c MIDELEG))) (Z.land x (csr c MIDELEG)))
  else store r x.

Definition csrr (r : Z) : M csrs Z := gets (λ c, csr_get c r).
Definition csrw (r : Z) (x : Z) : M csrs unit := modify (λ c,
  Csrs (csr_put c r x) (fenced c && negb (r =? SATP)) (priv c) (pc c)).

(** A hart with its control registers. *)
Definition hcsr : Type := (hart * csrs)%type.
Definition on_c : lens hcsr csrs := Lens snd (λ c s, (s.1, c)).
Definition on_h : lens hcsr hart := Lens fst (λ h s, (h, s.2)).

(** ** riscv.h *)
Definition r_mhartid : M csrs Z := csrr MHARTID.
Definition MSTATUS_MPP_MASK : Z := Z.shiftl 3 11.
Definition MSTATUS_MPP_M : Z := Z.shiftl 3 11.
Definition MSTATUS_MPP_S : Z := Z.shiftl 1 11.
Definition MSTATUS_MPP_U : Z := Z.shiftl 0 11.
Definition r_mstatus : M hcsr Z := gets (λ s,
  Z.lor (Z.land (csr s.2 MSTATUS) (Z.lnot SSTATUS_BITS)) (Z.land (sstatus s.1) SSTATUS_BITS)).
Definition w_mstatus (x : Z) : M hcsr unit :=
  zoom on_h (modify (λ h, Hart (Z.lor (Z.land (sstatus h) (Z.lnot SSTATUS_BITS)) (Z.land x SSTATUS_BITS)) (tp h) (cpus h))) ;;
  zoom on_c (csrw MSTATUS (Z.land x (Z.lnot SSTATUS_BITS))).
Definition w_mepc (x : Z) : M csrs unit := csrw MEPC x.
Definition r_sip : M csrs Z := csrr SIP.
Definition w_sip (x : Z) : M csrs unit := csrw SIP x.
Definition SIE_SEIE : Z := Z.shiftl 1 9.
Definition SIE_STIE : Z := Z.shiftl 1 5.
Definition r_sie : M csrs Z := csrr SIE.
Definition w_sie (x : Z) : M csrs unit := csrw SIE x.
Definition MIE_STIE : Z := Z.shiftl 1 5.
Definition r_mie : M csrs Z := csrr MIE.
Definition w_mie (x : Z) : M csrs unit := csrw MIE x.
Definition w_sepc (x : Z) : M csrs unit := csrw SEPC x.
Definition r_sepc : M csrs Z := csrr SEPC.
Definition r_medeleg : M csrs Z := csrr MEDELEG.
Definition w_medeleg (x : Z) : M csrs unit := csrw MEDELEG x.
Definition r_mideleg : M csrs Z := csrr MIDELEG.
Definition w_mideleg (x : Z) : M csrs unit := csrw MIDELEG x.
Definition w_stvec (x : Z) : M csrs unit := csrw STVEC x.
Definition r_stvec : M csrs Z := csrr STVEC.
Definition r_stimecmp : M csrs Z := csrr STIMECMP.
Definition w_stimecmp (x : Z) : M csrs unit := csrw STIMECMP x.
Definition r_menvcfg : M csrs Z := csrr MENVCFG.
Definition w_menvcfg (x : Z) : M csrs unit := csrw MENVCFG x.
Definition w_pmpcfg0 (x : Z) : M csrs unit := csrw PMPCFG0 x.
Definition w_pmpaddr0 (x : Z) : M csrs unit := csrw PMPADDR0 x.
Definition w_satp (x : Z) : M csrs unit := csrw SATP x.
Definition r_satp : M csrs Z := csrr SATP.
Definition r_scause : M csrs Z := csrr SCAUSE.
Definition r_stval : M csrs Z := csrr STVAL.
Definition w_mcounteren (x : Z) : M csrs unit := csrw MCOUNTEREN x.
Definition r_mcounteren : M csrs Z := csrr MCOUNTEREN.
Definition r_time : M csrs Z := csrr TIME.
Definition w_sscratch (x : Z) : M csrs unit := csrw SSCRATCH x.
Definition sfence_vma : M csrs unit := modify (λ c, Csrs (csr c) true (priv c) (pc c)).

Definition r_sstatus : M hart Z := gets sstatus.
Definition w_sstatus (x : Z) : M hart unit := modify (λ h, Hart (Z.land x SSTATUS_BITS) (tp h) (cpus h)).
Definition r_tp : M hart Z := gets tp.
Definition w_tp (x : Z) : M hart unit := modify (λ h, Hart (sstatus h) (u64 x) (cpus h)).

(** ** start.c *)
(** The mret instruction: to the mode of mstatus.MPP, at mepc; MIE becomes MPIE, MPIE 1
    and MPP user; MPRV is cleared unless the new mode is machine mode. *)
Definition mret : M csrs unit := modify (λ c,
  let x := csr c MSTATUS in
  let mpp := Z.land (Z.shiftr x 11) 3 in
  let y := Z.lor (Z.lor (Z.land x (Z.lnot (Z.lor MSTATUS_MPP_MASK (Z.shiftl 1 3)))) (Z.shiftl (Z.land (Z.shiftr x 7) 1) 3)) (Z.shiftl 1 7) in
  let z := if mpp =? 3 then y else Z.land y (Z.lnot (Z.shiftl 1 17)) in
  Csrs (λ q, if q =? MSTATUS then z else csr c q) (fenced c) mpp (csr c MEPC)).

Definition timerinit : M csrs unit :=
  do x <- r_mie; w_mie (Z.lor x MIE_STIE) ;;
  do x <- r_menvcfg; w_menvcfg (Z.lor x (Z.shiftl 1 63)) ;;
  do x <- r_mcounteren; w_mcounteren (Z.lor x 2) ;;
  do t <- r_time; w_stimecmp (u64 (t + 1000000)).

(** [main] is the address of main(). *)
Definition start (main : Z) : M hcsr unit :=
  do x <- r_mstatus;
  let x := Z.land x (Z.lnot MSTATUS_MPP_MASK) in
  let x := Z.lor x MSTATUS_MPP_S in
  w_mstatus x ;;
  zoom on_c (w_mepc main) ;;
  zoom on_c (w_satp 0) ;;
  zoom on_c (w_medeleg 0xffff) ;;
  zoom on_c (w_mideleg 0xffff) ;;
  do x <- zoom on_c r_sie;
  zoom on_c (w_sie (Z.lor (Z.lor x SIE_SEIE) SIE_STIE)) ;;
  zoom on_c (w_pmpaddr0 0x3fffffffffffff) ;;
  zoom on_c (w_pmpcfg0 0xf) ;;
  zoom on_c timerinit ;;
  do id <- zoom on_c r_mhartid;
  zoom on_h (w_tp (i32 id)) ;;
  zoom on_c mret.

(** ** What start leaves behind *)

(** What the physical memory protection lets supervisor mode do with the byte at [a],
    when entry 0 is the only one in use: R, W and X are the low bits of its
    configuration, and mode TOR (bits 3 and 4 hold 1) covers the addresses from 0 up to
    four times pmpaddr0. *)
Definition pmp_allows (c : csrs) (a : Z) : bool :=
  (Z.land (Z.shiftr (csr c PMPCFG0) 3) 3 =? 1) && (a <? 4 * csr c PMPADDR0) && (Z.land (csr c PMPCFG0) 7 =? 7).

Lemma u64_bit x n : 0 ≤ n < 64 → Z.testbit (u64 x) n = Z.testbit x n.
Proof. intros Hn. apply Z.mod_pow2_bits_low. lia. Qed.

(** A write that sets the bits of a one-bit mask. *)
Lemma set_bit_u64 x n : 0 ≤ n < 64 → Z.testbit (u64 (Z.lor x (Z.shiftl 1 n))) n = true.
Proof. intros Hn. rewrite u64_bit, Z.lor_spec, Z.shiftl_spec, Z.sub_diag by lia. apply orb_true_r. Qed.

Lemma has_shiftl x n : 0 ≤ n → has x (Z.shiftl 1 n) = Z.testbit x n.
Proof.
  intros Hn. unfold has. rewrite Z.shiftl_1_l. apply eq_true_iff_eq. rewrite negb_true_iff, Z.eqb_neq. split; intros H.
  - destruct (Z.testbit x n) eqn:E; [done|]. exfalso. apply H, Z.bits_inj'. intros k Hk. rewrite Z.land_spec, Z.bits_0, Z.pow2_bits_eqb by lia.
    destruct (Z.eqb_spec n k) as [<-|]; [by rewrite E|apply andb_false_r].
  - intros E. assert (Z.testbit (Z.land x (2 ^ n)) n = false) as E' by (by rewrite E, Z.bits_0).
    by rewrite Z.land_spec, H, Z.pow2_bits_true in E' by lia.
Qed.

(** The field MPP after start has set it. *)
Lemma mpp_set x : Z.land (Z.shiftr (u64 (Z.land (Z.lor (Z.land x (Z.lnot MSTATUS_MPP_MASK)) MSTATUS_MPP_S) (Z.lnot SSTATUS_BITS))) 11) 3 = 1.
Proof.
  apply Z.bits_inj'. intros n Hn. rewrite Z.land_spec, Z.shiftr_spec by lia.
  destruct (decide (n < 2)) as [H|H].
  - rewrite u64_bit, Z.land_spec, Z.lor_spec, Z.land_spec, !Z.lnot_spec by lia.
    assert (n = 0 ∨ n = 1) as [-> | ->] by lia; by destruct (Z.testbit x _).
  - rewrite (Z.bits_above_log2 3) by (cbn; lia). rewrite andb_false_r, (Z.bits_above_log2 1) by (cbn; lia). done.
Qed.

(** Equalities of words bit by bit. *)
Ltac bitwise := apply Z.bits_inj'; let n := fresh "n" in let Hn := fresh "Hn" in
  intros n Hn; repeat first [rewrite Z.land_spec | rewrite Z.lor_spec | rewrite Z.lnot_spec by done].

(** Setting MPP through mstatus leaves the fields of sstatus alone. *)
Lemma sstatus_kept x y : Z.lor (Z.land x (Z.lnot SSTATUS_BITS)) (Z.land (Z.lor (Z.land (Z.lor (Z.land y (Z.lnot SSTATUS_BITS))
  (Z.land x SSTATUS_BITS)) (Z.lnot MSTATUS_MPP_MASK)) MSTATUS_MPP_S) SSTATUS_BITS) = x.
Proof.
  assert (MSTATUS_MPP_MASK = Z.land MSTATUS_MPP_MASK (Z.lnot SSTATUS_BITS)) as E1 by done.
  assert (MSTATUS_MPP_S = Z.land MSTATUS_MPP_S (Z.lnot SSTATUS_BITS)) as E2 by done. rewrite E1, E2.
  generalize MSTATUS_MPP_MASK MSTATUS_MPP_S SSTATUS_BITS. clear. intros p q b. bitwise. btauto.
Qed.

(** mie after sie and then mie have been read, changed and written. *)
Lemma mie_set m : Z.land (Z.lor (Z.land (Z.lor (Z.land m (Z.lnot MIDELEG_BITS)) (Z.land (Z.lor (Z.lor (Z.land m MIDELEG_BITS) SIE_SEIE) SIE_STIE)
  MIDELEG_BITS)) MIE_BITS) MIE_STIE) MIE_BITS = Z.land (Z.lor m (Z.lor SIE_SEIE SIE_STIE)) MIE_BITS.
Proof.
  assert (SIE_SEIE = Z.land SIE_SEIE MIDELEG_BITS) as E1 by done. assert (SIE_STIE = Z.land SIE_STIE MIDELEG_BITS) as E2 by done.
  change MIE_STIE with SIE_STIE. rewrite E1, E2. generalize SIE_SEIE SIE_STIE MIDELEG_BITS MIE_BITS. clear. intros p q d b. bitwise. btauto.
Qed.

(** C40: whatever the registers hold at reset, start() ends in supervisor mode at main()
    with paging off; every exception and interrupt that can be delegated is delegated, and
    of the interrupt enables, seen in mie and through sie, exactly the
    supervisor's external and timer interrupt have been added to those set at reset; all of
    physical memory is open to supervisor mode, as are the timer extension and the counters,
    with the first tick ordered; tp is the number of the hart and the fields of
    sstatus are as they were. *)
Theorem start_enters_main main h c : 0 ≤ main < 2 ^ 64 →
  wp (start main) (λ _ s, let c' := s.2 in
    priv c' = 1 ∧ pc c' = main ∧ csr_get c' SATP = 0 ∧
    csr_get c' MEDELEG = MEDELEG_BITS ∧ csr_get c' MIDELEG = MIDELEG_BITS ∧
    csr_get c' MIE = Z.land (Z.lor (csr c MIE) (Z.lor SIE_SEIE SIE_STIE)) MIE_BITS ∧
    has (csr_get c' SIE) SIE_SEIE = true ∧ has (csr_get c' SIE) SIE_STIE = true ∧
    (∀ a, 0 ≤ a < PHYSTOP → pmp_allows c' a = true) ∧
    Z.testbit (csr_get c' MENVCFG) 63 = true ∧ Z.testbit (csr_get c' MCOUNTEREN) 1 = true ∧
    csr_get c' STIMECMP = u64 (csr c TIME + 1000000) ∧
    tp s.1 = u64 (i32 (csr c MHARTID)) ∧ sstatus s.1 = sstatus h) (h, c).
Proof.
  intros Hm. unfold start, wp, bind, zoom, ret, timerinit, w_mstatus, bind, zoom.
  cbn -[u64 i32 Z.lor Z.land Z.shiftl Z.shiftr Z.lnot has Z.mul Z.ltb Z.testbit].
  change (Z.land 0xffff MIDELEG_BITS) with MIDELEG_BITS. change (Z.land 0xffff MEDELEG_BITS) with MEDELEG_BITS. rewrite !mie_set.
  assert (∀ b, Z.land b (Z.land MIE_BITS MIDELEG_BITS) = b → b ≠ 0 → Z.lor b (Z.lor SIE_SEIE SIE_STIE) = Z.lor SIE_SEIE SIE_STIE →
    has (Z.land (Z.land (Z.lor (csr c MIE) (Z.lor SIE_SEIE SIE_STIE)) MIE_BITS) MIDELEG_BITS) b = true) as Hen.
  { intros b E1 E2 E3. unfold has. apply negb_true_iff, Z.eqb_neq. rewrite <- E3, <- E1. intros H. apply E2. rewrite <- H, <- E1. clear. bitwise. btauto. }
  split_and!; [apply mpp_set|by apply u64_small|done|done|done|done|by apply Hen|by apply Hen| |..].
  - intros a Ha. unfold pmp_allows. cbn -[Z.ltb]. rewrite (proj2 (Z.ltb_lt _ _)); [done|]. change PHYSTOP with 2281701376 in Ha. change (u64 18014398509481983) with 18014398509481983. lia.
  - by apply set_bit_u64.
  - by apply (set_bit_u64 _ 1).
  - by rewrite (u64_small (u64 _)) by apply u64_range.
  - done.
  - apply sstatus_kept.
Qed.

(** Hart 2, with bits set at random in every register. *)
Definition demo_reset : csrs := Csrs (λ r, if r =? MHARTID then 2 else u64 (r * 2654435761)) true 3 0x80000000.
Lemma start_enters_main_witness :
  wp (start 0x80000100) (λ _ s, priv s.2 = 1 ∧ pc s.2 = 0x80000100 ∧ tp s.1 = 2 ∧ pmp_allows s.2 0x87ffffff = true) (Hart 0 0 [], demo_reset).
Proof.
  eapply wp_mono; [apply (start_enters_main 0x80000100 (Hart 0 0 []) demo_reset); lia|].
  intros [] s (H1 & H2 & _ & _ & _ & _ & _ & _ & H3 & _ & _ & _ & H4 & _). split_and!; [done|done|exact H4|]. apply H3. done.
Defined.
