(* ===== verification/Kalloc.v ===== *)
(** * kernel/kalloc.c: the physical page allocator

    The free list is threaded through the free pages themselves: [kmem.freelist]
    is the address of the first one and the first eight bytes of a free page are
    the address of the next. [kinv s l] says that the list so stored is [l].
    The printf diagnostic of an exhausted allocator is not modelled. *)
From S2P Require Import Prelude Memory KString Riscv Spinlock.

Record kst : Type := Kst {
  k_hart : hart;      (* the executing hart *)
  k_lock : spinlock;  (* kmem.lock *)
  freelist : Z;       (* kmem.freelist, 0 is the null pointer *)
  k_mem : mem         (* physical memory *)
}.

Definition kmem_lock : lens kst lockst :=
  Lens (λ s, (k_hart s, k_lock s)) (λ t s, Kst t.1 t.2 (freelist s) (k_mem s)).
Definition kmem_mem : lens kst mem :=
  Lens k_mem (λ m s, Kst (k_hart s) (k_lock s) (freelist s) m).
Definition with_freelist (r : Z) (s : kst) : kst := Kst (k_hart s) (k_lock s) r (k_mem s).

Section kalloc.
(** [end]: first address after the kernel, set by kernel.ld. *)
Context (end_ : Z).

Definition kfree (pa : Z) : M kst unit :=
  if negb (pa `mod` PGSIZE =? 0) || (pa <? end_) || (PHYSTOP <=? pa)
  then panic "kfree"
  else
    zoom kmem_mem (memset pa 1 PGSIZE) ;;
    zoom kmem_lock acquire ;;
    do next <- gets freelist;
    zoom kmem_mem (modify (λ m, st64 m pa next)) ;;
    modify (with_freelist pa) ;;
    zoom kmem_lock release.

Definition kalloc : M kst Z :=
  zoom kmem_lock acquire ;;
  do r <- gets freelist;
  when (negb (r =? 0)) (do s <- get; modify (with_freelist (ld64 (k_mem s) r))) ;;
  zoom kmem_lock release ;;
  when (negb (r =? 0)) (zoom kmem_mem (memset r 5 PGSIZE) ;; ret tt) ;;
  ret r.

(** The loop runs once per page; the fuel is the number of pages plus one. *)
Definition freerange (pa_start pa_end : Z) : M kst unit :=
  loop (S (S (Z.to_nat ((pa_end - pa_start) `div` PGSIZE))))
    (λ p, if p + PGSIZE <=? pa_end
          then kfree p ;; ret (inl (p + PGSIZE))
          else ret (inr tt))
    (PGROUNDUP pa_start).

Definition kinit : M kst unit :=
  zoom kmem_lock (initlock "kmem") ;;
  freerange end_ PHYSTOP.

(** ** Representation *)
Definition page_ok (p : Z) : Prop := p `mod` PGSIZE = 0 ∧ end_ ≤ p < PHYSTOP.

Fixpoint chain (m : mem) (r : Z) (l : list Z) : Prop :=
  match l with
  | [] => r = 0
  | p :: l' => r = p ∧ chain m (ld64 m p) l'
  end.

(** [in_page a p]: address [a] lies in page [p]. *)
Definition in_page (a p : Z) : Prop := p ≤ a < p + PGSIZE.

Record kinv (s : kst) (l : list Z) : Prop := {
  ki_hart : hart_ok (k_hart s);
  ki_lock : lock_free (k_lock s);
  ki_chain : chain (k_mem s) (freelist s) l;
  ki_pages : Forall page_ok l;
  ki_nodup : NoDup l
}.

Context (end_pos : 0 < end_).

Lemma page_ok_range p : page_ok p → 0 < p ∧ p + PGSIZE ≤ PHYSTOP ∧ p < 2 ^ 56.
Proof.
  intros [Ha Hr]. split_and!; [lia| |unfold PHYSTOP, KERNBASE in *; lia].
  apply page_mod_0; [done|done|lia].
Qed.

Lemma page_disjoint p q a : page_ok p → page_ok q → p ≠ q → in_page a p → ¬ in_page a q.
Proof. unfold page_ok, in_page, PGSIZE. dlia. Qed.

Lemma chain_ext m m' r l :
  Forall page_ok l →
  (∀ p a, p ∈ l → in_page a p → rd m' a = rd m a) → chain m r l → chain m' r l.
Proof.
  intros Hp Hext. revert r. induction l as [|p l IH]; intros r; [done|].
  apply Forall_cons in Hp as [Hp1 Hp]. intros [-> Hc]. split; [done|].
  replace (ld64 m' p) with (ld64 m p).
  - apply IH; [done| |done]. intros q a Hq. apply Hext. by right.
  - apply ld_ext. intros a Ha. symmetry. apply (Hext p); [by left|].
    unfold in_page, PGSIZE. lia.
Qed.

(** ** kfree *)
Lemma kfree_ok p s l :
  kinv s l → page_ok p → p ∉ l →
  wp (kfree p) (λ _ s', kinv s' (p :: l) ∧ k_hart s' = sync (k_hart s) ∧
    k_lock s' = k_lock s ∧
    ∀ a, ¬ in_page a p → rd (k_mem s') a = rd (k_mem s) a) s.
Proof.
  intros [Hh Hl Hc Hp Hn] Hpok Hnin.
  pose proof (page_ok_range _ Hpok) as (Hp0 & _ & Hp56). destruct Hpok as [Ha Hr].
  unfold kfree. rewrite Ha. cbn. rewrite (proj2 (Z.ltb_ge p end_)) by lia.
  rewrite (proj2 (Z.leb_gt PHYSTOP p)) by lia. cbn.
  wp_step. wp_step. cbn [view kmem_mem]. wp_call memset_rd. intros _ m1 [_ Hm1].
  wp_step. wp_step. cbn. eapply wp_of_Ok; [by apply acquire_run|]. cbn.
  wp_steps. cbn. eapply wp_of_Ok; [by apply release_run|]. cbn.
  assert (∀ a, ¬ in_page a p → rd (st64 m1 p (freelist s)) a = rd (k_mem s) a) as Hframe.
  { intros a Hna. unfold in_page, PGSIZE in *. rewrite rd_st_out by lia.
    rewrite Hm1. by rewrite decide_False. }
  assert (page_ok p) as Hpok by done.
  split_and!; [|done|done|exact Hframe].
  split; cbn; [by apply sync_ok|done| |by constructor|by constructor].
  split; [done|]. rewrite ld_st_eq.
  - eapply chain_ext; [done| |done]. intros q a Hq Hin. apply Hframe.
    rewrite Forall_forall in Hp. eapply page_disjoint; [by apply Hp|done| |done].
    intros ->. done.
  - destruct l as [|q l]; cbn in Hc; [lia|]. destruct Hc as [-> _].
    apply Forall_cons in Hp as [Hq _]. apply page_ok_range in Hq. lia.
Qed.

Lemma kfree_panics p s :
  ¬ page_ok p → faults (kfree p) s (Panicked "kfree").
Proof.
  intros Hno. unfold faults, kfree.
  destruct (negb (p `mod` PGSIZE =? 0) || (p <? end_) || (PHYSTOP <=? p)) eqn:E; [done|].
  exfalso. apply Hno. unfold page_ok. lia.
Qed.

(** ** kalloc *)
Lemma kalloc_some p s l :
  kinv s (p :: l) →
  wp kalloc (λ r s', r = p ∧ kinv s' l ∧ k_hart s' = sync (k_hart s) ∧
    k_lock s' = k_lock s ∧
    (∀ a, rd (k_mem s') a = if decide (in_page a p) then 5 else rd (k_mem s) a)) s.
Proof.
  intros [Hh Hl [Hf Hc] Hp Hn]. apply Forall_cons in Hp as [Hp1 Hp].
  apply NoDup_cons in Hn as [Hnin Hn]. pose proof (page_ok_range _ Hp1) as (Hp0 & _ & _).
  unfold kalloc. wp_step. wp_step. cbn. eapply wp_of_Ok; [by apply acquire_run|]. cbn.
  wp_steps. cbn. rewrite Hf, (proj2 (Z.eqb_neq p 0)) by lia. cbn [negb].
  wp_steps. cbn. eapply wp_of_Ok; [by apply release_run|]. cbn.
  wp_step. wp_step. wp_step. cbn. wp_call memset_rd. intros _ m1 [_ Hm1].
  wp_steps. cbn.
  split_and!; [done| |done|done|done].
  split; cbn; [by apply sync_ok|done| |done|done].
  eapply chain_ext; [done| |done]. intros q a Hq Hin. rewrite Hm1.
  rewrite decide_False; [done|]. rewrite Forall_forall in Hp.
  eapply page_disjoint; [by apply Hp|done| |done]. by intros ->.
Qed.

Lemma kalloc_none s :
  kinv s [] →
  wp kalloc (λ r s', r = 0 ∧ kinv s' [] ∧ k_hart s' = sync (k_hart s) ∧
    k_lock s' = k_lock s ∧ k_mem s' = k_mem s) s.
Proof.
  intros [Hh Hl Hc Hp Hn]. cbn in Hc.
  unfold kalloc. wp_step. wp_step. cbn. eapply wp_of_Ok; [by apply acquire_run|]. cbn.
  wp_steps. cbn. rewrite Hc. cbn. wp_steps. cbn.
  eapply wp_of_Ok; [by apply release_run|]. cbn.
  split_and!; [done| |done|done|done].
  split; cbn; [by apply sync_ok|done|done|done|constructor].
Qed.

(** ** kinit *)
Definition pages_from (p : Z) (n : nat) : list Z :=
  (λ i, p + i * PGSIZE) <$> seqZ 0 (Z.of_nat n).

Lemma pages_from_S p n : pages_from p (S n) = p :: pages_from (p + PGSIZE) n.
Proof.
  unfold pages_from. rewrite Nat2Z.inj_succ, seqZ_cons by lia. rewrite fmap_cons.
  f_equal; [lia|]. rewrite Z.pred_succ.
  replace (seqZ (Z.succ 0) (Z.of_nat n)) with (Z.add 1 <$> seqZ 0 (Z.of_nat n))
    by (by rewrite fmap_add_seqZ).
  rewrite <- list_fmap_compose. apply list_fmap_ext. intros _ x _. cbn. lia.
Qed.

Lemma elem_of_pages_from x p n :
  x ∈ pages_from p n ↔ ∃ i, 0 ≤ i < Z.of_nat n ∧ x = p + i * PGSIZE.
Proof.
  unfold pages_from. rewrite list_elem_of_fmap. setoid_rewrite elem_of_seqZ. naive_solver lia.
Qed.

(** Freeing [n] consecutive pages pushes them one after the other. *)
Lemma freerange_loop n fuel p pa_end s l :
  (n < fuel)%nat →
  p `mod` PGSIZE = 0 → end_ ≤ p → pa_end ≤ PHYSTOP →
  p + Z.of_nat n * PGSIZE ≤ pa_end < p + Z.of_nat n * PGSIZE + PGSIZE →
  Forall (λ q, q < p) l → kinv s l →
  wp (loop fuel (λ p, if p + PGSIZE <=? pa_end
                      then kfree p ;; ret (inl (p + PGSIZE))
                      else ret (inr tt)) p)
     (λ _ s', kinv s' (reverse (pages_from p n) ++ l)) s.
Proof.
  revert fuel p s l. induction n as [|n IH]; intros [|fuel] p s l Hf Ha He Hend Hn Hlt Hinv;
    try lia; cbn [loop].
  - rewrite (proj2 (Z.leb_gt _ _)) by lia. wp_steps. done.
  - rewrite (proj2 (Z.leb_le _ _)) by (unfold PGSIZE in *; lia). wp_step. wp_step.
    assert (p ∉ l) as Hnin by (intros Hin; rewrite Forall_forall in Hlt; specialize (Hlt _ Hin); lia).
    wp_call kfree_ok; [done|unfold page_ok, PGSIZE in *; lia|done|].
    intros _ s1 (Hinv1 & _). wp_step. rewrite pages_from_S, reverse_cons, <- app_assoc.
    apply IH; try (unfold PGSIZE in *; dlia); [|done].
    constructor; [unfold PGSIZE; lia|]. eapply Forall_impl; [exact Hlt|]. unfold PGSIZE. cbn. lia.
Qed.

(** The pages of physical memory above the kernel image. *)
Definition free_pages : list Z :=
  pages_from (PGROUNDUP end_) (Z.to_nat ((PHYSTOP - PGROUNDUP end_) `div` PGSIZE)).

Lemma kinit_ok s :
  hart_ok (k_hart s) → freelist s = 0 → end_ ≤ PHYSTOP →
  wp kinit (λ _ s', kinv s' (reverse free_pages)) s.
Proof.
  intros Hh Hf0 Hle. unfold kinit, initlock. wp_steps. cbn [view over kmem_lock].
  assert (PHYSTOP = 2281701376) as HP by done.
  destruct (PGROUNDUP_bounds end_) as [Hb Ha]; [lia|unfold PGSIZE; lia|].
  unfold freerange, free_pages.
  eapply wp_mono; [eapply freerange_loop with
    (n := Z.to_nat ((PHYSTOP - PGROUNDUP end_) `div` PGSIZE)) (l := [])|].
  - apply (Nat.le_lt_trans _ (Z.to_nat ((PHYSTOP - end_) `div` PGSIZE))); [|lia].
    apply Z2Nat.inj_le; [| |]; unfold PGSIZE in *; dlia.
  - done.
  - lia.
  - lia.
  - unfold PGSIZE in *. rewrite Z2Nat.id by dlia. dlia.
  - constructor.
  - split; cbn; done || constructor.
  - intros [] s'. by rewrite app_nil_r.
Qed.

(** [free_pages] are exactly the whole pages between the kernel and PHYSTOP. *)
Lemma elem_of_free_pages p : end_ ≤ PHYSTOP → p ∈ free_pages ↔ page_ok p.
Proof.
  intros Hle. assert (PHYSTOP = 2281701376) as HP by done.
  destruct (PGROUNDUP_bounds end_) as [Hb Ha]; [lia|unfold PGSIZE; lia|].
  unfold free_pages. rewrite elem_of_pages_from. unfold page_ok, PGSIZE in *.
  rewrite Z2Nat.id by dlia. split.
  - intros (i & Hi & ->). dlia.
  - intros [Hm Hr]. exists ((p - PGROUNDUP end_) `div` 4096). dlia.
Qed.

(** ** Properties *)

(** C13: kalloc is the pop of a stack of pages: with free pages [l] it returns
    the head (0 when there is none), leaves exactly the tail free, fills the
    page with 5 and touches no other byte; the lock and the interrupt state are
    as before the call. *)
Theorem kalloc_pops s l :
  kinv s l →
  ∃ s', kalloc s = Ok (default 0 (head l)) s' ∧ kinv s' (tail l) ∧
    k_hart s' = sync (k_hart s) ∧ k_lock s' = k_lock s ∧
    ∀ a, rd (k_mem s') a = match l with
                           | p :: _ => if decide (in_page a p) then 5 else rd (k_mem s) a
                           | [] => rd (k_mem s) a
                           end.
Proof.
  intros H. destruct l as [|p l].
  - destruct (wp_Ok _ _ _ (kalloc_none s H)) as (r & s' & -> & -> & ? & ? & ? & Hm).
    exists s'. split_and!; [done..|]. intros a. by rewrite Hm.
  - destruct (wp_Ok _ _ _ (kalloc_some p s l H)) as (r & s' & -> & -> & ? & ? & ? & ?). eauto 10.
Qed.

(** Kfree is the push, and a page freed is the next page allocated: kfree(p)
    then kalloc() returns p, restores the list of free pages and leaves every
    byte outside p as it was. *)
Theorem kfree_kalloc p s l :
  kinv s l → page_ok p → p ∉ l →
  ∃ s1 s2, kfree p s = Ok tt s1 ∧ kinv s1 (p :: l) ∧
    kalloc s1 = Ok p s2 ∧ kinv s2 l ∧
    ∀ a, ¬ in_page a p → rd (k_mem s2) a = rd (k_mem s) a.
Proof.
  intros H Hp Hn. destruct (wp_Ok _ _ _ (kfree_ok p s l H Hp Hn)) as ([] & s1 & E1 & H1 & _ & _ & F1).
  destruct (wp_Ok _ _ _ (kalloc_some p s1 l H1)) as (r & s2 & E2 & -> & H2 & _ & _ & F2).
  exists s1, s2. split_and!; [done..|]. intros a Ha.
  by rewrite F2, decide_False, F1.
Qed.

(** Kfree accepts exactly the page-aligned addresses of the pages between
    the kernel image and PHYSTOP: anything else panics before memory is touched. *)
Theorem kfree_rejects p s : ¬ page_ok p → kfree p s = Halt (Panicked "kfree") s.
Proof.
  intros Hno. unfold kfree.
  destruct (negb (p `mod` PGSIZE =? 0) || (p <? end_) || (PHYSTOP <=? p)) eqn:E; [done|].
  exfalso. apply Hno. unfold page_ok. lia.
Qed.

(** Kinit terminates with a well-formed free list that holds every whole
    page from the end of the kernel to PHYSTOP exactly once and nothing else,
    the highest page first. *)
Theorem kinit_frees_all s :
  hart_ok (k_hart s) → freelist s = 0 → end_ ≤ PHYSTOP →
  ∃ s' l, kinit s = Ok tt s' ∧ kinv s' l ∧ NoDup l ∧ (∀ p, p ∈ l ↔ page_ok p) ∧
          l = reverse free_pages.
Proof.
  intros Hh Hf Hle. destruct (wp_Ok _ _ _ (kinit_ok s Hh Hf Hle)) as ([] & s' & -> & H).
  eexists _, _. split_and!; [done|done|apply H| |done].
  intros p. by rewrite elem_of_reverse, elem_of_free_pages.
Qed.
End kalloc.

(** A machine whose kernel image ends three pages below PHYSTOP. *)
Definition demo_end : Z := 0x87ffd000.
Definition demo_kst : kst := Kst demo_hart (Spin 0 "kmem" None) 0x87fff000
  (st64 (st64 ∅ 0x87fff000 0x87ffe000) 0x87ffe000 0).

Lemma demo_kinv : kinv demo_end demo_kst [0x87fff000; 0x87ffe000].
Proof.
  split.
  - apply demo_hart_ok.
  - by split.
  - cbn [chain]. vm_compute. done.
  - repeat constructor; vm_compute; congruence.
  - apply (bool_decide_unpack _). vm_compute. done.
Qed.

Lemma kalloc_pops_witness :
  ∃ s', kalloc demo_kst = Ok 0x87fff000 s' ∧ kinv demo_end s' [0x87ffe000] ∧
    k_hart s' = sync demo_hart ∧ k_lock s' = Spin 0 "kmem" None ∧
    ∀ a, rd (k_mem s') a = if decide (in_page a 0x87fff000) then 5 else rd (k_mem demo_kst) a.
Proof. apply (kalloc_pops demo_end ltac:(done) demo_kst _ demo_kinv). Defined.

Lemma kfree_kalloc_witness :
  ∃ s1 s2, kfree demo_end 0x87ffd000 demo_kst = Ok tt s1 ∧
    kinv demo_end s1 [0x87ffd000; 0x87fff000; 0x87ffe000] ∧
    kalloc s1 = Ok 0x87ffd000 s2 ∧ kinv demo_end s2 [0x87fff000; 0x87ffe000] ∧
    ∀ a, ¬ in_page a 0x87ffd000 → rd (k_mem s2) a = rd (k_mem demo_kst) a.
Proof.
  apply (kfree_kalloc demo_end ltac:(done) 0x87ffd000 demo_kst _ demo_kinv).
  - split; vm_compute; [done|split; [discriminate|done]].
  - apply (bool_decide_unpack _). vm_compute. done.
Defined.

Lemma kfree_rejects_witness : kfree demo_end 0x87fff008 demo_kst = Halt (Panicked "kfree") demo_kst.
Proof. apply (kfree_rejects demo_end 0x87fff008). intros [H _]. vm_compute in H. discriminate. Defined.

Lemma kinit_frees_all_witness :
  ∃ s' l, kinit demo_end (Kst demo_hart (Spin 7 "" (Some 3)) 0 ∅) = Ok tt s' ∧
    kinv demo_end s' l ∧ NoDup l ∧ (∀ p, p ∈ l ↔ page_ok demo_end p) ∧
    l = reverse (free_pages demo_end).
Proof.
  apply (kinit_frees_all demo_end ltac:(done) (Kst demo_hart (Spin 7 "" (Some 3)) 0 ∅));
    [apply demo_hart_ok|reflexivity|vm_compute; discriminate].
Defined.
