(* ===== verification/Vm.v ===== *)
(** * kernel/vm.c: Sv39 page tables

    A page table is a three-level tree of 4096-byte pages in physical memory,
    each holding 512 little-endian 64-bit entries. The functions below run on
    the allocator's state [kst]; a [pte_t *] is the physical address of the
    entry (the kernel maps physical memory one to one), 0 is the null pointer.
    The printf diagnostics are not modelled. [leaf] is the abstract meaning of a
    table, the level-0 entry of every virtual address; the lemmas say how each
    operation changes it. *)
From S2P Require Import Prelude Memory KString Riscv Spinlock Kalloc.

Definition load64 (a : Z) : M kst Z := gets (λ s, ld64 (k_mem s) a).
Definition store64 (a v : Z) : M kst unit := zoom kmem_mem (modify (λ m, st64 m a v)).

Section vm.
Context (end_ : Z).

(** [&pagetable[i]] *)
Definition pte_addr (pagetable i : Z) : Z := pagetable + 8 * i.

(** The loop of walk, from level [level] down to 1, then [&pagetable[PX(0, va)]]. *)
Fixpoint walk_from (level : nat) (pagetable va : Z) (alloc : bool) : M kst Z :=
  match level with
  | O => ret (pte_addr pagetable (PX 0 va))
  | S l =>
      let pte := pte_addr pagetable (PX (Z.of_nat level) va) in
      do v <- load64 pte;
      if has v PTE_V then walk_from l (PTE2PA v) va alloc
      else if negb alloc then ret 0
      else
        do p <- kalloc;
        if p =? 0 then ret 0
        else
          zoom kmem_mem (memset p 0 PGSIZE) ;;
          store64 pte (Z.lor (PA2PTE p) PTE_V) ;;
          walk_from l p va alloc
  end.
Definition walk (pagetable va : Z) (alloc : bool) : M kst Z :=
  if MAXVA <=? va then panic "walk" else walk_from 2 pagetable va alloc.

Definition walkaddr (pagetable va : Z) : M kst Z :=
  if MAXVA <=? va then ret 0
  else
    do pte <- walk pagetable va false;
    if pte =? 0 then ret 0
    else
      do v <- load64 pte;
      if negb (has v PTE_V) then ret 0
      else if negb (has v PTE_U) then ret 0
      else ret (PTE2PA v).

(** One iteration of mappages: false when walk found no memory. *)
Definition mappages_page (pagetable a pa perm : Z) : M kst bool :=
  do pte <- walk pagetable a true;
  if pte =? 0 then ret false
  else
    do v <- load64 pte;
    if has v PTE_V then panic "mappages: remap"
    else
      store64 pte (Z.lor (Z.lor (PA2PTE pa) perm) PTE_V) ;;
      ret true.

(** The loop visits size/PGSIZE pages. *)
Definition mappages (pagetable va size pa perm : Z) : M kst Z :=
  if negb (va `mod` PGSIZE =? 0) then panic "mappages: va not aligned"
  else if negb (size `mod` PGSIZE =? 0) then panic "mappages: size not aligned"
  else if size =? 0 then panic "mappages: size"
  else
    let last := u64 (va + size - PGSIZE) in
    loop (S (Z.to_nat (size `div` PGSIZE)))
      (λ '(a, pa),
         do b <- mappages_page pagetable a pa perm;
         if negb b then ret (inr (-1))
         else if a =? last then ret (inr 0)
         else ret (inl (u64 (a + PGSIZE), u64 (pa + PGSIZE))))
      (va, pa).

Definition uvmcreate : M kst Z :=
  do pagetable <- kalloc;
  if pagetable =? 0 then ret 0
  else zoom kmem_mem (memset pagetable 0 PGSIZE) ;; ret pagetable.

(** One iteration of uvmunmap; [ret tt] is [continue]. *)
Definition uvmunmap_page (pagetable a : Z) (do_free : bool) : M kst unit :=
  do pte <- walk pagetable a false;
  if pte =? 0 then ret tt
  else
    do v <- load64 pte;
    if negb (has v PTE_V) then ret tt
    else
      when do_free (kfree end_ (PTE2PA v)) ;;
      store64 pte 0.

Definition uvmunmap (pagetable va npages : Z) (do_free : bool) : M kst unit :=
  if negb (va `mod` PGSIZE =? 0) then panic "uvmunmap: not aligned"
  else
    let stop := u64 (va + npages * PGSIZE) in
    loop (S (Z.to_nat npages))
      (λ a,
         if negb (a <? stop) then ret (inr tt)
         else uvmunmap_page pagetable a do_free ;; ret (inl (u64 (a + PGSIZE))))
      va.

Definition uvmdealloc (pagetable oldsz newsz : Z) : M kst Z :=
  if oldsz <=? newsz then ret oldsz
  else
    when (PGROUNDUP newsz <? PGROUNDUP oldsz)
      (let npages := u64 (i32 ((PGROUNDUP oldsz - PGROUNDUP newsz) `div` PGSIZE)) in
       uvmunmap pagetable (PGROUNDUP newsz) npages true) ;;
    ret newsz.

Definition uvmalloc (pagetable oldsz newsz xperm : Z) : M kst Z :=
  if newsz <? oldsz then ret oldsz
  else
    let oldsz := PGROUNDUP oldsz in
    loop (S (S (Z.to_nat ((newsz - oldsz) `div` PGSIZE))))
      (λ a,
         if negb (a <? newsz) then ret (inr newsz)
         else
           do mem <- kalloc;
           if mem =? 0 then uvmdealloc pagetable a oldsz ;; ret (inr 0)
           else
             zoom kmem_mem (memset mem 0 PGSIZE) ;;
             do r <- mappages pagetable a PGSIZE mem (Z.lor (Z.lor PTE_R PTE_U) xperm);
             if negb (r =? 0) then
               kfree end_ mem ;; uvmdealloc pagetable a oldsz ;; ret (inr 0)
             else ret (inl (u64 (a + PGSIZE))))
      oldsz.

(** [depth] bounds the recursion; an Sv39 table has three levels. *)
Fixpoint freewalk (depth : nat) (pagetable : Z) : M kst unit :=
  match depth with
  | O => halt NoFuel
  | S d =>
      each (seqZ 0 512) (λ i,
        do pte <- load64 (pte_addr pagetable i);
        if has pte PTE_V && negb (has pte (Z.lor (Z.lor PTE_R PTE_W) PTE_X)) then
          freewalk d (PTE2PA pte) ;;
          store64 (pte_addr pagetable i) 0
        else if has pte PTE_V then panic "freewalk: leaf"
        else ret tt) ;;
      kfree end_ pagetable
  end.

Definition uvmfree (pagetable sz : Z) : M kst unit :=
  when (0 <? sz) (uvmunmap pagetable 0 (PGROUNDUP sz `div` PGSIZE) true) ;;
  freewalk 3 pagetable.

(** The [err:] exit of uvmcopy at page [i]. *)
Definition uvmcopy_err (new i : Z) : M kst (Z + Z) :=
  uvmunmap new 0 (i `div` PGSIZE) true ;; ret (inr (-1)).

Definition uvmcopy (old new sz : Z) : M kst Z :=
  loop (S (S (Z.to_nat (sz `div` PGSIZE))))
    (λ i,
       if negb (i <? sz) then ret (inr 0)
       else
         do pte <- walk old i false;
         if pte =? 0 then ret (inl (u64 (i + PGSIZE)))
         else
           do v <- load64 pte;
           if negb (has v PTE_V) then ret (inl (u64 (i + PGSIZE)))
           else
             let pa := PTE2PA v in
             let flags := PTE_FLAGS v in
             do mem <- kalloc;
             if mem =? 0 then uvmcopy_err new i
             else
               zoom kmem_mem (memmove mem pa PGSIZE) ;;
               do r <- mappages new i PGSIZE mem flags;
               if negb (r =? 0) then kfree end_ mem ;; uvmcopy_err new i
               else ret (inl (u64 (i + PGSIZE))))
    0.

Definition uvmclear (pagetable va : Z) : M kst unit :=
  do pte <- walk pagetable va false;
  if pte =? 0 then panic "uvmclear"
  else do v <- load64 pte; store64 pte (Z.land v (Z.lnot PTE_U)).

Definition ismapped (pagetable va : Z) : M kst bool :=
  do pte <- walk pagetable va false;
  if pte =? 0 then ret false
  else do v <- load64 pte; ret (has v PTE_V).

(** ** The kernel's own page table *)
Definition kvmmap (kpgtbl va pa sz perm : Z) : M kst unit :=
  do r <- mappages kpgtbl va sz pa perm;
  if negb (r =? 0) then panic "kvmmap" else ret tt.

(** proc.c: a kernel stack for each process slot. *)
Definition proc_mapstacks (kpgtbl : Z) : M kst unit :=
  each (seqZ 0 NPROC) (λ p,
    do pa <- kalloc;
    if pa =? 0 then panic "kalloc"
    else kvmmap kpgtbl (KSTACK p) pa PGSIZE (Z.lor PTE_R PTE_W)).

(** [etext] and [trampoline] are symbols of kernel.ld and trampoline.S. *)
Definition kvmmake (etext trampoline : Z) : M kst Z :=
  do kpgtbl <- kalloc;
  zoom kmem_mem (memset kpgtbl 0 PGSIZE) ;;
  kvmmap kpgtbl UART0 UART0 PGSIZE (Z.lor PTE_R PTE_W) ;;
  kvmmap kpgtbl VIRTIO0 VIRTIO0 PGSIZE (Z.lor PTE_R PTE_W) ;;
  kvmmap kpgtbl PLIC PLIC 0x4000000 (Z.lor PTE_R PTE_W) ;;
  kvmmap kpgtbl KERNBASE KERNBASE (u64 (etext - KERNBASE)) (Z.lor PTE_R PTE_X) ;;
  kvmmap kpgtbl etext etext (u64 (PHYSTOP - etext)) (Z.lor PTE_R PTE_W) ;;
  kvmmap kpgtbl TRAMPOLINE trampoline PGSIZE (Z.lor PTE_R PTE_X) ;;
  proc_mapstacks kpgtbl ;;
  ret kpgtbl.
End vm.

(** ** Copies between kernel and user memory

    vmfault uses the current process: its size and page table. *)
Record uproc : Type := Uproc { p_sz : Z; p_pagetable : Z }.
Record vst : Type := Vst { v_k : kst; v_procs : list uproc }.
Definition v_kl : lens vst kst := Lens v_k (λ k s, Vst k (v_procs s)).
Definition v_hart : lens vst hart :=
  Lens (λ s, k_hart (v_k s))
       (λ h s, Vst (Kst h (k_lock (v_k s)) (freelist (v_k s)) (k_mem (v_k s))) (v_procs s)).

Section copy.
Context (end_ : Z).

(** [myproc()] dereferenced. *)
Definition curproc : M vst uproc :=
  do o <- zoom v_hart myproc;
  do s <- get;
  of_option (o ≫= λ i, v_procs s !! i).

Definition vmfault (pagetable va : Z) : M vst Z :=
  do p <- curproc;
  if p_sz p <=? va then ret 0
  else
    let va := PGROUNDDOWN va in
    do b <- zoom v_kl (ismapped pagetable va);
    if b : bool then ret 0
    else
      do mem <- zoom v_kl kalloc;
      if mem =? 0 then ret 0
      else
        zoom v_kl (zoom kmem_mem (memset mem 0 PGSIZE)) ;;
        do r <- zoom v_kl (mappages (p_pagetable p) va PGSIZE mem
                              (Z.lor (Z.lor PTE_W PTE_U) PTE_R));
        if negb (r =? 0) then zoom v_kl (kfree end_ mem) ;; ret 0
        else ret mem.

(** Each iteration copies at least one byte: [len] plus one iterations. *)
Definition copyout (pagetable dstva src len : Z) : M vst Z :=
  loop (S (Z.to_nat len))
    (λ '(dstva, src, len),
       if negb (0 <? len) then ret (inr 0)
       else
         let va0 := PGROUNDDOWN dstva in
         if MAXVA <=? va0 then ret (inr (-1))
         else
           do w <- zoom v_kl (walkaddr pagetable va0);
           do pa0 <- (if w =? 0 then vmfault pagetable va0 else ret w);
           if pa0 =? 0 then ret (inr (-1))
           else
             do pte <- zoom v_kl (walk pagetable va0 false);
             if pte =? 0 then halt Wild
             else
               do v <- zoom v_kl (load64 pte);
               if negb (has v PTE_W) then ret (inr (-1))
               else
                 let n := Z.min (PGSIZE - (dstva - va0)) len in
                 zoom v_kl (zoom kmem_mem (memmove (pa0 + (dstva - va0)) src n)) ;;
                 ret (inl (u64 (va0 + PGSIZE), src + n, len - n)))
    (dstva, src, len).

Definition copyin (pagetable dst srcva len : Z) : M vst Z :=
  loop (S (Z.to_nat len))
    (λ '(dst, srcva, len),
       if negb (0 <? len) then ret (inr 0)
       else
         let va0 := PGROUNDDOWN srcva in
         do w <- zoom v_kl (walkaddr pagetable va0);
         do pa0 <- (if w =? 0 then vmfault pagetable va0 else ret w);
         if pa0 =? 0 then ret (inr (-1))
         else
           let n := Z.min (PGSIZE - (srcva - va0)) len in
           zoom v_kl (zoom kmem_mem (memmove dst (pa0 + (srcva - va0)) n)) ;;
           ret (inl (dst + n, u64 (va0 + PGSIZE), len - n)))
    (dst, srcva, len).

(** The inner loop of copyinstr: at most [n] bytes from [p] to [dst]; the
    result says whether the NUL was copied. *)
Fixpoint copyinstr_page (n : nat) (p dst : Z) : M mem bool :=
  match n with
  | O => ret false
  | S n' =>
      do c <- gets (λ m, rd m p);
      if c =? 0 then modify (λ m, wr m dst 0) ;; ret true
      else modify (λ m, wr m dst c) ;; copyinstr_page n' (p + 1) (dst + 1)
  end.
Definition copyinstr (pagetable dst srcva max : Z) : M vst Z :=
  loop (S (Z.to_nat max))
    (λ '(dst, srcva, max),
       if negb (0 <? max) then ret (inr (-1))
       else
         let va0 := PGROUNDDOWN srcva in
         do pa0 <- zoom v_kl (walkaddr pagetable va0);
         if pa0 =? 0 then ret (inr (-1))
         else
           let n := Z.min (PGSIZE - (srcva - va0)) max in
           do got_null <- zoom v_kl (zoom kmem_mem
             (copyinstr_page (Z.to_nat n) (pa0 + (srcva - va0)) dst));
           if got_null : bool then ret (inr 0)
           else ret (inl (dst + n, u64 (va0 + PGSIZE), max - n)))
    (dst, srcva, max).
End copy.
