(* ===== verification/VmSpec.v ===== *)
(** * Page tables as maps: the specification of kernel/vm.c

    [leaf m root va] is the level-0 entry that the three-level table at [root]
    holds for [va] (0 when an intermediate entry is missing): the abstract value
    of a page table. [pt_pages] lists the pages of the tree. A table is well
    formed when these pages are distinct, in range and disjoint from the free
    list; the lemmas show that the operations of [Vm] keep it so and change
    [leaf] exactly at the addresses they are asked to. *)
From S2P Require Import Prelude Memory KString Riscv Spinlock Kalloc Vm.

(** ** Abstract value and pages of a table *)
Definition entry (m : mem) (pt i : Z) : Z := ld64 m (pte_addr pt i).

Fixpoint lookup_pte (level : nat) (m : mem) (pt va : Z) : option Z :=
  match level with
  | O => Some (pte_addr pt (PX 0 va))
  | S l => let v := entry m pt (PX (Z.of_nat level) va) in
           if has v PTE_V then lookup_pte l m (PTE2PA v) va else None
  end.

Definition leafv (level : nat) (m : mem) (pt va : Z) : Z :=
  match lookup_pte level m pt va with Some a => ld64 m a | None => 0 end.
Definition leaf (m : mem) (root va : Z) : Z := leafv 2 m root va.

Fixpoint pt_pages (level : nat) (m : mem) (pt : Z) : list Z :=
  pt :: match level with
        | O => []
        | S l => concat ((λ i, let v := entry m pt i in
                               if has v PTE_V then pt_pages l m (PTE2PA v) else [])
                         <$> seqZ 0 512)
        end.

(** The pages below entry [i]. *)
Definition kids (l : nat) (m : mem) (pt i : Z) : list Z :=
  let v := entry m pt i in if has v PTE_V then pt_pages l m (PTE2PA v) else [].

(** The entries above the last level point to tables: none of R, W, X; at the
    top only the first [lim] are used. *)
Definition PTE_RWX : Z := Z.lor (Z.lor PTE_R PTE_W) PTE_X.
Fixpoint inner (level : nat) (lim : Z) (m : mem) (pt : Z) : Prop :=
  match level with
  | O => True
  | S l => ∀ i, 0 ≤ i < 512 → has (entry m pt i) PTE_V = true →
             i < lim ∧ has (entry m pt i) PTE_RWX = false ∧ inner l 512 m (PTE2PA (entry m pt i))
  end.

(** Below MAXVA only half of the root's entries are used. *)
Definition top (level : nat) : Z := if decide (level = 2%nat) then 256 else 512.

(** ** Lists of lists indexed by the 512 entries *)
Section concat.
Context {A : Type}.
Implicit Types f g : Z → list A.

Definition others (i : Z) : list Z := seqZ 0 i ++ seqZ (i + 1) (511 - i).

Lemma concat_pick f i :
  0 ≤ i < 512 → concat (f <$> seqZ 0 512) ≡ₚ f i ++ concat (f <$> others i).
Proof.
  intros Hi. replace 512 with (i + (512 - i)) by lia.
  rewrite seqZ_app by lia. rewrite (seqZ_cons (0 + i)) by lia.
  unfold others. rewrite !fmap_app, fmap_cons, !concat_app. cbn [concat].
  replace (Z.succ (0 + i)) with (i + 1) by lia.
  replace (Z.pred (512 - i)) with (511 - i) by lia.
  replace (0 + i) with i by lia. solve_Permutation.
Qed.

Lemma others_ne i j : 0 ≤ i < 512 → j ∈ others i ↔ 0 ≤ j < 512 ∧ j ≠ i.
Proof. intros Hi. unfold others. rewrite elem_of_app, !elem_of_seqZ. lia. Qed.

(** Changing the list of one entry changes the concatenation there only. *)
Lemma concat_update f g i :
  0 ≤ i < 512 → (∀ j, 0 ≤ j < 512 → j ≠ i → g j = f j) →
  ∃ rest, concat (f <$> seqZ 0 512) ≡ₚ f i ++ rest ∧
          concat (g <$> seqZ 0 512) ≡ₚ g i ++ rest.
Proof.
  intros Hi Hne. exists (concat (f <$> others i)). split; [by apply concat_pick|].
  rewrite (concat_pick g i) by done.
  replace (g <$> others i) with (f <$> others i); [done|].
  apply list_fmap_ext. intros k j Hj. apply list_elem_of_lookup_2, others_ne in Hj as [??]; [|done].
  symmetry. by apply Hne.
Qed.

Lemma concat_elem f i x :
  0 ≤ i < 512 → x ∈ f i → x ∈ concat (f <$> seqZ 0 512).
Proof. intros Hi Hx. rewrite (concat_pick f i) by done. set_solver. Qed.

(** Distinct entries have disjoint lists when the concatenation has no repeats. *)
Lemma concat_disjoint f i j x :
  NoDup (concat (f <$> seqZ 0 512)) → 0 ≤ i < 512 → 0 ≤ j < 512 →
  x ∈ f i → x ∈ f j → i = j.
Proof.
  intros Hnd Hi Hj Hxi Hxj. destruct (decide (j = i)) as [|Hne]; [done|exfalso].
  rewrite (concat_pick f i) in Hnd by done. apply NoDup_app in Hnd as (_ & Hd & _).
  apply (Hd x Hxi). apply list_elem_of_In, in_concat. exists (f j).
  rewrite <- !list_elem_of_In. split; [|done].
  apply list_elem_of_fmap_2. by apply others_ne.
Qed.
End concat.

Section tables.
Implicit Types (m : mem) (l : nat).

Lemma pt_pages_S l m pt :
  pt_pages (S l) m pt = pt :: concat (kids l m pt <$> seqZ 0 512).
Proof. done. Qed.

Lemma pt_in_pages l m pt : pt ∈ pt_pages l m pt.
Proof. destruct l; cbn [pt_pages]; left. Qed.

Lemma kids_valid l m pt i :
  has (entry m pt i) PTE_V = true → kids l m pt i = pt_pages l m (PTE2PA (entry m pt i)).
Proof. unfold kids. by intros ->. Qed.

Lemma kids_elem l m pt i x :
  0 ≤ i < 512 → x ∈ kids l m pt i → x ∈ pt_pages (S l) m pt.
Proof. intros. rewrite pt_pages_S. right. by eapply concat_elem. Qed.

Lemma pt_nodup_root l m pt i x :
  NoDup (pt_pages (S l) m pt) → 0 ≤ i < 512 → x ∈ kids l m pt i → x ≠ pt.
Proof.
  rewrite pt_pages_S. intros [Hnin _]%NoDup_cons Hi Hx ->. apply Hnin. by eapply concat_elem.
Qed.

Lemma pt_nodup_kids l m pt i :
  NoDup (pt_pages (S l) m pt) → 0 ≤ i < 512 → NoDup (kids l m pt i).
Proof.
  rewrite pt_pages_S. intros [_ Hnd]%NoDup_cons Hi.
  rewrite (concat_pick _ i) in Hnd by done. by apply NoDup_app in Hnd as [? _].
Qed.

(** Entries only depend on the bytes of their page. *)
Lemma entry_ext m m' pt i :
  0 ≤ i < 512 → (∀ a, in_page a pt → rd m' a = rd m a) → entry m' pt i = entry m pt i.
Proof.
  intros Hi Hext. apply ld_ext. intros a Ha. apply Hext.
  unfold in_page, pte_addr, PGSIZE in *. lia.
Qed.

Lemma entry_st_eq m pt i v :
  0 ≤ v < 2 ^ 64 → entry (st64 m (pte_addr pt i) v) pt i = v.
Proof. intros. by apply ld_st_eq. Qed.

Lemma entry_st_ne m pt i j v : i ≠ j → entry (st64 m (pte_addr pt i) v) pt j = entry m pt j.
Proof. intros. apply ld_st_ne. unfold pte_addr. lia. Qed.

(** A subtree only depends on the bytes of its pages. *)
Lemma pt_pages_ext l m m' pt :
  (∀ p a, p ∈ pt_pages l m pt → in_page a p → rd m' a = rd m a) →
  pt_pages l m' pt = pt_pages l m pt.
Proof.
  revert pt. induction l as [|l IH]; intros pt Hext; [done|].
  rewrite !pt_pages_S. f_equal. f_equal. apply list_fmap_ext.
  intros k i Hi. apply list_elem_of_lookup_2, elem_of_seqZ in Hi. unfold kids.
  rewrite (entry_ext m m' pt i) by first [lia|intros; eapply Hext; [apply pt_in_pages|done]].
  destruct (has (entry m pt i) PTE_V) eqn:HV; [|done]. apply IH. intros p a Hp.
  apply Hext. eapply kids_elem; [|by rewrite kids_valid]. lia.
Qed.

Lemma inner_ext l lim m m' pt :
  (∀ p a, p ∈ pt_pages l m pt → in_page a p → rd m' a = rd m a) → inner l lim m pt → inner l lim m' pt.
Proof.
  revert lim pt. induction l as [|l IH]; intros lim pt Hext; [done|]. intros H i Hi.
  rewrite (entry_ext m m' pt) by first [lia|intros; eapply Hext; [apply pt_in_pages|done]]. intros HV.
  destruct (H i Hi HV) as (H1 & H2 & H3). split_and!; [done|done|]. apply IH; [|done]. intros p a Hp.
  apply Hext. eapply kids_elem; [done|by rewrite kids_valid].
Qed.

Lemma lookup_pte_ext l m m' pt va :
  (∀ p a, p ∈ pt_pages l m pt → in_page a p → rd m' a = rd m a) →
  lookup_pte l m' pt va = lookup_pte l m pt va.
Proof.
  revert pt. induction l as [|l IH]; intros pt Hext; [done|]. cbn [lookup_pte].
  pose proof (PX_range (Z.of_nat (S l)) va ltac:(lia)) as Hi.
  rewrite (entry_ext m m' pt) by first [lia|intros; eapply Hext; [apply pt_in_pages|done]].
  case_match eqn:HV; [|done]. apply IH. intros p a Hp.
  apply Hext. eapply kids_elem; [done|by rewrite kids_valid].
Qed.

(** The entry found lies in a page of the table, at index PX(0, va). *)
Lemma lookup_pte_page l m pt va a :
  lookup_pte l m pt va = Some a →
  ∃ p, p ∈ pt_pages l m pt ∧ a = pte_addr p (PX 0 va).
Proof.
  revert pt. induction l as [|l IH]; intros pt; cbn [lookup_pte].
  - intros [= <-]. exists pt. split; [apply pt_in_pages|done].
  - case_match eqn:HV; [|done]. intros (p & Hp & ->)%IH. exists p. split; [|done].
    apply (kids_elem l m pt (PX (Z.of_nat (S l)) va));
      [apply PX_range; lia|by rewrite kids_valid].
Qed.

Lemma pte_addr_in_page p va : in_page (pte_addr p (PX 0 va)) p.
Proof. pose proof (PX_range 0 va). unfold in_page, pte_addr, PGSIZE. lia. Qed.

(** Two addresses that reach the same entry agree on every index. *)
Lemma lookup_pte_inj l m pt va va' p :
  NoDup (pt_pages l m pt) → (∀ q, q ∈ pt_pages l m pt → q `mod` PGSIZE = 0) →
  lookup_pte l m pt va = Some (pte_addr p (PX 0 va)) →
  lookup_pte l m pt va' = Some (pte_addr p (PX 0 va)) →
  ∀ k, 0 ≤ k ≤ Z.of_nat l → PX k va = PX k va'.
Proof.
  revert pt. induction l as [|l IH]; intros pt Hnd Hal; cbn [lookup_pte].
  - intros [= H1] [= H2] k Hk. assert (k = 0) as -> by lia. unfold pte_addr in *. lia.
  - set (i := PX (Z.of_nat (S l)) va). set (i' := PX (Z.of_nat (S l)) va').
    assert (0 ≤ i < 512 ∧ 0 ≤ i' < 512) as [Hi Hi'] by (split; apply PX_range; lia).
    case_match eqn:HV; [|done]. case_match eqn:HV'; [|done]. intros H1 H2.
    destruct (lookup_pte_page _ _ _ _ _ H1) as (q & Hq & E1).
    destruct (lookup_pte_page _ _ _ _ _ H2) as (q' & Hq' & E2).
    rewrite <- kids_valid in Hq, Hq' by done.
    assert (q = q') as <-.
    { pose proof (Hal q (kids_elem l m pt i q Hi Hq)).
      pose proof (Hal q' (kids_elem l m pt i' q' Hi' Hq')).
      pose proof (PX_range 0 va). pose proof (PX_range 0 va').
      unfold pte_addr, PGSIZE in *. dlia. }
    assert (i = i') as Hii.
    { rewrite pt_pages_S in Hnd. apply NoDup_cons in Hnd as [_ Hnd].
      by apply (concat_disjoint (kids l m pt) i i' q). }
    intros k Hk. destruct (decide (k = Z.of_nat (S l))) as [->|]; [done|].
    rewrite <- Hii in H2.
    apply (IH (PTE2PA (entry m pt i))); [| |done|done|lia].
    + rewrite <- kids_valid by done. by apply pt_nodup_kids.
    + intros x Hx. apply Hal. apply (kids_elem l m pt i); [done|by rewrite kids_valid].
Qed.

(** ** Writing a leaf entry *)
Lemma store_leaf l m pt va a v :
  NoDup (pt_pages l m pt) → (∀ q, q ∈ pt_pages l m pt → q `mod` PGSIZE = 0) →
  lookup_pte l m pt va = Some a →
  pt_pages l (st64 m a v) pt = pt_pages l m pt ∧
  (∀ va', lookup_pte l (st64 m a v) pt va' = lookup_pte l m pt va') ∧
  ∀ lim, inner l lim m pt → inner l lim (st64 m a v) pt.
Proof.
  revert pt. induction l as [|l IH]; intros pt Hnd Hal; cbn [lookup_pte]; [done|].
  set (i := PX (Z.of_nat (S l)) va).
  assert (0 ≤ i < 512) as Hi by (apply PX_range; lia).
  case_match eqn:HV; [|done]. intros Ha.
  destruct (lookup_pte_page _ _ _ _ _ Ha) as (q & Hq & ->).
  rewrite <- kids_valid in Hq by done.
  assert (∀ p x, p ∈ pt_pages (S l) m pt → p ≠ q → in_page x p →
            rd (st64 m (pte_addr q (PX 0 va)) v) x = rd m x) as Hfr.
  { intros p x Hp Hpq Hx. apply rd_st_out.
    pose proof (Hal p Hp). pose proof (Hal q (kids_elem l m pt i q Hi Hq)).
    pose proof (PX_range 0 va). unfold in_page, pte_addr, PGSIZE in *. dlia. }
  assert (∀ j, 0 ≤ j < 512 →
            entry (st64 m (pte_addr q (PX 0 va)) v) pt j = entry m pt j) as Hent.
  { intros j Hj. apply entry_ext; [done|]. intros x Hx. apply (Hfr pt); [apply pt_in_pages| |done].
    apply not_eq_sym, (pt_nodup_root l m pt i q Hnd Hi Hq). }
  destruct (IH (PTE2PA (entry m pt i))) as (IHp & IHl & IHi); [| |done|].
  { rewrite <- kids_valid by done. by apply pt_nodup_kids. }
  { intros x Hx. apply Hal. apply (kids_elem l m pt i); [done|by rewrite kids_valid]. }
  (* subtrees other than that of entry [i] do not contain page [q] *)
  assert (∀ j p x, 0 ≤ j < 512 → j ≠ i → p ∈ kids l m pt j → in_page x p →
            rd (st64 m (pte_addr q (PX 0 va)) v) x = rd m x) as Hoth.
  { intros j p x Hj Hne Hp. apply Hfr; [by apply (kids_elem l m pt j)|]. intros ->. apply Hne.
    rewrite pt_pages_S in Hnd. apply NoDup_cons in Hnd as [_ Hnd].
    by apply (concat_disjoint (kids l m pt) j i q). }
  split_and!.
  - rewrite !pt_pages_S. do 2 f_equal. apply list_fmap_ext.
    intros k j Hj. apply list_elem_of_lookup_2, elem_of_seqZ in Hj. unfold kids.
    rewrite Hent by lia. destruct (has (entry m pt j) PTE_V) eqn:HVj; [|done].
    destruct (decide (j = i)) as [->|Hne]; [done|]. apply pt_pages_ext.
    intros p x Hp. apply (Hoth j); [lia|done|by rewrite kids_valid].
  - intros va'. assert (0 ≤ PX (Z.of_nat (S l)) va' < 512) as Hj by (apply PX_range; lia).
    rewrite Hent by done. case_match eqn:HVj; [|done].
    destruct (decide (PX (Z.of_nat (S l)) va' = i)) as [->|Hne]; [apply IHl|].
    apply lookup_pte_ext. intros p x Hp. by apply (Hoth (PX (Z.of_nat (S l)) va')); [..|rewrite kids_valid].
  - intros lim Hin j Hj. rewrite Hent by done. intros HVj. destruct (Hin j Hj HVj) as (H1 & H2 & H3).
    split_and!; [done|done|]. destruct (decide (j = i)) as [->|Hne]; [by apply IHi|].
    eapply inner_ext; [|exact H3]. intros p x Hp. apply (Hoth j); [done|done|by rewrite kids_valid].
Qed.

Lemma leafv_store l m pt va va' a v :
  NoDup (pt_pages l m pt) → (∀ q, q ∈ pt_pages l m pt → q `mod` PGSIZE = 0) →
  lookup_pte l m pt va = Some a → 0 ≤ v < 2 ^ 64 →
  leafv l (st64 m a v) pt va' =
    if bool_decide (lookup_pte l m pt va' = Some a) then v else leafv l m pt va'.
Proof.
  intros Hnd Hal Ha Hv. destruct (store_leaf l m pt va a v Hnd Hal Ha) as (_ & Hl & _).
  unfold leafv. rewrite Hl. destruct (lookup_pte l m pt va') as [a'|] eqn:Ha'; [|done].
  destruct (lookup_pte_page _ _ _ _ _ Ha) as (q & Hq & ->).
  destruct (lookup_pte_page _ _ _ _ _ Ha') as (q' & Hq' & ->).
  case_bool_decide as E; [injection E as ->; by apply ld_st_eq|].
  apply ld_st_ne. pose proof (Hal q Hq). pose proof (Hal q' Hq').
  pose proof (PX_range 0 va). pose proof (PX_range 0 va').
  assert (pte_addr q' (PX 0 va') ≠ pte_addr q (PX 0 va)) by congruence.
  unfold pte_addr, PGSIZE in *. dlia.
Qed.
End tables.

(** ** Adding a page-table page *)
Section grow.
Implicit Types (m : mem) (l : nat).

Lemma zero_entry m p i :
  0 ≤ i < 512 → (∀ a, in_page a p → rd m a = 0) → entry m p i = 0.
Proof.
  intros Hi H. apply ld_zero. intros a Ha. apply H. unfold in_page, pte_addr, PGSIZE in *. lia.
Qed.

Lemma zero_table l m p :
  (∀ a, in_page a p → rd m a = 0) →
  pt_pages l m p = [p] ∧ (∀ va, leafv l m p va = 0) ∧ ∀ lim, inner l lim m p.
Proof.
  intros H. destruct l as [|l].
  - split_and!; [done| |done]. intros va. apply (zero_entry m p (PX 0 va)); [by apply PX_range|done].
  - split_and!; [| |intros lim i Hi; by rewrite zero_entry, has_0].
    + rewrite pt_pages_S. f_equal. apply concat_nil_Forall, Forall_fmap, Forall_forall.
      intros i Hi%elem_of_seqZ. cbn. unfold kids. by rewrite zero_entry, has_0 by (done || lia).
    + intros va. unfold leafv. cbn [lookup_pte].
      rewrite zero_entry by (done || (apply PX_range; lia)). by rewrite has_0.
Qed.

Lemma leafv_S l m pt va :
  leafv (S l) m pt va =
    let v := entry m pt (PX (Z.of_nat (S l)) va) in
    if has v PTE_V then leafv l m (PTE2PA v) va else 0.
Proof. unfold leafv. cbn [lookup_pte]. by destruct (has (entry m pt (PX (Z.of_nat (S l)) va)) PTE_V). Qed.

Lemma leafv_ext l m m' pt va :
  (∀ p a, p ∈ pt_pages l m pt → in_page a p → rd m' a = rd m a) →
  leafv l m' pt va = leafv l m pt va.
Proof.
  intros Hext. unfold leafv. rewrite (lookup_pte_ext l m m') by done.
  destruct (lookup_pte l m pt va) as [a|] eqn:Ha; [|done].
  destruct (lookup_pte_page _ _ _ _ _ Ha) as (q & Hq & ->).
  apply ld_ext. intros x Hx. apply (Hext q); [done|].
  pose proof (PX_range 0 va). unfold in_page, pte_addr, PGSIZE in *. lia.
Qed.

(** The table below entry [i] changes from [Tc] to [Tc'], nothing else does. *)
Lemma subtree_update l m m' pt i :
  0 ≤ i < 512 → NoDup (pt_pages (S l) m pt) →
  (∀ j, 0 ≤ j < 512 → j ≠ i → entry m' pt j = entry m pt j) →
  (∀ p a, p ∈ pt_pages (S l) m pt → p ≠ pt → p ∉ kids l m pt i → in_page a p →
     rd m' a = rd m a) →
  (∃ rest, pt_pages (S l) m pt ≡ₚ kids l m pt i ++ rest ∧
           pt_pages (S l) m' pt ≡ₚ kids l m' pt i ++ rest) ∧
  (∀ va, PX (Z.of_nat (S l)) va ≠ i → leafv (S l) m' pt va = leafv (S l) m pt va) ∧
  ∀ lim, (has (entry m' pt i) PTE_V = true → i < lim ∧ has (entry m' pt i) PTE_RWX = false ∧
            inner l 512 m' (PTE2PA (entry m' pt i))) → inner (S l) lim m pt → inner (S l) lim m' pt.
Proof.
  intros Hi Hnd Hent Hfr.
  assert (∀ j p a, 0 ≤ j < 512 → j ≠ i → p ∈ kids l m pt j → in_page a p →
            rd m' a = rd m a) as Hoth.
  { intros j p a Hj Hne Hp. apply Hfr; [by apply (kids_elem l m pt j)| |].
    - by apply (pt_nodup_root l m pt j).
    - intros Hp'. apply Hne. rewrite pt_pages_S in Hnd. apply NoDup_cons in Hnd as [_ Hnd].
      by apply (concat_disjoint (kids l m pt) j i p). }
  assert (∀ j, 0 ≤ j < 512 → j ≠ i → kids l m' pt j = kids l m pt j) as Hkids.
  { intros j Hj Hne. unfold kids. rewrite Hent by done.
    destruct (has (entry m pt j) PTE_V) eqn:HV; [|done]. apply pt_pages_ext.
    intros p a Hp. apply (Hoth j); [done|done|by rewrite kids_valid]. }
  split_and!.
  - destruct (concat_update (kids l m pt) (kids l m' pt) i Hi) as (rest & H1 & H2).
    { intros j Hj Hne. by rewrite Hkids. }
    exists (pt :: rest). rewrite !pt_pages_S, H1, H2. split; solve_Permutation.
  - intros va Hne. rewrite !leafv_S. cbn zeta.
    assert (0 ≤ PX (Z.of_nat (S l)) va < 512) by (apply PX_range; lia).
    rewrite Hent by done. destruct (has (entry m pt _) PTE_V) eqn:HV; [|done].
    apply leafv_ext. intros p a Hp.
    apply (Hoth (PX (Z.of_nat (S l)) va)); [done|done|by rewrite kids_valid].
  - intros lim Hnew Hin j Hj. destruct (decide (j = i)) as [->|Hne]; [done|]. rewrite Hent by done. intros HV.
    destruct (Hin j Hj HV) as (? & ? & ?). split_and!; [done|done|]. eapply inner_ext; [|done].
    intros p a Hp. apply (Hoth j); [done|done|by rewrite kids_valid].
Qed.

Definition pte_of_table (p : Z) : Z := Z.lor (PA2PTE p) PTE_V.

Lemma pte_of_table_ok p :
  0 ≤ p < 2 ^ 56 → p `mod` PGSIZE = 0 →
  0 ≤ pte_of_table p < 2 ^ 64 ∧ has (pte_of_table p) PTE_V = true ∧
  PTE2PA (pte_of_table p) = p ∧ has (pte_of_table p) PTE_RWX = false.
Proof.
  intros Hp Ha. unfold pte_of_table. change PTE_V with 1.
  split_and!.
  - pose proof (pack_range p 1 Hp). lia.
  - pose proof (pack_range p 1 Hp). lia.
  - by rewrite has_pack.
  - by apply PTE2PA_pack.
  - by rewrite has_pack.
Qed.

(** Linking a zeroed page under an invalid entry keeps every leaf. *)
Lemma link_table l m m0 pt i p :
  0 ≤ i < 512 → NoDup (p :: pt_pages (S l) m pt) →
  (∀ q, q ∈ pt_pages (S l) m pt → q `mod` PGSIZE = 0) →
  0 ≤ p < 2 ^ 56 → p `mod` PGSIZE = 0 →
  has (entry m pt i) PTE_V = false →
  (∀ a, in_page a p → rd m0 a = 0) → (∀ a, ¬ in_page a p → rd m0 a = rd m a) →
  let m1 := st64 m0 (pte_addr pt i) (pte_of_table p) in
  entry m1 pt i = pte_of_table p ∧
  pt_pages l m1 p = [p] ∧
  pt_pages (S l) m1 pt ≡ₚ p :: pt_pages (S l) m pt ∧
  (∀ va, leafv (S l) m1 pt va = leafv (S l) m pt va) ∧
  ∀ lim, i < lim → inner (S l) lim m pt → inner (S l) lim m1 pt.
Proof.
  intros Hi Hnd Hal Hp Hpal HV Hz Hout m1.
  apply NoDup_cons in Hnd as [Hnin Hnd].
  destruct (pte_of_table_ok p Hp Hpal) as (Hr & HV1 & Hpa & Hrwx).
  assert (∀ q, q ∈ pt_pages (S l) m pt → q ≠ p ∧ q `mod` PGSIZE = 0) as Hq
    by (intros q Hq; split; [by intros ->|by apply Hal]).
  assert (∀ q a, q ∈ pt_pages (S l) m pt → in_page a q → ¬ in_page a p) as Hdisj.
  { intros q a Hq'. destruct (Hq q Hq') as [??]. unfold in_page, PGSIZE in *. dlia. }
  destruct (Hq pt (pt_in_pages _ _ _)) as [Hptp Hptal].
  assert (entry m1 pt i = pte_of_table p) as He by (by apply entry_st_eq).
  assert (∀ a, in_page a p → rd m1 a = 0) as Hz1.
  { intros a Ha. unfold m1. rewrite rd_st_out; [by apply Hz|].
    unfold in_page, pte_addr, PGSIZE in *. dlia. }
  destruct (zero_table l m1 p Hz1) as (Hzp & Hzl & Hzi).
  destruct (subtree_update l m m1 pt i) as [(rest & H1 & H2) [Hl Hin]]; [done|done| | |].
  { intros j Hj Hne. unfold m1. rewrite entry_st_ne by done. apply entry_ext; [done|].
    intros a Ha. apply Hout. eapply Hdisj; [apply pt_in_pages|done]. }
  { intros q a Hq' Hqpt _ Ha. unfold m1. rewrite rd_st_out.
    - apply Hout. by eapply Hdisj.
    - pose proof (Hal q Hq'). unfold in_page, pte_addr, PGSIZE in *. dlia. }
  split_and!; [done|done| | |intros lim Hlim; apply Hin; rewrite He, Hpa; intros _; by split_and!].
  - rewrite H2, H1. unfold kids. rewrite He, HV1, Hpa, Hzp, HV. done.
  - intros va. destruct (decide (PX (Z.of_nat (S l)) va = i)) as [Hi'|]; [|by apply Hl].
    rewrite !leafv_S. cbn zeta. by rewrite Hi', He, HV1, Hpa, HV, Hzl.
Qed.
End grow.

Arguments pt_pages : simpl never.

(** ** walk *)
Section walk.
Context (end_ : Z) (end_pos : 0 < end_).
Implicit Types (s : kst) (fl : list Z) (lv : nat).
Abbreviation kinv := (kinv end_).
Abbreviation page_ok := (page_ok end_).

Record twf lv pt s fl : Prop := {
  tw_kinv : kinv s fl;
  tw_pages : Forall page_ok (pt_pages lv (k_mem s) pt);
  tw_nodup : NoDup (pt_pages lv (k_mem s) pt ++ fl)
}.

(** What allocating page-table pages for the table at [pt] may change. *)
Record grown lv pt s fl s' fl' : Prop := {
  g_kinv : kinv s' fl';
  g_hart : hart_same (k_hart s) (k_hart s');
  g_perm : pt_pages lv (k_mem s') pt ++ fl' ≡ₚ pt_pages lv (k_mem s) pt ++ fl;
  g_leaf va : leafv lv (k_mem s') pt va = leafv lv (k_mem s) pt va;
  g_frame a : (∀ p, p ∈ pt_pages lv (k_mem s) pt ++ fl → ¬ in_page a p) →
              rd (k_mem s') a = rd (k_mem s) a;
  g_inner : inner lv (top lv) (k_mem s) pt → inner lv (top lv) (k_mem s') pt
}.

Lemma twf_aligned lv pt s fl q :
  twf lv pt s fl → q ∈ pt_pages lv (k_mem s) pt → q `mod` PGSIZE = 0.
Proof. intros [_ Hp _] Hq. rewrite Forall_forall in Hp. by apply Hp. Qed.

Lemma twf_all_pages lv pt s fl : twf lv pt s fl → Forall page_ok (pt_pages lv (k_mem s) pt ++ fl).
Proof. intros [Hk Hp _]. apply Forall_app. split; [done|apply Hk]. Qed.

Lemma grown_refl lv pt s fl : twf lv pt s fl → grown lv pt s fl s fl.
Proof. intros [Hk _ _]. split; auto with hart. Qed.

Lemma grown_twf lv pt s fl s' fl' :
  twf lv pt s fl → grown lv pt s fl s' fl' → twf lv pt s' fl'.
Proof.
  intros Ht Hg. pose proof (twf_all_pages _ _ _ _ Ht) as Hall. split.
  - apply Hg.
  - rewrite <- (g_perm _ _ _ _ _ _ Hg) in Hall. by apply Forall_app in Hall as [? _].
  - rewrite (g_perm _ _ _ _ _ _ Hg). apply Ht.
Qed.

Lemma grown_trans lv pt s fl s' fl' s'' fl'' :
  twf lv pt s fl → grown lv pt s fl s' fl' → grown lv pt s' fl' s'' fl'' →
  grown lv pt s fl s'' fl''.
Proof.
  intros Ht [Hk Hh Hp Hl Hf Hi] [Hk' Hh' Hp' Hl' Hf' Hi']. split; [done| | | | |auto].
  - eapply hart_same_trans; [apply (ki_hart _ _ _ (tw_kinv _ _ _ _ Ht))|done|done].
  - by rewrite Hp'.
  - intros va. by rewrite Hl'.
  - intros a Ha. rewrite Hf'; [by apply Hf|]. intros p Hin. apply Ha. by rewrite <- Hp.
Qed.

(** Changing memory outside the free pages keeps the free list. *)
Lemma kinv_mem s fl m' :
  kinv s fl → (∀ p a, p ∈ fl → in_page a p → rd m' a = rd (k_mem s) a) →
  kinv (Kst (k_hart s) (k_lock s) (freelist s) m') fl.
Proof.
  intros [Hh Hl Hc Hp Hn] Hm. split; cbn; try done. by eapply chain_ext.
Qed.

Lemma walk_from_noalloc lv pt va s :
  walk_from lv pt va false s = Ok (default 0 (lookup_pte lv (k_mem s) pt va)) s.
Proof.
  revert pt. induction lv as [|lv IH]; intros pt; [done|].
  cbn [walk_from lookup_pte]. unfold load64, bind, gets. fold (entry (k_mem s) pt).
  destruct (has _ PTE_V) eqn:HV; [|done]. apply IH.
Qed.

(** walk allocates nothing where the tables already exist. *)
Lemma walk_from_found lv pt va alloc s a :
  lookup_pte lv (k_mem s) pt va = Some a → walk_from lv pt va alloc s = Ok a s.
Proof.
  revert pt. induction lv as [|lv IH]; intros pt; [by intros [= <-]|].
  cbn [walk_from lookup_pte]. unfold load64, bind, gets. fold (entry (k_mem s) pt).
  destruct (has _ PTE_V) eqn:HV; [|done]. apply IH.
Qed.

(** Growth inside the table below entry [i] is growth of the whole table. *)
Lemma grown_descend lv pt s fl s' fl' i :
  0 ≤ i < 512 → (lv < 2)%nat → twf (S lv) pt s fl → has (entry (k_mem s) pt i) PTE_V = true →
  grown lv (PTE2PA (entry (k_mem s) pt i)) s fl s' fl' →
  grown (S lv) pt s fl s' fl' ∧ entry (k_mem s') pt i = entry (k_mem s) pt i.
Proof.
  intros Hi Hlv Ht HV [Hk Hh Hp Hl Hf Hinl]. rewrite <- kids_valid in Hp, Hf by done.
  pose proof (twf_all_pages _ _ _ _ Ht) as Hall. rewrite Forall_forall in Hall.
  pose proof (tw_nodup _ _ _ _ Ht) as Hnd.
  set (c := PTE2PA (entry (k_mem s) pt i)) in *.
  assert (∀ p a, p ∈ pt_pages (S lv) (k_mem s) pt → p ∉ kids lv (k_mem s) pt i →
            in_page a p → rd (k_mem s') a = rd (k_mem s) a) as Hfr.
  { intros p a Hin Hnk Ha. apply Hf. intros q Hq.
    assert (q ∈ pt_pages (S lv) (k_mem s) pt ++ fl) as Hq'.
    { rewrite elem_of_app in Hq |- *. destruct Hq; [left|by right].
      by apply (kids_elem lv (k_mem s) pt i). }
    assert (p ≠ q) as Hpq.
    { intros ->. apply elem_of_app in Hq as [Hq|Hq]; [done|].
      apply NoDup_app in Hnd as (_ & Hd & _). by apply (Hd q). }
    eapply page_disjoint; [apply Hall; rewrite elem_of_app; by left|by apply Hall|done|done]. }
  apply NoDup_app in Hnd as (Hndp & _ & _).
  assert (∀ j, 0 ≤ j < 512 → entry (k_mem s') pt j = entry (k_mem s) pt j) as Hent.
  { intros j Hj. apply entry_ext; [done|]. intros a. apply Hfr; [apply pt_in_pages|].
    intros Hin. by apply (pt_nodup_root lv (k_mem s) pt i pt). }
  destruct (subtree_update lv (k_mem s) (k_mem s') pt i) as [(rest & H1 & H2) [Hlne Hinn]];
    [done|done|auto|intros p a Hin _; by apply Hfr|].
  split; [|by apply Hent]. split; [done|done| | | |].
  - rewrite H2, H1. rewrite kids_valid by (by rewrite Hent). rewrite Hent by done. fold c.
    rewrite <- !app_assoc, (Permutation_app_comm rest), (Permutation_app_comm rest), !app_assoc.
    by rewrite Hp.
  - intros va. destruct (decide (PX (Z.of_nat (S lv)) va = i)) as [E|]; [|by apply Hlne].
    rewrite !leafv_S. cbn zeta. rewrite E, Hent, HV by done. apply Hl.
  - intros a Ha. apply Hf. intros p Hp'. apply Ha.
    rewrite elem_of_app in Hp' |- *. destruct Hp'; [left|by right].
    by apply (kids_elem lv (k_mem s) pt i).
  - intros H. apply Hinn; [|done]. rewrite Hent by done. intros _. destruct (H i Hi HV) as (? & ? & Hkid).
    split_and!; [done|done|]. unfold top in Hinl. rewrite decide_False in Hinl by lia. by apply Hinl.
Qed.

(** The allocating branch of one level: kalloc, zero, link. *)
Lemma walk_alloc_level lv pt s p fl i :
  0 ≤ i < 512 → i < top (S lv) → twf (S lv) pt s (p :: fl) → has (entry (k_mem s) pt i) PTE_V = false →
  wp (do q <- kalloc;
      zoom kmem_mem (memset q 0 PGSIZE) ;;
      store64 (pte_addr pt i) (pte_of_table q) ;; ret q)
     (λ q s', q = p ∧ grown (S lv) pt s (p :: fl) s' fl ∧
              entry (k_mem s') pt i = pte_of_table p) s.
Proof.
  intros Hi Htop Ht HV. pose proof (tw_kinv _ _ _ _ Ht) as Hk.
  pose proof (twf_all_pages _ _ _ _ Ht) as Hall. rewrite Forall_forall in Hall.
  pose proof (tw_nodup _ _ _ _ Ht) as Hnd.
  assert (page_ok p) as Hpok by (apply Hall; rewrite elem_of_app; right; by left).
  destruct (page_ok_range _ end_pos _ Hpok) as (Hp0 & _ & Hp56).
  wp_step. wp_call (kalloc_some end_ end_pos p s fl); [done|].
  intros q s0 (-> & Hk0 & Hh0 & Hlk & Hm0). wp_step. wp_step. cbn.
  wp_call memset_rd. intros _ m1 [_ Hm1]. unfold store64. wp_steps. cbn.
  assert (NoDup (p :: pt_pages (S lv) (k_mem s) pt)) as Hndp.
  { rewrite (Permutation_app_comm _ (p :: fl)) in Hnd. cbn [app] in Hnd.
    apply NoDup_cons in Hnd as [Hnin Hnd]. apply NoDup_app in Hnd as (_ & _ & Hnd).
    constructor; [|done]. intros Hin. apply Hnin. rewrite elem_of_app. by right. }
  destruct (link_table lv (k_mem s) m1 pt i p) as (He & _ & Hperm & Hleaf & Hinner); try done.
  { intros q. by apply (twf_aligned _ _ _ _ q Ht). }
  { lia. }
  { apply Hpok. }
  { intros a Ha. rewrite Hm1. by rewrite decide_True. }
  { intros a Ha. rewrite Hm1, Hm0. by rewrite !decide_False. }
  split_and!; [done| |done].
  assert (∀ a, (∀ q, q ∈ pt_pages (S lv) (k_mem s) pt ++ p :: fl → ¬ in_page a q) →
            rd (st64 m1 (pte_addr pt i) (pte_of_table p)) a = rd (k_mem s) a) as Hframe.
  { intros a Ha. rewrite rd_st_out.
    - rewrite Hm1, Hm0. rewrite !decide_False; [done|..]; apply Ha; rewrite elem_of_app;
        right; by left.
    - assert (¬ in_page a pt) as Hnpt by (apply Ha; rewrite elem_of_app; left; apply pt_in_pages).
      unfold in_page, pte_addr, PGSIZE in *. lia. }
  split; cbn.
  - apply (kinv_mem s0 fl); [done|]. intros q a Hq Ha.
    assert (q ≠ p ∧ q ≠ pt) as [Hqp Hqpt].
    { apply NoDup_app in Hnd as (_ & Hd & Hnd). apply NoDup_cons in Hnd as [Hnin _].
      split; intros ->; [done|]. apply (Hd pt); [apply pt_in_pages|by right]. }
    assert (page_ok q) as Hqok by (apply Hall; rewrite elem_of_app; right; by right).
    assert (page_ok pt) as Hptok by (apply Hall; rewrite elem_of_app; left; apply pt_in_pages).
    pose proof (page_disjoint end_ q p a Hqok Hpok Hqp Ha).
    pose proof (page_disjoint end_ q pt a Hqok Hptok Hqpt Ha).
    rewrite rd_st_out by (unfold in_page, pte_addr, PGSIZE in *; lia).
    rewrite Hm1. by rewrite decide_False.
  - rewrite Hh0. auto with hart.
  - rewrite Hperm. apply Permutation_middle.
  - done.
  - done.
  - by apply Hinner.
Qed.

Lemma pte_addr_pos lv pt s fl va a :
  twf lv pt s fl → lookup_pte lv (k_mem s) pt va = Some a → 0 < a.
Proof.
  intros Ht (q & Hq & ->)%lookup_pte_page. pose proof (tw_pages _ _ _ _ Ht) as Hp.
  rewrite Forall_forall in Hp. pose proof (page_ok_range _ end_pos _ (Hp _ Hq)).
  pose proof (PX_range 0 va). unfold pte_addr. lia.
Qed.

Lemma walk_from_alloc lv pt va s fl :
  (lv <= 2)%nat → PX (Z.of_nat lv) va < top lv → twf lv pt s fl →
  wp (walk_from lv pt va true)
     (λ r s', ∃ fl', grown lv pt s fl s' fl' ∧
        (r = 0 → fl' = []) ∧
        (r ≠ 0 → lookup_pte lv (k_mem s') pt va = Some r) ∧
        (length fl <= length fl' + lv)%nat ∧ (r = 0 → (length fl < lv)%nat)) s.
Proof.
  revert pt s fl. induction lv as [|lv IH]; intros pt s fl Hlv Htop Ht.
  { cbn [walk_from]. wp_step. exists fl.
    pose proof (pte_addr_pos 0 pt s fl va (pte_addr pt (PX 0 va)) Ht eq_refl). split_and!; [by apply grown_refl|lia|done|lia|lia]. }
  cbn [walk_from]. set (i := PX (Z.of_nat (S lv)) va).
  assert (0 ≤ i < 512) as Hi by (apply PX_range; lia).
  (* once the entry is valid, descend *)
  assert (PX (Z.of_nat lv) va < top lv) as Htop'.
  { pose proof (PX_range (Z.of_nat lv) va ltac:(lia)). unfold top. rewrite decide_False by lia. lia. }
  assert (∀ s1 fl1, grown (S lv) pt s fl s1 fl1 → has (entry (k_mem s1) pt i) PTE_V = true →
    wp (walk_from lv (PTE2PA (entry (k_mem s1) pt i)) va true)
       (λ r s', ∃ fl', grown (S lv) pt s fl s' fl' ∧ (r = 0 → fl' = []) ∧
          (r ≠ 0 → lookup_pte (S lv) (k_mem s') pt va = Some r) ∧
          (length fl1 <= length fl' + lv)%nat ∧ (r = 0 → (length fl1 < lv)%nat)) s1) as Hdesc.
  { intros s1 fl1 Hg1 HV1. pose proof (grown_twf _ _ _ _ _ _ Ht Hg1) as Ht1.
    wp_call (IH _ s1 fl1); [lia|done| |].
    - split; [apply Ht1| |]; rewrite <- (kids_valid lv) by done.
      + pose proof (tw_pages _ _ _ _ Ht1) as Hp. rewrite Forall_forall in Hp |- *.
        intros x Hx. apply Hp. by apply (kids_elem lv (k_mem s1) pt i).
      + pose proof (tw_nodup _ _ _ _ Ht1) as Hn.
        apply NoDup_app in Hn as (Hn1 & Hd & Hn2). apply NoDup_app. split_and!; [|.. |done].
        * by apply pt_nodup_kids.
        * intros x Hx. apply Hd. by apply (kids_elem lv (k_mem s1) pt i).
    - intros r s2 (fl2 & Hg2 & Hr0 & Hr & Hc).
      destruct (grown_descend lv pt s1 fl1 s2 fl2 i Hi ltac:(lia) Ht1 HV1 Hg2) as [Hg12 He].
      exists fl2. split_and!; [by eapply grown_trans|done| |apply Hc|apply Hc]. intros Hne.
      cbn [lookup_pte]. fold i. rewrite He, HV1. by apply Hr. }
  unfold load64. wp_steps. fold (entry (k_mem s) pt i).
  destruct (has (entry (k_mem s) pt i) PTE_V) eqn:HV.
  { eapply wp_mono; [apply (Hdesc s fl); [by apply grown_refl|done]|].
    intros r s' (fl' & ? & ? & ? & ? & Hr). exists fl'. split_and!; [done|done|done|lia|]. intros E. specialize (Hr E). lia. }
  cbn [negb]. pose proof (tw_kinv _ _ _ _ Ht) as Hk. destruct fl as [|p fl].
  - wp_step. wp_call (kalloc_none end_ s); [done|]. intros r s1 (-> & Hk1 & Hh1 & _ & Hm1). cbn.
    wp_step. exists []. split_and!; [|done|done|cbn; lia|cbn; lia].
    split; rewrite ?Hm1; auto. rewrite Hh1. auto with hart.
  - assert (p ≠ 0) as Hp0.
    { pose proof (twf_all_pages _ _ _ _ Ht) as Hall. rewrite Forall_forall in Hall.
      pose proof (page_ok_range _ end_pos p (Hall p ltac:(rewrite elem_of_app; right; by left))). lia. }
    pose proof (walk_alloc_level lv pt s p fl i Hi Htop Ht HV) as Hw.
    unfold wp, bind in Hw |- *. destruct (kalloc s) as [q s0|]; [|done].
    destruct (zoom kmem_mem (memset q 0 PGSIZE) s0) as [? s1|] eqn:E1; [|done].
    destruct (store64 (pte_addr pt i) (pte_of_table q) s1) as [? s2|] eqn:E2; [|done].
    cbn in Hw. destruct Hw as (-> & Hg & He). rewrite (proj2 (Z.eqb_neq p 0)) by done.
    rewrite E1. fold (pte_of_table p). rewrite E2.
    destruct (pte_of_table_ok p) as (_ & HV2 & Hpa & _).
    { pose proof (twf_all_pages _ _ _ _ Ht) as Hall. rewrite Forall_forall in Hall.
      pose proof (page_ok_range _ end_pos p (Hall p ltac:(rewrite elem_of_app; right; by left))). lia. }
    { apply (twf_all_pages _ _ _ _) in Ht. rewrite Forall_forall in Ht.
      apply (Ht p). rewrite elem_of_app. right. by left. }
    specialize (Hdesc s2 fl Hg). rewrite He, Hpa in Hdesc.
    eapply wp_mono; [by apply Hdesc|]. intros r s' (fl' & ? & ? & ? & ? & Hr). exists fl'. cbn [length].
    split_and!; [done|done|done|lia|]. intros E. specialize (Hr E). lia.
Qed.
End walk.
