(* ===== verification/VmOps.v ===== *)
(** * The operations of kernel/vm.c on abstract page tables

    For the three-level table at [root]: what mappages, walkaddr and uvmunmap do
    to [leaf], to the free list and to the rest of memory. *)
From S2P Require Import Prelude Memory KString Riscv Spinlock Kalloc Vm VmSpec.

Section ops.
Context (end_ : Z) (end_pos : 0 < end_).
Implicit Types (s : kst) (fl : list Z).
Abbreviation kinv := (kinv end_).
Abbreviation page_ok := (page_ok end_).
Abbreviation twf := (twf end_ 2).
Abbreviation tables m root := (pt_pages 2 m root).

(** What an operation on the table at [root] may do besides changing leaves. *)
Record tstep root s fl s' fl' : Prop := {
  t_kinv : kinv s' fl';
  t_hart : hart_same (k_hart s) (k_hart s');
  t_perm : tables (k_mem s') root ++ fl' ≡ₚ tables (k_mem s) root ++ fl;
  t_frame a : (∀ p, p ∈ tables (k_mem s) root ++ fl → ¬ in_page a p) →
              rd (k_mem s') a = rd (k_mem s) a;
  t_inner : inner 2 256 (k_mem s) root → inner 2 256 (k_mem s') root
}.

Lemma grown_tstep root s fl s' fl' :
  grown end_ 2 root s fl s' fl' → tstep root s fl s' fl'.
Proof. intros [????? H]. by split. Qed.

Lemma tstep_refl root s fl : twf root s fl → tstep root s fl s fl.
Proof. intros [??]. split; auto with hart. Qed.

Lemma tstep_twf root s fl s' fl' : twf root s fl → tstep root s fl s' fl' → twf root s' fl'.
Proof.
  intros Ht [Hk _ Hp _ _]. pose proof (twf_all_pages _ _ _ _ _ Ht) as Hall. split; [done| |].
  - rewrite <- Hp in Hall. by apply Forall_app in Hall as [? _].
  - rewrite Hp. apply Ht.
Qed.

Lemma tstep_trans root s fl s' fl' s'' fl'' :
  twf root s fl → tstep root s fl s' fl' → tstep root s' fl' s'' fl'' →
  tstep root s fl s'' fl''.
Proof.
  intros Ht [Hk Hh Hp Hf Hi] [Hk' Hh' Hp' Hf' Hi']. split; [done| | | |auto].
  - eapply hart_same_trans; [apply (ki_hart _ _ _ (tw_kinv _ _ _ _ _ Ht))|done|done].
  - by rewrite Hp'.
  - intros a Ha. rewrite Hf'; [by apply Hf|]. intros p Hin. apply Ha. by rewrite <- Hp.
Qed.

(** ** Addresses in the same page *)
Definition page_of (va : Z) : Z := va `div` PGSIZE.

Lemma lookup_pte_PX lv m pt va va' :
  (∀ k, 0 ≤ k ≤ Z.of_nat lv → PX k va = PX k va') →
  lookup_pte lv m pt va = lookup_pte lv m pt va'.
Proof.
  revert pt. induction lv as [|lv IH]; intros pt H; cbn [lookup_pte].
  - by rewrite (H 0).
  - rewrite (H (Z.of_nat (S lv))) by lia. case_match; [|done]. apply IH. intros. apply H. lia.
Qed.

Lemma PX_page_of va va' k : 0 ≤ k → page_of va = page_of va' → PX k va = PX k va'.
Proof.
  intros Hk Hp. rewrite !PX_eq by done. unfold PXSHIFT, PGSHIFT, page_of, PGSIZE in *.
  rewrite Z.pow_add_r, <- !Z.div_div by lia. change (2 ^ 12) with 4096. by rewrite Hp.
Qed.

Lemma page_of_PX va va' :
  0 ≤ va < MAXVA → 0 ≤ va' < MAXVA → (∀ k, 0 ≤ k ≤ 2 → PX k va = PX k va') →
  page_of va = page_of va'.
Proof.
  intros Hva Hva' H. pose proof (va_decompose va Hva) as E. pose proof (va_decompose va' Hva') as E'.
  rewrite (H 0), (H 1), (H 2) in E by lia. unfold page_of, PGSIZE in *. dlia.
Qed.

Lemma leaf_page_of m root va va' : page_of va = page_of va' → leaf m root va = leaf m root va'.
Proof.
  intros H. unfold leaf, leafv. rewrite (lookup_pte_PX 2 m root va va'); [done|].
  intros. apply PX_page_of; [lia|done].
Qed.

(** ** Storing into the entry that walk returned *)
Lemma store_entry root s fl va pte v :
  twf root s fl → 0 ≤ va < MAXVA → 0 ≤ v < 2 ^ 64 →
  lookup_pte 2 (k_mem s) root va = Some pte →
  wp (store64 pte v) (λ _ s', k_mem s' = st64 (k_mem s) pte v ∧
    tstep root s fl s' fl ∧ tables (k_mem s') root = tables (k_mem s) root ∧
    ∀ va', 0 ≤ va' < MAXVA →
      leaf (k_mem s') root va' =
        if decide (page_of va' = page_of va) then v else leaf (k_mem s) root va') s.
Proof.
  intros Ht Hva Hv Hpte. pose proof (tw_nodup _ _ _ _ _ Ht) as Hnd.
  apply NoDup_app in Hnd as (Hndt & Hd & _).
  pose proof (λ q, twf_aligned end_ 2 root s fl q Ht) as Hal.
  destruct (store_leaf 2 _ _ _ _ v Hndt Hal Hpte) as (Hpages & _ & Hin).
  destruct (lookup_pte_page _ _ _ _ _ Hpte) as (q & Hq & Hqa).
  pose proof (twf_all_pages _ _ _ _ _ Ht) as Hall. rewrite Forall_forall in Hall.
  assert (page_ok q) as Hqok by (apply Hall; rewrite elem_of_app; by left).
  assert (∀ a, ¬ in_page a q → rd (st64 (k_mem s) pte v) a = rd (k_mem s) a) as Hfr.
  { intros a Ha. apply rd_st_out. pose proof (PX_range 0 va).
    unfold in_page, pte_addr, PGSIZE in *. lia. }
  unfold store64. wp_steps. cbn. split_and!; [done| |done|].
  - split; cbn; [| |by rewrite Hpages| |apply Hin].
    + apply kinv_mem; [apply Ht|]. intros p a Hp Ha. apply Hfr.
      eapply page_disjoint; [|done| |done]; [apply Hall; rewrite elem_of_app; by right|].
      intros ->. by apply (Hd q).
    + auto with hart.
    + intros a Ha. apply Hfr, Ha. rewrite elem_of_app. by left.
  - intros va' Hva'. unfold leaf. rewrite (leafv_store 2 _ _ va) by done.
    case_decide as E.
    + rewrite bool_decide_true; [done|]. rewrite <- Hpte. apply lookup_pte_PX.
      intros. apply PX_page_of; [lia|done].
    + rewrite bool_decide_false; [done|]. intros Hpte'. apply E. subst pte.
      symmetry. apply page_of_PX; [done|done|].
      apply (lookup_pte_inj 2 (k_mem s) root va va' q Hndt Hal Hpte Hpte').
Qed.

Lemma store_inner root s fl va pte v lim :
  twf root s fl → lookup_pte 2 (k_mem s) root va = Some pte →
  inner 2 lim (k_mem s) root → inner 2 lim (st64 (k_mem s) pte v) root.
Proof.
  intros Ht Hpte. pose proof (tw_nodup _ _ _ _ _ Ht) as Hnd. apply NoDup_app in Hnd as (Hndt & _ & _).
  destruct (store_leaf 2 _ _ _ _ v Hndt (λ q, twf_aligned end_ 2 root s fl q Ht) Hpte) as (_ & _ & H). apply H.
Qed.

(** ** walk and walkaddr *)
Lemma walk_noalloc root va s :
  va < MAXVA →
  walk root va false s = Ok (default 0 (lookup_pte 2 (k_mem s) root va)) s.
Proof.
  intros. unfold walk. rewrite (proj2 (Z.leb_gt _ _)) by done. apply walk_from_noalloc.
Qed.

Lemma walk_alloc root va s fl :
  0 ≤ va < MAXVA → twf root s fl →
  wp (walk root va true)
     (λ r s', ∃ fl', grown end_ 2 root s fl s' fl' ∧ (r = 0 → fl' = []) ∧
        (r ≠ 0 → lookup_pte 2 (k_mem s') root va = Some r) ∧
        (length fl <= length fl' + 2)%nat ∧ (r = 0 → (length fl < 2)%nat)) s.
Proof.
  intros Hva Ht. unfold walk. rewrite (proj2 (Z.leb_gt _ _)) by lia. apply walk_from_alloc; [done|lia| |done].
  rewrite PX_eq by lia. change MAXVA with (2 ^ 38) in Hva. change (top 2) with 256.
  change (2 ^ PXSHIFT (Z.of_nat 2)) with (2 ^ 30). dlia.
Qed.

Lemma walkaddr_run root va s fl :
  twf root s fl → 0 ≤ va < MAXVA →
  walkaddr root va s =
    Ok (let v := leaf (k_mem s) root va in
        if has v PTE_V && has v PTE_U then PTE2PA v else 0) s.
Proof.
  intros Ht Hva. unfold walkaddr. rewrite (proj2 (Z.leb_gt _ _)) by lia.
  rewrite (bind_Ok _ _ _ _ _ (walk_noalloc root va s ltac:(lia))).
  unfold leaf, leafv. destruct (lookup_pte 2 (k_mem s) root va) as [a|] eqn:Ha; cbn.
  - pose proof (pte_addr_pos _ end_pos _ _ _ _ _ _ Ht Ha).
    rewrite (proj2 (Z.eqb_neq a 0)) by lia. unfold load64, bind, gets.
    destruct (has (ld64 (k_mem s) a) PTE_V); [|done]. by destruct (has _ PTE_U).
  - by rewrite has_0.
Qed.

(** ** mappages *)
Definition mkpte (pa perm : Z) : Z := Z.lor (Z.lor (PA2PTE pa) perm) PTE_V.

Lemma lor_perm_range perm : 0 ≤ perm < 1024 → 0 ≤ Z.lor perm PTE_V < 1024.
Proof.
  intros Hp. split; [apply Z.lor_nonneg; split; [lia|done]|].
  destruct (decide (perm = 0)) as [->|]; [done|].
  apply Z.log2_lt_cancel. change (Z.log2 1024) with 10. rewrite Z.log2_lor by (done || lia).
  apply Z.max_lub_lt; [|done]. apply Z.log2_lt_pow2; lia.
Qed.

Lemma mkpte_ok pa perm :
  0 ≤ pa < 2 ^ 56 → pa `mod` PGSIZE = 0 → 0 ≤ perm < 1024 →
  0 ≤ mkpte pa perm < 2 ^ 64 ∧ PTE2PA (mkpte pa perm) = pa ∧
  has (mkpte pa perm) PTE_V = true ∧
  ∀ g, 0 ≤ g < 1024 → has perm g = true → has (mkpte pa perm) g = true.
Proof.
  intros Hpa Hal Hp. unfold mkpte. rewrite <- Z.lor_assoc. pose proof (lor_perm_range perm Hp) as Hr.
  split_and!.
  - pose proof (pack_range pa _ Hpa Hr). lia.
  - pose proof (pack_range pa _ Hpa Hr). lia.
  - by apply PTE2PA_pack.
  - rewrite has_pack by done. unfold has. rewrite Z.land_lor_distr_l.
    apply negb_true_iff, Z.eqb_neq. intros H. apply Z.lor_eq_0_iff in H as [_ H]. done.
  - intros g Hg Hpg. rewrite has_pack by done. unfold has in *. rewrite Z.land_lor_distr_l.
    apply negb_true_iff, Z.eqb_neq in Hpg. apply negb_true_iff, Z.eqb_neq. intros H.
    apply Z.lor_eq_0_iff in H as [H _]. done.
Qed.

(** The leaves after mapping [k] pages from [va] to [pa]. *)
Definition mapped (f : Z → Z) (va pa perm : Z) (k : nat) (va' : Z) : Z :=
  if decide (va ≤ va' < va + Z.of_nat k * PGSIZE)
  then mkpte (pa + (page_of va' * PGSIZE - va)) perm else f va'.

Lemma mapped_S f va pa perm k va' :
  va `mod` PGSIZE = 0 →
  mapped (λ x, if decide (page_of x = page_of va) then mkpte pa perm else f x)
    (va + PGSIZE) (pa + PGSIZE) perm k va' = mapped f va pa perm (S k) va'.
Proof.
  intros Hal. unfold mapped. repeat case_decide; unfold page_of, PGSIZE in *;
    first [done|dlia|f_equal; dlia].
Qed.

Lemma map_page root a pa perm s fl :
  twf root s fl → 0 ≤ a < MAXVA → 0 ≤ pa < 2 ^ 56 → pa `mod` PGSIZE = 0 → 0 ≤ perm < 1024 →
  has (leaf (k_mem s) root a) PTE_V = false →
  wp (mappages_page root a pa perm) (λ b s', ∃ fl', tstep root s fl s' fl' ∧
    (b = false → fl' = []) ∧ ((length fl <= length fl' + 2)%nat ∧ (b = false → (length fl < 2)%nat)) ∧
    ∀ va, 0 ≤ va < MAXVA → leaf (k_mem s') root va =
      if decide (b = true ∧ page_of va = page_of a) then mkpte pa perm
      else leaf (k_mem s) root va) s.
Proof.
  intros Ht Ha Hpa Hpal Hperm HV. unfold mappages_page. wp_step.
  wp_call walk_alloc; [lia|exact Ht|]. intros r s1 (fl1 & Hg & Hr0 & Hr & Hc1 & Hc2).
  pose proof (grown_tstep _ _ _ _ _ Hg) as Hts1. pose proof (tstep_twf _ _ _ _ _ Ht Hts1) as Ht1.
  pose proof (λ va, g_leaf _ _ _ _ _ _ _ Hg va) as Hl1. fold (leaf (k_mem s1) root) in Hl1.
  destruct (Z.eqb_spec r 0) as [->|Hne].
  { wp_step. exists fl1. split_and!; [done|auto|done|auto|]. intros va _. rewrite decide_False by naive_solver.
    apply Hl1. }
  specialize (Hr Hne). unfold load64. wp_step. wp_step.
  assert (ld64 (k_mem s1) r = leaf (k_mem s) root a) as ->
    by (unfold leaf; rewrite <- Hl1; unfold leafv; by rewrite Hr).
  rewrite HV. fold (mkpte pa perm). destruct (mkpte_ok pa perm) as (Hpr & _); try done.
  wp_step. wp_call (store_entry root s1 fl1 a r); [done|done|done|done|].
  intros [] s2 (_ & Hts2 & _ & Hl2). wp_step. exists fl1.
  split_and!; [by eapply tstep_trans|done|done|done|]. intros va Hva. rewrite Hl2 by done.
  destruct (decide (page_of va = page_of a)).
  - by rewrite decide_True.
  - rewrite decide_False by naive_solver. apply Hl1.
Qed.

Lemma mappages_loop n fuel root a pa perm last s fl :
  (n < fuel)%nat → twf root s fl → a `mod` PGSIZE = 0 → 0 ≤ a →
  last = a + Z.of_nat n * PGSIZE → last + PGSIZE ≤ MAXVA →
  0 ≤ pa → pa `mod` PGSIZE = 0 → pa + Z.of_nat (S n) * PGSIZE ≤ 2 ^ 56 → 0 ≤ perm < 1024 →
  (∀ va', a ≤ va' < last + PGSIZE → has (leaf (k_mem s) root va') PTE_V = false) →
  wp (loop fuel
       (λ '(a, pa),
         do b <- mappages_page root a pa perm;
         if negb b then ret (inr (-1))
         else if a =? last then ret (inr 0)
         else ret (inl (u64 (a + PGSIZE), u64 (pa + PGSIZE)))) (a, pa))
     (λ r s', ∃ fl' k, tstep root s fl s' fl' ∧
        (r = 0 ∧ k = S n ∨ r = -1 ∧ (k < S n)%nat ∧ fl' = []) ∧
        ((length fl <= length fl' + 2 * S n)%nat ∧ (r ≠ 0 → (length fl < 2 * S n)%nat)) ∧
        ∀ va', 0 ≤ va' < MAXVA →
          leaf (k_mem s') root va' = mapped (leaf (k_mem s) root) a pa perm k va') s.
Proof.
  assert (MAXVA = 2 ^ 38) as HM by done.
  revert fuel a pa s fl. induction n as [|n IH]; intros [|fuel] a pa s fl Hf Ht Hal Ha Hlast Hmax
    Hpa Hpal Hpmax Hperm Hinv; try lia; cbn [loop]; wp_step; wp_step;
    (wp_call (map_page root a pa perm s fl);
      [done|unfold PGSIZE in *; lia|unfold PGSIZE in *; lia|done|done|
       apply Hinv; unfold PGSIZE in *; lia|]);
    intros b s1 (fl1 & Hts1 & Hb & [Hc1 Hc2] & Hl1); pose proof (tstep_twf _ _ _ _ _ Ht Hts1) as Ht1;
    (destruct b; cbn [negb];
      [|do 2 wp_step; exists fl1, 0%nat; split_and!;
        [done|right; split_and!; [done|lia|auto]|lia|intros _; specialize (Hc2 eq_refl); lia|]; intros va' Hva'; rewrite Hl1 by done;
        unfold mapped; rewrite decide_False by naive_solver; by rewrite decide_False by lia]);
    (assert (∀ va', 0 ≤ va' < MAXVA → leaf (k_mem s1) root va' =
       if decide (page_of va' = page_of a) then mkpte pa perm else leaf (k_mem s) root va') as Hl2
     by (intros va' Hva'; rewrite Hl1 by done; repeat case_decide; naive_solver)).
  - rewrite (proj2 (Z.eqb_eq a last)) by lia. do 2 wp_step. exists fl1, 1%nat.
    split_and!; [done|by left|lia|done|]. intros va' Hva'. rewrite Hl2 by done.
    rewrite <- mapped_S by done. unfold mapped. by rewrite (decide_False (P := _ ∧ _)) by lia.
  - rewrite (proj2 (Z.eqb_neq a last)) by (unfold PGSIZE in *; lia). wp_step.
    rewrite !u64_small by (unfold PGSIZE in *; lia).
    wp_call (IH fuel (a + PGSIZE) (pa + PGSIZE) s1 fl1);
      [lia|done|unfold PGSIZE in *; dlia..|done| |].
    + intros va' Hva'. rewrite Hl2 by (unfold PGSIZE in *; lia). rewrite decide_False.
      * apply Hinv. unfold PGSIZE in *; lia.
      * unfold page_of, PGSIZE in *. dlia.
    + intros r' s3 (fl3 & k & Hts3 & Hres & [Hc3 Hc4] & Hleaf3). exists fl3, (S k). split_and!.
      * by eapply tstep_trans.
      * destruct Hres as [[-> ->]|(-> & ? & ->)]; [by left|right; split_and!; [done|lia|done]].
      * lia.
      * intros Hne. specialize (Hc4 Hne). lia.
      * intros va' Hva'. rewrite Hleaf3 by done. rewrite <- mapped_S by done.
        unfold mapped; cbn beta. by rewrite <- Hl2 by done.
Qed.

Lemma mappages_ok n root va pa perm s fl :
  twf root s fl → va `mod` PGSIZE = 0 → 0 ≤ va → (0 < n)%nat →
  va + Z.of_nat n * PGSIZE ≤ MAXVA →
  0 ≤ pa → pa `mod` PGSIZE = 0 → pa + Z.of_nat n * PGSIZE ≤ 2 ^ 56 → 0 ≤ perm < 1024 →
  (∀ va', va ≤ va' < va + Z.of_nat n * PGSIZE → has (leaf (k_mem s) root va') PTE_V = false) →
  wp (mappages root va (Z.of_nat n * PGSIZE) pa perm)
     (λ r s', ∃ fl' k, tstep root s fl s' fl' ∧
        (r = 0 ∧ k = n ∨ r = -1 ∧ (k < n)%nat ∧ fl' = []) ∧
        ((length fl <= length fl' + 2 * n)%nat ∧ (r ≠ 0 → (length fl < 2 * n)%nat)) ∧
        ∀ va', 0 ≤ va' < MAXVA →
          leaf (k_mem s') root va' = mapped (leaf (k_mem s) root) va pa perm k va') s.
Proof.
  intros Ht Hal Hva Hn Hmax Hpa Hpal Hpmax Hperm Hinv. unfold mappages. rewrite Hal. cbn [negb Z.eqb].
  assert (MAXVA = 2 ^ 38) as HM by done.
  replace ((Z.of_nat n * PGSIZE) `mod` PGSIZE) with 0 by (unfold PGSIZE; dlia). cbn [negb Z.eqb].
  rewrite (proj2 (Z.eqb_neq _ 0)) by (unfold PGSIZE; lia).
  rewrite u64_small by (unfold PGSIZE in *; lia).
  replace ((Z.of_nat n * PGSIZE) `div` PGSIZE) with (Z.of_nat n) by (unfold PGSIZE; dlia).
  rewrite Nat2Z.id. destruct n as [|n]; [lia|].
  apply mappages_loop; try done; try (unfold PGSIZE in *; lia).
  intros va' Hva'. apply Hinv. unfold PGSIZE in *; lia.
Qed.

(** ** uvmunmap *)

(** The physical page mapped at [va], if any, and those of [n] pages from [a]. *)
Definition upage (m : mem) (root va : Z) : list Z :=
  let v := leaf m root va in if has v PTE_V then [PTE2PA v] else [].
Fixpoint upages (m : mem) (root a : Z) (n : nat) : list Z :=
  match n with
  | O => []
  | S n' => upage m root a ++ upages m root (a + PGSIZE) n'
  end.

Lemma upages_ext m m' root a n :
  (∀ va, a ≤ va < a + Z.of_nat n * PGSIZE → leaf m' root va = leaf m root va) →
  upages m' root a n = upages m root a n.
Proof.
  revert a. induction n as [|n IH]; intros a H; cbn [upages]; [done|].
  unfold upage. rewrite H by (unfold PGSIZE; lia). f_equal. apply IH.
  intros va Hva. apply H. unfold PGSIZE in *; lia.
Qed.

(** Pages may be given back: in range, distinct, neither free nor tables. *)
Definition freeable root s fl (us : list Z) : Prop :=
  Forall page_ok us ∧ NoDup (us ++ tables (k_mem s) root ++ fl).

Definition unmapped (f : Z → Z) (a stop va : Z) : Z :=
  if decide (a ≤ va < stop) then (if has (f va) PTE_V then 0 else f va) else f va.

(** Giving back one page that is not part of the table. *)
Lemma kfree_upage root s fl p :
  twf root s fl → freeable root s fl [p] →
  wp (kfree end_ p) (λ _ s',
    twf root s' (p :: fl) ∧ hart_same (k_hart s) (k_hart s') ∧
    tables (k_mem s') root = tables (k_mem s) root ∧
    (∀ va, lookup_pte 2 (k_mem s') root va = lookup_pte 2 (k_mem s) root va) ∧
    (∀ va, leaf (k_mem s') root va = leaf (k_mem s) root va) ∧
    (∀ lim, inner 2 lim (k_mem s) root → inner 2 lim (k_mem s') root) ∧
    ∀ a, ¬ in_page a p → rd (k_mem s') a = rd (k_mem s) a) s.
Proof.
  intros Ht [Hp Hnd]. rewrite Forall_singleton in Hp. cbn [app] in Hnd.
  apply NoDup_cons in Hnd as [Hnin Hnd]. rewrite elem_of_app in Hnin.
  pose proof (twf_all_pages _ _ _ _ _ Ht) as Hall. rewrite Forall_forall in Hall.
  wp_call (kfree_ok end_ end_pos p s fl); [apply Ht|done|by intros ?; apply Hnin; right|].
  intros _ s' (Hk & Hh & _ & Hfr).
  assert (∀ q a, q ∈ tables (k_mem s) root → in_page a q → rd (k_mem s') a = rd (k_mem s) a) as Hext.
  { intros q a Hq Ha. apply Hfr. apply (page_disjoint end_ q p); [|done| |done].
    - apply Hall. rewrite elem_of_app. by left.
    - intros ->. apply Hnin. by left. }
  rewrite (pt_pages_ext 2 (k_mem s) (k_mem s') root Hext).
  split_and!; [|rewrite Hh; auto with hart|done| | | |done].
  - split; [done| |]; rewrite (pt_pages_ext 2 (k_mem s) (k_mem s') root Hext).
    + apply Ht.
    + rewrite <- Permutation_middle. constructor; [by rewrite elem_of_app|done].
  - intros va. by apply lookup_pte_ext.
  - intros va. by apply leafv_ext.
  - intros lim. by apply inner_ext.
Qed.

(** State after removing the mappings of [a, stop). *)
Record removed root s s' fl' a stop : Prop := {
  r_twf : twf root s' fl';
  r_hart : hart_same (k_hart s) (k_hart s');
  r_tables : tables (k_mem s') root = tables (k_mem s) root;
  r_leaf va : 0 ≤ va < MAXVA →
    leaf (k_mem s') root va = unmapped (leaf (k_mem s) root) a stop va;
  r_inner lim : inner 2 lim (k_mem s) root → inner 2 lim (k_mem s') root;
  r_frame x : (∀ p, p ∈ tables (k_mem s) root ++ fl' → ¬ in_page x p) → rd (k_mem s') x = rd (k_mem s) x
}.

(** Nothing is mapped at [a]: nothing to remove. *)
Lemma removed_skip root s fl a (do_free : bool) :
  twf root s fl → a `mod` PGSIZE = 0 → has (leaf (k_mem s) root a) PTE_V = false →
  removed root s s ((if do_free then upage (k_mem s) root a else []) ++ fl) a (a + PGSIZE).
Proof.
  intros Ht Hal HV. split; auto with hart.
  - unfold upage. rewrite HV. by destruct do_free.
  - intros va Hva. unfold unmapped. case_decide; [|done].
    rewrite (leaf_page_of _ _ va a) by (unfold page_of, PGSIZE in *; dlia). by rewrite HV.
Qed.

(** Clearing the entry of [a] in a state [s1] with the leaves of [s]. *)
Lemma clear_entry root s s1 fl1 a pte :
  hart_ok (k_hart s) → twf root s1 fl1 → hart_same (k_hart s) (k_hart s1) →
  tables (k_mem s1) root = tables (k_mem s) root →
  (∀ va, leaf (k_mem s1) root va = leaf (k_mem s) root va) →
  (∀ lim, inner 2 lim (k_mem s) root → inner 2 lim (k_mem s1) root) →
  (∀ x, (∀ p, p ∈ fl1 → ¬ in_page x p) → rd (k_mem s1) x = rd (k_mem s) x) →
  lookup_pte 2 (k_mem s1) root a = Some pte → 0 ≤ a < MAXVA → a `mod` PGSIZE = 0 →
  has (leaf (k_mem s) root a) PTE_V = true →
  wp (store64 pte 0) (λ _ s', removed root s s' fl1 a (a + PGSIZE)) s1.
Proof.
  intros Hok Ht1 Hh1 Htab1 Hl1 Hin1 Hfr1 Hpte1 Ha Hal HV.
  wp_call (store_entry root s1 fl1 a pte 0); [done|done|lia|done|].
  intros [] s2 (Hm2 & Hts & Htab2 & Hl2). split.
  - by eapply tstep_twf.
  - eapply hart_same_trans; [done|done|apply Hts].
  - by rewrite Htab2.
  - intros va Hva. rewrite Hl2, Hl1 by done. unfold unmapped, page_of, PGSIZE in *.
    repeat case_decide; try dlia.
    rewrite (leaf_page_of _ _ va a), HV by (unfold page_of, PGSIZE; dlia). done.
  - intros lim Hin. rewrite Hm2. by eapply store_inner; [..|apply Hin1].
  - intros x Hx. rewrite <- Hfr1 by (intros p Hp; apply Hx; rewrite elem_of_app; by right). apply (t_frame _ _ _ _ _ Hts).
    by rewrite Htab1.
Qed.

Lemma unmap_page root a do_free s fl :
  twf root s fl → 0 ≤ a < MAXVA → a `mod` PGSIZE = 0 →
  (do_free = true → freeable root s fl (upage (k_mem s) root a)) →
  wp (uvmunmap_page end_ root a do_free) (λ _ s',
    removed root s s' ((if do_free then upage (k_mem s) root a else []) ++ fl) a (a + PGSIZE)) s.
Proof.
  intros Ht Ha Hal Hfree. unfold uvmunmap_page. wp_step.
  eapply wp_of_Ok; [apply walk_noalloc; lia|].
  destruct (lookup_pte 2 (k_mem s) root a) as [pte|] eqn:Hpte; cbn [default].
  2: { cbn [from_option]. change (0 =? 0) with true; cbn iota. wp_step. apply removed_skip; [done|done|]. unfold leaf, leafv. by rewrite Hpte, has_0. }
  pose proof (pte_addr_pos _ end_pos _ _ _ _ _ _ Ht Hpte).
  change (id pte) with pte. rewrite (proj2 (Z.eqb_neq pte 0)) by lia. unfold load64. wp_step. wp_step.
  assert (ld64 (k_mem s) pte = leaf (k_mem s) root a) as ->
    by (unfold leaf, leafv; by rewrite Hpte).
  destruct (has (leaf (k_mem s) root a) PTE_V) eqn:HV; cbn [negb].
  2: { wp_step. by apply removed_skip. }
  assert (upage (k_mem s) root a = [PTE2PA (leaf (k_mem s) root a)]) as Hup
    by (unfold upage; by rewrite HV).
  pose proof (ki_hart _ _ _ (tw_kinv _ _ _ _ _ Ht)) as Hok.
  unfold when. wp_step. destruct do_free.
  - wp_call (kfree_upage root s fl (PTE2PA (leaf (k_mem s) root a))); [done|by rewrite <- Hup; apply Hfree|].
    intros [] s1 (Ht1 & Hh1 & Htab1 & Hlk1 & Hl1 & Hin1 & Hfr1). rewrite Hup.
    eapply clear_entry; [done..|exact Hin1| |by rewrite Hlk1|done|done|done].
    intros x Hx. apply Hfr1, Hx. by left.
  - wp_step. by apply clear_entry; auto with hart.
Qed.

Lemma freeable_tail root s s1 fl a n us :
  removed root s s1 (us ++ fl) a (a + PGSIZE) → 0 ≤ a → a + Z.of_nat (S n) * PGSIZE ≤ MAXVA →
  us = upage (k_mem s) root a →
  freeable root s fl (upages (k_mem s) root a (S n)) →
  freeable root s1 (us ++ fl) (upages (k_mem s1) root (a + PGSIZE) n).
Proof.
  intros Hr Ha Hmax -> [Hpo Hnd]. cbn [upages] in Hpo, Hnd. apply Forall_app in Hpo as [_ Hpo].
  unfold freeable. rewrite (upages_ext (k_mem s)), (r_tables _ _ _ _ _ _ Hr).
  - split; [done|]. eapply (NoDup_Permutation_proper _ _), Hnd.
    rewrite <- !app_assoc, (Permutation_app_comm (upage _ _ _) (upages _ _ _ _ ++ _)).
    by rewrite <- !app_assoc, (Permutation_app_comm fl).
  - intros va Hva. rewrite (r_leaf _ _ _ _ _ _ Hr) by (unfold PGSIZE in *; lia).
    unfold unmapped. by rewrite decide_False by lia.
Qed.

Lemma uvmunmap_loop n fuel root a stop do_free s fl :
  (n < fuel)%nat → twf root s fl → a `mod` PGSIZE = 0 → 0 ≤ a →
  stop = a + Z.of_nat n * PGSIZE → stop ≤ MAXVA →
  (do_free = true → freeable root s fl (upages (k_mem s) root a n)) →
  wp (loop fuel
       (λ a, if negb (a <? stop) then ret (inr tt)
             else uvmunmap_page end_ root a do_free ;; ret (inl (u64 (a + PGSIZE)))) a)
     (λ _ s', removed root s s'
        ((if do_free then reverse (upages (k_mem s) root a n) else []) ++ fl) a stop) s.
Proof.
  assert (MAXVA = 2 ^ 38) as HM by done.
  revert fuel a s fl. induction n as [|n IH]; intros [|fuel] a s fl Hf Ht Hal Ha Hstop Hmax Hfree;
    try lia; cbn [loop].
  { rewrite (proj2 (Z.ltb_ge a stop)) by lia. cbn [negb]. do 3 wp_step.
    cbn [upages]. rewrite reverse_nil. split; [by destruct do_free|auto with hart|done| |done|done].
    intros va _. unfold unmapped. by rewrite decide_False by lia. }
  rewrite (proj2 (Z.ltb_lt a stop)) by (unfold PGSIZE in *; lia). cbn [negb]. wp_step. wp_step.
  wp_call (unmap_page root a do_free s fl); [done|unfold PGSIZE in *; lia|done| |].
  { intros Hd. destruct (Hfree Hd) as [Hpo Hnd]. cbn [upages] in Hpo, Hnd.
    apply Forall_app in Hpo as [Hpo _]. split; [done|]. rewrite <- app_assoc in Hnd.
    rewrite (Permutation_app_comm (upages _ _ _ _)), app_assoc in Hnd.
    by apply NoDup_app in Hnd as [? _]. }
  intros [] s1 Hr1. wp_step. rewrite u64_small by (unfold PGSIZE in *; lia).
  wp_call (IH fuel (a + PGSIZE) s1 _); try (unfold PGSIZE in *; dlia); [apply Hr1| |].
  { intros Hd. subst do_free. eapply freeable_tail; [done|done|lia|done|auto]. }
  intros [] s2 Hr2.
  assert ((if do_free then reverse (upages (k_mem s1) root (a + PGSIZE) n) else []) ++
    (if do_free then upage (k_mem s) root a else []) ++ fl =
    (if do_free then reverse (upages (k_mem s) root a (S n)) else []) ++ fl) as Efl.
  { destruct do_free; [|done]. cbn [upages]. rewrite reverse_app, <- app_assoc, (upages_ext (k_mem s)).
    - unfold upage. destruct (has _ PTE_V); [by rewrite reverse_singleton|done].
    - intros va Hva. rewrite (r_leaf _ _ _ _ _ _ Hr1) by (unfold PGSIZE in *; lia).
      unfold unmapped. by rewrite decide_False by lia. }
  split.
  - rewrite <- Efl. apply Hr2.
  - eapply hart_same_trans; [apply Ht|apply Hr1|apply Hr2].
  - by rewrite (r_tables _ _ _ _ _ _ Hr2), (r_tables _ _ _ _ _ _ Hr1).
  - intros va Hva. rewrite (r_leaf _ _ _ _ _ _ Hr2) by done. unfold unmapped at 1.
    rewrite (r_leaf _ _ _ _ _ _ Hr1) by done. unfold unmapped.
    repeat case_decide; done || (unfold PGSIZE in *; lia).
  - intros lim Hin. by apply (r_inner _ _ _ _ _ _ Hr2), (r_inner _ _ _ _ _ _ Hr1).
  - rewrite <- Efl. intros x Hx. rewrite (r_frame _ _ _ _ _ _ Hr2); [apply (r_frame _ _ _ _ _ _ Hr1)|].
    + intros p Hp. apply Hx. apply elem_of_app in Hp as [Hp|Hp]; apply elem_of_app; [by left|right; apply elem_of_app; by right].
    + intros p Hp. apply Hx. by rewrite (r_tables _ _ _ _ _ _ Hr1) in Hp.
Qed.

Lemma uvmunmap_ok n root va do_free s fl :
  twf root s fl → va `mod` PGSIZE = 0 → 0 ≤ va → va + Z.of_nat n * PGSIZE ≤ MAXVA →
  (do_free = true → freeable root s fl (upages (k_mem s) root va n)) →
  wp (uvmunmap end_ root va (Z.of_nat n) do_free)
     (λ _ s', removed root s s'
        ((if do_free then reverse (upages (k_mem s) root va n) else []) ++ fl)
        va (va + Z.of_nat n * PGSIZE)) s.
Proof.
  intros Ht Hal Hva Hmax Hfree. unfold uvmunmap. rewrite Hal. cbn [negb Z.eqb].
  assert (MAXVA = 2 ^ 38) as HM by done.
  rewrite u64_small, Nat2Z.id by (unfold PGSIZE in *; lia).
  by apply uvmunmap_loop; [lia|..].
Qed.
End ops.
