(* ===== verification/VmProps.v ===== *)
(** * What the page-table code promises

    The theorems about kernel/vm.c, stated on whole calls from a well-formed
    table, with a concrete machine on which they apply. *)
From S2P Require Import Prelude Memory KString Riscv Spinlock Kalloc Vm VmSpec VmOps.

Section props.
Context (end_ : Z) (end_pos : 0 < end_).
Implicit Types (s : kst) (fl : list Z).
Abbreviation twf := (twf end_ 2).
Abbreviation tables m root := (pt_pages 2 m root).

(** Walk with alloc=1 keeps the table well formed and changes the entry of
    no virtual address; pages only move from the free list to the table; it
    returns the address of va's entry, or 0 and then the allocator is empty. *)
Theorem walk_alloc_preserves root va s fl :
  0 ≤ va < MAXVA → twf root s fl →
  ∃ r s' fl', walk root va true s = Ok r s' ∧ twf root s' fl' ∧
    (∀ va', leaf (k_mem s') root va' = leaf (k_mem s) root va') ∧
    tables (k_mem s') root ++ fl' ≡ₚ tables (k_mem s) root ++ fl ∧
    (r = 0 ∧ fl' = [] ∨ lookup_pte 2 (k_mem s') root va = Some r).
Proof.
  intros Hva Ht. destruct (wp_Ok _ _ _ (walk_alloc end_ end_pos root va s fl Hva Ht))
    as (r & s' & -> & fl' & Hg & Hr0 & Hr & _).
  exists r, s', fl'. split_and!; [done|by eapply grown_twf|apply Hg|apply Hg|].
  destruct (decide (r = 0)); [left; auto|right; auto].
Qed.

(** Mappages on an unmapped page-aligned range of [n] pages returns 0 with
    exactly these pages mapped to [pa], [pa]+PGSIZE, ... with permissions
    [perm], or -1 after mapping a prefix when memory ran out; no other address
    changes and the table stays well formed. *)
Theorem mappages_maps n root va pa perm s fl :
  twf root s fl → va `mod` PGSIZE = 0 → 0 ≤ va → (0 < n)%nat →
  va + Z.of_nat n * PGSIZE ≤ MAXVA →
  0 ≤ pa → pa `mod` PGSIZE = 0 → pa + Z.of_nat n * PGSIZE ≤ 2 ^ 56 → 0 ≤ perm < 1024 →
  (∀ va', va ≤ va' < va + Z.of_nat n * PGSIZE → has (leaf (k_mem s) root va') PTE_V = false) →
  ∃ r k s' fl', mappages root va (Z.of_nat n * PGSIZE) pa perm s = Ok r s' ∧
    (r = 0 ∧ k = n ∨ r = -1 ∧ (k < n)%nat ∧ fl' = []) ∧
    twf root s' fl' ∧ tables (k_mem s') root ++ fl' ≡ₚ tables (k_mem s) root ++ fl ∧
    ∀ va', 0 ≤ va' < MAXVA →
      leaf (k_mem s') root va' = mapped (leaf (k_mem s) root) va pa perm k va'.
Proof.
  intros Ht Hal Hva Hn Hmax Hpa Hpal Hpmax Hperm Hinv.
  destruct (wp_Ok _ _ _ (mappages_ok end_ end_pos n root va pa perm s fl Ht Hal Hva Hn Hmax Hpa
    Hpal Hpmax Hperm Hinv)) as (r & s' & -> & fl' & k & Hts & Hr & _ & Hl).
  exists r, k, s', fl'. split_and!; [done|done|by eapply tstep_twf|apply Hts|done].
Qed.

(** After a mapping with PTE_U succeeds, walkaddr translates every address of
    the range to the physical page it was mapped to, and every other address
    as before. *)
Theorem mappages_walkaddr n root va pa perm s fl s1 :
  twf root s fl → va `mod` PGSIZE = 0 → 0 ≤ va → (0 < n)%nat →
  va + Z.of_nat n * PGSIZE ≤ MAXVA →
  0 ≤ pa → pa `mod` PGSIZE = 0 → pa + Z.of_nat n * PGSIZE ≤ 2 ^ 56 → 0 ≤ perm < 1024 →
  (∀ va', va ≤ va' < va + Z.of_nat n * PGSIZE → has (leaf (k_mem s) root va') PTE_V = false) →
  has perm PTE_U = true → mappages root va (Z.of_nat n * PGSIZE) pa perm s = Ok 0 s1 →
  ∀ va', 0 ≤ va' < MAXVA →
    (va ≤ va' < va + Z.of_nat n * PGSIZE →
     walkaddr root va' s1 = Ok (pa + (PGROUNDDOWN va' - va)) s1) ∧
    (¬ (va ≤ va' < va + Z.of_nat n * PGSIZE) →
     ∃ r, walkaddr root va' s = Ok r s ∧ walkaddr root va' s1 = Ok r s1).
Proof.
  intros Ht Hal Hva Hn Hmax Hpa Hpal Hpmax Hperm Hinv HU E va' Hva'.
  pose proof (mappages_ok end_ end_pos n root va pa perm s fl Ht Hal Hva Hn Hmax Hpa
    Hpal Hpmax Hperm Hinv) as W. unfold wp in W. rewrite E in W.
  destruct W as (fl' & k & Hts & [[_ ->]|[? _]] & _ & Hl); [|lia].
  pose proof (tstep_twf _ _ _ _ _ _ Ht Hts) as Ht1.
  rewrite (walkaddr_run end_ end_pos root va' s1 fl') by done.
  rewrite (walkaddr_run end_ end_pos root va' s fl) by done.
  rewrite Hl by done. unfold mapped. split.
  - intros Hr. rewrite decide_True by done.
    assert (PGROUNDDOWN va' = page_of va' * PGSIZE) as ->.
    { rewrite PGROUNDDOWN_eq. unfold page_of, PGSIZE. dlia. }
    destruct (mkpte_ok (pa + (page_of va' * PGSIZE - va)) perm) as (_ & -> & -> & HU').
    + unfold page_of, PGSIZE in *. dlia.
    + unfold page_of, PGSIZE in *. dlia.
    + done.
    + by rewrite HU'.
  - intros Hr. rewrite decide_False by done. eauto.
Qed.

(** Uvmunmap over [n] pages clears exactly the mappings of its range and,
    with do_free, gives exactly the physical pages mapped there back to the
    allocator, the last one first; the table's own pages stay. *)
Theorem uvmunmap_unmaps n root va do_free s fl :
  twf root s fl → va `mod` PGSIZE = 0 → 0 ≤ va → va + Z.of_nat n * PGSIZE ≤ MAXVA →
  (do_free = true → freeable end_ root s fl (upages (k_mem s) root va n)) →
  ∃ s', uvmunmap end_ root va (Z.of_nat n) do_free s = Ok tt s' ∧
    twf root s' ((if do_free then reverse (upages (k_mem s) root va n) else []) ++ fl) ∧
    tables (k_mem s') root = tables (k_mem s) root ∧
    ∀ va', 0 ≤ va' < MAXVA → leaf (k_mem s') root va' =
      unmapped (leaf (k_mem s) root) va (va + Z.of_nat n * PGSIZE) va'.
Proof.
  intros Ht Hal Hva Hmax Hfree.
  destruct (wp_Ok _ _ _ (uvmunmap_ok end_ end_pos n root va do_free s fl Ht Hal Hva Hmax Hfree))
    as ([] & s' & -> & [Ht' _ Htab Hl]).
  exists s'. by split_and!.
Qed.

(** Mapping a range and unmapping it again leaves every address translated
    as before. *)
Theorem map_unmap n root va pa perm s fl s1 :
  twf root s fl → va `mod` PGSIZE = 0 → 0 ≤ va → (0 < n)%nat →
  va + Z.of_nat n * PGSIZE ≤ MAXVA →
  0 ≤ pa → pa `mod` PGSIZE = 0 → pa + Z.of_nat n * PGSIZE ≤ 2 ^ 56 → 0 ≤ perm < 1024 →
  (∀ va', va ≤ va' < va + Z.of_nat n * PGSIZE → has (leaf (k_mem s) root va') PTE_V = false) →
  mappages root va (Z.of_nat n * PGSIZE) pa perm s = Ok 0 s1 →
  ∃ s2, uvmunmap end_ root va (Z.of_nat n) false s1 = Ok tt s2 ∧
    ∀ va', 0 ≤ va' < MAXVA →
      ∃ r, walkaddr root va' s = Ok r s ∧ walkaddr root va' s2 = Ok r s2.
Proof.
  intros Ht Hal Hva Hn Hmax Hpa Hpal Hpmax Hperm Hinv E.
  pose proof (mappages_ok end_ end_pos n root va pa perm s fl Ht Hal Hva Hn Hmax Hpa
    Hpal Hpmax Hperm Hinv) as W. unfold wp in W. rewrite E in W.
  destruct W as (fl' & k & Hts & [[_ ->]|[? _]] & _ & Hl); [|lia].
  pose proof (tstep_twf _ _ _ _ _ _ Ht Hts) as Ht1.
  destruct (wp_Ok _ _ _ (uvmunmap_ok end_ end_pos n root va false s1 fl' Ht1 Hal Hva Hmax
    ltac:(done))) as ([] & s2 & -> & [Ht2 _ _ Hl2]).
  exists s2. split; [done|]. intros va' Hva'.
  rewrite (walkaddr_run end_ end_pos root va' s fl) by done.
  rewrite (walkaddr_run end_ end_pos root va' s2 ([] ++ fl')) by done.
  rewrite Hl2 by done. unfold unmapped. rewrite Hl by done. unfold mapped.
  eexists. split; [done|]. case_decide; [|done]. rewrite Hinv by done.
  destruct (mkpte_ok (pa + (page_of va' * PGSIZE - va)) perm) as (_ & _ & -> & _);
    try (unfold page_of, PGSIZE in *; dlia). done.
Qed.

(** The misuse checks of vm.c: an address out of the Sv39 range, a range that
    is unaligned or empty, mapping a page already mapped and unmapping from an
    unaligned address all panic, and never silently corrupt a table. *)
Theorem vm_panics root va size pa perm npages alloc do_free s fl :
  (MAXVA ≤ va → walk root va alloc s = Halt (Panicked "walk") s) ∧
  (va `mod` PGSIZE ≠ 0 →
     mappages root va size pa perm s = Halt (Panicked "mappages: va not aligned") s ∧
     uvmunmap end_ root va npages do_free s = Halt (Panicked "uvmunmap: not aligned") s) ∧
  (va `mod` PGSIZE = 0 → size `mod` PGSIZE ≠ 0 →
     mappages root va size pa perm s = Halt (Panicked "mappages: size not aligned") s) ∧
  (va `mod` PGSIZE = 0 → mappages root va 0 pa perm s = Halt (Panicked "mappages: size") s) ∧
  (twf root s fl → 0 ≤ va < MAXVA → has (leaf (k_mem s) root va) PTE_V = true →
     va `mod` PGSIZE = 0 →
     faults (mappages root va PGSIZE pa perm) s (Panicked "mappages: remap")).
Proof.
  split_and!.
  - intros. unfold walk. by rewrite (proj2 (Z.leb_le _ _)).
  - intros Hne. unfold mappages, uvmunmap. by rewrite (proj2 (Z.eqb_neq _ 0) Hne).
  - intros Hva Hne. unfold mappages. rewrite Hva. by rewrite (proj2 (Z.eqb_neq _ 0) Hne).
  - intros Hva. unfold mappages. by rewrite Hva.
  - intros Ht Hva HV Hal. unfold faults, mappages. rewrite Hal. cbn [negb Z.eqb PGSIZE].
    change (PGSIZE `mod` PGSIZE) with 0. change (PGSIZE =? 0) with false.
    change (PGSIZE `div` PGSIZE) with 1. cbn [negb Z.eqb]. cbn [Z.to_nat Pos.to_nat loop].
    unfold bind at 1. unfold mappages_page, bind at 1 2.
    destruct (lookup_pte 2 (k_mem s) root va) as [r|] eqn:Hr; [|].
    + unfold walk. rewrite (proj2 (Z.leb_gt _ _)), (walk_from_found _ _ _ _ _ r) by (done || lia).
      pose proof (pte_addr_pos _ end_pos _ _ _ _ _ _ Ht Hr).
      rewrite (proj2 (Z.eqb_neq r 0)) by lia. unfold load64, gets, bind.
      assert (ld64 (k_mem s) r = leaf (k_mem s) root va) as -> by (unfold leaf, leafv; by rewrite Hr).
      by rewrite HV.
    + unfold leaf, leafv in HV. by rewrite Hr, has_0 in HV.
Qed.
End props.

(** ** A machine on which the theorems apply

    The table at 0x87fff000 is empty; four pages are free. *)
Definition demo_root : Z := 0x87fff000.
Definition demo_free : list Z := [0x87ffe000; 0x87ffd000; 0x87ffc000; 0x87ffb000].
Definition demo_vm : kst := Kst demo_hart (Spin 0 "kmem" None) 0x87ffe000
  (st64 (st64 (st64 (st64 ∅ 0x87ffe000 0x87ffd000) 0x87ffd000 0x87ffc000)
     0x87ffc000 0x87ffb000) 0x87ffb000 0).

Lemma demo_twf : twf 0x87ff8000 2 demo_root demo_vm demo_free.
Proof.
  assert (pt_pages 2 (k_mem demo_vm) demo_root = [demo_root]) as Hp by (vm_compute; reflexivity).
  split.
  - split.
    + apply demo_hart_ok.
    + by split.
    + unfold demo_free. cbn [chain]. split_and!; vm_compute; reflexivity.
    + repeat constructor; vm_compute; congruence.
    + apply (bool_decide_unpack _). vm_compute. done.
  - rewrite Hp. repeat constructor; vm_compute; congruence.
  - rewrite Hp. apply (bool_decide_unpack _). vm_compute. done.
Qed.

(** Nothing is mapped in the empty table. *)
Lemma demo_unmapped va : leaf (k_mem demo_vm) demo_root va = 0.
Proof.
  unfold leaf, leafv. cbn [lookup_pte]. unfold entry.
  replace (ld64 (k_mem demo_vm) (pte_addr demo_root (PX (Z.of_nat 2) va))) with 0; [by rewrite has_0|].
  symmetry. apply ld_zero. intros x Hx. pose proof (PX_range (Z.of_nat 2) va).
  unfold demo_vm, k_mem, pte_addr, demo_root in *. by rewrite !rd_st_out by lia.
Qed.

Lemma demo_unmapped_V lo hi va' :
  lo ≤ va' < hi → has (leaf (k_mem demo_vm) demo_root va') PTE_V = false.
Proof. intros _. by rewrite demo_unmapped, has_0. Qed.

Lemma walk_alloc_preserves_witness :
  ∃ r s' fl', walk demo_root 0x1000 true demo_vm = Ok r s' ∧
    twf 0x87ff8000 2 demo_root s' fl' ∧
    (∀ va', leaf (k_mem s') demo_root va' = leaf (k_mem demo_vm) demo_root va') ∧
    pt_pages 2 (k_mem s') demo_root ++ fl' ≡ₚ pt_pages 2 (k_mem demo_vm) demo_root ++ demo_free ∧
    (r = 0 ∧ fl' = [] ∨ lookup_pte 2 (k_mem s') demo_root 0x1000 = Some r).
Proof.
  apply (walk_alloc_preserves 0x87ff8000 ltac:(done) demo_root 0x1000 demo_vm demo_free);
    [vm_compute; split; congruence|apply demo_twf].
Defined.

Lemma mappages_maps_witness :
  ∃ r k s' fl', mappages demo_root 0x1000 (Z.of_nat 2 * PGSIZE) 0x80200000 PTE_U demo_vm = Ok r s' ∧
    (r = 0 ∧ k = 2%nat ∨ r = -1 ∧ (k < 2)%nat ∧ fl' = []) ∧
    twf 0x87ff8000 2 demo_root s' fl' ∧
    pt_pages 2 (k_mem s') demo_root ++ fl' ≡ₚ pt_pages 2 (k_mem demo_vm) demo_root ++ demo_free ∧
    ∀ va', 0 ≤ va' < MAXVA → leaf (k_mem s') demo_root va' =
      mapped (leaf (k_mem demo_vm) demo_root) 0x1000 0x80200000 PTE_U k va'.
Proof.
  apply (mappages_maps 0x87ff8000 ltac:(done) 2 demo_root 0x1000 0x80200000 PTE_U demo_vm demo_free);
    first [apply demo_twf|apply demo_unmapped_V|vm_compute; first [done|split; congruence|lia]].
Defined.

(** The state after mapping two user pages, and that the call succeeds. *)
Definition demo_mapped :=
  match mappages demo_root 0x1000 (Z.of_nat 2 * PGSIZE) 0x80200000 PTE_U demo_vm with
  | Ok _ s => s
  | Halt _ s => s
  end.

Lemma demo_map_ok :
  mappages demo_root 0x1000 (Z.of_nat 2 * PGSIZE) 0x80200000 PTE_U demo_vm = Ok 0 demo_mapped.
Proof.
  assert (result (mappages demo_root 0x1000 (Z.of_nat 2 * PGSIZE) 0x80200000 PTE_U demo_vm) = Some 0)
    as H by (vm_compute; reflexivity).
  unfold demo_mapped. destruct (mappages _ _ _ _ _ _) as [a s|]; cbn in H; congruence.
Qed.

Lemma mappages_walkaddr_witness :
  walkaddr demo_root 0x2004 demo_mapped = Ok (0x80200000 + (PGROUNDDOWN 0x2004 - 0x1000)) demo_mapped.
Proof.
  apply (mappages_walkaddr 0x87ff8000 ltac:(done) 2 demo_root 0x1000 0x80200000 PTE_U demo_vm demo_free
    demo_mapped);
    first [apply demo_twf|apply demo_map_ok|apply demo_unmapped_V
          |vm_compute; first [done|split; congruence|lia]].
Defined.

Lemma uvmunmap_unmaps_witness :
  ∃ s', uvmunmap 0x87ff8000 demo_root 0x1000 (Z.of_nat 2) true demo_vm = Ok tt s' ∧
    twf 0x87ff8000 2 demo_root s'
      (reverse (upages (k_mem demo_vm) demo_root 0x1000 2) ++ demo_free) ∧
    pt_pages 2 (k_mem s') demo_root = pt_pages 2 (k_mem demo_vm) demo_root ∧
    ∀ va', 0 ≤ va' < MAXVA → leaf (k_mem s') demo_root va' =
      unmapped (leaf (k_mem demo_vm) demo_root) 0x1000 (0x1000 + Z.of_nat 2 * PGSIZE) va'.
Proof.
  apply (uvmunmap_unmaps 0x87ff8000 ltac:(done) 2 demo_root 0x1000 true demo_vm demo_free demo_twf);
    [done|done|vm_compute; congruence|].
  intros _. assert (upages (k_mem demo_vm) demo_root 0x1000 2 = []) as -> by (vm_compute; reflexivity).
  split; [constructor|apply demo_twf].
Defined.

Lemma map_unmap_witness :
  ∃ s2, uvmunmap 0x87ff8000 demo_root 0x1000 (Z.of_nat 2) false demo_mapped = Ok tt s2 ∧
    ∀ va', 0 ≤ va' < MAXVA →
      ∃ r, walkaddr demo_root va' demo_vm = Ok r demo_vm ∧ walkaddr demo_root va' s2 = Ok r s2.
Proof.
  apply (map_unmap 0x87ff8000 ltac:(done) 2 demo_root 0x1000 0x80200000 PTE_U demo_vm demo_free
    demo_mapped);
    first [apply demo_twf|apply demo_map_ok|apply demo_unmapped_V
          |vm_compute; first [done|split; congruence|lia]].
Defined.

Lemma vm_panics_witness :
  walk demo_root MAXVA false demo_vm = Halt (Panicked "walk") demo_vm.
Proof.
  apply (proj1 (vm_panics 0x87ff8000 ltac:(done) demo_root MAXVA 0 0 0 0 false false demo_vm demo_free)).
  reflexivity.
Defined.
