(* ===== verification/VmCopy.v ===== *)
(** * Copies between kernel and user memory (kernel/vm.c)

    copyin, copyout and copyinstr against the memory a process sees: the byte at
    user address [va] is the byte at the physical address its page table gives. *)
From S2P Require Import Prelude Memory KString Riscv Spinlock Kalloc Vm VmSpec VmOps VmProps.

(** The physical address behind a user address. *)
Definition pa_of (m : mem) (root va : Z) : Z := PTE2PA (leaf m root va) + va `mod` PGSIZE.
Definition user_pte (v : Z) : bool := has v PTE_V && has v PTE_U.

Definition set_mem (m : mem) (k : kst) : kst := Kst (k_hart k) (k_lock k) (freelist k) m.

Section copy.
Context (end_ : Z) (end_pos : 0 < end_).
Implicit Types (s : vst) (k : kst) (fl : list Z).
Abbreviation twf := (twf end_ 2).
Abbreviation tables m root := (pt_pages 2 m root).

(** Addresses of the page table and of the free pages. *)
Definition owned root k fl (a : Z) : Prop := ∃ p, p ∈ tables (k_mem k) root ++ fl ∧ in_page a p.

Lemma twf_mem root k fl m' :
  twf root k fl → (∀ a, owned root k fl a → rd m' a = rd (k_mem k) a) →
  twf root (set_mem m' k) fl ∧ (∀ va, leaf m' root va = leaf (k_mem k) root va) ∧
  tables m' root = tables (k_mem k) root.
Proof.
  intros [Hk Hp Hn] Hm.
  assert (∀ p a, p ∈ tables (k_mem k) root → in_page a p → rd m' a = rd (k_mem k) a) as Hpt.
  { intros p a Hpa Ha. apply Hm. exists p. split; [apply elem_of_app; by left|done]. }
  pose proof (pt_pages_ext 2 _ m' root Hpt) as Et.
  split_and!; [|intros va; by apply leafv_ext|done]. split; cbn [k_mem set_mem].
  - apply (kinv_mem end_ k); [done|]. intros p a Hpa Ha. apply Hm. exists p. split; [apply elem_of_app; by right|done].
  - by rewrite Et.
  - by rewrite Et.
Qed.

(** The user addresses from [a] to [a + len] are mapped for user access, to pages
    that are neither tables nor free. *)
Record urange root k fl (a len : Z) : Prop := {
  ur_lo : 0 ≤ a;
  ur_hi : a + len ≤ MAXVA;
  ur_map va : a ≤ va < a + len → user_pte (leaf (k_mem k) root va) = true ∧ PTE2PA (leaf (k_mem k) root va) ≠ 0;
  ur_own va x : a ≤ va < a + len → in_page x (PTE2PA (leaf (k_mem k) root va)) → ¬ owned root k fl x
}.

Lemma urange_mem root k fl a len m' :
  twf root k fl → (∀ x, owned root k fl x → rd m' x = rd (k_mem k) x) → urange root k fl a len →
  urange root (set_mem m' k) fl a len.
Proof.
  intros Ht Hm [U1 U2 U3 U4]. destruct (twf_mem root k fl m' Ht Hm) as (_ & Hleaf & Htab).
  split; [done|done| |]; cbn [k_mem set_mem]; intros va; rewrite Hleaf; [by apply U3|].
  intros x Hva Hx (p & Hp & Hxp). apply (U4 va x Hva Hx). exists p. split; [|done]. cbn [k_mem set_mem] in Hp. by rewrite Htab in Hp.
Qed.

Lemma urange_sub root k fl a len b l : a ≤ b → 0 ≤ l → b + l ≤ a + len → urange root k fl a len → urange root k fl b l.
Proof. intros H1 H2 H3 [U1 U2 U3 U4]. split; [lia|lia|intros va Hva; apply U3; lia|intros va x Hva; apply U4; lia]. Qed.

Lemma page_split va : PGROUNDDOWN va = va - va `mod` PGSIZE ∧ 0 ≤ va `mod` PGSIZE < PGSIZE ∧ page_of (PGROUNDDOWN va) = page_of va.
Proof. rewrite PGROUNDDOWN_eq. unfold page_of, PGSIZE. dlia. Qed.

Lemma leaf_down m root va : leaf m root (PGROUNDDOWN va) = leaf m root va.
Proof. apply leaf_page_of, page_split. Qed.

(** Addresses in one page. *)
Lemma pa_of_add m root va i :
  0 ≤ i → va `mod` PGSIZE + i < PGSIZE → pa_of m root (va + i) = pa_of m root va + i.
Proof.
  intros Hi Hlt. unfold pa_of. assert ((va + i) `mod` PGSIZE = va `mod` PGSIZE + i ∧ page_of (va + i) = page_of va) as [-> E].
  { unfold page_of, PGSIZE in *. dlia. }
  rewrite (leaf_page_of m root (va + i) va) by done. lia.
Qed.

(** What the copying loops find for the page of [va], in a memory that differs from
    [k]'s outside the tables and the free pages. *)
Lemma user_page root k fl a len m' va :
  twf root k fl → urange root k fl a len → a ≤ va < a + len → (∀ x, owned root k fl x → rd m' x = rd (k_mem k) x) →
  let v := leaf (k_mem k) root va in
  walkaddr root (PGROUNDDOWN va) (set_mem m' k) = Ok (PTE2PA v) (set_mem m' k) ∧ PTE2PA v ≠ 0 ∧
  0 ≤ PGROUNDDOWN va < MAXVA ∧
  ∃ e, walk root (PGROUNDDOWN va) false (set_mem m' k) = Ok e (set_mem m' k) ∧ e ≠ 0 ∧ ld64 m' e = v.
Proof.
  intros Ht [H1 H2 H3 _] Hva Hm v. destruct (twf_mem root k fl m' Ht Hm) as (Ht' & Hleaf & _).
  pose proof (page_split va) as (E & Hmod & _). destruct (H3 va Hva) as [Hu Hnz].
  assert (0 ≤ va `div` PGSIZE * PGSIZE ∧ PGROUNDDOWN va = va `div` PGSIZE * PGSIZE) as [Hd Ed] by (rewrite E; unfold PGSIZE in *; dlia).
  assert (0 ≤ PGROUNDDOWN va < MAXVA) as Hr by lia. unfold user_pte in Hu. split_and!; [|done|lia|lia|].
  - rewrite (walkaddr_run end_ end_pos root _ _ fl Ht') by lia. cbn [k_mem set_mem]. rewrite leaf_down, Hleaf. cbn zeta. by rewrite Hu.
  - rewrite (walk_noalloc root _ (set_mem m' k)) by lia. cbn [k_mem set_mem].
    assert (leaf m' root (PGROUNDDOWN va) = v) as Ev by (by rewrite leaf_down, Hleaf).
    unfold leaf in Ev. unfold leafv in Ev. destruct (lookup_pte 2 m' root (PGROUNDDOWN va)) as [e|] eqn:Ee.
    + exists e. pose proof (pte_addr_pos _ end_pos _ _ _ _ _ _ Ht' Ee). split_and!; [done|lia|done].
    + exfalso. fold v in Hu. by rewrite <- Ev, has_0 in Hu.
Qed.

(** What has been copied to the kernel after [tot] bytes. *)
Record copied_in root k dst srcva tot (m' : mem) : Prop := {
  ci_in i : 0 ≤ i < tot → rd m' (dst + i) = rd (k_mem k) (pa_of (k_mem k) root (srcva + i));
  ci_out a : ¬ (dst ≤ a < dst + tot) → rd m' a = rd (k_mem k) a
}.

Lemma copyin_ok root s fl dst srcva len :
  twf root (v_k s) fl → urange root (v_k s) fl srcva len → 0 ≤ len →
  (∀ a, dst ≤ a < dst + len → ¬ owned root (v_k s) fl a ∧ ∀ i, 0 ≤ i < len → pa_of (k_mem (v_k s)) root (srcva + i) ≠ a) →
  wp (copyin end_ root dst srcva len) (λ r s', r = 0 ∧
    ∃ m', s' = Vst (set_mem m' (v_k s)) (v_procs s) ∧ copied_in root (v_k s) dst srcva len m') s.
Proof.
  intros Ht Hu Hlen Hdis. pose proof Hu as [U1 U2 U3 U4]. set (k := v_k s) in *. unfold copyin.
  assert (MAXVA + PGSIZE < 2 ^ 64) as Hmax by done.
  apply (wp_loop (λ '(d, va, l) s', ∃ tot m', 0 ≤ tot ∧ 0 ≤ l ∧ tot + l = len ∧ d = dst + tot ∧ (0 < l → va = srcva + tot) ∧
      s' = Vst (set_mem m' k) (v_procs s) ∧ copied_in root k dst srcva tot m') (λ '(_, _, l) _, Z.to_nat l)).
  - intros [[d va] l] s' (tot & m' & Htot & Hl & Hsum & -> & Hva & -> & Hc).
    destruct (Z.ltb_spec 0 l) as [Hpos|Hz]; cbn [negb].
    2: { wp_step. split; [done|]. exists m'. split; [done|]. by replace len with tot by lia. }
    specialize (Hva Hpos). subst va.
    destruct (user_page root k fl srcva len m' (srcva + tot) Ht Hu ltac:(lia)) as (Hw & Hnz & _).
    { intros a Ha. apply (ci_out _ _ _ _ _ _ Hc). intros Hin. by apply (Hdis a ltac:(lia)). }
    pose proof (page_split (srcva + tot)) as (Ed & Hmod & _).
    wp_step. eapply wp_of_Ok; [exact (zoom_Ok v_kl _ (Vst (set_mem m' k) (v_procs s)) _ _ Hw)|].
    rewrite (proj2 (Z.eqb_neq _ 0)) by done. wp_step. wp_step. rewrite (proj2 (Z.eqb_neq _ 0)) by done.
    replace (srcva + tot - PGROUNDDOWN (srcva + tot)) with ((srcva + tot) `mod` PGSIZE) by lia.
    fold (pa_of (k_mem k) root (srcva + tot)). set (n := Z.min _ l).
    assert (0 < n ≤ l ∧ n ≤ PGSIZE - (srcva + tot) `mod` PGSIZE) as [Hn Hnp] by (unfold n; lia).
    wp_step. apply wp_zoom, wp_zoom. eapply wp_mono; [apply memmove_rd; lia|]. cbn [view over v_kl kmem_mem v_k k_mem set_mem].
    intros x m2 [_ Hm2]. wp_step. split; [|lia].
    exists (tot + n), m2. split_and!; [lia|lia|lia|lia| |done|].
    + intros Hl'. assert (n = PGSIZE - (srcva + tot) `mod` PGSIZE) as En by (unfold n in *; lia). rewrite Ed, u64_small by lia. lia.
    + destruct Hc as [Ci Co]. split.
      * intros i Hi. rewrite Hm2. destruct (decide (dst + tot ≤ dst + i < dst + tot + n)) as [Hin|Hin].
        -- rewrite Co. { f_equal. replace (srcva + i) with (srcva + tot + (i - tot)) by lia. rewrite (pa_of_add _ _ _ (i - tot)) by lia. lia. }
           intros Hx. eapply (proj2 (Hdis (pa_of (k_mem k) root (srcva + tot) + (dst + i - (dst + tot))) ltac:(lia)) i); [lia|].
           replace (srcva + i) with (srcva + tot + (i - tot)) by lia. rewrite (pa_of_add _ _ _ (i - tot)) by lia. lia.
        -- apply Ci. lia.
      * intros a Ha. rewrite Hm2, decide_False by lia. apply Co. lia.
  - exists 0, (k_mem k). split_and!; try lia; [by destruct s as [[] ?]|]. split; [intros; lia|done].
  - lia.
Qed.

(** A range of writable pages; two of its addresses never share a byte. *)
Record wrange root k fl (a len : Z) : Prop := {
  wg_range : urange root k fl a len;
  wg_write va : a ≤ va < a + len → has (leaf (k_mem k) root va) PTE_W = true;
  wg_inj i j : 0 ≤ i < len → 0 ≤ j < len → pa_of (k_mem k) root (a + i) = pa_of (k_mem k) root (a + j) → i = j
}.

Record copied_out root k dstva src tot (m' : mem) : Prop := {
  co_in i : 0 ≤ i < tot → rd m' (pa_of (k_mem k) root (dstva + i)) = rd (k_mem k) (src + i);
  co_out a : (∀ i, 0 ≤ i < tot → a ≠ pa_of (k_mem k) root (dstva + i)) → rd m' a = rd (k_mem k) a
}.

Lemma pa_of_in_page m root va : in_page (pa_of m root va) (PTE2PA (leaf m root va)).
Proof. pose proof (page_split va). unfold in_page, pa_of. lia. Qed.

Lemma copyout_ok root s fl dstva src len :
  twf root (v_k s) fl → wrange root (v_k s) fl dstva len → 0 ≤ len →
  (∀ i j, 0 ≤ i < len → 0 ≤ j < len → pa_of (k_mem (v_k s)) root (dstva + i) ≠ src + j) →
  wp (copyout end_ root dstva src len) (λ r s', r = 0 ∧
    ∃ m', s' = Vst (set_mem m' (v_k s)) (v_procs s) ∧ copied_out root (v_k s) dstva src len m') s.
Proof.
  intros Ht [Hu Hwr Hinj] Hlen Hdis. pose proof Hu as [U1 U2 U3 U4]. set (k := v_k s) in *. unfold copyout.
  assert (MAXVA + PGSIZE < 2 ^ 64) as Hmax by done.
  apply (wp_loop (λ '(va, d, l) s', ∃ tot m', 0 ≤ tot ∧ 0 ≤ l ∧ tot + l = len ∧ d = src + tot ∧ (0 < l → va = dstva + tot) ∧
      s' = Vst (set_mem m' k) (v_procs s) ∧ copied_out root k dstva src tot m') (λ '(_, _, l) _, Z.to_nat l)).
  - intros [[va d] l] s' (tot & m' & Htot & Hl & Hsum & -> & Hva & -> & [Ci Co]).
    destruct (Z.ltb_spec 0 l) as [Hpos|Hz]; cbn [negb].
    2: { wp_step. split; [done|]. exists m'. split; [done|]. by replace len with tot by lia. }
    specialize (Hva Hpos). subst va.
    destruct (user_page root k fl dstva len m' (dstva + tot) Ht Hu ltac:(lia)) as (Hw & Hnz & Hd0 & a & Ha & Hane & Hld).
    { intros a Ha. apply Co. intros i Hi ->. apply (U4 (dstva + i) _ ltac:(lia) (pa_of_in_page _ _ _) Ha). }
    pose proof (page_split (dstva + tot)) as (Ed & Hmod & _). rewrite (proj2 (Z.leb_gt MAXVA _)) by lia.
    set (st1 := Vst (set_mem m' k) (v_procs s)).
    wp_step. eapply wp_of_Ok; [exact (zoom_Ok v_kl _ st1 _ _ Hw)|].
    rewrite (proj2 (Z.eqb_neq _ 0)) by done. wp_step. wp_step. rewrite (proj2 (Z.eqb_neq _ 0)) by done.
    wp_step. eapply wp_of_Ok; [exact (zoom_Ok v_kl _ st1 _ _ Ha)|]. rewrite (proj2 (Z.eqb_neq a 0)) by done.
    wp_step. eapply wp_of_Ok; [exact (zoom_Ok v_kl (load64 a) st1 _ _ eq_refl)|].
    change (k_mem (view v_kl st1)) with m'. rewrite Hld, Hwr by lia. cbn [negb].
    replace (dstva + tot - PGROUNDDOWN (dstva + tot)) with ((dstva + tot) `mod` PGSIZE) by lia.
    fold (pa_of (k_mem k) root (dstva + tot)). set (n := Z.min _ l).
    assert (0 < n ≤ l ∧ n ≤ PGSIZE - (dstva + tot) `mod` PGSIZE) as [Hn Hnp] by (unfold n; lia).
    assert (∀ i, tot ≤ i < tot + n → pa_of (k_mem k) root (dstva + i) = pa_of (k_mem k) root (dstva + tot) + (i - tot)) as Hpa.
    { intros i Hi. replace (dstva + i) with (dstva + tot + (i - tot)) by lia. apply pa_of_add; lia. }
    wp_step. apply wp_zoom, wp_zoom. eapply wp_mono; [apply memmove_rd; lia|]. cbn [view over v_kl kmem_mem v_k k_mem set_mem st1].
    intros x m2 [_ Hm2]. wp_step. split; [|lia].
    exists (tot + n), m2. split_and!; [lia|lia|lia|lia| |done|].
    + intros Hl'. assert (n = PGSIZE - (dstva + tot) `mod` PGSIZE) as En by (unfold n in *; lia). rewrite Ed, u64_small by lia. lia.
    + split.
      * intros i Hi. rewrite Hm2. destruct (decide (i < tot)) as [Hlt|Hge].
        -- rewrite decide_False; [by apply Ci; lia|]. intros Hin.
           pose proof (Hpa (tot + (pa_of (k_mem k) root (dstva + i) - pa_of (k_mem k) root (dstva + tot))) ltac:(lia)) as E.
           assert (i = tot + (pa_of (k_mem k) root (dstva + i) - pa_of (k_mem k) root (dstva + tot))); [|lia].
           apply Hinj; [lia|lia|]. rewrite E. lia.
        -- rewrite (Hpa i) by lia. rewrite decide_True by lia. rewrite Co.
           { f_equal. lia. } intros j Hj E. apply (Hdis j i); [lia|lia|]. rewrite <- E. lia.
      * intros x0 Hx0. rewrite Hm2, decide_False; [apply Co; intros i Hi; apply Hx0; lia|]. intros Hin.
        apply (Hx0 (tot + (x0 - pa_of (k_mem k) root (dstva + tot))) ltac:(lia)). rewrite Hpa by lia. lia.
  - exists 0, (k_mem k). split_and!; try lia; [by destruct s as [[] ?]|]. split; [intros; lia|done].
  - lia.
Qed.

(** ** Strings *)

(** [n] characters without a NUL are copied. *)
Lemma copyinstr_page_full n p dst m :
  (∀ i, 0 ≤ i < Z.of_nat n → rd m (p + i) ≠ 0) →
  (∀ i j, 0 ≤ i < Z.of_nat n → 0 ≤ j < Z.of_nat n → p + i ≠ dst + j) →
  wp (copyinstr_page n p dst) (λ r m', r = false ∧
    ∀ a, rd m' a = if decide (dst ≤ a < dst + Z.of_nat n) then rd m (p + (a - dst)) else rd m a) m.
Proof.
  revert p dst m. induction n as [|n IH]; intros p dst m Hnz Hd; cbn [copyinstr_page].
  - wp_step. split; [done|]. intros a. by rewrite decide_False by lia.
  - wp_step. wp_step. specialize (Hnz 0 ltac:(lia)) as H0. rewrite Z.add_0_r in H0.
    rewrite (proj2 (Z.eqb_neq _ 0)) by done. wp_step. wp_step.
    assert (∀ i, 0 ≤ i < Z.of_nat n → rd (wr m dst (rd m p)) (p + 1 + i) = rd m (p + 1 + i)) as Hsame.
    { intros i Hi. apply rd_wr_ne. replace (p + 1 + i) with (p + (1 + i)) by lia.
      replace dst with (dst + 0) by lia. apply Hd; lia. }
    eapply wp_mono; [apply IH|].
    + intros i Hi. rewrite Hsame by done. replace (p + 1 + i) with (p + (1 + i)) by lia. apply Hnz. lia.
    + intros i j Hi Hj. specialize (Hd (1 + i) (1 + j) ltac:(lia) ltac:(lia)). lia.
    + intros r m' [-> Hm']. split; [done|]. intros a. rewrite Hm'. repeat case_decide; try lia.
      * replace (p + 1 + (a - (dst + 1))) with (p + 1 + (a - dst - 1)) by lia. rewrite Hsame by lia. f_equal. lia.
      * replace a with dst by lia. rewrite rd_wr_eq, u8_small by apply rd_range. f_equal. lia.
      * apply rd_wr_ne. lia.
Qed.

(** The NUL after [j] characters ends the copy. *)
Lemma copyinstr_page_nul n p dst m j :
  (j < n)%nat → (∀ i, 0 ≤ i < Z.of_nat j → rd m (p + i) ≠ 0) → rd m (p + Z.of_nat j) = 0 →
  (∀ i i', 0 ≤ i ≤ Z.of_nat j → 0 ≤ i' ≤ Z.of_nat j → p + i ≠ dst + i') →
  wp (copyinstr_page n p dst) (λ r m', r = true ∧
    ∀ a, rd m' a = if decide (dst ≤ a ≤ dst + Z.of_nat j) then rd m (p + (a - dst)) else rd m a) m.
Proof.
  revert n p dst m. induction j as [|j IH]; intros n p dst m Hlt Hnz Hz Hd; (destruct n as [|n]; [lia|]); cbn [copyinstr_page].
  - wp_step. wp_step. rewrite Z.add_0_r in Hz. rewrite Hz. cbn [Z.eqb]. wp_step. wp_step. wp_step. split; [done|].
    intros a. case_decide; [replace a with dst by lia|by apply rd_wr_ne; lia].
    replace (p + (dst - dst)) with p by lia. rewrite rd_wr_eq, Hz. done.
  - wp_step. wp_step. specialize (Hnz 0 ltac:(lia)) as H0. rewrite Z.add_0_r in H0.
    rewrite (proj2 (Z.eqb_neq _ 0)) by done. wp_step. wp_step.
    assert (∀ i, 0 ≤ i ≤ Z.of_nat j → rd (wr m dst (rd m p)) (p + 1 + i) = rd m (p + 1 + i)) as Hsame.
    { intros i Hi. apply rd_wr_ne. replace (p + 1 + i) with (p + (1 + i)) by lia.
      replace dst with (dst + 0) by lia. apply Hd; lia. }
    eapply wp_mono; [apply IH|].
    + lia.
    + intros i Hi. rewrite Hsame by lia. replace (p + 1 + i) with (p + (1 + i)) by lia. apply Hnz. lia.
    + rewrite Hsame by lia. replace (p + 1 + Z.of_nat j) with (p + Z.of_nat (S j)) by lia. done.
    + intros i i' Hi Hi'. specialize (Hd (1 + i) (1 + i') ltac:(lia) ltac:(lia)). lia.
    + intros r m' [-> Hm']. split; [done|]. intros a. rewrite Hm'. repeat case_decide; try lia.
      * replace (p + 1 + (a - (dst + 1))) with (p + 1 + (a - dst - 1)) by lia. rewrite Hsame by lia. f_equal. lia.
      * replace a with dst by lia. rewrite rd_wr_eq, u8_small by apply rd_range. f_equal. lia.
      * apply rd_wr_ne. lia.
Qed.

(** The user string at [srcva] has [len] characters. *)
Record ustring root k fl (srcva : Z) (len : nat) : Prop := {
  us_range : urange root k fl srcva (Z.of_nat len + 1);
  us_chars i : 0 ≤ i < Z.of_nat len → rd (k_mem k) (pa_of (k_mem k) root (srcva + i)) ≠ 0;
  us_nul : rd (k_mem k) (pa_of (k_mem k) root (srcva + Z.of_nat len)) = 0
}.

Lemma copyinstr_ok root s fl dst srcva max len :
  twf root (v_k s) fl → ustring root (v_k s) fl srcva len → Z.of_nat len < max →
  (∀ a, dst ≤ a ≤ dst + Z.of_nat len → ¬ owned root (v_k s) fl a ∧
     ∀ i, 0 ≤ i ≤ Z.of_nat len → pa_of (k_mem (v_k s)) root (srcva + i) ≠ a) →
  wp (copyinstr root dst srcva max) (λ r s', r = 0 ∧
    ∃ m', s' = Vst (set_mem m' (v_k s)) (v_procs s) ∧ copied_in root (v_k s) dst srcva (Z.of_nat len + 1) m') s.
Proof.
  intros Ht [Hu Hch Hnul] Hmax Hdis. pose proof Hu as [U1 U2 U3 U4]. set (k := v_k s) in *. set (N := Z.of_nat len) in *.
  unfold copyinstr. assert (MAXVA + PGSIZE < 2 ^ 64) as Hmv by done.
  apply (wp_loop (λ '(d, va, mx) s', ∃ tot m', 0 ≤ tot ≤ N ∧ d = dst + tot ∧ mx = max - tot ∧ va = srcva + tot ∧
      s' = Vst (set_mem m' k) (v_procs s) ∧ copied_in root k dst srcva tot m') (λ '(_, _, mx) _, Z.to_nat mx)).
  - intros [[d va] mx] s' (tot & m' & Htot & -> & -> & -> & -> & Hc). pose proof Hc as [Ci Co].
    rewrite (proj2 (Z.ltb_lt 0 (max - tot))) by lia. cbn [negb].
    destruct (user_page root k fl srcva (N + 1) m' (srcva + tot) Ht Hu ltac:(lia)) as (Hw & Hnz & _).
    { intros a Ha. apply Co. intros Hin. by apply (Hdis a ltac:(lia)). }
    pose proof (page_split (srcva + tot)) as (Ed & Hmod & _).
    set (st1 := Vst (set_mem m' k) (v_procs s)).
    wp_step. eapply wp_of_Ok; [exact (zoom_Ok v_kl _ st1 _ _ Hw)|]. rewrite (proj2 (Z.eqb_neq _ 0)) by done.
    replace (srcva + tot - PGROUNDDOWN (srcva + tot)) with ((srcva + tot) `mod` PGSIZE) by lia.
    fold (pa_of (k_mem k) root (srcva + tot)). set (n := Z.min _ (max - tot)). set (P := pa_of (k_mem k) root (srcva + tot)).
    assert (0 < n ≤ max - tot ∧ n ≤ PGSIZE - (srcva + tot) `mod` PGSIZE) as [Hn Hnp] by (unfold n; lia).
    assert (∀ i, 0 ≤ i < n → pa_of (k_mem k) root (srcva + (tot + i)) = P + i) as Hpa.
    { intros i Hi. rewrite Z.add_assoc. apply pa_of_add; lia. }
    assert (∀ i, 0 ≤ i < n → tot + i ≤ N → rd m' (P + i) = rd (k_mem k) (pa_of (k_mem k) root (srcva + (tot + i))) ∧ ¬ (dst ≤ P + i ≤ dst + N)) as Hrd.
    { intros i Hi HN. rewrite <- Hpa by lia. assert (¬ (dst ≤ pa_of (k_mem k) root (srcva + (tot + i)) ≤ dst + N)) as Hout.
      { intros Hin. by apply (proj2 (Hdis _ Hin) (tot + i) ltac:(lia)). }
      split; [|done]. apply Co. lia. }
    wp_step. apply wp_zoom, wp_zoom. cbn [view over v_kl kmem_mem v_k k_mem set_mem st1].
    destruct (decide (N - tot < n)) as [Hend|Hmore].
    + eapply wp_mono; [apply (copyinstr_page_nul _ P (dst + tot) m' (Z.to_nat (N - tot)))|].
      * lia.
      * intros i Hi. rewrite (proj1 (Hrd i ltac:(lia) ltac:(lia))). apply Hch. lia.
      * rewrite Z2Nat.id by lia. rewrite (proj1 (Hrd (N - tot) ltac:(lia) ltac:(lia))).
        by replace (tot + (N - tot)) with N by lia.
      * intros i i' Hi Hi'. pose proof (proj2 (Hrd i ltac:(lia) ltac:(lia))). lia.
      * intros r m2 [-> Hm2]. wp_step. split; [done|]. exists m2. split; [done|]. rewrite Z2Nat.id in Hm2 by lia. split.
        -- intros i Hi. rewrite Hm2. case_decide as Hin; [|apply Ci; lia].
           replace (P + (dst + i - (dst + tot))) with (P + (i - tot)) by lia. rewrite (proj1 (Hrd (i - tot) ltac:(lia) ltac:(lia))).
           by replace (tot + (i - tot)) with i by lia.
        -- intros a Ha. rewrite Hm2, decide_False by lia. apply Co. lia.
    + eapply wp_mono; [apply (copyinstr_page_full _ P (dst + tot) m')|].
      * rewrite Z2Nat.id by lia. intros i Hi. rewrite (proj1 (Hrd i ltac:(lia) ltac:(lia))). apply Hch. lia.
      * rewrite Z2Nat.id by lia. intros i i' Hi Hi'. pose proof (proj2 (Hrd i ltac:(lia) ltac:(lia))). lia.
      * rewrite Z2Nat.id by lia. intros r m2 [-> Hm2]. wp_step. split; [|lia].
        exists (tot + n), m2. split_and!; [lia|lia|lia|lia| |done|].
        -- assert (n = PGSIZE - (srcva + tot) `mod` PGSIZE) as En by (unfold n in *; lia). rewrite Ed, u64_small by lia. lia.
        -- split.
           ++ intros i Hi. rewrite Hm2. case_decide as Hin; [|apply Ci; lia].
              replace (P + (dst + i - (dst + tot))) with (P + (i - tot)) by lia. rewrite (proj1 (Hrd (i - tot) ltac:(lia) ltac:(lia))).
              by replace (tot + (i - tot)) with i by lia.
           ++ intros a Ha. rewrite Hm2, decide_False by lia. apply Co. lia.
  - exists 0, (k_mem k). split_and!; try lia; [by destruct s as [[] ?]|]. split; [intros; lia|done].
  - lia.
Qed.
End copy.

Section theorems.
Context (end_ : Z) (end_pos : 0 < end_).
Implicit Types (s : vst) (k : kst) (fl : list Z).
Abbreviation twf := (twf end_ 2).

(** C25: bytes that copyout writes to a mapped, writable user range (any length, across
    any number of pages) are the bytes copyin reads back from it. *)
Theorem copyout_copyin root s fl va src dst len :
  twf root (v_k s) fl → wrange root (v_k s) fl va len → 0 ≤ len →
  (∀ i j, 0 ≤ i < len → 0 ≤ j < len → pa_of (k_mem (v_k s)) root (va + i) ≠ src + j) →
  (∀ a, dst ≤ a < dst + len → ¬ owned root (v_k s) fl a ∧ ∀ i, 0 ≤ i < len → pa_of (k_mem (v_k s)) root (va + i) ≠ a) →
  wp (do r <- copyout end_ root va src len; do q <- copyin end_ root dst va len; ret (r, q)) (λ p s', p = (0, 0) ∧
    v_procs s' = v_procs s ∧ k_hart (v_k s') = k_hart (v_k s) ∧ freelist (v_k s') = freelist (v_k s) ∧
    (∀ i, 0 ≤ i < len → rd (k_mem (v_k s')) (dst + i) = rd (k_mem (v_k s)) (src + i)) ∧
    ∀ a, ¬ (dst ≤ a < dst + len) → (∀ i, 0 ≤ i < len → a ≠ pa_of (k_mem (v_k s)) root (va + i)) →
      rd (k_mem (v_k s')) a = rd (k_mem (v_k s)) a) s.
Proof.
  intros Ht Hw Hlen Hsrc Hdst. pose proof Hw as [Hu _ _].
  wp_step. wp_call (copyout_ok end_ end_pos root s fl va src len Ht Hw Hlen Hsrc). intros r s1 (-> & m1 & -> & [Oi Oo]).
  destruct (twf_mem end_ root (v_k s) fl m1 Ht) as (Ht1 & Hleaf & Htab).
  { intros a Ha. apply Oo. intros i Hi ->. apply (ur_own _ _ _ _ _ Hu (va + i) _ ltac:(lia) (pa_of_in_page _ _ _) Ha). }
  assert (∀ x, pa_of m1 root x = pa_of (k_mem (v_k s)) root x) as Hpa by (intros x; unfold pa_of; by rewrite Hleaf).
  assert (∀ a, owned root (set_mem m1 (v_k s)) fl a → owned root (v_k s) fl a) as Hown.
  { intros a (p & Hp & Hin). exists p. split; [|done]. cbn [k_mem set_mem] in Hp. by rewrite Htab in Hp. }
  wp_step. wp_call (copyin_ok end_ end_pos root (Vst (set_mem m1 (v_k s)) (v_procs s)) fl dst va len Ht1).
  - apply (urange_mem end_); [done| |done]. intros a Ha. apply Oo. intros i Hi ->.
    apply (ur_own _ _ _ _ _ Hu (va + i) _ ltac:(lia) (pa_of_in_page _ _ _) Ha).
  - done.
  - intros a Ha. destruct (Hdst a Ha) as [H1 H2]. split; [intros H; by apply H1, Hown|]. intros i Hi. cbn [k_mem set_mem v_k]. rewrite Hpa. by apply H2.
  - intros q s2 (-> & m2 & -> & [Ii Io]). cbn [k_mem set_mem v_k] in *. wp_step. split_and!; try done.
    + intros i Hi. rewrite Ii, Hpa by done. by apply Oi.
    + intros a Ha Hp. rewrite Io by done. by apply Oo.
Qed.

(** Copyinstr copies a NUL-terminated user string of fewer than [max] characters,
    wherever page boundaries fall in it, and writes nothing behind its NUL. *)
Theorem copyinstr_copies root s fl dst srcva max len :
  twf root (v_k s) fl → ustring root (v_k s) fl srcva len → Z.of_nat len < max →
  (∀ a, dst ≤ a ≤ dst + Z.of_nat len → ¬ owned root (v_k s) fl a ∧
     ∀ i, 0 ≤ i ≤ Z.of_nat len → pa_of (k_mem (v_k s)) root (srcva + i) ≠ a) →
  let chars := (λ i, rd (k_mem (v_k s)) (pa_of (k_mem (v_k s)) root (srcva + i))) <$> seqZ 0 (Z.of_nat len) in
  wp (copyinstr root dst srcva max) (λ r s', r = 0 ∧ v_procs s' = v_procs s ∧
    cstr (k_mem (v_k s')) dst chars ∧
    ∀ a, ¬ (dst ≤ a ≤ dst + Z.of_nat len) → rd (k_mem (v_k s')) a = rd (k_mem (v_k s)) a) s.
Proof.
  intros Ht Hu Hmax Hdis chars. eapply wp_mono; [by apply (copyinstr_ok end_ end_pos root s fl dst srcva max len)|].
  intros r s' (-> & m' & -> & [Ii Io]). cbn [k_mem set_mem v_k v_procs]. destruct Hu as [_ Hc Hz].
  assert (length chars = len) as El by (unfold chars; rewrite length_fmap, length_seqZ; lia).
  split_and!; [done|done| |intros a Ha; apply Io; lia]. split.
  - apply Forall_fmap, Forall_forall. intros i Hi%elem_of_seqZ. cbn. pose proof (rd_range (k_mem (v_k s)) (pa_of (k_mem (v_k s)) root (srcva + i))).
    specialize (Hc i ltac:(lia)). lia.
  - rewrite El. replace (S len) with (len + 1)%nat by lia. rewrite rds_app. f_equal.
    + apply list_eq. intros i. rewrite lookup_rds. unfold chars. destruct (decide (i < len)%nat).
      * rewrite list_lookup_fmap, lookup_seqZ_lt by lia. cbn. rewrite Ii by lia. do 2 f_equal.
      * by rewrite lookup_ge_None_2 by (rewrite length_fmap, length_seqZ; lia).
    + rewrite rds_cons, rds_0, Ii by lia. by rewrite Hz.
Qed.

(** Copyout refuses a page the process may not write (its own text, for one) and an
    address past the largest user address, and then changes nothing. *)
Theorem copyout_refuses root s fl dstva src len :
  twf root (v_k s) fl → 0 < len → 0 ≤ dstva →
  (MAXVA ≤ PGROUNDDOWN dstva → copyout end_ root dstva src len s = Ok (-1) s) ∧
  (dstva < MAXVA → user_pte (leaf (k_mem (v_k s)) root dstva) = true → PTE2PA (leaf (k_mem (v_k s)) root dstva) ≠ 0 →
   (∀ x, in_page x (PTE2PA (leaf (k_mem (v_k s)) root dstva)) → ¬ owned root (v_k s) fl x) →
   has (leaf (k_mem (v_k s)) root dstva) PTE_W = false → copyout end_ root dstva src len s = Ok (-1) s).
Proof.
  intros Ht Hlen Hva. unfold copyout. cbn [loop]. rewrite (proj2 (Z.ltb_lt 0 len)) by done. cbn [negb]. split.
  - intros Hm. rewrite (proj2 (Z.leb_le MAXVA _)) by done. done.
  - intros Hmax Hu Hnz Hown Hw.
    assert (urange root (v_k s) fl dstva 1) as Hur.
    { split; [done|lia| |]; intros va; [intros H; by replace va with dstva by lia|]. intros x H. replace va with dstva by lia. apply Hown. }
    destruct (user_page end_ end_pos root (v_k s) fl dstva 1 (k_mem (v_k s)) dstva Ht Hur ltac:(lia) ltac:(done))
      as (Hwa & _ & Hr & e & He & Hene & Hld).
    replace (set_mem (k_mem (v_k s)) (v_k s)) with (v_k s) in * by (by destruct (v_k s)).
    rewrite (proj2 (Z.leb_gt MAXVA _)) by lia.
    assert (s = over v_kl (v_k s) s) as Es by (by destruct s).
    assert (∀ A (c : M kst A) a, c (v_k s) = Ok a (v_k s) → zoom v_kl c s = Ok a s) as Hz.
    { intros A c a Hc. rewrite (zoom_Ok v_kl c s a (v_k s) Hc). by rewrite <- Es. }
    unfold bind at 1. rewrite (bind_Ok _ _ _ _ _ (Hz _ _ _ Hwa)), (proj2 (Z.eqb_neq _ 0)) by done.
    rewrite (bind_Ok (ret _) _ _ _ _ eq_refl), (proj2 (Z.eqb_neq _ 0)) by done.
    rewrite (bind_Ok _ _ _ _ _ (Hz _ _ _ He)), (proj2 (Z.eqb_neq e 0)) by done.
    rewrite (bind_Ok _ _ _ _ _ (Hz _ (load64 e) _ eq_refl)), Hld, Hw. done.
Qed.
End theorems.

(** ** A process on which the theorems can be tried

    Two user pages at 0x1000, mapped writable to 0x80200000; the tables and the
    free pages are above 0x87ffb000. *)
Definition demo_perm : Z := Z.lor (Z.lor PTE_W PTE_U) PTE_R.

Definition demo_uk :=
  match mappages demo_root 0x1000 (Z.of_nat 2 * PGSIZE) 0x80200000 demo_perm demo_vm with Ok _ s => s | Halt _ s => s end.

Lemma demo_uk_ok : ∃ fl, twf 0x87ff8000 2 demo_root demo_uk fl ∧
  (∀ a, owned demo_root demo_uk fl a → 0x87ffb000 ≤ a) ∧
  ∀ va, 0x1000 ≤ va < 0x3000 → leaf (k_mem demo_uk) demo_root va = mkpte (0x80200000 + (page_of va * PGSIZE - 0x1000)) demo_perm.
Proof.
  assert (result (mappages demo_root 0x1000 (Z.of_nat 2 * PGSIZE) 0x80200000 demo_perm demo_vm) = Some 0) as Hr by (vm_compute; reflexivity).
  assert (0x1000 + Z.of_nat 2 * PGSIZE ≤ MAXVA) as H1 by (vm_compute; congruence).
  assert (0x80200000 + Z.of_nat 2 * PGSIZE ≤ 2 ^ 56) as H2 by (vm_compute; congruence).
  assert (0 ≤ demo_perm < 1024) as H3 by (vm_compute; split; congruence).
  assert (0x80200000 `mod` PGSIZE = 0) as H4 by (vm_compute; reflexivity).
  pose proof (mappages_ok 0x87ff8000 eq_refl 2 demo_root 0x1000 0x80200000 demo_perm demo_vm demo_free demo_twf
    eq_refl ltac:(lia) ltac:(lia) H1 ltac:(lia) H4 H2 H3 (demo_unmapped_V _ _)) as H.
  unfold wp in H. unfold demo_uk. destruct (mappages _ _ _ _ _ _) as [r k|]; cbn in Hr; [|done]. injection Hr as ->.
  destruct H as (fl' & n & Hst & [[_ ->]|[Hf _]] & _ & Hleaf); [|done]. exists fl'. split_and!.
  - by eapply tstep_twf; [apply demo_twf|].
  - intros a (p & Hp & Hin). rewrite (t_perm _ _ _ _ _ _ Hst) in Hp.
    assert (pt_pages 2 (k_mem demo_vm) demo_root = [demo_root]) as Hpp by (vm_compute; reflexivity). rewrite Hpp in Hp.
    unfold demo_root, demo_free in Hp. cbn [app] in Hp. rewrite !elem_of_cons, elem_of_nil in Hp. unfold in_page, PGSIZE in Hin. lia.
  - intros va Hva. rewrite Hleaf by (change MAXVA with 0x4000000000; lia). unfold mapped. by rewrite decide_True by (unfold PGSIZE; lia).
Qed.

Lemma demo_upa va : 0x1000 ≤ va < 0x3000 →
  pa_of (k_mem demo_uk) demo_root va = 0x801ff000 + va ∧ user_pte (leaf (k_mem demo_uk) demo_root va) = true ∧
  has (leaf (k_mem demo_uk) demo_root va) PTE_W = true ∧ 0x80200000 ≤ PTE2PA (leaf (k_mem demo_uk) demo_root va) ≤ 0x80201000.
Proof.
  intros Hva. destruct demo_uk_ok as (fl & _ & _ & Hl). unfold pa_of. rewrite (Hl va Hva).
  assert (0x1000 ≤ page_of va * PGSIZE ≤ 0x2000 ∧ (page_of va * PGSIZE) `mod` PGSIZE = 0 ∧ page_of va * PGSIZE + va `mod` PGSIZE = va) as (Hp & Hm & Hs).
  { unfold page_of, PGSIZE. dlia. }
  destruct (mkpte_ok (0x80200000 + (page_of va * PGSIZE - 0x1000)) demo_perm) as (_ & E & HV & Hg);
    [lia|unfold PGSIZE in *; dlia|done|]. rewrite E.
  split_and!; [lia| |by apply Hg|lia|lia]. unfold user_pte. rewrite HV. by apply Hg.
Qed.

Lemma demo_wrange fl : (∀ a, owned demo_root demo_uk fl a → 0x87ffb000 ≤ a) → wrange demo_root demo_uk fl 0x1f00 512.
Proof.
  intros Ho. split.
  - split; [lia|change MAXVA with 0x4000000000; lia| |].
    + intros va Hva. pose proof (demo_upa va ltac:(lia)) as (_ & Hu & _ & Hp). split; [done|lia].
    + intros va x Hva Hx H%Ho. pose proof (demo_upa va ltac:(lia)) as (_ & _ & _ & Hp). unfold in_page, PGSIZE in Hx. lia.
  - intros va Hva. apply demo_upa. lia.
  - intros i j Hi Hj. rewrite (proj1 (demo_upa (0x1f00 + i) ltac:(lia))), (proj1 (demo_upa (0x1f00 + j) ltac:(lia))). lia.
Qed.

Lemma copyout_copyin_witness :
  wp (do r <- copyout 0x87ff8000 demo_root 0x1f00 0x81000000 512; do q <- copyin 0x87ff8000 demo_root 0x82000000 0x1f00 512; ret (r, q))
     (λ p s', p = (0, 0) ∧ ∀ i, 0 ≤ i < 512 → rd (k_mem (v_k s')) (0x82000000 + i) = rd (k_mem demo_uk) (0x81000000 + i)) (Vst demo_uk []).
Proof.
  destruct demo_uk_ok as (fl & Ht & Ho & _).
  eapply wp_mono; [apply (copyout_copyin 0x87ff8000 ltac:(done) demo_root (Vst demo_uk []) fl 0x1f00 0x81000000 0x82000000 512 Ht (demo_wrange fl Ho))|].
  - lia.
  - intros i j Hi Hj. cbn [v_k]. rewrite (proj1 (demo_upa (0x1f00 + i) ltac:(lia))). lia.
  - intros a Ha. cbn [v_k]. split; [intros H%Ho; lia|]. intros i Hi. rewrite (proj1 (demo_upa (0x1f00 + i) ltac:(lia))). lia.
  - intros p s' (-> & _ & _ & _ & H & _). by split.
Defined.

(** The empty string: demo memory is zero there. *)
Lemma copyinstr_copies_witness :
  wp (copyinstr demo_root 0x82000000 0x1ffe 16) (λ r s', r = 0 ∧ cstr (k_mem (v_k s')) 0x82000000 []) (Vst demo_uk []).
Proof.
  destruct demo_uk_ok as (fl & Ht & Ho & _).
  eapply wp_mono; [apply (copyinstr_copies 0x87ff8000 ltac:(done) demo_root (Vst demo_uk []) fl 0x82000000 0x1ffe 16 0 Ht)|].
  - destruct (demo_wrange fl Ho) as [[H1 H2 H3 H4] _ _]. cbn [v_k]. split; [|intros; lia|].
    + split; [lia|change MAXVA with 0x4000000000; lia|intros va Hva; apply H3; lia|intros va x Hva; apply H4; lia].
    + rewrite (proj1 (demo_upa (0x1ffe + Z.of_nat 0) ltac:(lia))). vm_compute. reflexivity.
  - lia.
  - intros a Ha. cbn [v_k]. split; [intros H%Ho; lia|]. intros i Hi. rewrite (proj1 (demo_upa (0x1ffe + i) ltac:(lia))). lia.
  - intros r s' (-> & _ & Hc & _). split; [done|exact Hc].
Defined.

Lemma copyout_refuses_witness :
  copyout 0x87ff8000 demo_root MAXVA 0x81000000 8 (Vst demo_uk []) = Ok (-1) (Vst demo_uk []).
Proof.
  destruct demo_uk_ok as (fl & Ht & _).
  apply (proj1 (copyout_refuses 0x87ff8000 ltac:(done) demo_root (Vst demo_uk []) fl MAXVA 0x81000000 8 Ht ltac:(lia) ltac:(done))).
  vm_compute. discriminate.
Defined.

#[global] Opaque demo_uk.
