(* ===== verification/VmFree.v ===== *)
(** * Giving an address space back (kernel/vm.c)

    freewalk and uvmfree against the pages of a page table: every page of the
    tables and of user memory goes back to the allocator, once. *)
From S2P Require Import Prelude Memory KString Riscv Spinlock Kalloc Vm VmSpec VmOps VmProps.

(** A table without mappings: what freewalk expects. *)
Fixpoint bare (level : nat) (m : mem) (pt : Z) : Prop :=
  ∀ i, 0 ≤ i < 512 →
    match level with
    | O => has (entry m pt i) PTE_V = false
    | S l => has (entry m pt i) PTE_V = true → has (entry m pt i) PTE_RWX = false ∧ bare l m (PTE2PA (entry m pt i))
    end.

Lemma bare_ext l m m' pt :
  (∀ p a, p ∈ pt_pages l m pt → in_page a p → rd m' a = rd m a) → bare l m pt → bare l m' pt.
Proof.
  revert pt. induction l as [|l IH]; intros pt Hext H i Hi;
    rewrite (entry_ext m m' pt) by first [lia|intros; eapply Hext; [apply pt_in_pages|done]]; [by apply H|].
  intros HV. destruct (H i Hi HV) as (H2 & H3). split; [done|]. apply IH; [|done]. intros p a Hp.
  apply Hext. eapply kids_elem; [done|by rewrite kids_valid].
Qed.

(** Membership in lists built with [::] and [++]. *)
Ltac ins :=
  repeat match goal with
  | H : _ ∈ _ :: _ |- _ => rewrite elem_of_cons in H
  | H : _ ∈ _ ++ _ |- _ => rewrite elem_of_app in H
  end; repeat (rewrite elem_of_app || rewrite elem_of_cons || rewrite list_elem_of_singleton); tauto.

Section free.
Context (end_ : Z) (end_pos : 0 < end_).
Implicit Types (s : kst) (fl : list Z).
Abbreviation kinv := (kinv end_).
Abbreviation page_ok := (page_ok end_).

(** The pages [ps] are free again, as [us], and only they changed. *)
Record freed s fl (ps us : list Z) s' : Prop := {
  fr_perm : us ≡ₚ ps;
  fr_kinv : kinv s' (us ++ fl);
  fr_hart : hart_same (k_hart s) (k_hart s');
  fr_frame a : (∀ p, p ∈ ps → ¬ in_page a p) → rd (k_mem s') a = rd (k_mem s) a
}.

(** The tables below the entries [pre] of [pt] have been given back. *)
Record walked l pt s fl (pre us : list Z) s' : Prop := {
  wk_perm : us ≡ₚ concat (kids l (k_mem s) pt <$> pre);
  wk_kinv : kinv s' (us ++ fl);
  wk_hart : hart_same (k_hart s) (k_hart s');
  wk_frame a : (∀ p, p ∈ pt :: concat (kids l (k_mem s) pt <$> pre) → ¬ in_page a p) → rd (k_mem s') a = rd (k_mem s) a;
  wk_entry j : 0 ≤ j < 512 → j ∉ pre → entry (k_mem s') pt j = entry (k_mem s) pt j
}.

Definition walk_spec (l : nat) : Prop := ∀ pt s fl,
  twf end_ l pt s fl → bare l (k_mem s) pt →
  wp (freewalk end_ (S l) pt) (λ _ s', ∃ us, freed s fl (pt_pages l (k_mem s) pt) us s') s.

(** One entry that points to a table. *)
Lemma free_kid l pt s fl pre i post us s1 :
  walk_spec l → twf end_ (S l) pt s fl → bare (S l) (k_mem s) pt →
  seqZ 0 512 = pre ++ i :: post → walked l pt s fl pre us s1 → 0 ≤ i < 512 → has (entry (k_mem s) pt i) PTE_V = true →
  wp (freewalk end_ (S l) (PTE2PA (entry (k_mem s) pt i)) ;; store64 (pte_addr pt i) 0)
     (λ _ s', ∃ us', walked l pt s fl (pre ++ [i]) us' s') s1.
Proof.
  intros IH [Hk Hpg Hnd] Hb Hsp [W1 W2 W3 W4 W5] Hi HV. set (m := k_mem s) in *. set (kid := PTE2PA (entry m pt i)).
  assert (kids l m pt i = pt_pages l m kid) as EK by (by apply kids_valid).
  assert (concat (kids l m pt <$> seqZ 0 512) =
    concat (kids l m pt <$> pre) ++ pt_pages l m kid ++ concat (kids l m pt <$> post)) as Ec.
  { rewrite Hsp, fmap_app, concat_app, fmap_cons. cbn [concat]. by rewrite EK. }
  rewrite pt_pages_S, Ec in Hpg, Hnd. set (done_ := concat (kids l m pt <$> pre)) in *. set (K := pt_pages l m kid) in *.
  rewrite Forall_forall in Hpg. cbn [app] in Hnd. apply NoDup_cons in Hnd as [Hnin Hnd].
  rewrite <- !app_assoc in Hnd. apply NoDup_app in Hnd as (_ & Hnd1 & Hnd). apply NoDup_app in Hnd as (HndK & Hnd2 & _).
  assert (∀ p q a, p ∈ K → q ∈ pt :: done_ → in_page a p → ¬ in_page a q) as Hsep.
  { intros p q a Hp Hq. apply (page_disjoint end_); [apply Hpg; ins|apply Hpg; ins|]. intros ->.
    apply elem_of_cons in Hq as [->|Hq]; [apply Hnin; ins|]. apply (Hnd1 q Hq). ins. }
  assert (∀ p a, p ∈ K → in_page a p → rd (k_mem s1) a = rd m a) as Hext.
  { intros p a Hp Ha. apply W4. intros q Hq. by apply (Hsep p q a). }
  assert (pt_pages l (k_mem s1) kid = K) as EK1 by (by apply pt_pages_ext).
  wp_step. wp_call (IH kid s1 (us ++ fl)).
  { split; rewrite ?EK1; [done|apply Forall_forall; intros p Hp; apply Hpg; ins|].
    apply NoDup_app. split_and!; [done| |apply W2]. intros p Hp Hq. rewrite elem_of_app, W1 in Hq.
    destruct Hq as [Hq|Hq]; [apply (Hnd1 p Hq)|apply (Hnd2 p Hp)]; ins. }
  { apply (bare_ext l m); [done|]. by apply (Hb i). }
  rewrite EK1. intros [] s2 (us2 & [F1 F2 F3 F4]). unfold store64. wp_step.
  assert (∀ a, ¬ in_page a pt → rd (st64 (k_mem s2) (pte_addr pt i) 0) a = rd (k_mem s2) a) as Hst.
  { intros a Ha. apply rd_st_out. unfold in_page, pte_addr, PGSIZE in *. lia. }
  exists (us2 ++ us).
  assert (concat (kids l m pt <$> pre ++ [i]) = done_ ++ K) as Ec' by (rewrite fmap_app, concat_app, fmap_cons, fmap_nil; cbn [concat]; by rewrite EK, app_nil_r).
  split; fold m; rewrite ?Ec'.
  - by rewrite F1, W1, (Permutation_app_comm K).
  - apply kinv_mem; [by rewrite <- app_assoc|]. intros p a Hp Ha. apply Hst.
    assert (p ≠ pt) as Hne by (intros ->; apply Hnin; rewrite !elem_of_app, F1, W1 in Hp; rewrite !elem_of_app; tauto).
    apply (page_disjoint end_ p pt); [|apply Hpg; ins|done|done].
    rewrite <- app_assoc in Hp. pose proof (ki_pages _ _ _ F2) as Hall. rewrite Forall_forall in Hall. by apply Hall.
  - eapply hart_same_trans; [apply Hk|exact W3|exact F3].
  - intros a Ha. cbn [k_mem]. rewrite Hst by (apply Ha; ins). rewrite F4 by (intros p Hp; apply Ha; ins).
    apply W4. intros p Hp. apply Ha. ins.
  - intros j Hj Hjn. change (k_mem (over kmem_mem ?x s2)) with x. cbn [view kmem_mem]. rewrite entry_st_ne by (intros ->; apply Hjn; ins).
    rewrite <- (W5 j Hj) by (intros ?; apply Hjn; ins). apply entry_ext; [done|]. intros a Ha. apply F4.
    intros p Hp Hpa. by apply (Hsep p pt a Hp ltac:(ins)).
Qed.

(** The loop of freewalk. *)
Lemma walk_entries l pt s fl :
  walk_spec l → twf end_ (S l) pt s fl → bare (S l) (k_mem s) pt →
  wp (each (seqZ 0 512) (λ i,
        do pte <- load64 (pte_addr pt i);
        if has pte PTE_V && negb (has pte (Z.lor (Z.lor PTE_R PTE_W) PTE_X)) then
          freewalk end_ (S l) (PTE2PA pte) ;;
          store64 (pte_addr pt i) 0
        else if has pte PTE_V then panic "freewalk: leaf"
        else ret tt))
     (λ _ s', ∃ us, walked l pt s fl (seqZ 0 512) us s') s.
Proof.
  intros IH Ht Hb.
  apply (wp_each_ind _ _ (λ pre s', ∃ us, walked l pt s fl pre us s')).
  - exists []. split; [done|apply Ht|auto with hart|done|done].
  - intros pre i post s1 Hsp (us & Hw).
    assert (i ∈ seqZ 0 512) as Hi by (rewrite Hsp, elem_of_app, elem_of_cons; auto). apply elem_of_seqZ in Hi.
    assert (i ∉ pre) as Hip.
    { pose proof (NoDup_seqZ 0 512) as Hn. rewrite Hsp in Hn. apply NoDup_app in Hn as (_ & Hn & _).
      intros Hin. apply (Hn i Hin), list_elem_of_here. }
    unfold load64. wp_step. wp_step. change (ld64 (k_mem s1) (pte_addr pt i)) with (entry (k_mem s1) pt i).
    rewrite (wk_entry _ _ _ _ _ _ _ Hw i) by (done || lia).
    destruct (has (entry (k_mem s) pt i) PTE_V) eqn:HV; cbn [andb].
    + destruct (Hb i ltac:(lia) HV) as [Hx _]. unfold PTE_RWX in Hx. rewrite Hx. cbn [negb].
      by apply (free_kid l pt s fl pre i post us); [..|lia|].
    + wp_step. exists us. destruct Hw as [W1 W2 W3 W4 W5].
      assert (concat (kids l (k_mem s) pt <$> pre ++ [i]) = concat (kids l (k_mem s) pt <$> pre)) as E.
      { rewrite fmap_app, concat_app, fmap_cons, fmap_nil. cbn [concat]. unfold kids at 2. by rewrite HV, !app_nil_r. }
      split; rewrite ?E; try done. intros j Hj Hjn. apply W5; [done|]. intros ?. apply Hjn. ins.
Qed.

(** freewalk of a table without mappings gives all its pages back. *)
Lemma freewalk_ok l : walk_spec l.
Proof.
  assert (∀ pt s s1 fl us ps, kinv s1 (us ++ fl) → hart_same (k_hart s) (k_hart s1) → us ≡ₚ ps → page_ok pt → hart_ok (k_hart s) →
    pt ∉ ps ++ fl → (∀ a, (∀ p, p ∈ pt :: ps → ¬ in_page a p) → rd (k_mem s1) a = rd (k_mem s) a) →
    wp (kfree end_ pt) (λ _ s', ∃ us', freed s fl (pt :: ps) us' s') s1) as Hlast.
  { intros pt s s1 fl us ps Hk Hh Hp Hok Hho Hnin Hfr.
    wp_call (kfree_ok end_ end_pos pt s1 (us ++ fl)); [done|done|by rewrite elem_of_app, Hp, <- elem_of_app|].
    intros [] s2 (Hk2 & Hh2 & _ & Hf2). exists (pt :: us). split; [by rewrite Hp|done| |].
    - eapply hart_same_trans; [done|exact Hh|]. rewrite Hh2. auto with hart.
    - intros a Ha. rewrite Hf2 by (apply Ha; ins). by apply Hfr. }
  induction l as [|l IH]; intros pt s fl Ht Hb; pose proof Ht as [Hk Hpg Hnd].
  - change (freewalk end_ 1 pt) with (each (seqZ 0 512) (λ i,
        do pte <- load64 (pte_addr pt i);
        if has pte PTE_V && negb (has pte (Z.lor (Z.lor PTE_R PTE_W) PTE_X)) then
          freewalk end_ 0 (PTE2PA pte) ;; store64 (pte_addr pt i) 0
        else if has pte PTE_V then panic "freewalk: leaf"
        else ret tt) ;; kfree end_ pt).
    wp_step. eapply wp_mono; [apply (wp_each_ind _ _ (λ _ s', s' = s)); [done|]|].
    { intros pre i post s1 Hsp ->. assert (i ∈ seqZ 0 512) as Hi by (rewrite Hsp, elem_of_app, elem_of_cons; auto).
      apply elem_of_seqZ in Hi. unfold load64. wp_step. wp_step.
      change (ld64 (k_mem s) (pte_addr pt i)) with (entry (k_mem s) pt i).
      assert (has (entry (k_mem s) pt i) PTE_V = false) as HV by (apply Hb; lia). rewrite !HV. cbn [andb]. by wp_step. }
    intros [] s1 ->. change (pt_pages 0 (k_mem s) pt) with [pt] in *. cbn [app] in Hnd. apply NoDup_cons in Hnd as [Hnin _]. rewrite Forall_singleton in Hpg.
    apply (Hlast pt s s fl [] []); try done; [auto with hart|apply Hk].
  - change (freewalk end_ (S (S l)) pt) with (each (seqZ 0 512) (λ i,
        do pte <- load64 (pte_addr pt i);
        if has pte PTE_V && negb (has pte (Z.lor (Z.lor PTE_R PTE_W) PTE_X)) then
          freewalk end_ (S l) (PTE2PA pte) ;; store64 (pte_addr pt i) 0
        else if has pte PTE_V then panic "freewalk: leaf"
        else ret tt) ;; kfree end_ pt).
    wp_step. wp_call (walk_entries l pt s fl IH Ht Hb). intros [] s1 (us & [W1 W2 W3 W4 _]).
    rewrite pt_pages_S in *. cbn [app] in Hnd. apply NoDup_cons in Hnd as [Hnin _]. apply Forall_cons in Hpg as [Hpt _].
    by apply (Hlast pt s s1 fl us); [..|apply Hk| |].
Qed.
End free.

(** A table all of whose leaves are invalid has no mappings. *)
Lemma bare_of_leaves m root :
  inner 2 256 m root → (∀ va, 0 ≤ va < MAXVA → has (leaf m root va) PTE_V = false) → bare 2 m root.
Proof.
  intros Hin Hl i Hi HV. destruct (Hin i Hi HV) as (Hlim & Hx & Hin1). split; [done|].
  intros j Hj HVj. destruct (Hin1 j Hj HVj) as (_ & Hxj & _). split; [done|]. intros k Hk.
  set (va := i * 2 ^ 30 + j * 2 ^ 21 + k * 2 ^ 12).
  assert (PX 2 va = i ∧ PX 1 va = j ∧ PX 0 va = k) as (P2 & P1 & P0).
  { rewrite !PX_eq by lia. unfold PXSHIFT, PGSHIFT, va. cbn [Z.add Z.mul Pos.add Pos.mul].
    split_and!; dlia. }
  assert (0 ≤ va < MAXVA) as Hva by (unfold va; change MAXVA with (2 ^ 38); lia).
  specialize (Hl va Hva). unfold leaf, leafv in Hl. cbn [lookup_pte] in Hl.
  change (Z.of_nat 2) with 2 in Hl. change (Z.of_nat 1) with 1 in Hl. rewrite P2, HV, P1, HVj, P0 in Hl. exact Hl.
Qed.

(** ** Address spaces *)
Section props.
Context (end_ : Z) (end_pos : 0 < end_).
Implicit Types (s : kst) (fl : list Z).

(** The address space at [root] of [n] pages: nothing is mapped above it, and the
    pages mapped are not shared. *)
Record space root (n : nat) s fl : Prop := {
  sp_twf : twf end_ 2 root s fl;
  sp_inner : inner 2 256 (k_mem s) root;
  sp_user : freeable end_ root s fl (upages (k_mem s) root 0 n);
  sp_top va : Z.of_nat n * PGSIZE ≤ va < MAXVA → has (leaf (k_mem s) root va) PTE_V = false
}.

(** uvmfree gives an address space back whole: every page of user memory and every page
    of the page table, each once; no byte of any other page changes, and freewalk never
    meets the leaf that makes it panic. *)
Lemma uvmfree_ok root n sz s fl :
  0 ≤ sz → sz + PGSIZE ≤ 2 ^ 64 → PGROUNDUP sz = Z.of_nat n * PGSIZE → PGROUNDUP sz ≤ MAXVA → space root n s fl →
  wp (uvmfree end_ root sz) (λ _ s', hart_same (k_hart s) (k_hart s') ∧
    (∃ us, us ≡ₚ upages (k_mem s) root 0 n ++ pt_pages 2 (k_mem s) root ∧ kinv end_ s' (us ++ fl)) ∧
    ∀ a, (∀ p, p ∈ upages (k_mem s) root 0 n ++ pt_pages 2 (k_mem s) root ++ fl → ¬ in_page a p) →
      rd (k_mem s') a = rd (k_mem s) a) s.
Proof.
  intros Hsz Hsz' Hn Hmax [Ht Hin Hu Htop].
  assert (PGROUNDUP sz `div` PGSIZE = Z.of_nat n) as En by (rewrite Hn; apply Z.div_mul; done).
  unfold uvmfree. wp_step. rewrite En.
  eapply (wp_mono _ (λ _ s1, removed end_ root s s1 (reverse (upages (k_mem s) root 0 n) ++ fl) 0 (Z.of_nat n * PGSIZE))).
  { destruct (Z.ltb_spec 0 sz) as [Hpos|H0]; cbn [when].
    - pose proof (uvmunmap_ok end_ end_pos n root 0 true s fl Ht eq_refl ltac:(done)) as H. rewrite !Z.add_0_l in H.
      apply H; [lia|done].
    - assert (sz = 0) as -> by lia. assert (n = 0%nat) as ->.
      { change (PGROUNDUP 0) with 0 in Hn. unfold PGSIZE in Hn. lia. }
      wp_step. cbn [upages]. rewrite reverse_nil. split; try done; [apply hart_same_refl|].
      intros va _. unfold unmapped. by rewrite decide_False by lia. }
  intros [] s1 [Ht1 Hh1 Htab1 Hl1 Hin1 Hfr1].
  assert (bare 2 (k_mem s1) root) as Hb.
  { apply bare_of_leaves; [by apply Hin1|]. intros va Hva. rewrite Hl1 by done. unfold unmapped. case_decide.
    - destruct (has (leaf (k_mem s) root va) PTE_V) eqn:E; [by rewrite has_0|done].
    - apply Htop. lia. }
  wp_call (freewalk_ok end_ end_pos 2 root s1 _ Ht1 Hb). intros [] s2 (us & [F1 F2 F3 F4]).
  split_and!; [eapply hart_same_trans; [apply Ht|exact Hh1|exact F3]| |].
  - exists (us ++ reverse (upages (k_mem s) root 0 n)). rewrite <- app_assoc. split; [|done].
    by rewrite F1, Htab1, reverse_Permutation, Permutation_app_comm.
  - intros a Ha. rewrite F4; [apply Hfr1|]; intros p Hp; apply Ha.
    + rewrite !elem_of_app, elem_of_reverse in Hp. rewrite !elem_of_app. tauto.
    + rewrite Htab1 in Hp. rewrite !elem_of_app. tauto.
Qed.

(** The address space of a process: [n] pages of user memory, and nothing else
    mapped below the two pages at its top, which it does not own. *)
Record user_space root (n : nat) s fl : Prop := {
  us_twf : twf end_ 2 root s fl;
  us_inner : inner 2 256 (k_mem s) root;
  us_user : freeable end_ root s fl (upages (k_mem s) root 0 n);
  us_size : Z.of_nat n * PGSIZE ≤ TRAPFRAME;
  us_top va : Z.of_nat n * PGSIZE ≤ va < TRAPFRAME → has (leaf (k_mem s) root va) PTE_V = false
}.

(** Giving back a page that is not part of it. *)
Lemma kfree_other root n p s fl :
  user_space root n s fl → page_ok end_ p → p ∉ upages (k_mem s) root 0 n ++ pt_pages 2 (k_mem s) root ++ fl →
  wp (kfree end_ p) (λ _ s', user_space root n s' (p :: fl) ∧ hart_same (k_hart s) (k_hart s') ∧
    upages (k_mem s') root 0 n = upages (k_mem s) root 0 n ∧ pt_pages 2 (k_mem s') root = pt_pages 2 (k_mem s) root ∧
    ∀ a, ¬ in_page a p → rd (k_mem s') a = rd (k_mem s) a) s.
Proof.
  intros [Ht Hin [Hu1 Hu2] Hn Htop] Hp Hnin. rewrite elem_of_app in Hnin.
  wp_call (kfree_upage end_ end_pos root s fl p Ht).
  { split; [by constructor|]. apply NoDup_cons. split; [tauto|]. apply Ht. }
  intros [] s1 (Ht1 & Hh & Htab & _ & Hl & Hi & Hfr).
  assert (upages (k_mem s1) root 0 n = upages (k_mem s) root 0 n) as Hup by (apply upages_ext; intros; apply Hl).
  split_and!; [|done|done|done|done]. split; [done|by apply Hi| |done|intros va Hva; rewrite Hl; by apply Htop].
  rewrite Hup. split; [done|]. rewrite Htab, (app_assoc _ _ (p :: fl)), <- Permutation_middle, <- app_assoc.
  apply NoDup_cons. split; [by rewrite elem_of_app|done].
Qed.

(** Taking down the two pages at the top leaves an address space to free. *)
Lemma unmap_top root n s fl : user_space root n s fl →
  wp (uvmunmap end_ root TRAMPOLINE 1 false ;; uvmunmap end_ root TRAPFRAME 1 false)
     (λ _ s', space root n s' fl ∧ hart_same (k_hart s) (k_hart s') ∧
       upages (k_mem s') root 0 n = upages (k_mem s) root 0 n ∧ pt_pages 2 (k_mem s') root = pt_pages 2 (k_mem s) root ∧
       ∀ a, (∀ p, p ∈ pt_pages 2 (k_mem s) root ++ fl → ¬ in_page a p) → rd (k_mem s') a = rd (k_mem s) a) s.
Proof.
  intros [Ht Hin [Hu1 Hu2] Hn Htop]. change TRAPFRAME with (2 ^ 38 - 8192) in Hn, Htop.
  wp_step. wp_call (uvmunmap_ok end_ end_pos 1 root TRAMPOLINE false s fl Ht); [done|done|done|done|].
  cbn [app]. intros [] s1 [Ht1 Hh1 Htab1 Hl1 Hin1 Hfr1].
  wp_call (uvmunmap_ok end_ end_pos 1 root TRAPFRAME false s1 fl Ht1); [done|done|done|done|].
  cbn [app]. intros [] s2 [Ht2 Hh2 Htab2 Hl2 Hin2 Hfr2].
  change MAXVA with (2 ^ 38) in *.
  change (TRAMPOLINE + Z.of_nat 1 * PGSIZE) with (2 ^ 38) in Hl1. change TRAMPOLINE with (2 ^ 38 - 4096) in Hl1.
  change (TRAPFRAME + Z.of_nat 1 * PGSIZE) with (2 ^ 38 - 4096) in Hl2. change TRAPFRAME with (2 ^ 38 - 8192) in Hl2.
  assert (∀ va, 0 ≤ va < 2 ^ 38 - 8192 → leaf (k_mem s2) root va = leaf (k_mem s) root va) as Hl.
  { intros va Hva. rewrite Hl2 by lia. unfold unmapped. rewrite decide_False by lia.
    rewrite Hl1 by lia. unfold unmapped. by rewrite decide_False by lia. }
  assert (upages (k_mem s2) root 0 n = upages (k_mem s) root 0 n) as Hup by (apply upages_ext; intros; apply Hl; lia).
  split_and!; [|by eapply hart_same_trans; [apply Ht|..]|done|by rewrite Htab2, Htab1|
    intros a Ha; rewrite Hfr2 by (by rewrite Htab1); by apply Hfr1].
  split; [done|auto| |].
  - rewrite Hup. split; [done|]. rewrite Htab2, Htab1. done.
  - intros va Hva. change MAXVA with (2 ^ 38) in Hva. rewrite Hl2 by (unfold PGSIZE in *; lia). unfold unmapped.
    case_decide; [by destruct (has (leaf (k_mem s1) root va) PTE_V) eqn:E; [rewrite has_0|]|].
    rewrite Hl1 by (unfold PGSIZE in *; lia). unfold unmapped.
    case_decide; [by destruct (has (leaf (k_mem s) root va) PTE_V) eqn:E; [rewrite has_0|]|]. apply Htop. lia.
Qed.

End props.

(** An address space of one page: the three tables, the page, and one page free. *)
Definition demo_space : kst := Kst demo_hart (Spin 0 "kmem" None) 0x87ffb000
  (st64 (st64 (st64 (st64 ∅ 0x87fff000 (pte_of_table 0x87ffe000)) 0x87ffe000 (pte_of_table 0x87ffd000))
     0x87ffd000 (mkpte 0x87ffc000 (Z.lor PTE_U PTE_W))) 0x87ffb000 0).
Definition demo_pte (p : Z) : Z :=
  if p =? 0x87fff000 then pte_of_table 0x87ffe000
  else if p =? 0x87ffe000 then pte_of_table 0x87ffd000 else mkpte 0x87ffc000 (Z.lor PTE_U PTE_W).

Lemma demo_entry p i :
  p = 0x87fff000 ∨ p = 0x87ffe000 ∨ p = 0x87ffd000 → 0 ≤ i < 512 →
  entry (k_mem demo_space) p i = if decide (i = 0) then demo_pte p else 0.
Proof.
  intros Hp Hi. case_decide as E.
  - subst i. destruct Hp as [->|[->| ->]]; vm_compute; reflexivity.
  - apply ld_zero. intros x Hx. unfold demo_space, k_mem, pte_addr in *.
    rewrite !rd_st_out by (destruct Hp as [->|[->| ->]]; lia). done.
Qed.

Lemma demo_next :
  has (demo_pte 0x87fff000) PTE_V = true ∧ PTE2PA (demo_pte 0x87fff000) = 0x87ffe000 ∧ has (demo_pte 0x87fff000) PTE_RWX = false ∧
  has (demo_pte 0x87ffe000) PTE_V = true ∧ PTE2PA (demo_pte 0x87ffe000) = 0x87ffd000 ∧ has (demo_pte 0x87ffe000) PTE_RWX = false.
Proof. split_and!; vm_compute; reflexivity. Qed.

Lemma demo_space_leaf va : 0x1000 ≤ va < MAXVA → has (leaf (k_mem demo_space) 0x87fff000 va) PTE_V = false.
Proof.
  intros Hva. destruct demo_next as (V2 & A2 & _ & V1 & A1 & _).
  pose proof (PX_range 2 va ltac:(lia)). pose proof (PX_range 1 va ltac:(lia)). pose proof (PX_range 0 va ltac:(lia)).
  unfold leaf, leafv. cbn [lookup_pte]. change (Z.of_nat 2) with 2. change (Z.of_nat 1) with 1.
  rewrite demo_entry by auto. case_decide as E2; [|by rewrite has_0]. rewrite V2, A2, demo_entry by auto.
  case_decide as E1; [|by rewrite has_0]. rewrite V1, A1.
  change (ld64 (k_mem demo_space) (pte_addr 0x87ffd000 (PX 0 va))) with (entry (k_mem demo_space) 0x87ffd000 (PX 0 va)).
  rewrite demo_entry by auto. case_decide as E0; [|by rewrite has_0]. exfalso.
  rewrite PX_eq in E0, E1, E2 by lia. unfold PXSHIFT, PGSHIFT in *. cbn [Z.add Z.mul Pos.add Pos.mul] in *.
  change MAXVA with (2 ^ 38) in Hva. dlia.
Qed.

Lemma demo_space_ok : space 0x87ff8000 0x87fff000 1 demo_space [0x87ffb000].
Proof.
  destruct demo_next as (V2 & A2 & X2 & V1 & A1 & X1).
  assert (pt_pages 2 (k_mem demo_space) 0x87fff000 = [0x87fff000; 0x87ffe000; 0x87ffd000]) as Hp by (vm_compute; reflexivity).
  assert (upages (k_mem demo_space) 0x87fff000 0 1 = [0x87ffc000]) as Hu by (vm_compute; reflexivity).
  split.
  - split.
    + split; [apply demo_hart_ok|by split|cbn [chain]; split_and!; vm_compute; reflexivity|repeat constructor; vm_compute; congruence|].
      apply (bool_decide_unpack _). vm_compute. done.
    + rewrite Hp. repeat constructor; vm_compute; congruence.
    + rewrite Hp. apply (bool_decide_unpack _). vm_compute. done.
  - intros i Hi. rewrite demo_entry by auto. case_decide as E; [|by rewrite has_0]. intros _. rewrite A2.
    split_and!; [lia|done|]. intros j Hj. rewrite demo_entry by auto. case_decide as E'; [|by rewrite has_0]. intros _.
    split_and!; [lia|done|done].
  - rewrite Hu. split; [repeat constructor; vm_compute; congruence|]. rewrite Hp. apply (bool_decide_unpack _). vm_compute. done.
  - intros va Hva. apply demo_space_leaf. unfold PGSIZE in Hva. lia.
Qed.
