(* ===== verification/VmSpace.v ===== *)
(** * Building and copying address spaces (kernel/vm.c)

    uvmcreate and mappages on a page table read as a function from addresses to
    entries, and uvmcopy, which gives a new address space the contents of an old one. *)
From S2P Require Import Prelude Memory KString Riscv Spinlock Kalloc Vm VmSpec VmOps VmProps VmFree.

Section space.
Context (end_ : Z) (end_pos : 0 < end_).
Implicit Types (s : kst) (fl : list Z).
Abbreviation tables m root := (pt_pages 2 m root).

(** The table at [root] has the entries [f]. *)
Record tab root s fl (f : Z → Z) : Prop := {
  tb_twf : twf end_ 2 root s fl;
  tb_inner : inner 2 256 (k_mem s) root;
  tb_leaf va : 0 ≤ va < MAXVA → leaf (k_mem s) root va = f va
}.

Lemma uvmcreate_ok s fl : kinv end_ s fl →
  wp uvmcreate (λ r s', k_hart s' = sync (k_hart s) ∧
    (r = 0 ∧ fl = [] ∧ kinv end_ s' [] ∧ k_mem s' = k_mem s ∨
     ∃ fl', fl = r :: fl' ∧ page_ok end_ r ∧ tab r s' fl' (λ _, 0) ∧ tables (k_mem s') r = [r] ∧
       ∀ a, ¬ in_page a r → rd (k_mem s') a = rd (k_mem s) a)) s.
Proof.
  intros Hk. unfold uvmcreate. destruct fl as [|p fl].
  { wp_step. wp_call (kalloc_none end_ s Hk). intros r s1 (-> & Hk1 & Hh & _ & Hm). cbn. split; [done|]. by left. }
  pose proof (ki_pages _ _ _ Hk) as Hp. apply Forall_cons in Hp as [Hp Hpl]. pose proof (ki_nodup _ _ _ Hk) as Hn.
  apply NoDup_cons in Hn as [Hnin Hn]. rewrite Forall_forall in Hpl.
  wp_step. wp_call (kalloc_some end_ end_pos p s fl Hk). intros r s1 (-> & Hk1 & Hh & _ & Hm1).
  destruct (page_ok_range _ end_pos _ Hp) as (Hp0 & _ & _). rewrite (proj2 (Z.eqb_neq p 0)) by lia.
  wp_step. wp_step. wp_call memset_rd. intros _ m [_ Hm]. wp_step. split; [done|]. right. exists fl.
  assert (∀ a, in_page a p → rd m a = 0) as Hz by (intros a Ha; rewrite Hm; by rewrite decide_True).
  destruct (zero_table 2 m p Hz) as (Hpg & Hlf & Hin).
  split_and!; [done|done| |done|intros a Ha; change (rd m a = rd (k_mem s) a); rewrite Hm, decide_False by done; cbn; rewrite Hm1; by rewrite decide_False].
  split; [|apply Hin|intros va _; apply Hlf]. split; change (k_mem (over kmem_mem m s1)) with m; rewrite ?Hpg.
  - apply kinv_mem; [done|]. intros q a Hq Ha. rewrite Hm, decide_False; [done|].
    apply (page_disjoint end_ q p); [by apply Hpl|done|by intros ->|done].
  - by constructor.
  - by constructor.
Qed.

Lemma mappages_tab n root va pa perm s fl f :
  tab root s fl f → va `mod` PGSIZE = 0 → 0 ≤ va → (0 < n)%nat → va + Z.of_nat n * PGSIZE ≤ MAXVA →
  0 ≤ pa → pa `mod` PGSIZE = 0 → pa + Z.of_nat n * PGSIZE ≤ 2 ^ 56 → 0 ≤ perm < 1024 →
  (∀ va', va ≤ va' < va + Z.of_nat n * PGSIZE → has (f va') PTE_V = false) →
  wp (mappages root va (Z.of_nat n * PGSIZE) pa perm)
     (λ r s', ∃ fl' k, tstep end_ root s fl s' fl' ∧ tab root s' fl' (mapped f va pa perm k) ∧
        (r = 0 ∧ k = n ∨ r = -1 ∧ (k < n)%nat) ∧
        (length fl <= length fl' + 2 * n)%nat ∧ (r ≠ 0 → (length fl < 2 * n)%nat)) s.
Proof.
  intros [Ht Hin Hl] Hal Hva Hn Hmax Hpa Hpal Hpm Hperm Hf.
  wp_call (mappages_ok end_ end_pos n root va pa perm s fl Ht); try done.
  { intros va' Hva'. rewrite Hl by lia. by apply Hf. }
  intros r s' (fl' & k & Hts & Hr & [Hc1 Hc2] & Hl'). exists fl', k. split_and!; [done| |tauto|done|done].
  split; [by eapply tstep_twf|by apply Hts|]. intros va' Hva'. rewrite Hl' by done. unfold mapped. case_decide; [done|by apply Hl].
Qed.

(** A table with nothing in user memory. *)
Lemma tab_space root s fl f : tab root s fl f → (∀ va, 0 ≤ va < MAXVA → has (f va) PTE_V = false) → space end_ root 0 s fl.
Proof.
  intros [Ht Hin Hl] Hf. split; [done|done|split; [constructor|apply Ht]|]. intros va Hva. rewrite Hl by lia. apply Hf. lia.
Qed.

Lemma tab_user_space root s fl f : tab root s fl f → (∀ va, 0 ≤ va < TRAPFRAME → has (f va) PTE_V = false) →
  user_space end_ root 0 s fl.
Proof.
  intros [Ht Hin Hl] Hf. change TRAPFRAME with (2 ^ 38 - 8192) in Hf.
  split; [done|done|split; [constructor|apply Ht]|done|]. change TRAPFRAME with (2 ^ 38 - 8192). intros va Hva.
  rewrite Hl by (change MAXVA with (2 ^ 38); lia). apply Hf. lia.
Qed.

(** ** Growing and shrinking an address space *)
Lemma upages_app m root a n k : upages m root a (n + k) = upages m root a n ++ upages m root (a + Z.of_nat n * PGSIZE) k.
Proof.
  revert a. induction n as [|n IH]; intros a; cbn [upages Nat.add app].
  - by rewrite Z.mul_0_l, Z.add_0_r.
  - rewrite IH, app_assoc. do 2 f_equal. lia.
Qed.

Lemma upages_snoc m root a n : upages m root a (S n) = upages m root a n ++ upage m root (a + Z.of_nat n * PGSIZE).
Proof. rewrite <- Nat.add_1_r, upages_app. cbn [upages]. by rewrite app_nil_r. Qed.

Lemma upages_split m root b n : (b <= n)%nat → upages m root 0 n = upages m root 0 b ++ upages m root (Z.of_nat b * PGSIZE) (n - b).
Proof. intros H. replace n with (b + (n - b))%nat at 1 by lia. by rewrite upages_app, Z.add_0_l. Qed.

(** A page taken from the free list, whatever is written to it. *)
Lemma space_take root n s p fl s' : user_space end_ root n s (p :: fl) → kinv end_ s' fl →
  (∀ a, ¬ in_page a p → rd (k_mem s') a = rd (k_mem s) a) →
  user_space end_ root n s' fl ∧ (∀ va, leaf (k_mem s') root va = leaf (k_mem s) root va) ∧
  tables (k_mem s') root = tables (k_mem s) root.
Proof.
  intros [Ht Hin [Hu1 Hu2] Hn Htop] Hk Hm. pose proof (twf_all_pages _ _ _ _ _ Ht) as Hall. rewrite Forall_forall in Hall.
  pose proof (tw_nodup _ _ _ _ _ Ht) as Hnd. apply NoDup_app in Hnd as (Hnd1 & Hnd2 & Hnd3).
  assert (∀ q a, q ∈ tables (k_mem s) root → in_page a q → rd (k_mem s') a = rd (k_mem s) a) as Hext.
  { intros q a Hq Ha. apply Hm. apply (page_disjoint end_ q p); [apply Hall; ins|apply Hall; ins| |done].
    intros ->. apply (Hnd2 p Hq). by left. }
  assert (∀ va, leaf (k_mem s') root va = leaf (k_mem s) root va) as Hl by (intros va; by apply leafv_ext).
  pose proof (pt_pages_ext 2 (k_mem s) (k_mem s') root Hext) as Htab.
  split_and!; [|done|done]. split; [|by eapply inner_ext| |done|intros va Hva; rewrite Hl; by apply Htop].
  - split; [done|rewrite Htab; apply Ht|]. rewrite Htab. apply NoDup_app. split_and!; [done| |by apply NoDup_cons in Hnd3 as [_ ?]].
    intros x Hx Hx'. apply (Hnd2 x Hx). by right.
  - rewrite (upages_ext (k_mem s)) by (intros; apply Hl). split; [done|]. rewrite Htab.
    rewrite (app_assoc _ _ (p :: fl)), <- Permutation_middle, <- app_assoc in Hu2. by apply NoDup_cons in Hu2 as [_ ?].
Qed.

(** The space [root] of [b] pages in [s] has [j] pages in [s1], its new pages and tables from the free list. *)
Record built root (b : nat) s fl (j : nat) s1 fl1 : Prop := {
  bu_new : user_space end_ root j s1 fl1;
  bu_perm : upages (k_mem s1) root 0 j ++ tables (k_mem s1) root ++ fl1 ≡ₚ upages (k_mem s) root 0 b ++ tables (k_mem s) root ++ fl;
  bu_hart : hart_same (k_hart s) (k_hart s1);
  bu_frame a : (∀ p, p ∈ tables (k_mem s) root ++ fl → ¬ in_page a p) → rd (k_mem s1) a = rd (k_mem s) a;
  bu_top va : TRAPFRAME ≤ va < MAXVA → leaf (k_mem s1) root va = leaf (k_mem s) root va;
  bu_keep va : 0 ≤ va < Z.of_nat b * PGSIZE → leaf (k_mem s1) root va = leaf (k_mem s) root va
}.

(** The space of [n] pages in [s] has [b] pages in [s'], the others are free. *)
Record shrunk root (b n : nat) s fl s' fl' : Prop := {
  sh_space : user_space end_ root b s' fl';
  sh_perm : upages (k_mem s') root 0 b ++ tables (k_mem s') root ++ fl' ≡ₚ upages (k_mem s) root 0 n ++ tables (k_mem s) root ++ fl;
  sh_hart : hart_same (k_hart s) (k_hart s');
  sh_keep va : 0 ≤ va < MAXVA → ¬ (Z.of_nat b * PGSIZE ≤ va < Z.of_nat n * PGSIZE) → leaf (k_mem s') root va = leaf (k_mem s) root va;
  sh_frame a : (∀ p, p ∈ upages (k_mem s) root (Z.of_nat b * PGSIZE) (n - b) ++ tables (k_mem s) root ++ fl → ¬ in_page a p) →
    rd (k_mem s') a = rd (k_mem s) a
}.

Lemma shrink_ok root b n s fl : user_space end_ root n s fl → (b <= n)%nat →
  wp (uvmunmap end_ root (Z.of_nat b * PGSIZE) (Z.of_nat (n - b)) true) (λ _ s', ∃ fl', shrunk root b n s fl s' fl') s.
Proof.
  intros [Ht Hin [Hu1 Hu2] Hn Htop] Hb. assert (TRAPFRAME = 2 ^ 38 - 8192 ∧ MAXVA = 2 ^ 38) as [ET EM] by done. rewrite ET in *.
  pose proof (upages_split (k_mem s) root b n Hb) as Hsplit. set (us := upages (k_mem s) root (Z.of_nat b * PGSIZE) (n - b)) in *.
  rewrite Hsplit in Hu1, Hu2. apply Forall_app in Hu1 as [Hu0 Hu1].
  wp_call (uvmunmap_ok end_ end_pos (n - b) root (Z.of_nat b * PGSIZE) true s fl Ht); [unfold PGSIZE; dlia|unfold PGSIZE; lia|rewrite EM; unfold PGSIZE in *; lia| |].
  { intros _. split; [done|]. rewrite <- app_assoc in Hu2. by apply NoDup_app in Hu2 as (_ & _ & ?). }
  intros [] s2 [Ht2 Hh2 Htab2 Hl2 Hin2 Hf2]. fold us in Ht2, Hf2.
  replace (Z.of_nat b * PGSIZE + Z.of_nat (n - b) * PGSIZE) with (Z.of_nat n * PGSIZE) in Hl2 by (unfold PGSIZE; lia).
  assert (∀ va, 0 ≤ va < MAXVA → ¬ (Z.of_nat b * PGSIZE ≤ va < Z.of_nat n * PGSIZE) → leaf (k_mem s2) root va = leaf (k_mem s) root va) as Hkeep.
  { intros va Hva Hout. rewrite Hl2 by done. unfold unmapped. by rewrite decide_False. }
  assert (upages (k_mem s2) root 0 b = upages (k_mem s) root 0 b) as Hup.
  { apply upages_ext. intros va Hva. apply Hkeep; rewrite ?EM; unfold PGSIZE in *; lia. }
  assert (upages (k_mem s) root 0 b ++ tables (k_mem s) root ++ reverse us ++ fl ≡ₚ
          (upages (k_mem s) root 0 b ++ us) ++ tables (k_mem s) root ++ fl) as Hperm.
  { rewrite reverse_Permutation, <- app_assoc. f_equiv. by rewrite !app_assoc, (Permutation_app_comm us). }
  exists (reverse us ++ fl). split; rewrite ?Hup, ?Htab2, ?Hsplit; [|done|done|done|].
  - split; [done|by apply Hin2| |rewrite ET; unfold PGSIZE in *; lia|].
    + rewrite Hup. split; [done|]. by rewrite Htab2, Hperm.
    + rewrite ET. intros va Hva. rewrite Hl2 by (rewrite EM; unfold PGSIZE in *; lia). unfold unmapped. case_decide.
      * destruct (has (leaf (k_mem s) root va) PTE_V) eqn:E; [by rewrite has_0|done].
      * apply Htop. lia.
  - intros a Ha. apply Hf2. intros p Hp. apply Ha. rewrite !elem_of_app, elem_of_reverse in Hp. rewrite !elem_of_app. tauto.
Qed.

(** All pages but those that were there come from the tables and the free list. *)
Lemma built_sub root b s fl j s1 fl1 x : (b <= j)%nat → built root b s fl j s1 fl1 →
  x ∈ upages (k_mem s1) root (Z.of_nat b * PGSIZE) (j - b) ++ tables (k_mem s1) root ++ fl1 → x ∈ tables (k_mem s) root ++ fl.
Proof.
  intros Hb [_ Hp _ _ _ Hk]. rewrite (upages_split _ _ _ _ Hb), (upages_ext (k_mem s)), <- app_assoc in Hp by (intros; apply Hk; lia).
  apply Permutation_app_inv_l in Hp. by rewrite Hp.
Qed.

Lemma built_trans root b s fl j s1 fl1 j' s2 fl2 : hart_ok (k_hart s) → (b <= j)%nat →
  built root b s fl j s1 fl1 → built root j s1 fl1 j' s2 fl2 → built root b s fl j' s2 fl2.
Proof.
  intros Hok Hb H1 H2. pose proof (built_sub root b s fl j s1 fl1) as Hsub. pose proof H1 as [Hu1 Hp1 Hh1 Hf1 Ht1 Hk1].
  destruct H2 as [Hu2 Hp2 Hh2 Hf2 Ht2 Hk2]. split; [done|by rewrite Hp2|by eapply hart_same_trans| | |].
  - intros a Ha. rewrite Hf2; [by apply Hf1|]. intros x Hx. apply Ha, (Hsub x Hb H1). rewrite elem_of_app. by right.
  - intros va Hva. rewrite Ht2 by done. by apply Ht1.
  - intros va Hva. rewrite Hk2 by (unfold PGSIZE in *; lia). by apply Hk1.
Qed.

(** What was built is given back. *)
Lemma unbuild root b s fl j s1 fl1 s2 fl2 : hart_ok (k_hart s) → (b <= j)%nat →
  built root b s fl j s1 fl1 → shrunk root b j s1 fl1 s2 fl2 → built root b s fl b s2 fl2.
Proof.
  intros Hok Hb H1 [Hu2 Hp2 Hh2 Hk2 Hf2]. pose proof H1 as [Hu1 Hp1 Hh1 Hf1 Ht1 Hk1]. pose proof (us_size _ _ _ _ _ Hu1) as Hn.
  assert (TRAPFRAME = 2 ^ 38 - 8192 ∧ MAXVA = 2 ^ 38) as [ET EM] by done. rewrite ET in *. rewrite EM in *.
  split; [done|by rewrite Hp2|by eapply hart_same_trans| | |].
  - intros a Ha. rewrite Hf2; [by apply Hf1|]. intros p Hp. by apply Ha, (built_sub root b s fl j s1 fl1 p Hb H1).
  - rewrite ET, EM. intros va Hva. rewrite Hk2 by (unfold PGSIZE in *; lia). by apply Ht1.
  - intros va Hva. rewrite Hk2 by (unfold PGSIZE in *; lia). by apply Hk1.
Qed.

Lemma upages_elem m root n va : 0 ≤ va < Z.of_nat n * PGSIZE → has (leaf m root va) PTE_V = true →
  PTE2PA (leaf m root va) ∈ upages m root 0 n.
Proof.
  intros Hva HV. induction n as [|n IH]; [lia|]. rewrite upages_snoc, Z.add_0_l. rewrite elem_of_app.
  destruct (decide (va < Z.of_nat n * PGSIZE)); [left; apply IH; lia|right].
  unfold upage. rewrite <- (leaf_page_of m root va (Z.of_nat n * PGSIZE)) by (unfold page_of, PGSIZE in *; dlia). rewrite HV. by left.
Qed.

(** The pages of user memory are neither tables nor free. *)
Lemma user_apart root n s fl x y a : user_space end_ root n s fl → x ∈ upages (k_mem s) root 0 n →
  y ∈ tables (k_mem s) root ++ fl → in_page a x → ¬ in_page a y.
Proof.
  intros [Ht _ [Hu1 Hu2] _ _] Hx Hy. pose proof (twf_all_pages _ _ _ _ _ Ht) as Hall. rewrite Forall_forall in Hall, Hu1.
  apply NoDup_app in Hu2 as (_ & Hd & _). apply (page_disjoint end_); [by apply Hu1|by apply Hall|]. intros ->. by apply (Hd y).
Qed.

Lemma mkpte_V pa perm : has (mkpte pa perm) PTE_V = true.
Proof.
  unfold mkpte, has. apply negb_true_iff, Z.eqb_neq. intros H. apply (f_equal (λ z, Z.testbit z 0)) in H.
  rewrite Z.land_spec, Z.lor_spec in H. change (Z.testbit PTE_V 0) with true in H. by rewrite orb_true_r in H.
Qed.

Lemma PTE_FLAGS_range v : 0 ≤ PTE_FLAGS v < 1024.
Proof. unfold PTE_FLAGS. change 0x3FF with (Z.ones 10). rewrite Z.land_ones by lia. change (2 ^ 10) with 1024. dlia. Qed.

(** Page [p] of the free list, with the bytes [c], has been mapped as page [j] of [new]. *)
Record added new (j : nat) p f (c : Z → Z) s1 fl2 s4 fl4 : Prop := {
  ad_twf : twf end_ 2 new s4 fl4;
  ad_inner : inner 2 256 (k_mem s4) new;
  ad_hart : hart_same (k_hart s1) (k_hart s4);
  ad_perm : tables (k_mem s4) new ++ fl4 ≡ₚ tables (k_mem s1) new ++ fl2;
  ad_in va : Z.of_nat j * PGSIZE ≤ va < Z.of_nat (S j) * PGSIZE → leaf (k_mem s4) new va = mkpte p f;
  ad_out va : 0 ≤ va < MAXVA → ¬ (Z.of_nat j * PGSIZE ≤ va < Z.of_nat (S j) * PGSIZE) → leaf (k_mem s4) new va = leaf (k_mem s1) new va;
  ad_frame a : (∀ y, y ∈ tables (k_mem s1) new ++ p :: fl2 → ¬ in_page a y) → rd (k_mem s4) a = rd (k_mem s1) a;
  ad_bytes o : 0 ≤ o < PGSIZE → rd (k_mem s4) (p + o) = c o;
  ad_count : (length fl2 <= length fl4 + 2)%nat
}.

(** The new page [p] has been filled with the bytes [c]. *)
Record filled root (n : nat) p (c : Z → Z) s1 fl2 s3 : Prop := {
  fi_space : user_space end_ root n s3 fl2;
  fi_hart : hart_same (k_hart s1) (k_hart s3);
  fi_leaf va : leaf (k_mem s3) root va = leaf (k_mem s1) root va;
  fi_tables : tables (k_mem s3) root = tables (k_mem s1) root;
  fi_frame a : ¬ in_page a p → rd (k_mem s3) a = rd (k_mem s1) a;
  fi_bytes o : 0 ≤ o < PGSIZE → rd (k_mem s3) (p + o) = c o
}.

(** The new page is mapped. *)
Lemma map_added new n j p f c s1 fl2 s3 s4 fl4 :
  user_space end_ new n s1 (p :: fl2) → filled new n p c s1 fl2 s3 → Z.of_nat (S j) * PGSIZE ≤ TRAPFRAME →
  tstep end_ new s3 fl2 s4 fl4 → (length fl2 <= length fl4 + 2)%nat →
  (∀ va, 0 ≤ va < MAXVA → leaf (k_mem s4) new va = mapped (leaf (k_mem s3) new) (Z.of_nat j * PGSIZE) p f 1 va) →
  added new j p f c s1 fl2 s4 fl4.
Proof.
  intros [Htw1 _ _ _ _] [[Htw3 Hin3 _ _ _] Hh3 Hl3 Htab3 Hm3 Hcp] Hmax Hts Hc4 Hl4. pose proof (ki_hart _ _ _ (tw_kinv _ _ _ _ _ Htw1)) as Hok. pose proof Hts as [_ Hh4 Hp4 Hf4 Hi4].
  assert (TRAPFRAME = 2 ^ 38 - 8192 ∧ MAXVA = 2 ^ 38) as [ET EM] by done. rewrite ET in *. rewrite EM in *. rewrite Htab3 in Hp4, Hf4.
  pose proof (twf_all_pages _ _ _ _ _ Htw1) as Hall. rewrite Forall_forall in Hall. pose proof (tw_nodup _ _ _ _ _ Htw1) as Hnd.
  rewrite <- Permutation_middle in Hnd. apply NoDup_cons in Hnd as [Hpn _].
  split; [by eapply tstep_twf|by apply Hi4|by eapply hart_same_trans|done| | | | |done].
  - intros va Hva. rewrite Hl4 by (unfold PGSIZE in *; lia). unfold mapped. rewrite decide_True by (unfold PGSIZE in *; lia).
    f_equal. unfold page_of, PGSIZE in *. dlia.
  - rewrite EM. intros va Hva Hn. rewrite Hl4 by done. unfold mapped. rewrite decide_False by (unfold PGSIZE in *; lia). apply Hl3.
  - intros a Ha. rewrite Hf4, Hm3; [done|apply Ha; ins|]. intros y Hy. apply Ha. rewrite elem_of_app in Hy. rewrite elem_of_app, elem_of_cons. tauto.
  - intros o Ho. rewrite Hf4; [by apply Hcp|]. intros y Hy. apply (page_disjoint end_ p y); [apply Hall; ins| | |unfold in_page; lia].
    + apply Hall. rewrite elem_of_app in Hy. rewrite elem_of_app, elem_of_cons. tauto.
    + intros ->. done.
Qed.

(** Page [j] has been added to a space that grows from [b] pages. *)
Section step.
Context (root : Z) (b j : nat) (f : Z) (c : Z → Z) (s s1 s4 : kst) (fl fl2 fl4 : list Z) (p : Z).
Hypothesis Hf : 0 ≤ f < 1024.
Hypothesis Hbj : (b <= j)%nat.
Hypothesis Hmax : Z.of_nat (S j) * PGSIZE ≤ TRAPFRAME.
Hypothesis Hb : built root b s fl j s1 (p :: fl2).
Hypothesis Ha : added root j p f c s1 fl2 s4 fl4.

Lemma step_page : page_ok end_ p ∧ PTE2PA (mkpte p f) = p ∧ has (mkpte p f) PTE_V = true.
Proof using end_pos Hf Hb.
  clear Hmax Hbj. pose proof (ki_pages _ _ _ (tw_kinv _ _ _ _ _ (us_twf _ _ _ _ _ (bu_new _ _ _ _ _ _ _ Hb)))) as H.
  apply Forall_cons in H as [Hp _]. destruct (page_ok_range _ end_pos _ Hp) as (? & _ & ?).
  destruct (mkpte_ok p f ltac:(lia) ltac:(apply Hp) Hf) as (_ & ? & ? & _). done.
Qed.

Lemma step_upages : upages (k_mem s4) root 0 (S j) = upages (k_mem s1) root 0 j ++ [p].
Proof using end_pos Hf Hmax Hb Ha.
  clear Hbj.
  destruct step_page as (_ & Hpa & HVp). change TRAPFRAME with (2 ^ 38 - 8192) in Hmax. rewrite upages_snoc, Z.add_0_l. f_equal.
  - apply upages_ext. intros va Hva. apply (ad_out _ _ _ _ _ _ _ _ _ Ha); change MAXVA with (2 ^ 38); unfold PGSIZE in *; lia.
  - unfold upage. rewrite (ad_in _ _ _ _ _ _ _ _ _ Ha) by (unfold PGSIZE; lia). by rewrite HVp, Hpa.
Qed.

Lemma step_built : hart_ok (k_hart s) → built root b s fl (S j) s4 fl4.
Proof using end_pos Hf Hmax Hbj Hb Ha.
  intros Hok. destruct step_page as (Hpok & _ & _). pose proof step_upages as Hup. pose proof Hmax as Hmx.
  pose proof Hb as [Hu1 Hp1 Hh1 Hf1 Ht1 Hk1]. destruct Ha as [Htw Hin Hh4 Hp4 Hi4 Ho4 Hf4 _ _].
  assert (TRAPFRAME = 2 ^ 38 - 8192 ∧ MAXVA = 2 ^ 38) as [ET EM] by done. rewrite ET in Hmx, Ht1. rewrite EM in Ho4, Ht1.
  assert ((upages (k_mem s1) root 0 j ++ [p]) ++ tables (k_mem s4) root ++ fl4 ≡ₚ
          upages (k_mem s1) root 0 j ++ tables (k_mem s1) root ++ p :: fl2) as Hperm.
  { rewrite Hp4, <- app_assoc. cbn [app]. by rewrite !Permutation_middle. }
  split; rewrite ?Hup; [|by rewrite Hperm| | | |].
  - split; rewrite ?Hup; [done|done| |done|].
    + split; [|rewrite Hperm; apply Hu1]. apply Forall_app. split; [apply (us_user _ _ _ _ _ Hu1)|by constructor].
    + rewrite ET. intros va Hva. rewrite Ho4 by (unfold PGSIZE in *; lia). apply (us_top _ _ _ _ _ Hu1). rewrite ET. unfold PGSIZE in *. lia.
  - eapply hart_same_trans; [done|exact Hh1|exact Hh4].
  - intros a Hout. rewrite Hf4; [by apply Hf1|]. intros y Hy. apply Hout, (built_sub root b s fl j s1 (p :: fl2) y Hbj Hb).
    rewrite elem_of_app. by right.
  - rewrite ET, EM. intros va Hva. rewrite Ho4 by (unfold PGSIZE in *; lia). apply Ht1. lia.
  - intros va Hva. rewrite Ho4 by (unfold PGSIZE in *; lia). apply Hk1. lia.
Qed.

(** The pages below stay, with their bytes. *)
Lemma step_below va : 0 ≤ va < Z.of_nat j * PGSIZE → leaf (k_mem s4) root va = leaf (k_mem s1) root va ∧
  (has (leaf (k_mem s1) root va) PTE_V = true → ∀ o, 0 ≤ o < PGSIZE →
    rd (k_mem s4) (PTE2PA (leaf (k_mem s1) root va) + o) = rd (k_mem s1) (PTE2PA (leaf (k_mem s1) root va) + o)).
Proof using end_pos Hmax Hb Ha.
  clear Hbj Hf.
  intros Hva. change TRAPFRAME with (2 ^ 38 - 8192) in Hmax. split.
  - apply (ad_out _ _ _ _ _ _ _ _ _ Ha); change MAXVA with (2 ^ 38); unfold PGSIZE in *; lia.
  - intros HV o Ho. apply (ad_frame _ _ _ _ _ _ _ _ _ Ha). intros y Hy.
    apply (user_apart root j s1 (p :: fl2) (PTE2PA (leaf (k_mem s1) root va)) y); [apply Hb| |done|unfold in_page; lia].
    by apply upages_elem.
Qed.

(** The page itself. *)
Lemma step_new va : Z.of_nat j * PGSIZE ≤ va < Z.of_nat (S j) * PGSIZE → leaf (k_mem s4) root va = mkpte p f ∧
  PTE2PA (leaf (k_mem s4) root va) = p ∧ ∀ o, 0 ≤ o < PGSIZE → rd (k_mem s4) (p + o) = c o.
Proof using end_pos Hf Hb Ha.
  clear Hbj Hmax.
  intros Hva. destruct step_page as (_ & Hpa & _). rewrite (ad_in _ _ _ _ _ _ _ _ _ Ha) by done. split_and!; [done|done|apply Ha].
Qed.
End step.

Lemma user_space_same root n s fl s' : user_space end_ root n s fl → kinv end_ s' fl → k_mem s' = k_mem s → user_space end_ root n s' fl.
Proof. intros [[? ? ?] ? [? ?] ? ?] Hk E. split; unfold freeable; rewrite ?E; [|done..]. by split; rewrite ?E. Qed.

(** Growing the table keeps the user memory. *)
Lemma space_tstep root n s fl s' fl' : user_space end_ root n s fl → tstep end_ root s fl s' fl' →
  (∀ va, 0 ≤ va < MAXVA → leaf (k_mem s') root va = leaf (k_mem s) root va) → user_space end_ root n s' fl'.
Proof.
  intros [Ht Hin [Hu1 Hu2] Hn Htop] Hts Hl. change TRAPFRAME with (2 ^ 38 - 8192) in *. change MAXVA with (2 ^ 38) in *.
  split; [by eapply tstep_twf|by apply Hts| |done|intros va Hva; change TRAPFRAME with (2 ^ 38 - 8192) in Hva; rewrite Hl by (unfold PGSIZE in *; lia); by apply Htop].
  rewrite (upages_ext (k_mem s)) by (intros va Hva; apply Hl; lia). split; [done|]. by rewrite (t_perm _ _ _ _ _ _ Hts).
Qed.

Lemma fill_page root n p c s1 fl2 s2 m : user_space end_ root n s1 (p :: fl2) → kinv end_ s2 fl2 → k_hart s2 = sync (k_hart s1) →
  (∀ a, rd (k_mem s2) a = if decide (in_page a p) then 5 else rd (k_mem s1) a) →
  (∀ a, rd m a = if decide (in_page a p) then c (a - p) else rd (k_mem s2) a) →
  filled root n p c s1 fl2 (over kmem_mem m s2).
Proof.
  intros Hu Hk2 Hh2 Hm2 Hm. pose proof (tw_kinv _ _ _ _ _ (us_twf _ _ _ _ _ Hu)) as Hk1.
  pose proof (ki_nodup _ _ _ Hk1) as Hnd1. apply NoDup_cons in Hnd1 as [Hpn _].
  pose proof (ki_pages _ _ _ Hk1) as Hpgs. apply Forall_cons in Hpgs as [Hpok Hpgs]. rewrite Forall_forall in Hpgs.
  assert (∀ a, ¬ in_page a p → rd m a = rd (k_mem s1) a) as Hm3.
  { intros a Ha. rewrite Hm, decide_False, Hm2 by done. by rewrite decide_False. }
  destruct (space_take root n s1 p fl2 (over kmem_mem m s2) Hu) as (Hu3 & Hl3 & Htab3); [|done|].
  { apply kinv_mem; [done|]. intros q a Hq Ha. rewrite Hm, decide_False; [done|].
    apply (page_disjoint end_ q p); [by apply Hpgs|done|by intros ->|done]. }
  split; [done|cbn; rewrite Hh2; auto with hart|done|done|done|].
  intros o Ho. change (rd m (p + o) = c o). rewrite Hm, decide_True by (unfold in_page; lia). f_equal. lia.
Qed.

(** mappages failed: the page goes back, and the space is as it was. *)
Lemma unfill new n p c s1 fl2 s3 s4 : user_space end_ new n s1 (p :: fl2) → filled new n p c s1 fl2 s3 →
  tstep end_ new s3 fl2 s4 [] → (∀ va, 0 ≤ va < MAXVA → leaf (k_mem s4) new va = leaf (k_mem s3) new va) →
  wp (kfree end_ p) (λ _ s5, built new n s1 (p :: fl2) n s5 [p]) s4.
Proof.
  intros Hu1 [Hu3 Hh3 Hl3 Htab3 Hm3 _] Hts Hl4. pose proof (space_tstep new n s3 fl2 s4 [] Hu3 Hts Hl4) as Hu4.
  pose proof Hts as [_ Hh4 Hp4 Hf4 _]. rewrite Htab3 in Hp4, Hf4. rewrite app_nil_r in Hp4.
  assert (page_ok end_ p) as Hpok.
  { pose proof (ki_pages _ _ _ (tw_kinv _ _ _ _ _ (us_twf _ _ _ _ _ Hu1))) as H. by apply Forall_cons in H as [? _]. }
  assert (TRAPFRAME = 2 ^ 38 - 8192 ∧ MAXVA = 2 ^ 38) as [ET EM] by done. pose proof (us_size _ _ _ _ _ Hu4) as Hsz. rewrite ET in *. rewrite EM in *.
  assert (upages (k_mem s4) new 0 n = upages (k_mem s1) new 0 n) as Hup.
  { transitivity (upages (k_mem s3) new 0 n); apply upages_ext; intros va Hva; [apply Hl4; unfold PGSIZE in *; lia|apply Hl3]. }
  wp_call (kfree_other end_ end_pos new n p s4 [] Hu4 Hpok).
  { rewrite app_nil_r, Hup, Hp4. destruct (us_user _ _ _ _ _ Hu1) as [_ Hnd]. rewrite app_assoc, <- Permutation_middle, <- app_assoc in Hnd.
    by apply NoDup_cons in Hnd as [? _]. }
  intros [] s5 (Hu5 & Hh5 & Hup5 & Htab5 & Hf5).
  assert (∀ va, 0 ≤ va < MAXVA → leaf (k_mem s5) new va = leaf (k_mem s1) new va) as Hl5.
  { rewrite EM. intros va Hva. rewrite <- Hl3, <- Hl4 by done. apply leafv_ext. intros q a Hq Ha. apply Hf5.
    pose proof (twf_all_pages _ _ _ _ _ (us_twf _ _ _ _ _ Hu5)) as Hall. rewrite Forall_forall in Hall.
    pose proof (tw_nodup _ _ _ _ _ (us_twf _ _ _ _ _ Hu5)) as Hnd. rewrite Htab5 in Hall, Hnd.
    apply (page_disjoint end_ q p); [apply Hall; ins|done| |done]. intros ->. apply NoDup_app in Hnd as (_ & Hnd & _). apply (Hnd p Hq). by left. }
  split; [done| | | | |].
  - rewrite Hup5, Hup, Htab5, Hp4. rewrite <- app_assoc. by rewrite (Permutation_app_comm fl2).
  - eapply hart_same_trans; [apply Hu1|exact Hh3|]. eapply hart_same_trans; [apply Hu3|exact Hh4|exact Hh5].
  - intros a Ha. rewrite Hf5, Hf4, Hm3; [done|apply Ha; ins| |apply Ha; ins].
    intros x Hx. apply Ha. rewrite elem_of_app in Hx. rewrite elem_of_app, elem_of_cons. tauto.
  - rewrite ET. intros va Hva. apply Hl5. lia.
  - intros va Hva. apply Hl5. rewrite EM. unfold PGSIZE in *. lia.
Qed.

(** A page from the allocator is filled and mapped at page [j], where there is none; if there is
    no page for it or for the table, [err] runs on the space as it was. *)
Lemma try_page {X R} root n j f (c : Z → Z) (fill : Z → M mem X) (err : M kst R) (go : Z → M kst R) (Q : R → kst → Prop) s1 fl1 :
  let i := Z.of_nat j * PGSIZE in
  user_space end_ root n s1 fl1 → Z.of_nat (S j) * PGSIZE ≤ TRAPFRAME → 0 ≤ f < 1024 →
  (∀ va, i ≤ va < i + PGSIZE → has (leaf (k_mem s1) root va) PTE_V = false) →
  (∀ p fl2 m, fl1 = p :: fl2 → (∀ a, rd m a = if decide (in_page a p) then 5 else rd (k_mem s1) a) →
    wp (fill p) (λ _ m', ∀ a, rd m' a = if decide (in_page a p) then c (a - p) else rd m a) m) →
  (∀ s2 fl2, (length fl1 < 3)%nat → built root n s1 fl1 n s2 fl2 → wp err Q s2) →
  (∀ p fl2 s4 fl4, fl1 = p :: fl2 → added root j p f c s1 fl2 s4 fl4 → wp (go p) Q s4) →
  wp (do mem <- kalloc;
      if mem =? 0 then err
      else
        zoom kmem_mem (fill mem) ;;
        do r <- mappages root i PGSIZE mem f;
        if negb (r =? 0) then kfree end_ mem ;; err else go mem) Q s1.
Proof.
  intros i Hu1 Hmax Hf Hhole Hfill Herr Hgo. pose proof Hmax as Hmx. change TRAPFRAME with (2 ^ 38 - 8192) in Hmx.
  pose proof (tw_kinv _ _ _ _ _ (us_twf _ _ _ _ _ Hu1)) as Hk1. wp_step. destruct fl1 as [|p fl2].
  - wp_call (kalloc_none end_ s1 Hk1). intros r s2 (-> & Hk2 & Hh2 & _ & Hm2). cbn [Z.eqb].
    apply (Herr s2 []); [cbn; lia|]. split; rewrite ?Hm2; try done; [by eapply user_space_same|]. rewrite Hh2. auto with hart.
  - pose proof (ki_pages _ _ _ Hk1) as Hpgs. apply Forall_cons in Hpgs as [Hpok _].
    wp_call (kalloc_some end_ end_pos p s1 fl2 Hk1). intros r s2 (-> & Hk2 & Hh2 & _ & Hm2).
    destruct (page_ok_range _ end_pos _ Hpok) as (Hp0 & Hphys & _). rewrite (proj2 (Z.eqb_neq p 0)) by lia.
    wp_step. wp_step. wp_call (Hfill p fl2 (k_mem s2) eq_refl Hm2). intros x m Hm. cbn beta in Hm. wp_step.
    pose proof (fill_page root n p c s1 fl2 s2 m Hu1 Hk2 Hh2 Hm2 Hm) as Hfi.
    set (s3 := over kmem_mem m s2) in *. pose proof Hfi as [Hu3 _ Hl3 _ _ _].
    pose proof (mappages_ok end_ end_pos 1 root i p f s3 fl2 (us_twf _ _ _ _ _ Hu3)) as H.
    change (Z.of_nat 1 * PGSIZE) with PGSIZE in H. change MAXVA with (2 ^ 38) in H. change PHYSTOP with 0x88000000 in Hphys.
    wp_call H; [unfold i, PGSIZE; dlia|unfold i, PGSIZE; lia|lia|unfold i, PGSIZE in *; lia|lia|apply Hpok|lia|done|intros va Hva; rewrite Hl3; by apply Hhole|].
    clear H. intros r s4 (fl4 & y & Hts & Hr & [Hc1 Hc2] & Hl4). destruct Hr as [[-> ->]|(-> & Hc3 & ->)]; cbn [Z.eqb negb].
    + apply (Hgo p fl2 s4 fl4 eq_refl). by apply (map_added root n j p f c s1 fl2 s3 s4 fl4).
    + assert (y = 0%nat) as -> by lia. wp_step. wp_call (unfill root n p c s1 fl2 s3 s4 Hu1 Hfi Hts).
      { intros va Hva. rewrite Hl4 by done. unfold mapped. by rewrite decide_False by lia. }
      intros [] s5 Hb5. apply (Herr s5 [p]); [|done]. specialize (Hc2 ltac:(lia)). cbn [length]. lia.
Qed.

(** One page more at the end of a space that grows. *)
Lemma new_page {X} root b j f (c : Z → Z) (fill : Z → M mem X) (err : M kst (Z + Z)) (Q : Z + Z → kst → Prop) s fl s1 fl1 :
  let i := Z.of_nat j * PGSIZE in
  hart_ok (k_hart s) → (b <= j)%nat → Z.of_nat (S j) * PGSIZE ≤ TRAPFRAME → 0 ≤ f < 1024 → built root b s fl j s1 fl1 →
  (∀ p fl2 m, fl1 = p :: fl2 → (∀ a, rd m a = if decide (in_page a p) then 5 else rd (k_mem s1) a) →
    wp (fill p) (λ _ m', ∀ a, rd m' a = if decide (in_page a p) then c (a - p) else rd m a) m) →
  (∀ s2 fl2, (length fl1 < 3)%nat → built root b s fl j s2 fl2 → wp err Q s2) →
  (∀ p fl2 s4 fl4, fl1 = p :: fl2 → added root j p f c s1 fl2 s4 fl4 → Q (inl (Z.of_nat (S j) * PGSIZE)) s4) →
  wp (do mem <- kalloc;
      if mem =? 0 then err
      else
        zoom kmem_mem (fill mem) ;;
        do r <- mappages root i PGSIZE mem f;
        if negb (r =? 0) then kfree end_ mem ;; err else ret (inl (u64 (i + PGSIZE)))) Q s1.
Proof.
  intros i Hok Hbj Hmax Hf Hb Hfill Herr Hgo. pose proof Hmax as Hmx. change TRAPFRAME with (2 ^ 38 - 8192) in Hmx.
  apply (try_page root j j f c fill err (λ _, ret (inl (u64 (i + PGSIZE)))) Q s1 fl1); [apply Hb|done|done| |done| |].
  - intros va Hva. apply (us_top _ _ _ _ _ (bu_new _ _ _ _ _ _ _ Hb)). change TRAPFRAME with (2 ^ 38 - 8192). unfold i, PGSIZE in *. lia.
  - intros s2 fl2 Hlt Hb2. apply (Herr s2 fl2 Hlt). by eapply built_trans.
  - intros p fl2 s4 fl4 E Ha. wp_step. rewrite u64_small by (unfold i, PGSIZE in *; lia).
    replace (i + PGSIZE) with (Z.of_nat (S j) * PGSIZE) by (unfold i, PGSIZE; lia). by apply (Hgo p fl2 s4 fl4).
Qed.

(** A page at a hole inside the space. *)
Lemma hole_filled root n j p f c s1 fl2 s4 fl4 : user_space end_ root n s1 (p :: fl2) → (j < n)%nat → 0 ≤ f < 1024 →
  has (leaf (k_mem s1) root (Z.of_nat j * PGSIZE)) PTE_V = false → added root j p f c s1 fl2 s4 fl4 →
  user_space end_ root n s4 fl4 ∧ upages (k_mem s4) root 0 n ≡ₚ p :: upages (k_mem s1) root 0 n ∧
  PTE2PA (mkpte p f) = p.
Proof.
  intros Hu Hj Hf Hhole [Htw Hin Hh4 Hp4 Hi4 Ho4 Hf4 _ _]. pose proof Hu as [_ _ [Hu1 Hu2] Hn Htop].
  assert (TRAPFRAME = 2 ^ 38 - 8192 ∧ MAXVA = 2 ^ 38) as [ET EM] by done. rewrite ET in *. rewrite EM in *.
  pose proof (ki_pages _ _ _ (tw_kinv _ _ _ _ _ (us_twf _ _ _ _ _ Hu))) as H. apply Forall_cons in H as [Hpok _].
  destruct (page_ok_range _ end_pos _ Hpok) as (? & _ & ?). destruct (mkpte_ok p f ltac:(lia) ltac:(apply Hpok) Hf) as (_ & Hpa & HV & _).
  assert (upages (k_mem s4) root 0 n ≡ₚ p :: upages (k_mem s1) root 0 n) as Hup.
  { replace n with (j + (1 + (n - S j)))%nat by lia. rewrite !upages_app, !Z.add_0_l. cbn [upages]. rewrite !app_nil_r.
    rewrite (upages_ext (k_mem s1) (k_mem s4)) by (intros va Hva; apply Ho4; unfold PGSIZE in *; lia).
    rewrite (upages_ext (k_mem s1) (k_mem s4) root _ (n - S j)) by (intros va Hva; apply Ho4; unfold PGSIZE in *; lia).
    unfold upage. rewrite Hhole, Hi4, HV, Hpa by (unfold PGSIZE; lia). cbn [app]. by rewrite Permutation_middle. }
  split_and!; [|done|done]. split; [done|done| |by rewrite ET|].
  - split; rewrite Hup; [by constructor|]. cbn [app]. rewrite Hp4, !Permutation_middle. done.
  - rewrite ET. intros va Hva. rewrite Ho4 by (unfold PGSIZE in *; lia). by apply Htop.
Qed.

(** ** uvmcopy *)

(** The page at [va] of [new] in [s'] is a copy of the page at [va] of [old] in [s]. *)
Definition same_page (old new : Z) s s' (va : Z) : Prop :=
  let v := leaf (k_mem s) old va in
  let v' := leaf (k_mem s') new va in
  if has v PTE_V
  then v' = mkpte (PTE2PA v') (PTE_FLAGS v) ∧
       ∀ o, 0 ≤ o < PGSIZE → rd (k_mem s') (PTE2PA v' + o) = rd (k_mem s) (PTE2PA v + o)
  else has v' PTE_V = false.

(** The first [j] pages have been copied. *)
Record copied old new s fl (j : nat) s1 fl1 : Prop := {
  cp_built : built new 0 s fl j s1 fl1;
  cp_page va : 0 ≤ va < Z.of_nat j * PGSIZE → same_page old new s s1 va;
  cp_count : (length fl <= length fl1 + 3 * j)%nat
}.

(** The address space [old] of [n] pages shares nothing with the table [new] and the free list. *)
Record apart old new (n : nat) s fl : Prop := {
  ap_old : user_space end_ old n s fl;
  ap_new : user_space end_ new 0 s fl;
  ap_nodup : NoDup ((upages (k_mem s) old 0 n ++ tables (k_mem s) old) ++ tables (k_mem s) new ++ fl)
}.

(** Neither the pages of [old] nor its tables are written. *)
Lemma apart_frame old new n s fl p a x : apart old new n s fl →
  p ∈ upages (k_mem s) old 0 n ++ tables (k_mem s) old → in_page a p → x ∈ tables (k_mem s) new ++ fl → ¬ in_page a x.
Proof.
  intros [Ho Hn Hnd] Hp Ha Hx. apply NoDup_app in Hnd as (_ & Hd & _).
  assert (page_ok end_ p) as Hpok.
  { apply elem_of_app in Hp as [Hp|Hp]; [destruct (us_user _ _ _ _ _ Ho) as [H _]|pose proof (tw_pages _ _ _ _ _ (us_twf _ _ _ _ _ Ho)) as H];
      rewrite Forall_forall in H; by apply H. }
  pose proof (twf_all_pages _ _ _ _ _ (us_twf _ _ _ _ _ Hn)) as Hall. rewrite Forall_forall in Hall.
  apply (page_disjoint end_ p x); [done|by apply Hall| |done]. intros ->. by apply (Hd x).
Qed.

Lemma built_old old new n s fl j s1 fl1 : apart old new n s fl → built new 0 s fl j s1 fl1 →
  (∀ va, lookup_pte 2 (k_mem s1) old va = lookup_pte 2 (k_mem s) old va) ∧
  (∀ va, leaf (k_mem s1) old va = leaf (k_mem s) old va) ∧
  ∀ p a, p ∈ upages (k_mem s) old 0 n → in_page a p → rd (k_mem s1) a = rd (k_mem s) a.
Proof.
  intros Hap Hc.
  assert (∀ p a, p ∈ upages (k_mem s) old 0 n ++ tables (k_mem s) old → in_page a p → rd (k_mem s1) a = rd (k_mem s) a) as H.
  { intros p a Hp Ha. apply (bu_frame _ _ _ _ _ _ _ Hc). intros x Hx. by apply (apart_frame old new n s fl p a x). }
  split_and!; [intros va; apply lookup_pte_ext|intros va; apply leafv_ext|]; intros p a Hp; apply H; ins.
Qed.

(** Giving up: the pages copied so far go back, the table stays. *)
Lemma copy_undo new s fl j s1 fl1 i : built new 0 s fl j s1 fl1 → i = Z.of_nat j * PGSIZE → hart_ok (k_hart s) →
  wp (uvmcopy_err end_ new i) (λ r s', r = inr (-1) ∧ ∃ fl', built new 0 s fl 0 s' fl') s1.
Proof.
  intros Hb -> Hok. unfold uvmcopy_err. wp_step.
  replace ((Z.of_nat j * PGSIZE) `div` PGSIZE) with (Z.of_nat (j - 0)) by (unfold PGSIZE; dlia).
  wp_call (shrink_ok new 0 j s1 fl1 (bu_new _ _ _ _ _ _ _ Hb)); [lia|]. intros [] s2 (fl2 & Hs). wp_step. split; [done|].
  exists fl2. eapply unbuild; [done| |done|done]. lia.
Qed.

(** A hole in [old] stays a hole in [new]. *)
Lemma copy_hole old new n s fl j s1 fl1 : apart old new n s fl → copied old new s fl j s1 fl1 → (j < n)%nat →
  has (leaf (k_mem s) old (Z.of_nat j * PGSIZE)) PTE_V = false → copied old new s fl (S j) s1 fl1.
Proof.
  intros Hap [[[Ht Hin Hu Hn Htop] Hp Hh Hf Ht' Hk'] Hpg Hc] Hj HV. pose proof (us_size _ _ _ _ _ (ap_old _ _ _ _ _ Hap)) as Hmax.
  change TRAPFRAME with (2 ^ 38 - 8192) in *.
  assert (∀ va, Z.of_nat j * PGSIZE ≤ va < Z.of_nat (S j) * PGSIZE → has (leaf (k_mem s1) new va) PTE_V = false) as Hnv.
  { intros va Hva. apply Htop. unfold PGSIZE in *. lia. }
  assert (upages (k_mem s1) new 0 (S j) = upages (k_mem s1) new 0 j) as Hup.
  { rewrite upages_snoc, Z.add_0_l. unfold upage. rewrite Hnv by (unfold PGSIZE; lia). apply app_nil_r. }
  split; [|..|lia].
  - split; rewrite ?Hup; try done. split; rewrite ?Hup; try done; [change TRAPFRAME with (2 ^ 38 - 8192); unfold PGSIZE in *; lia|].
    change TRAPFRAME with (2 ^ 38 - 8192). intros va Hva. apply Htop. unfold PGSIZE in *. lia.
  - intros va Hva. destruct (decide (va < Z.of_nat j * PGSIZE)); [apply Hpg; lia|]. unfold same_page.
    rewrite (leaf_page_of _ old va (Z.of_nat j * PGSIZE)), HV by (unfold page_of, PGSIZE in *; dlia). apply Hnv. lia.
Qed.

(** Page [j] has been copied. *)
Lemma step_copied old new n j s fl s1 s4 fl2 fl4 p : let v := leaf (k_mem s) old (Z.of_nat j * PGSIZE) in
  apart old new n s fl → hart_ok (k_hart s) → (j < n)%nat → has v PTE_V = true → copied old new s fl j s1 (p :: fl2) →
  added new j p (PTE_FLAGS v) (λ o, rd (k_mem s) (PTE2PA v + o)) s1 fl2 s4 fl4 → copied old new s fl (S j) s4 fl4.
Proof.
  intros v Hap Hok Hj HV [Hb Hpg Hcnt] Ha. pose proof (us_size _ _ _ _ _ (ap_old _ _ _ _ _ Hap)) as Hmax.
  assert (Z.of_nat (S j) * PGSIZE ≤ TRAPFRAME) as Hmx by (unfold PGSIZE in *; lia). pose proof (PTE_FLAGS_range v) as Hf.
  split; [by eapply step_built; [..|lia|exact Hmx|exact Hb|exact Ha|exact Hok]| |].
  - intros va Hva. unfold same_page. destruct (decide (va < Z.of_nat j * PGSIZE)) as [Hlt|Hge].
    + specialize (Hpg va ltac:(lia)). unfold same_page in Hpg. destruct (step_below new 0 j _ _ s s1 s4 fl fl2 fl4 p Hmx Hb Ha va) as [-> Hbytes]; [lia|].
      destruct (has (leaf (k_mem s) old va) PTE_V); [|done]. destruct Hpg as [E Hsame]. split; [done|]. intros o Ho. rewrite <- Hsame by done.
      apply Hbytes; [rewrite E; apply mkpte_V|done].
    + rewrite (leaf_page_of _ old va (Z.of_nat j * PGSIZE)) by (unfold page_of, PGSIZE in *; dlia). fold v. rewrite HV.
      destruct (step_new new 0 j _ _ s s1 s4 fl fl2 fl4 p Hf Hb Ha va) as (E & Hpa & Hbytes); [lia|]. rewrite Hpa. by split.
  - pose proof (ad_count _ _ _ _ _ _ _ _ _ Ha). cbn [length] in Hcnt. lia.
Qed.

(** The end of one iteration: the new page and its mapping. *)
Definition went old new s fl (n j : nat) (r : Z + Z) s' : Prop :=
  match r with
  | inl x => x = Z.of_nat (S j) * PGSIZE ∧ ∃ fl', copied old new s fl (S j) s' fl'
  | inr z => z = -1 ∧ (length fl < 3 * n)%nat ∧ ∃ fl', built new 0 s fl 0 s' fl'
  end.

Lemma copy_page old new n j s fl s1 fl1 :
  let i := Z.of_nat j * PGSIZE in let v := leaf (k_mem s) old i in
  apart old new n s fl → hart_ok (k_hart s) → copied old new s fl j s1 fl1 → (j < n)%nat → has v PTE_V = true →
  wp (do mem <- kalloc;
      if mem =? 0 then uvmcopy_err end_ new i
      else
        zoom kmem_mem (memmove mem (PTE2PA v) PGSIZE) ;;
        do r <- mappages new i PGSIZE mem (PTE_FLAGS v);
        if negb (r =? 0) then kfree end_ mem ;; uvmcopy_err end_ new i
        else ret (inl (u64 (i + PGSIZE)))) (went old new s fl n j) s1.
Proof.
  intros i v Hap Hok Hc Hj HV. pose proof Hc as [Hb Hpg Hcnt].
  pose proof (us_size _ _ _ _ _ (ap_old _ _ _ _ _ Hap)) as Hmax. apply (new_page new 0 j (PTE_FLAGS v) (λ o, rd (k_mem s) (PTE2PA v + o))
    (λ mem, memmove mem (PTE2PA v) PGSIZE) (uvmcopy_err end_ new i) _ s fl s1 fl1 Hok);
    [lia|unfold PGSIZE in *; lia|apply PTE_FLAGS_range|done| | |].
  - intros p fl2 m -> Hm. wp_call memmove_rd; [done|]. intros _ m' [_ Hm']. intros a. rewrite Hm'. unfold in_page in *. case_decide as Ha; [|done].
    assert (PTE2PA v ∈ upages (k_mem s) old 0 n) as Hin by (apply upages_elem; [unfold i, PGSIZE in *; lia|done]).
    rewrite Hm, decide_False.
    + destruct (built_old old new n s fl j s1 _ Hap Hb) as (_ & _ & Hold). apply (Hold (PTE2PA v)); [done|unfold in_page; lia].
    + apply (apart_frame old new n s fl (PTE2PA v)); [done|ins|unfold in_page; lia|].
      pose proof (bu_perm _ _ _ _ _ _ _ Hb) as Hp. cbn [upages app] in Hp. rewrite <- Hp. ins.
  - intros s2 fl2 Hlt Hb2. wp_call (copy_undo new s fl j s2 fl2 i Hb2); [done|done|]. intros r s' (-> & H). split_and!; [done|lia|done].
  - intros p fl2 s4 fl4 -> Ha. split; [done|]. exists fl4. by eapply step_copied.
Qed.

(** One iteration. *)
Lemma copy_step old new n j s fl s1 fl1 : let i := Z.of_nat j * PGSIZE in
  apart old new n s fl → hart_ok (k_hart s) → copied old new s fl j s1 fl1 → (j < n)%nat →
  wp (do pte <- walk old i false;
      if pte =? 0 then ret (inl (u64 (i + PGSIZE)))
      else
        do v <- load64 pte;
        if negb (has v PTE_V) then ret (inl (u64 (i + PGSIZE)))
        else
          let pa := PTE2PA v in
          let flags := PTE_FLAGS v in
          do mem <- kalloc;
          if mem =? 0 then uvmcopy_err end_ new i
          else
            zoom kmem_mem (memmove mem pa PGSIZE) ;;
            do r <- mappages new i PGSIZE mem flags;
            if negb (r =? 0) then kfree end_ mem ;; uvmcopy_err end_ new i
            else ret (inl (u64 (i + PGSIZE)))) (went old new s fl n j) s1.
Proof.
  intros i Hap Hok Hc Hj. pose proof (us_size _ _ _ _ _ (ap_old _ _ _ _ _ Hap)) as Hmax. change TRAPFRAME with (2 ^ 38 - 8192) in Hmax.
  destruct (built_old old new n s fl j s1 _ Hap (cp_built _ _ _ _ _ _ _ Hc)) as (Hlk & Hl & _).
  assert (has (leaf (k_mem s) old i) PTE_V = false → wp (ret (inl (u64 (i + PGSIZE)))) (went old new s fl n j) s1) as Hskip.
  { intros HV. wp_step. rewrite u64_small by (unfold i, PGSIZE in *; lia). split; [unfold i, PGSIZE; lia|]. exists fl1. by eapply copy_hole. }
  wp_step. eapply wp_of_Ok; [apply walk_noalloc; change MAXVA with (2 ^ 38); unfold i, PGSIZE in *; lia|]. rewrite Hlk.
  destruct (lookup_pte 2 (k_mem s) old i) as [pte|] eqn:E; cbn [default].
  2: { cbn [from_option]. change (0 =? 0) with true. cbn iota. apply Hskip. unfold leaf, leafv. by rewrite E, has_0. }
  pose proof (pte_addr_pos _ end_pos _ _ _ _ _ _ (us_twf _ _ _ _ _ (ap_old _ _ _ _ _ Hap)) E).
  change (id pte) with pte. rewrite (proj2 (Z.eqb_neq pte 0)) by lia. unfold load64. wp_step. wp_step.
  assert (ld64 (k_mem s1) pte = leaf (k_mem s) old i) as -> by (rewrite <- Hl; unfold leaf, leafv; by rewrite Hlk, E).
  destruct (has (leaf (k_mem s) old i) PTE_V) eqn:HV; cbn [negb]; [|by apply Hskip]. cbv zeta. by apply (copy_page old new n j s fl s1 fl1).
Qed.

Lemma uvmcopy_run old new n sz s fl :
  0 ≤ sz ≤ TRAPFRAME → PGROUNDUP sz = Z.of_nat n * PGSIZE → apart old new n s fl →
  wp (uvmcopy end_ old new sz) (λ r s', ∃ fl',
    r = 0 ∧ copied old new s fl n s' fl' ∨ r = -1 ∧ built new 0 s fl 0 s' fl' ∧ (length fl < 3 * n)%nat) s.
Proof.
  intros Hsz Hn Hap. pose proof (ki_hart _ _ _ (tw_kinv _ _ _ _ _ (us_twf _ _ _ _ _ (ap_new _ _ _ _ _ Hap)))) as Hok.
  change TRAPFRAME with (2 ^ 38 - 8192) in Hsz. rewrite PGROUNDUP_eq in Hn by (unfold PGSIZE; lia). unfold uvmcopy.
  apply (wp_loop (λ x s', ∃ j fl', x = Z.of_nat j * PGSIZE ∧ (j <= n)%nat ∧ copied old new s fl j s' fl')
    (λ x _, Z.to_nat (Z.of_nat n - x `div` PGSIZE))).
  - intros x s' (j & fl' & -> & Hj & Hc). destruct (decide (j = n)) as [->|Hne].
    { rewrite (proj2 (Z.ltb_ge _ _)) by (unfold PGSIZE in *; dlia). cbn [negb]. wp_step. exists fl'. by left. }
    rewrite (proj2 (Z.ltb_lt _ _)) by (unfold PGSIZE in *; dlia). cbn [negb].
    wp_call (copy_step old new n j s fl s' fl' Hap Hok Hc); [lia|]. intros [x|z] s''.
    + intros (-> & fl'' & Hc''). split; [exists (S j), fl''; split_and!; [done|lia|done]|]. unfold PGSIZE. dlia.
    + intros (-> & Hcnt & fl'' & Hb). exists fl''. by right.
  - exists 0%nat, fl. split_and!; [done|lia|]. split; [|intros; lia|lia]. split; [apply Hap|done|auto with hart|done|done|done].
  - unfold PGSIZE in *. dlia.
Qed.

(** C10: fork's copy of memory. uvmcopy either succeeds, and then every mapped page of
    the old address space is mapped in the new one at the same address with the same
    permissions, to a page of its own with the same bytes, and every hole is a hole; or it
    runs out of memory, which three free pages per page of the process exclude, and then
    the new address space is empty again. In both cases every page of the new address
    space comes from the free list, no page is lost or shared, the mappings of the
    trampoline and the trapframe stay, and the old address space is untouched. *)
Theorem uvmcopy_copies old new n sz s fl :
  0 ≤ sz ≤ TRAPFRAME → PGROUNDUP sz = Z.of_nat n * PGSIZE → apart old new n s fl →
  wp (uvmcopy end_ old new sz) (λ r s', (∃ fl',
      r = 0 ∧ built new 0 s fl n s' fl' ∧ (∀ va, 0 ≤ va < Z.of_nat n * PGSIZE → same_page old new s s' va) ∨
      r = -1 ∧ built new 0 s fl 0 s' fl' ∧ (length fl < 3 * n)%nat) ∧
    (∀ va, leaf (k_mem s') old va = leaf (k_mem s) old va) ∧
    ∀ p a, p ∈ upages (k_mem s) old 0 n → in_page a p → rd (k_mem s') a = rd (k_mem s) a) s.
Proof.
  intros Hsz Hn Hap. wp_call (uvmcopy_run old new n sz s fl Hsz Hn Hap).
  intros r s' (fl' & [[-> Hc]|(-> & Hb & Hcnt)]).
  - destruct (built_old old new n s fl n s' fl' Hap (cp_built _ _ _ _ _ _ _ Hc)) as (_ & Hl & Hm). split_and!; [|done|done].
    exists fl'. left. split_and!; [done|apply Hc|apply Hc].
  - destruct (built_old old new n s fl 0 s' fl' Hap Hb) as (_ & Hl & Hm). split_and!; [|done|done]. exists fl'. right. by split_and!.
Qed.
End space.

(** The address space of one page of [demo_space], in any memory that has its tables. *)
Lemma demo_user_space end_ k fl : 0 < end_ ≤ 0x87ff8000 → kinv end_ k fl →
  (∀ a, 0x87ffd000 ≤ a < 0x88000000 → rd (k_mem k) a = rd (k_mem demo_space) a) → (∀ x, x ∈ fl → x < 0x87ffc000) →
  user_space end_ 0x87fff000 1 k fl ∧ pt_pages 2 (k_mem k) 0x87fff000 = [0x87fff000; 0x87ffe000; 0x87ffd000] ∧
  upages (k_mem k) 0x87fff000 0 1 = [0x87ffc000].
Proof.
  intros Hend Hk Hm Hfl.
  assert (pt_pages 2 (k_mem demo_space) 0x87fff000 = [0x87fff000; 0x87ffe000; 0x87ffd000]) as Hp by (vm_compute; reflexivity).
  assert (upages (k_mem demo_space) 0x87fff000 0 1 = [0x87ffc000]) as Hu by (vm_compute; reflexivity).
  assert (∀ p a, p ∈ pt_pages 2 (k_mem demo_space) 0x87fff000 → in_page a p → rd (k_mem k) a = rd (k_mem demo_space) a) as Hext.
  { rewrite Hp. intros p a Hin Ha. apply Hm. unfold in_page, PGSIZE in Ha. rewrite !elem_of_cons, elem_of_nil in Hin.
    destruct Hin as [->|[->|[->|[]]]]; lia. }
  assert (∀ p, p `mod` PGSIZE = 0 → 0x87ff8000 ≤ p < PHYSTOP → page_ok end_ p) as Hok by (intros p H1 H2; split; [done|lia]).
  assert (pt_pages 2 (k_mem k) 0x87fff000 = [0x87fff000; 0x87ffe000; 0x87ffd000]) as Hp' by (by rewrite (pt_pages_ext 2 (k_mem demo_space))).
  assert (∀ va, leaf (k_mem k) 0x87fff000 va = leaf (k_mem demo_space) 0x87fff000 va) as Hl by (intros va; by apply leafv_ext).
  assert (upages (k_mem k) 0x87fff000 0 1 = [0x87ffc000]) as Hu' by (by rewrite (upages_ext (k_mem demo_space))).
  assert (NoDup ([0x87ffc000; 0x87fff000; 0x87ffe000; 0x87ffd000] ++ fl)) as Hnd.
  { apply NoDup_app. split_and!; [apply (bool_decide_unpack _); vm_compute; done| |apply Hk].
    intros x Hx Hx'. specialize (Hfl x Hx'). rewrite !elem_of_cons, elem_of_nil in Hx. destruct Hx as [->|[->|[->|[->|[]]]]]; lia. }
  destruct demo_space_ok as [_ Hin _ Htop]. split_and!; [|done|done]. split.
  - split; rewrite ?Hp'; [done|repeat constructor; first [reflexivity|lia|done]|]. by apply NoDup_cons in Hnd as [_ ?].
  - by eapply inner_ext.
  - rewrite Hu'. split; [repeat constructor; first [reflexivity|lia|done]|]. by rewrite Hp'.
  - vm_compute. discriminate.
  - intros va Hva. rewrite Hl. apply Htop. change TRAPFRAME with (2 ^ 38 - 8192) in Hva. change MAXVA with (2 ^ 38). lia.
Qed.

(** The address space of one page, an empty table for its copy, three free pages. *)
Definition demo_fork_free : list Z := [0x87ffb000; 0x87ff9000; 0x87ff8000].
Definition demo_fork : kst := Kst demo_hart (Spin 0 "kmem" None) 0x87ffb000
  (st64 (st64 (st64 (k_mem demo_space) 0x87ffb000 0x87ff9000) 0x87ff9000 0x87ff8000) 0x87ff8000 0).

Lemma demo_fork_rd a : ¬ (0x87ffb000 ≤ a < 0x87ffb008) → ¬ (0x87ff9000 ≤ a < 0x87ff9008) → ¬ (0x87ff8000 ≤ a < 0x87ff8008) →
  rd (k_mem demo_fork) a = rd (k_mem demo_space) a.
Proof. intros. unfold demo_fork, k_mem. rewrite !rd_st_out by lia. done. Qed.

Lemma demo_fork_kinv : kinv 0x87ff8000 demo_fork demo_fork_free.
Proof.
  split; [apply demo_hart_ok|by split|cbn [chain demo_fork_free]; split_and!; vm_compute; reflexivity|repeat constructor; vm_compute; congruence|].
  apply (bool_decide_unpack _). vm_compute. done.
Qed.

Lemma demo_fork_new : tab 0x87ff8000 0x87ffa000 demo_fork demo_fork_free (λ _, 0) ∧ pt_pages 2 (k_mem demo_fork) 0x87ffa000 = [0x87ffa000].
Proof.
  destruct (zero_table 2 (k_mem demo_fork) 0x87ffa000) as (Hp & Hl & Hi).
  { intros a Ha. unfold in_page, PGSIZE in Ha. rewrite demo_fork_rd by lia. unfold demo_space, k_mem. rewrite !rd_st_out by lia. done. }
  split; [|done]. split; [|apply Hi|intros va _; apply Hl]. split; rewrite ?Hp; [exact demo_fork_kinv|by repeat constructor; vm_compute; congruence|].
  apply (bool_decide_unpack _). vm_compute. done.
Qed.

Lemma demo_fork_apart : apart 0x87ff8000 0x87fff000 0x87ffa000 1 demo_fork demo_fork_free.
Proof.
  destruct demo_fork_new as [Hnew Hpn].
  destruct (demo_user_space 0x87ff8000 demo_fork demo_fork_free) as (Ho & Hp & Hu); [lia|exact demo_fork_kinv| | |].
  - intros a Ha. apply demo_fork_rd; lia.
  - unfold demo_fork_free. intros x. rewrite !elem_of_cons, elem_of_nil. intros [->|[->|[->|[]]]]; lia.
  - split; [done|eapply tab_user_space; [exact Hnew|]; intros; apply has_0|].
    rewrite Hp, Hpn, Hu. apply (bool_decide_unpack _). vm_compute. done.
Qed.

Lemma uvmcopy_copies_witness :
  wp (uvmcopy 0x87ff8000 0x87fff000 0x87ffa000 100) (λ r s', r = 0 ∧ same_page 0x87fff000 0x87ffa000 demo_fork s' 0) demo_fork.
Proof.
  eapply wp_mono; [apply (uvmcopy_copies 0x87ff8000 ltac:(done) 0x87fff000 0x87ffa000 1 100 demo_fork demo_fork_free)|].
  - split; vm_compute; discriminate.
  - vm_compute. reflexivity.
  - exact demo_fork_apart.
  - intros r s' ((fl' & [(-> & _ & H)|(_ & _ & H)]) & _); [|cbn in H; lia]. split; [done|]. apply H. unfold PGSIZE. lia.
Defined.
