(* ===== verification/VmGrow.v ===== *)
(** * Growing and shrinking user memory (kernel/vm.c)

    uvmalloc and uvmdealloc on an address space, and what both leave of it. *)
From S2P Require Import Prelude Memory KString Riscv Spinlock Kalloc Vm VmSpec VmOps VmProps VmFree VmSpace.

Section grow.
Context (end_ : Z) (end_pos : 0 < end_).
Implicit Types (s : kst) (fl : list Z).
Abbreviation tables m root := (pt_pages 2 m root).

(** The page at [va] is full of zeros and mapped with the permissions [f]. *)
Definition zero_page root f s (va : Z) : Prop :=
  let v := leaf (k_mem s) root va in
  v = mkpte (PTE2PA v) f ∧ ∀ o, 0 ≤ o < PGSIZE → rd (k_mem s) (PTE2PA v + o) = 0.

(** The pages from [b] to [j] are new. *)
Record zeroed root f (b : nat) s fl (j : nat) s1 fl1 : Prop := {
  ze_built : built end_ root b s fl j s1 fl1;
  ze_page va : Z.of_nat b * PGSIZE ≤ va < Z.of_nat j * PGSIZE → zero_page root f s1 va;
  ze_count : (length fl <= length fl1 + 3 * (j - b))%nat
}.

Lemma built_refl root n s fl : user_space end_ root n s fl → built end_ root n s fl n s fl.
Proof. intros Hu. by split; try apply hart_same_refl. Qed.

Lemma shrunk_refl root n s fl : user_space end_ root n s fl → shrunk end_ root n n s fl s fl.
Proof. intros Hu. by split; try apply hart_same_refl. Qed.

Lemma uvmdealloc_run root b n oldsz newsz s fl :
  0 ≤ newsz ≤ oldsz → oldsz ≤ TRAPFRAME → PGROUNDUP newsz = Z.of_nat b * PGSIZE → PGROUNDUP oldsz = Z.of_nat n * PGSIZE →
  user_space end_ root n s fl →
  wp (uvmdealloc end_ root oldsz newsz) (λ r s', r = newsz ∧ ∃ fl', shrunk end_ root b n s fl s' fl') s.
Proof.
  intros Hsz Hmax Hb Hn Hu. assert (TRAPFRAME = 2 ^ 38 - 8192) as ET by done. rewrite ET in Hmax. unfold uvmdealloc. rewrite Hb, Hn.
  assert (b <= n)%nat as Hbn by (rewrite PGROUNDUP_eq in Hb, Hn by (unfold PGSIZE; lia); unfold PGSIZE in *; dlia).
  destruct (Z.leb_spec oldsz newsz) as [Hle|Hlt].
  { assert (newsz = oldsz) as -> by lia. assert (b = n) as -> by (rewrite Hb in Hn; unfold PGSIZE in Hn; lia).
    wp_step. split; [done|]. exists fl. by apply shrunk_refl. }
  pose proof (us_size _ _ _ _ _ Hu) as Hus. rewrite ET in Hus. wp_step.
  destruct (Z.ltb_spec (Z.of_nat b * PGSIZE) (Z.of_nat n * PGSIZE)) as [Hlt'|Hge]; cbn [when].
  - replace ((Z.of_nat n * PGSIZE - Z.of_nat b * PGSIZE) `div` PGSIZE) with (Z.of_nat (n - b)) by (unfold PGSIZE in *; dlia).
    rewrite i32_small, u64_small by (unfold PGSIZE in *; lia). wp_call (shrink_ok end_ end_pos root b n s fl Hu Hbn).
    intros [] s' H. by wp_step.
  - assert (b = n) as -> by (unfold PGSIZE in *; lia). wp_step. wp_step. split; [done|]. exists fl. by apply shrunk_refl.
Qed.

(** One page more. *)
Lemma step_zeroed root f b j s fl s1 s4 fl2 fl4 p : hart_ok (k_hart s) → (b <= j)%nat → Z.of_nat (S j) * PGSIZE ≤ TRAPFRAME →
  0 ≤ f < 1024 → zeroed root f b s fl j s1 (p :: fl2) → added end_ root j p f (λ _, 0) s1 fl2 s4 fl4 →
  zeroed root f b s fl (S j) s4 fl4.
Proof.
  intros Hok Hbj Hmx Hf [Hb Hz Hcnt] Ha. split; [by eapply step_built| |].
  - intros va Hva. unfold zero_page. destruct (decide (va < Z.of_nat j * PGSIZE)) as [Hlt|Hge].
    + destruct (Hz va ltac:(lia)) as [E Hzero].
      destruct (step_below end_ end_pos root b j f _ s s1 s4 fl fl2 fl4 p Hmx Hb Ha va) as [-> Hbytes]; [unfold PGSIZE in *; lia|].
      split; [done|]. intros o Ho. rewrite Hbytes; [by apply Hzero|rewrite E; apply mkpte_V|done].
    + destruct (step_new end_ end_pos root b j f _ s s1 s4 fl fl2 fl4 p Hf Hb Ha va) as (E & Hpa & Hbytes); [lia|]. rewrite Hpa. by split.
  - pose proof (ad_count _ _ _ _ _ _ _ _ _ _ Ha). cbn [length] in Hcnt. lia.
Qed.

Lemma uvmalloc_run root b n oldsz newsz xperm s fl : let f := Z.lor (Z.lor PTE_R PTE_U) xperm in
  0 ≤ oldsz ≤ newsz → newsz ≤ TRAPFRAME → PGROUNDUP oldsz = Z.of_nat b * PGSIZE → PGROUNDUP newsz = Z.of_nat n * PGSIZE →
  0 ≤ f < 1024 → user_space end_ root b s fl →
  wp (uvmalloc end_ root oldsz newsz xperm) (λ r s', ∃ fl',
    r = newsz ∧ zeroed root f b s fl n s' fl' ∨
    r = 0 ∧ built end_ root b s fl b s' fl' ∧ (length fl < 3 * (n - b))%nat) s.
Proof.
  intros f Hsz Hmax Hb Hn Hf Hu. pose proof (ki_hart _ _ _ (tw_kinv _ _ _ _ _ (us_twf _ _ _ _ _ Hu))) as Hok.
  assert (TRAPFRAME = 2 ^ 38 - 8192) as ET by done. rewrite ET in Hmax. unfold uvmalloc. rewrite Hb.
  rewrite PGROUNDUP_eq in Hb, Hn by (unfold PGSIZE; lia). rewrite (proj2 (Z.ltb_ge _ _)) by lia.
  assert (b <= n)%nat as Hbn by (unfold PGSIZE in *; dlia).
  apply (wp_loop (λ x s', ∃ j fl', x = Z.of_nat j * PGSIZE ∧ (b <= j <= n)%nat ∧ zeroed root f b s fl j s' fl')
    (λ x _, Z.to_nat (Z.of_nat n - x `div` PGSIZE))).
  - intros x s' (j & fl' & -> & Hj & Hz). destruct (decide (j = n)) as [->|Hne].
    { rewrite (proj2 (Z.ltb_ge _ _)) by (unfold PGSIZE in *; dlia). cbn [negb]. wp_step. exists fl'. by left. }
    rewrite (proj2 (Z.ltb_lt _ _)) by (unfold PGSIZE in *; dlia). cbn [negb]. pose proof Hz as [Hbu _ Hcnt].
    assert (Z.of_nat (S j) * PGSIZE ≤ TRAPFRAME) as Hmx by (rewrite ET; unfold PGSIZE in *; dlia). rewrite ET in Hmx.
    apply (new_page end_ end_pos root b j f (λ _, 0) (λ mem, memset mem 0 PGSIZE)
      (uvmdealloc end_ root (Z.of_nat j * PGSIZE) (Z.of_nat b * PGSIZE) ;; ret (inr 0)) _ s fl s' fl' Hok);
      [lia|done|done|done| | |].
    + intros p fl2 m -> Hm. wp_call memset_rd. by intros _ m' [_ Hm'].
    + intros s2 fl2 Hlt Hb2. wp_step. wp_call (uvmdealloc_run root b j (Z.of_nat j * PGSIZE) (Z.of_nat b * PGSIZE) s2 fl2);
        [unfold PGSIZE in *; lia|rewrite ET; unfold PGSIZE in *; lia|rewrite PGROUNDUP_eq by (unfold PGSIZE in *; lia); unfold PGSIZE in *; dlia..|apply Hb2|].
      intros r s3 (_ & fl3 & Hs). wp_step. exists fl3. right. split_and!; [done| |lia]. eapply unbuild; [done| |done|done]. lia.
    + intros p fl2 s4 fl4 -> Ha. split; [exists (S j), fl4; split_and!; [done|lia|lia|]|].
      * eapply step_zeroed; [done|lia|exact Hmx|done|done|done].
      * unfold PGSIZE. dlia.
  - exists b, fl. split_and!; [done|lia|lia|]. split; [by apply built_refl|intros; lia|lia].
  - unfold PGSIZE in *. dlia.
Qed.

(** The space of [b] pages in [s] has [b'] pages in [s']. *)
Record resized root (b b' : nat) s fl s' fl' : Prop := {
  rs_space : user_space end_ root b' s' fl';
  rs_perm : upages (k_mem s') root 0 b' ++ tables (k_mem s') root ++ fl' ≡ₚ upages (k_mem s) root 0 b ++ tables (k_mem s) root ++ fl;
  rs_keep va : 0 ≤ va < Z.of_nat (b `min` b') * PGSIZE ∨ TRAPFRAME ≤ va < MAXVA → leaf (k_mem s') root va = leaf (k_mem s) root va;
  rs_bytes va o : 0 ≤ va < Z.of_nat (b `min` b') * PGSIZE → has (leaf (k_mem s) root va) PTE_V = true → 0 ≤ o < PGSIZE →
    rd (k_mem s') (PTE2PA (leaf (k_mem s) root va) + o) = rd (k_mem s) (PTE2PA (leaf (k_mem s) root va) + o);
  rs_frame a : (∀ p, p ∈ upages (k_mem s) root (Z.of_nat b' * PGSIZE) (b - b') ++ tables (k_mem s) root ++ fl → ¬ in_page a p) →
    rd (k_mem s') a = rd (k_mem s) a
}.

(** A page that stays is neither removed nor a table nor free. *)
Lemma kept_apart root b c s fl va o : user_space end_ root b s fl → (c <= b)%nat → 0 ≤ va < Z.of_nat c * PGSIZE →
  has (leaf (k_mem s) root va) PTE_V = true → 0 ≤ o < PGSIZE →
  ∀ p, p ∈ upages (k_mem s) root (Z.of_nat c * PGSIZE) (b - c) ++ tables (k_mem s) root ++ fl → ¬ in_page (PTE2PA (leaf (k_mem s) root va) + o) p.
Proof.
  intros Hu Hc Hva HV Ho p Hp. set (x := PTE2PA (leaf (k_mem s) root va)).
  assert (x ∈ upages (k_mem s) root 0 c) as Hx by (by apply upages_elem). destruct (us_user _ _ _ _ _ Hu) as [Hu1 Hu2].
  pose proof (twf_all_pages _ _ _ _ _ (us_twf _ _ _ _ _ Hu)) as Hall.
  rewrite (upages_split _ _ _ _ Hc), <- app_assoc in Hu2. rewrite (upages_split _ _ _ _ Hc) in Hu1. apply Forall_app in Hu1 as [Hu0 Hu1].
  apply NoDup_app in Hu2 as (_ & Hd & _). rewrite Forall_forall in Hall, Hu0, Hu1.
  apply (page_disjoint end_ x p); [by apply Hu0| |by intros ->; apply (Hd p)|unfold in_page; lia].
  apply elem_of_app in Hp as [Hp|Hp]; [by apply Hu1|by apply Hall].
Qed.

Lemma built_resized root b j s fl s' fl' : (b <= j)%nat → user_space end_ root b s fl → built end_ root b s fl j s' fl' → resized root b j s fl s' fl'.
Proof.
  intros Hb Hu [Hu' Hp Hh Hf Ht Hk]. split; rewrite ?Nat.min_l by done; [done|done| | |].
  - intros va [Hva|Hva]; [by apply Hk|by apply Ht].
  - intros va o Hva HV Ho. apply Hf. intros p Hin. eapply (kept_apart root b b s fl va o); try done. rewrite elem_of_app. by right.
  - intros a Ha. apply Hf. intros p Hin. apply Ha. rewrite elem_of_app. by right.
Qed.

Lemma shrunk_resized root b n s fl s' fl' : (b <= n)%nat → user_space end_ root n s fl → shrunk end_ root b n s fl s' fl' → resized root n b s fl s' fl'.
Proof.
  intros Hb Hu [Hu' Hp Hh Hk Hf]. pose proof (us_size _ _ _ _ _ Hu) as Hmax.
  assert (TRAPFRAME = 2 ^ 38 - 8192 ∧ MAXVA = 2 ^ 38) as [ET EM] by done. rewrite ET in Hmax. rewrite EM in Hk.
  split; rewrite ?Nat.min_r by done; [done|done| | |done].
  - rewrite ET, EM. intros va Hva. apply Hk; unfold PGSIZE in *; lia.
  - intros va o Hva HV Ho. apply Hf. by apply kept_apart.
Qed.

(** More room that is not yet memory. *)
Lemma lazy_resized root b j s fl : (b <= j)%nat → Z.of_nat j * PGSIZE ≤ TRAPFRAME → user_space end_ root b s fl →
  resized root b j s fl s fl ∧ ∀ va, Z.of_nat b * PGSIZE ≤ va < Z.of_nat j * PGSIZE → has (leaf (k_mem s) root va) PTE_V = false.
Proof.
  intros Hb Hj Hu. pose proof Hu as [Ht Hin Hus Hn Htop].
  assert (∀ va, Z.of_nat b * PGSIZE ≤ va < Z.of_nat j * PGSIZE → has (leaf (k_mem s) root va) PTE_V = false) as Hh by (intros va Hva; apply Htop; lia).
  split; [|done].
  assert (upages (k_mem s) root 0 j = upages (k_mem s) root 0 b) as Hup.
  { clear Hj Hu. induction j as [|j IH]; [by replace b with 0%nat by lia|]. destruct (decide (b = S j)) as [->|Hne]; [done|].
    rewrite upages_snoc, Z.add_0_l, IH by first [lia|intros va Hva; apply Hh; unfold PGSIZE in *; lia]. unfold upage.
    rewrite Hh by (unfold PGSIZE; lia). by rewrite app_nil_r. }
  split; rewrite ?Hup; try done. split; rewrite ?Hup; try done. intros va Hva. apply Htop. unfold PGSIZE in *. lia.
Qed.
End grow.
