(* ===== verification/VmFault.v ===== *)
(** * Memory on demand (kernel/vm.c vmfault)

    vmfault gives a page to a hole of the current process's memory, for copyin and
    copyout to use. *)
From S2P Require Import Prelude Memory KString Riscv Spinlock Kalloc Vm VmSpec VmOps VmProps VmFree VmSpace VmGrow.

Section fault.
Context (end_ : Z) (end_pos : 0 < end_).
Implicit Types (s : kst) (fl : list Z).
Abbreviation tables m root := (pt_pages 2 m root).

Definition fault_perm : Z := Z.lor (Z.lor PTE_W PTE_U) PTE_R.

(** Page [r] fills the hole at [va] of the space of [n] pages. *)
Record faulted root (n : nat) va r s fl s' fl' : Prop := {
  fa_space : user_space end_ root n s' fl';
  fa_perm : upages (k_mem s') root 0 n ++ tables (k_mem s') root ++ fl' ≡ₚ upages (k_mem s) root 0 n ++ tables (k_mem s) root ++ fl;
  fa_hart : hart_same (k_hart s) (k_hart s');
  fa_page : zero_page root fault_perm s' va;
  fa_addr : walkaddr root va s' = Ok r s';
  fa_other va' : 0 ≤ va' < MAXVA → page_of va' ≠ page_of va → leaf (k_mem s') root va' = leaf (k_mem s) root va';
  fa_bytes va' o : 0 ≤ va' < Z.of_nat n * PGSIZE → has (leaf (k_mem s) root va') PTE_V = true → 0 ≤ o < PGSIZE →
    rd (k_mem s') (PTE2PA (leaf (k_mem s) root va') + o) = rd (k_mem s) (PTE2PA (leaf (k_mem s) root va') + o)
}.

(** Memory ran out: the process keeps every page with its mapping and bytes; walk may have
    linked a page of the free list into the page table, where it stays. *)
Record starved root (n : nat) s fl s' fl' : Prop := {
  st_space : user_space end_ root n s' fl';
  st_pages : upages (k_mem s') root 0 n = upages (k_mem s) root 0 n;
  st_perm : tables (k_mem s') root ++ fl' ≡ₚ tables (k_mem s) root ++ fl;
  st_hart : hart_same (k_hart s) (k_hart s');
  st_leaf va : 0 ≤ va < Z.of_nat n * PGSIZE ∨ TRAPFRAME ≤ va < MAXVA → leaf (k_mem s') root va = leaf (k_mem s) root va;
  st_bytes va o : 0 ≤ va < Z.of_nat n * PGSIZE → has (leaf (k_mem s) root va) PTE_V = true → 0 ≤ o < PGSIZE →
    rd (k_mem s') (PTE2PA (leaf (k_mem s) root va) + o) = rd (k_mem s) (PTE2PA (leaf (k_mem s) root va) + o)
}.

Lemma built_starved root n s fl s' fl' : user_space end_ root n s fl → built end_ root n s fl n s' fl' → starved root n s fl s' fl'.
Proof.
  intros Hu [Hu' Hp Hh Hf Ht Hk]. assert (upages (k_mem s') root 0 n = upages (k_mem s) root 0 n) as Hup by (apply upages_ext; intros; apply Hk; lia).
  split; [done|done| |done| |].
  - rewrite Hup in Hp. by apply Permutation_app_inv_l in Hp.
  - intros va [Hva|Hva]; [by apply Hk|by apply Ht].
  - intros va o Hva HV Ho. apply Hf. intros y Hy.
    apply (user_apart end_ root n s fl (PTE2PA (leaf (k_mem s) root va)) y); [done|by apply upages_elem|done|unfold in_page; lia].
Qed.

Lemma ismapped_run root n va s fl : user_space end_ root n s fl → 0 ≤ va < MAXVA →
  ismapped root va s = Ok (has (leaf (k_mem s) root va) PTE_V) s.
Proof.
  intros Hu Hva. unfold ismapped. rewrite (bind_Ok _ _ _ _ _ (walk_noalloc root va s ltac:(lia))). unfold leaf, leafv.
  destruct (lookup_pte 2 (k_mem s) root va) as [a|] eqn:E; cbn [default from_option id]; [|by rewrite has_0].
  pose proof (pte_addr_pos _ end_pos _ _ _ _ _ _ (us_twf _ _ _ _ _ Hu) E). by rewrite (proj2 (Z.eqb_neq a 0)) by lia.
Qed.

Lemma added_faulted root n j va p s1 fl2 s4 fl4 : user_space end_ root n s1 (p :: fl2) → (j < n)%nat → page_of va = Z.of_nat j →
  has (leaf (k_mem s1) root va) PTE_V = false → added end_ root j p fault_perm (λ _, 0) s1 fl2 s4 fl4 →
  faulted root n va p s1 (p :: fl2) s4 fl4.
Proof.
  intros Hu Hj Hpg HV Ha. pose proof (us_size _ _ _ _ _ Hu) as Hn. assert (TRAPFRAME = 2 ^ 38 - 8192 ∧ MAXVA = 2 ^ 38) as [ET EM] by done. rewrite ET in Hn.
  rewrite (leaf_page_of _ _ va (Z.of_nat j * PGSIZE)) in HV by (unfold page_of, PGSIZE in *; dlia).
  destruct (hole_filled end_ end_pos root n j p fault_perm _ s1 fl2 s4 fl4 Hu Hj ltac:(by vm_compute) HV Ha) as (Hu4 & Hup & Hpa).
  destruct Ha as [_ _ Hh4 Hp4 Hi4 Ho4 Hf4 Hb4 _]. rewrite EM in Ho4. unfold page_of, PGSIZE in Hpg.
  assert (leaf (k_mem s4) root va = mkpte p fault_perm) as El by (apply Hi4; unfold PGSIZE; dlia).
  split; [done| |done| | | |].
  - rewrite Hup, Hp4. cbn [app]. by rewrite !Permutation_middle.
  - unfold zero_page. rewrite El, Hpa. by split.
  - rewrite (walkaddr_run end_ end_pos root va s4 fl4) by first [apply Hu4|rewrite EM; unfold PGSIZE in *; dlia]. cbv zeta. rewrite El, Hpa, mkpte_V.
    pose proof (ki_pages _ _ _ (tw_kinv _ _ _ _ _ (us_twf _ _ _ _ _ Hu))) as H. apply Forall_cons in H as [Hpok _].
    destruct (page_ok_range _ end_pos _ Hpok) as (? & _ & ?).
    destruct (mkpte_ok p fault_perm ltac:(lia) ltac:(apply Hpok) ltac:(by vm_compute)) as (_ & _ & _ & Hperm). by rewrite (Hperm PTE_U) by by vm_compute.
  - rewrite EM. intros va' Hva' Hne. apply Ho4; [done|]. unfold page_of, PGSIZE in *. intros ?. apply Hne. dlia.
  - intros va' o Hva' HV' Ho. apply Hf4. intros y Hy.
    apply (user_apart end_ root n s1 (p :: fl2) (PTE2PA (leaf (k_mem s1) root va')) y); [done|by apply upages_elem|done|unfold in_page; lia].
Qed.

(** vmfault from the test of the mapping on. *)
Definition fault_tail (root a : Z) : M kst Z :=
  do b <- ismapped root a;
  if b : bool then ret 0
  else
    do mem <- kalloc;
    if mem =? 0 then ret 0
    else
      zoom kmem_mem (memset mem 0 PGSIZE) ;;
      do r <- mappages root a PGSIZE mem fault_perm;
      if negb (r =? 0) then kfree end_ mem ;; ret 0 else ret mem.

Definition fault_result root n va s fl (r : Z) s' : Prop :=
  (has (leaf (k_mem s) root va) PTE_V = true ∧ r = 0 ∧ s' = s) ∨
  (has (leaf (k_mem s) root va) PTE_V = false ∧ ∃ fl',
    (r ≠ 0 ∧ faulted root n va r s fl s' fl') ∨ (r = 0 ∧ (length fl < 3)%nat ∧ starved root n s fl s' fl')).

Lemma fault_tail_ok root n va s fl : user_space end_ root n s fl → 0 ≤ va < Z.of_nat n * PGSIZE →
  wp (fault_tail root (PGROUNDDOWN va)) (fault_result root n va s fl) s.
Proof.
  intros Hu Hva. pose proof (us_size _ _ _ _ _ Hu) as Hn. assert (TRAPFRAME = 2 ^ 38 - 8192 ∧ MAXVA = 2 ^ 38) as [ET EM] by done. rewrite ET in Hn.
  set (j := Z.to_nat (page_of va)). assert (Z.of_nat j = page_of va) as Ej by (unfold j, page_of, PGSIZE; dlia).
  assert (PGROUNDDOWN va = Z.of_nat j * PGSIZE) as -> by (rewrite PGROUNDDOWN_eq, Ej; unfold page_of, PGSIZE; dlia).
  assert ((j < n)%nat ∧ ∀ va', Z.of_nat j * PGSIZE ≤ va' < Z.of_nat j * PGSIZE + PGSIZE → page_of va' = page_of va) as [Hj Hpage].
  { unfold page_of, PGSIZE in *. split; [dlia|]. intros va' Hva'. dlia. }
  unfold fault_tail. wp_step. eapply wp_of_Ok; [apply (ismapped_run root n _ s fl Hu); rewrite EM; unfold PGSIZE in *; lia|].
  rewrite (leaf_page_of _ _ (Z.of_nat j * PGSIZE) va) by (apply Hpage; unfold PGSIZE; lia).
  destruct (has (leaf (k_mem s) root va) PTE_V) eqn:HV.
  { wp_step. by left. }
  apply (try_page end_ end_pos root n j fault_perm (λ _, 0) (λ mem, memset mem 0 PGSIZE) (ret 0) (λ mem, ret mem) _ s fl);
    [done|rewrite ET; unfold PGSIZE in *; lia|by vm_compute| | | |].
  - intros va' Hva'. by rewrite (leaf_page_of _ _ va' va) by (by apply Hpage).
  - intros p fl2 m -> Hm. wp_call memset_rd. by intros _ m' [_ Hm'].
  - intros s2 fl2 Hlt Hb. wp_step. right. split; [done|]. exists fl2. right. split_and!; [done|done|by apply built_starved].
  - intros p fl2 s4 fl4 -> Ha. wp_step. right. split; [done|]. exists fl4. left. split; [|by eapply added_faulted].
    pose proof (ki_pages _ _ _ (tw_kinv _ _ _ _ _ (us_twf _ _ _ _ _ Hu))) as H. apply Forall_cons in H as [Hpok _].
    destruct (page_ok_range _ end_pos _ Hpok) as (? & _ & _). lia.
Qed.

Lemma v_kl_bind {A B} (c : M kst A) (k : A → M kst B) (v : vst) : zoom v_kl (bind c k) v = bind (zoom v_kl c) (λ a, zoom v_kl (k a)) v.
Proof. unfold zoom, bind. cbn. by destruct (c (v_k v)). Qed.

Lemma v_kl_when {A} (b : bool) (c d : M kst A) v : zoom v_kl (if b then c else d) v = (if b then zoom v_kl c v else zoom v_kl d v).
Proof. by destruct b. Qed.

Lemma bind_ext {S A B} (c : M S A) (k k' : A → M S B) (v : S) : (∀ a v', k a v' = k' a v') → bind c k v = bind c k' v.
Proof. intros H. unfold bind. destruct (c v); [apply H|done]. Qed.

Lemma vmfault_tail u root va (v : vst) : p_pagetable u = root →
  (let va := PGROUNDDOWN va in
   do b <- zoom v_kl (ismapped root va);
   if b : bool then ret 0
   else
     do mem <- zoom v_kl kalloc;
     if mem =? 0 then ret 0
     else
       zoom v_kl (zoom kmem_mem (memset mem 0 PGSIZE)) ;;
       do r <- zoom v_kl (mappages (p_pagetable u) va PGSIZE mem (Z.lor (Z.lor PTE_W PTE_U) PTE_R));
       if negb (r =? 0) then zoom v_kl (kfree end_ mem) ;; ret 0 else ret mem) v = zoom v_kl (fault_tail root (PGROUNDDOWN va)) v.
Proof.
  intros ->. cbv zeta. unfold fault_tail. rewrite v_kl_bind. apply bind_ext. intros b v1. rewrite v_kl_when. destruct b; [by destruct v1|].
  rewrite v_kl_bind. apply bind_ext. intros m v2. rewrite v_kl_when. destruct (m =? 0); [by destruct v2|].
  rewrite v_kl_bind. apply bind_ext. intros x v3. rewrite v_kl_bind. apply bind_ext. intros r v4. rewrite v_kl_when.
  destruct (negb (r =? 0)); [|by destruct v4]. rewrite v_kl_bind. apply bind_ext. intros [] v5. by destruct v5.
Qed.

Lemma curproc_run (v : vst) i u : hart_ok (k_hart (v_k v)) → cpu_proc (cur (k_hart (v_k v))) = Some i → v_procs v !! i = Some u →
  curproc v = Ok u (over v_hart (sync (k_hart (v_k v))) v).
Proof.
  intros Hh Hc Hu. unfold curproc, bind, zoom. cbn [view over v_hart]. rewrite myproc_run by done. rewrite Hc. cbn. by rewrite Hu.
Qed.

(** C12: vmfault. At an address below the size of the process whose page is not mapped, a
    page of zeros from the free list is mapped there, readable and writable, the
    address translates to it, and every other page of the process keeps its
    mapping and its bytes. An address past the size of the process, and one that is mapped,
    give 0, and memory and the free list are exactly as before. With fewer than three
    free pages the result can be 0 too: the process keeps every page with its mapping
    and its bytes, but a page that walk had put into the page table stays there. No page is
    lost in any of the cases. *)
Theorem vmfault_fills (v : vst) i u n fl va :
  cpu_proc (cur (k_hart (v_k v))) = Some i → v_procs v !! i = Some u → user_space end_ (p_pagetable u) n (v_k v) fl →
  0 ≤ p_sz u ≤ TRAPFRAME → PGROUNDUP (p_sz u) = Z.of_nat n * PGSIZE → 0 ≤ va →
  wp (vmfault end_ (p_pagetable u) va) (λ r v', v_procs v' = v_procs v ∧
    let mapped := has (leaf (k_mem (v_k v)) (p_pagetable u) va) PTE_V in
    ((p_sz u ≤ va ∨ mapped = true) ∧ r = 0 ∧ v' = over v_hart (sync (k_hart (v_k v))) v) ∨
    (va < p_sz u ∧ mapped = false ∧ ∃ fl',
      (r ≠ 0 ∧ faulted (p_pagetable u) n va r (v_k v) fl (v_k v') fl') ∨
      (r = 0 ∧ (length fl < 3)%nat ∧ starved (p_pagetable u) n (v_k v) fl (v_k v') fl'))) v.
Proof.
  intros Hc Hi Hu Hsz Hn Hva. pose proof (ki_hart _ _ _ (tw_kinv _ _ _ _ _ (us_twf _ _ _ _ _ Hu))) as Hok. unfold vmfault.
  wp_step. eapply wp_of_Ok; [by apply (curproc_run v i u)|]. set (k1 := Kst (sync (k_hart (v_k v))) (k_lock (v_k v)) (freelist (v_k v)) (k_mem (v_k v))).
  change (over v_hart (sync (k_hart (v_k v))) v) with (Vst k1 (v_procs v)).
  assert (user_space end_ (p_pagetable u) n k1 fl) as Hu1.
  { destruct Hu as [[[? ? ? ? ?] ? ?] ? ? ? ?]. split; [|done..]. split; [|done..]. split; [by apply sync_ok|done..]. }
  assert (hart_same (k_hart (v_k v)) (k_hart k1)) as Hs by (cbn; auto with hart). cbv zeta.
  match goal with |- wp _ ?P _ => set (Q := P) end. destruct (Z.leb_spec (p_sz u) va) as [Hle|Hlt].
  { wp_step. split; [done|]. left. split_and!; [by left|done|done]. }
  unfold wp. rewrite vmfault_tail by done. change (wp (zoom v_kl (fault_tail (p_pagetable u) (PGROUNDDOWN va))) Q (Vst k1 (v_procs v))).
  wp_step. wp_call (fault_tail_ok (p_pagetable u) n va k1 fl Hu1).
  { change TRAPFRAME with (2 ^ 38 - 8192) in Hsz. rewrite PGROUNDUP_eq in Hn by (unfold PGSIZE; lia). unfold PGSIZE in *. dlia. }
  intros r k' [(HV & -> & ->)|(HV & fl' & H)]; (split; [done|]); [left; split_and!; [by right|done|done]|]. right. split_and!; [done|done|]. exists fl'.
  destruct H as [(Hr & [? ? ? ? ? ? ?])|(-> & Hlen & [? ? ? ? ? ?])].
  - left. split; [done|]. split; [done|done|by eapply hart_same_trans|done|done|done|done].
  - right. split_and!; [done|done|]. split; [done|done|done|by eapply hart_same_trans|done|done].
Qed.
End fault.

(** Process 3 is running, with one page of memory below its size of three pages. *)
Definition demo_fault : vst := Vst demo_fork (replicate 3 (Uproc 0 0) ++ [Uproc 12288 0x87fff000]).

Lemma vmfault_fills_witness :
  wp (vmfault 0x87ff8000 0x87fff000 5000) (λ r v', r ≠ 0 ∧ walkaddr 0x87fff000 5000 (v_k v') = Ok r (v_k v')) demo_fault.
Proof.
  destruct (lazy_resized 0x87ff8000 0x87fff000 1 3 demo_fork demo_fork_free) as [[Hu _ _ _ _] Hz];
    [lia|by vm_compute|apply demo_fork_apart|].
  eapply wp_mono; [apply (vmfault_fills 0x87ff8000 ltac:(done) demo_fault 3 (Uproc 12288 0x87fff000) 3 demo_fork_free 5000)|].
  - reflexivity.
  - reflexivity.
  - exact Hu.
  - by vm_compute.
  - by vm_compute.
  - done.
  - assert (has (leaf (k_mem (v_k demo_fault)) 0x87fff000 5000) PTE_V = false) as HV by (apply Hz; unfold PGSIZE; lia).
    intros r v' (_ & [([H|H] & _)|(_ & _ & fl' & [(Hr & Hf)|(_ & H & _)])]).
    + cbn in H. lia.
    + cbn [p_pagetable] in H. by rewrite HV in H.
    + split; [done|apply Hf].
    + cbn in H. lia.
Defined.
