(* ===== verification/Sched.v ===== *)
(** * kernel/proc.c: the process table, sleep, wakeup, sched and kill

    The part of proc.c that other components call. [pst] is the executing hart
    and the process table; [struct proc *] is an index of the table. swtch()
    leaves for the scheduler: for the running thread that is the outcome
    [Slept], with the state left at that point. The code after the switch is
    kept in the definitions, and [sleep_resume] is what a woken thread runs. *)
From S2P Require Import Prelude Memory Riscv Spinlock.

(** ** Data *)
Inductive procstate : Type := UNUSED | USED | SLEEPING | RUNNABLE | RUNNING | ZOMBIE.
#[export] Instance procstate_eq_dec : EqDecision procstate.
Proof. solve_decision. Defined.

(** Sleep channels: the kernel addresses threads sleep on. *)
Inductive chan : Type :=
| ChBufLock (i : nat)      (* &bcache.buf[i].lock *)
| ChInodeLock (i : nat)    (* &itable.inode[i].lock *)
| ChLog                    (* &log *)
| ChPipeRead (pi : Z)    (* &pi->nread *)
| ChPipeWrite (pi : Z)   (* &pi->nwrite *)
| ChProc (i : nat)         (* &proc[i] *)
| ChTicks                  (* &ticks *)
| ChBuf (i : nat)          (* &bcache.buf[i] *)
| ChDiskFree.              (* &disk.free[0] *)
#[export] Instance chan_eq_dec : EqDecision chan.
Proof. solve_decision. Defined.

(** struct proc, by the lock that protects the fields. *)
Record ppub : Type := Ppub {
  p_state : procstate;
  p_chan : option chan;      (* None is the null pointer *)
  p_killed : Z;
  p_xstate : Z;
  p_pid : Z
}.
Record ppriv : Type := Ppriv {
  p_kstack : Z;
  p_size : Z;                (* p->sz *)
  p_pgtbl : Z;               (* p->pagetable *)
  p_trapframe : Z;
  p_context : list Z;        (* ra, sp, s0 .. s11 *)
  p_ofile : list (option nat);
  p_cwd : option nat;
  p_name : list Z
}.
Record proc : Type := Proc {
  p_lock : spinlock;
  p_pub : ppub;
  p_parent : option nat;
  p_priv : ppriv
}.

Definition proc0 : proc :=
  Proc (Spin 0 "" None) (Ppub UNUSED None 0 0 0) None
       (Ppriv 0 0 0 0 (replicate 14 0) (replicate (Z.to_nat NOFILE) None) None (replicate 16 0)).
#[export] Instance proc_inhabited : Inhabited proc := populate proc0.

Record pst : Type := Pst { p_hart : hart; procs : list proc }.

Definition hart_of : lens pst hart := Lens p_hart (λ h s, Pst h (procs s)).
Definition proc_lk (i : nat) : lens pst lockst :=
  Lens (λ s, (p_hart s, p_lock (procs s !!! i)))
       (λ t s, Pst t.1 (alter (λ p, Proc t.2 (p_pub p) (p_parent p) (p_priv p)) i (procs s))).
Definition set_pub (i : nat) (f : ppub → ppub) : M pst unit :=
  modify (λ s, Pst (p_hart s)
    (alter (λ p, Proc (p_lock p) (f (p_pub p)) (p_parent p) (p_priv p)) i (procs s))).
Definition pub (i : nat) (s : pst) : ppub := p_pub (procs s !!! i).

Definition with_state (st : procstate) (p : ppub) : ppub :=
  Ppub st (p_chan p) (p_killed p) (p_xstate p) (p_pid p).
Definition with_chan (c : option chan) (p : ppub) : ppub :=
  Ppub (p_state p) c (p_killed p) (p_xstate p) (p_pid p).
Definition with_killed (k : Z) (p : ppub) : ppub :=
  Ppub (p_state p) (p_chan p) k (p_xstate p) (p_pid p).

(** The slots of the process table. *)
Definition slots : list nat := seq 0 (Z.to_nat NPROC).

(** [myproc()] where the code uses the result as a process. *)
Definition me : M pst nat := do o <- zoom hart_of myproc; of_option o.

(** ** Operations *)

(** swtch(&p->context, &mycpu()->context): control leaves this thread. *)
Definition swtch : M pst unit := halt Slept.

Definition sched : M pst unit :=
  do p <- me;
  do h <- zoom (proc_lk p) holding;
  if negb h then panic "sched p->lock"
  else
    do c <- zoom hart_of mycpu;
    if negb (noff c =? 1) then panic "sched locks"
    else
      do s <- get;
      if bool_decide (p_state (pub p s) = RUNNING) then panic "sched RUNNING"
      else if intr_get (p_hart s) then panic "sched interruptible"
      else
        do c <- zoom hart_of mycpu;
        let intena := intena c in
        swtch ;;
        zoom hart_of (set_mycpu (λ c, Cpu (cpu_proc c) (noff c) intena)).

Definition yield : M pst unit :=
  do p <- me;
  zoom (proc_lk p) acquire ;;
  set_pub p (with_state RUNNABLE) ;;
  sched ;;
  zoom (proc_lk p) release.

(** sleep runs on the table and the condition lock [lk]. *)
Definition slst : Type := (pst * spinlock)%type.
Definition sl_pst : lens slst pst := Lens fst (λ t s, (t, s.2)).
Definition sl_lk : lens slst lockst :=
  Lens (λ s, (p_hart s.1, s.2)) (λ t s, (Pst t.1 (procs s.1), t.2)).

(** sleep up to its call of sched. *)
Definition sleep_enter (ch : chan) : M slst nat :=
  do p <- zoom sl_pst me;
  zoom sl_pst (zoom (proc_lk p) acquire) ;;
  zoom sl_lk release ;;
  zoom sl_pst (set_pub p (with_chan (Some ch))) ;;
  zoom sl_pst (set_pub p (with_state SLEEPING)) ;;
  ret p.

(** sleep after sched has returned. *)
Definition sleep_resume (p : nat) : M slst unit :=
  zoom sl_pst (set_pub p (with_chan None)) ;;
  zoom sl_pst (zoom (proc_lk p) release) ;;
  zoom sl_lk acquire.

Definition sleep (ch : chan) : M slst unit :=
  do p <- sleep_enter ch;
  zoom sl_pst sched ;;
  sleep_resume p.

(** [while(test) sleep(...)]. A call of sleep leaves the thread, so at most one
    iteration runs: fuel 1 is enough. *)
Definition while_sleep {S} (test : M S bool) (slp : M S unit) : M S unit :=
  loop 1 (λ _, do b <- test; if b : bool then slp ;; ret (inl tt) else ret (inr tt)) tt.

(** The body of wakeup for slot [i]. *)
Definition wakeup_slot (ch : chan) (i : nat) : M pst unit :=
  do m <- zoom hart_of myproc;
  if bool_decide (m = Some i) then ret tt
  else
    zoom (proc_lk i) acquire ;;
    do s <- get;
    when (bool_decide (p_state (pub i s) = SLEEPING) && bool_decide (p_chan (pub i s) = Some ch))
      (set_pub i (with_state RUNNABLE)) ;;
    zoom (proc_lk i) release.

Definition wakeup (ch : chan) : M pst unit := each slots (wakeup_slot ch).

Definition kkill (pid : Z) : M pst Z :=
  do r <- first slots (λ i,
    zoom (proc_lk i) acquire ;;
    do s <- get;
    if p_pid (pub i s) =? pid then
      set_pub i (with_killed 1) ;;
      when (bool_decide (p_state (pub i s) = SLEEPING)) (set_pub i (with_state RUNNABLE)) ;;
      zoom (proc_lk i) release ;;
      ret (Some 0)
    else
      zoom (proc_lk i) release ;;
      ret None);
  ret (default (-1) r).

Definition setkilled (p : nat) : M pst unit :=
  zoom (proc_lk p) acquire ;;
  set_pub p (with_killed 1) ;;
  zoom (proc_lk p) release.

Definition killed (p : nat) : M pst Z :=
  zoom (proc_lk p) acquire ;;
  do k <- gets (λ s, p_killed (pub p s));
  zoom (proc_lk p) release ;;
  ret k.

(** ** Well-formed tables *)

(** Between kernel operations no p->lock is held and a process runs. *)
Record pst_ok (s : pst) : Prop := {
  ps_hart : hart_ok (p_hart s);
  ps_len : length (procs s) = Z.to_nat NPROC;
  ps_locks : Forall (λ p, lock_free (p_lock p)) (procs s)
}.

(** The running process. *)
Definition running (s : pst) (p : nat) : Prop :=
  cpu_proc (cur (p_hart s)) = Some p ∧ (p < length (procs s))%nat.

(** A wakeup of some channels: sleeping processes became runnable. *)
Definition pub_awake (p p' : ppub) : Prop :=
  p' = p ∨ p_state p = SLEEPING ∧ p' = with_state RUNNABLE p.
Definition proc_awake (p p' : proc) : Prop :=
  p_lock p' = p_lock p ∧ p_parent p' = p_parent p ∧ p_priv p' = p_priv p ∧
  pub_awake (p_pub p) (p_pub p').

(** What calls of the operations below leave of a table: the same processes,
    some awake, on the same hart; the running process is untouched. *)
Record pst_same (s s' : pst) : Prop := {
  pm_hart : hart_same (p_hart s) (p_hart s');
  pm_procs : Forall2 proc_awake (procs s) (procs s');
  pm_run i : cpu_proc (cur (p_hart s)) = Some i → procs s' !! i = procs s !! i
}.

Section same.
Implicit Types s : pst.

Lemma proc_awake_refl p : proc_awake p p.
Proof. repeat split. by left. Qed.

Lemma proc_awake_trans p q r : proc_awake p q → proc_awake q r → proc_awake p r.
Proof.
  intros (? & ? & ? & Hpq) (? & ? & ? & Hqr). repeat split; try congruence.
  unfold pub_awake in *.
  destruct Hpq as [Hpq|[Hs Hpq]]; rewrite Hpq in Hqr; [done|].
  destruct Hqr as [Hqr|[Hs' _]]; [by right|done].
Qed.

Lemma pst_same_refl s : pst_same s s.
Proof.
  split; [auto with hart| |done].
  apply Forall2_same_length_lookup_2; [done|]. intros i x y Hx Hy. simplify_eq.
  apply proc_awake_refl.
Qed.

Lemma pst_same_hart s h : hart_same (p_hart s) h → pst_same s (Pst h (procs s)).
Proof. intros H. split; [done|apply (pm_procs _ _ (pst_same_refl s))|done]. Qed.

Lemma pst_same_ok s s' : pst_ok s → pst_same s s' → pst_ok s'.
Proof.
  intros [Hh Hl Hk] [Hs Hp _]. split.
  - by eapply hart_same_ok.
  - by rewrite <- (Forall2_length _ _ _ Hp).
  - apply Forall_lookup. intros i p' Hi.
    destruct (Forall2_lookup_r _ _ _ _ _ Hp Hi) as (p & Hp' & (E & _)).
    rewrite E. by apply (proj1 (Forall_lookup _ _) Hk i).
Qed.

Lemma pst_same_trans s s' s'' : pst_ok s → pst_same s s' → pst_same s' s'' → pst_same s s''.
Proof.
  intros Hok [Hh Hp Hr] [Hh' Hp' Hr']. split.
  - eapply hart_same_trans; [apply Hok|done|done].
  - eapply Forall2_trans; [|exact Hp|exact Hp']. apply proc_awake_trans.
  - intros i Hi. rewrite Hr'; [by apply Hr|].
    by rewrite (proj1 (hart_same_proc _ _ (ps_hart _ Hok) Hh)).
Qed.

Lemma pst_same_running s s' p : pst_ok s → pst_same s s' → running s p → running s' p.
Proof.
  intros Hok Hs [Hc Hl]. split.
  - by rewrite (proj1 (hart_same_proc _ _ (ps_hart _ Hok) (pm_hart _ _ Hs))).
  - by rewrite <- (Forall2_length _ _ _ (pm_procs _ _ Hs)).
Qed.

Lemma pst_same_me s s' p : pst_ok s → pst_same s s' → running s p → procs s' !!! p = procs s !!! p.
Proof.
  intros Hok Hs [Hc Hl]. rewrite !list_lookup_total_alt. by rewrite (pm_run _ _ Hs).
Qed.
End same.

(** ** One slot *)
Section slot.
Implicit Types (s : pst) (h : hart) (l : list proc).

Lemma slot_acquire s i p :
  pst_ok s → procs s !! i = Some p →
  zoom (proc_lk i) acquire s =
    Ok tt (Pst (push (p_hart s))
      (<[i := Proc (held (p_lock p) (tp (p_hart s))) (p_pub p) (p_parent p) (p_priv p)]> (procs s))).
Proof.
  intros Hok Hi. unfold zoom. cbn. rewrite (list_lookup_total_correct _ _ _ Hi).
  rewrite acquire_run; [|apply Hok|by apply (proj1 (Forall_lookup _ _) (ps_locks _ Hok) i)].
  cbn. by rewrite (list_alter_at _ _ _ p).
Qed.

Lemma slot_release h l i lk a b c :
  hart_ok h → lock_free lk → (i < length l)%nat →
  zoom (proc_lk i) release (Pst (push h) (<[i := Proc (held lk (tp h)) a b c]> l)) =
    Ok tt (Pst (sync h) (<[i := Proc lk a b c]> l)).
Proof.
  intros Hh Hl Hi. unfold zoom. cbn. rewrite list_lookup_total_insert_eq by done. cbn.
  rewrite release_run by done. cbn.
  erewrite list_alter_at; [|by apply list_lookup_insert_eq]. by rewrite list_insert_insert_eq.
Qed.

Lemma set_pub_at h l i lk a b c f :
  (i < length l)%nat →
  set_pub i f (Pst h (<[i := Proc lk a b c]> l)) = Ok tt (Pst h (<[i := Proc lk (f a) b c]> l)).
Proof.
  intros Hi. unfold set_pub, modify. cbn.
  erewrite list_alter_at; [|by apply list_lookup_insert_eq]. by rewrite list_insert_insert_eq.
Qed.

Lemma pub_at h l i p : (i < length l)%nat → pub i (Pst h (<[i := p]> l)) = p_pub p.
Proof. intros Hi. unfold pub. cbn. by rewrite list_lookup_total_insert_eq. Qed.

(** A critical section on p->lock that changes the public fields by [f]. *)
Lemma slot_update s i p f :
  pst_ok s → procs s !! i = Some p →
  (zoom (proc_lk i) acquire ;; set_pub i f ;; zoom (proc_lk i) release) s =
    Ok tt (Pst (sync (p_hart s)) (<[i := Proc (p_lock p) (f (p_pub p)) (p_parent p) (p_priv p)]> (procs s))).
Proof.
  intros Hok Hi. pose proof (lookup_lt_Some _ _ _ Hi) as Hl.
  rewrite (bind_Ok _ _ _ _ _ (slot_acquire s i p Hok Hi)).
  rewrite (bind_Ok _ _ _ _ _ (set_pub_at _ _ _ _ _ _ _ _ Hl)).
  apply slot_release; [apply Hok|by apply (proj1 (Forall_lookup _ _) (ps_locks _ Hok) i)|done].
Qed.

Lemma proc_eta p : Proc (p_lock p) (p_pub p) (p_parent p) (p_priv p) = p.
Proof. by destruct p. Qed.

Lemma me_run s p : pst_ok s → running s p → me s = Ok p (Pst (sync (p_hart s)) (procs s)).
Proof.
  intros Hok [Hc _]. unfold me, bind, zoom. cbn. rewrite myproc_run by apply Hok.
  cbn. by rewrite Hc.
Qed.

Lemma killed_run s i p :
  pst_ok s → procs s !! i = Some p →
  killed i s = Ok (p_killed (p_pub p)) (Pst (sync (p_hart s)) (procs s)).
Proof.
  intros Hok Hi. pose proof (lookup_lt_Some _ _ _ Hi) as Hl. unfold killed.
  rewrite (bind_Ok _ _ _ _ _ (slot_acquire s i p Hok Hi)).
  unfold bind at 1, gets at 1. rewrite pub_at by done.
  erewrite bind_Ok; [|apply slot_release; [apply Hok|by apply (proj1 (Forall_lookup _ _) (ps_locks _ Hok) i)|done]].
  rewrite proc_eta, list_insert_id by done. done.
Qed.

(** wakeup of one slot. *)
Definition wake (ch : chan) (p : ppub) : ppub :=
  if bool_decide (p_state p = SLEEPING) && bool_decide (p_chan p = Some ch)
  then with_state RUNNABLE p else p.
Definition wake_proc (ch : chan) (p : proc) : proc :=
  Proc (p_lock p) (wake ch (p_pub p)) (p_parent p) (p_priv p).

Lemma wake_awake ch p : proc_awake p (wake_proc ch p).
Proof.
  repeat split. unfold pub_awake. cbn. unfold wake.
  destruct (bool_decide (_ = SLEEPING)) eqn:E; cbn; [|by left].
  case_match; [|by left]. right. by apply bool_decide_eq_true in E.
Qed.

Lemma pst_ok_sync s : pst_ok s → pst_ok (Pst (sync (p_hart s)) (procs s)).
Proof. intros H. eapply pst_same_ok; [done|]. apply pst_same_hart. auto with hart. Qed.

Lemma wakeup_slot_run s ch i p :
  pst_ok s → procs s !! i = Some p →
  wakeup_slot ch i s = Ok tt (Pst (sync (p_hart s))
    (if bool_decide (cpu_proc (cur (p_hart s)) = Some i) then procs s
     else <[i := wake_proc ch p]> (procs s))).
Proof.
  intros Hok Hi. pose proof (lookup_lt_Some _ _ _ Hi) as Hl. unfold wakeup_slot.
  unfold bind at 1, zoom at 1. cbn. rewrite myproc_run by apply Hok. cbn.
  case_bool_decide as E; [done|].
  pose proof (pst_ok_sync s Hok) as Hok'.
  rewrite (bind_Ok _ _ _ _ _ (slot_acquire (Pst (sync (p_hart s)) (procs s)) i p Hok' Hi)).
  unfold bind at 1, get at 1. rewrite pub_at by done. cbn [p_pub p_hart procs].
  pose proof (proj1 (Forall_lookup _ _) (ps_locks _ Hok) i p Hi) as Hlk. cbn in Hlk.
  unfold wake_proc, wake. unfold when. destruct (_ && _).
  - rewrite (bind_Ok _ _ _ _ _ (set_pub_at _ _ _ _ _ _ _ _ Hl)).
    rewrite slot_release by (done || apply Hok'). by rewrite sync_sync by apply Hok.
  - unfold bind at 1, ret at 1. rewrite slot_release by (done || apply Hok').
    by rewrite sync_sync by apply Hok.
Qed.
End slot.

(** ** wakeup *)

(** What wakeup(ch) does to slot [j], when [m] is the running process. *)
Definition wake_at (ch : chan) (m : option nat) (j : nat) (p : proc) : proc :=
  if bool_decide (m = Some j) then p else wake_proc ch p.

Lemma while_sleep_skip {S} (test : M S bool) slp s s' :
  test s = Ok false s' → while_sleep test slp s = Ok tt s'.
Proof. intros H. unfold while_sleep. cbn. unfold bind. by rewrite H. Qed.

Lemma while_sleep_halt {S} (test : M S bool) slp s s' f s'' :
  test s = Ok true s' → slp s' = Halt f s'' → while_sleep test slp s = Halt f s''.
Proof. intros H H'. unfold while_sleep. cbn. unfold bind. by rewrite H, H'. Qed.

Section wakeup.
Implicit Types (s : pst).

Lemma sync_hart_proc s : pst_ok s → cpu_proc (cur (sync (p_hart s))) = cpu_proc (cur (p_hart s)).
Proof. intros Hok. by rewrite cur_sync by apply Hok. Qed.

(** wakeup makes runnable exactly the other processes asleep on [ch]. *)
Lemma wakeup_run s ch :
  pst_ok s →
  wp (wakeup ch) (λ _ s', p_hart s' = sync (p_hart s) ∧
    procs s' = imap (wake_at ch (cpu_proc (cur (p_hart s)))) (procs s)) s.
Proof.
  intros Hok. unfold wakeup. set (m := cpu_proc (cur (p_hart s))).
  wp_call (wp_each_ind slots (wakeup_slot ch) (λ vis s',
    pst_ok s' ∧ (p_hart s' = p_hart s ∧ vis = [] ∨ p_hart s' = sync (p_hart s)) ∧
    ∀ j, procs s' !! j = (if decide (j ∈ vis) then wake_at ch m j else id) <$> procs s !! j)).
  - split_and!; [done|auto|]. intros j. rewrite decide_False by set_solver. by destruct (_ !! _).
  - intros pre i post s' Hsl (Hok' & Hh & Hp).
    apply seq_split in Hsl as [Hi ->]. rewrite <- (ps_len _ Hok) in Hi.
    assert (i ∉ seq 0 i) as Hnin by (rewrite elem_of_seq; lia).
    destruct (lookup_lt_is_Some_2 _ _ Hi) as [p Hpi].
    assert (procs s' !! i = Some p) as Hpi' by (rewrite Hp, decide_False, Hpi by done; done).
    assert (cpu_proc (cur (p_hart s')) = m) as Hm.
    { destruct Hh as [[-> _]| ->]; [done|by apply sync_hart_proc]. }
    eapply wp_of_Ok; [by apply wakeup_slot_run|]. rewrite Hm.
    assert (hart_same (p_hart s') (sync (p_hart s'))) as Hhs by auto with hart.
    split_and!.
    + eapply pst_same_ok; [exact Hok'|]. split; [done| |].
      * cbn. case_bool_decide; [apply (pm_procs _ _ (pst_same_refl _))|].
        rewrite <- (list_insert_id (procs s') i p) at 1 by done.
        apply Forall2_insert; [apply (pm_procs _ _ (pst_same_refl _))|apply wake_awake].
      * cbn. rewrite Hm. intros k Hk. case_bool_decide; [done|].
        rewrite list_lookup_insert_ne; [done|congruence].
    + right. destruct Hh as [[-> _]| ->]; [done|]. cbn. by rewrite sync_sync by apply Hok.
    + cbn. intros j. destruct (decide (j = i)) as [->|Hne].
      * rewrite decide_True by set_solver. rewrite Hpi. cbn. unfold wake_at.
        case_bool_decide; [done|]. rewrite list_lookup_insert_eq; [done|].
        by apply lookup_lt_Some in Hpi'.
      * assert ((if bool_decide (m = Some i) then procs s' else <[i:=wake_proc ch p]> (procs s')) !! j
                = procs s' !! j) as -> by (case_bool_decide; [done|by rewrite list_lookup_insert_ne]).
        rewrite Hp. destruct (decide (j ∈ seq 0 i)); [rewrite decide_True by set_solver|rewrite decide_False by set_solver]; done.
  - intros _ s' (Hok' & Hh & Hp). split.
    + by destruct Hh as [[_ ?]|?].
    + apply list_eq. intros j. rewrite Hp, list_lookup_imap. destruct (procs s !! j) as [p|] eqn:E; [|done].
      cbn. rewrite decide_True; [done|]. apply elem_of_seq. apply lookup_lt_Some in E.
      rewrite (ps_len _ Hok) in E. lia.
Qed.

Lemma wakeup_same s ch :
  pst_ok s → wp (wakeup ch) (λ _ s', pst_same s s') s.
Proof.
  intros Hok. wp_call wakeup_run; [done|]. intros _ s' [Hh Hp]. split.
  - rewrite Hh. auto with hart.
  - rewrite Hp. apply Forall2_same_length_lookup_2; [by rewrite length_imap|].
    intros i p p' Hi. rewrite list_lookup_imap, Hi. intros [= <-]. unfold wake_at.
    case_bool_decide; [apply proc_awake_refl|apply wake_awake].
  - intros i Hi. rewrite Hp, list_lookup_imap, Hi. unfold wake_at. rewrite bool_decide_true by done.
    by destruct (procs s !! i).
Qed.
End wakeup.

(** ** sched, sleep and yield *)
Section sleep.
Implicit Types (s : pst) (h : hart).

Lemma me_push h l p :
  hart_ok h → cpu_proc (cur h) = Some p → me (Pst (push h) l) = Ok p (Pst (push h) l).
Proof.
  intros Hh Hc. unfold me, bind, zoom. cbn. rewrite myproc_run by auto with hart. cbn.
  rewrite cur_push by done. cbn. by rewrite Hc, sync_push.
Qed.

Lemma slot_holding h l p lk a b c :
  (p < length l)%nat →
  zoom (proc_lk p) holding (Pst h (<[p := Proc (held lk (tp h)) a b c]> l)) =
    Ok true (Pst h (<[p := Proc (held lk (tp h)) a b c]> l)).
Proof.
  intros Hp. unfold holding, zoom, bind, cpuid, gets. cbn.
  rewrite list_lookup_total_insert_eq by done. cbn. rewrite bool_decide_true by done.
  erewrite list_alter_at by (by apply list_lookup_insert_eq). by rewrite list_insert_insert_eq.
Qed.

Lemma zoom_mycpu s : hart_ok (p_hart s) → zoom hart_of mycpu s = Ok (cur (p_hart s)) s.
Proof. intros H. unfold zoom. cbn. rewrite mycpu_run by done. by destruct s. Qed.

(** A running thread that holds only p->lock and has left RUNNING switches. *)
Lemma sched_run h l p lk a b c :
  hart_ok h → noff (cur h) = 0 → cpu_proc (cur h) = Some p → (p < length l)%nat →
  p_state a ≠ RUNNING →
  sched (Pst (push h) (<[p := Proc (held lk (tp h)) a b c]> l)) =
    Halt Slept (Pst (push h) (<[p := Proc (held lk (tp h)) a b c]> l)).
Proof.
  intros Hh Hn Hc Hp Hr. unfold sched. rewrite (bind_Ok _ _ _ _ _ (me_push h _ p Hh Hc)).
  rewrite (bind_Ok _ _ _ _ _ (slot_holding (push h) l p lk a b c Hp)). cbn [negb].
  rewrite (bind_Ok _ _ _ _ _ (zoom_mycpu (Pst (push h) _) (push_ok h Hh))). cbn [p_hart].
  rewrite cur_push by done. cbn [noff]. rewrite Hn. change (negb (0 + 1 =? 1)) with false. cbn iota.
  rewrite (bind_Ok get _ _ _ _ eq_refl), pub_at by done. cbn [p_pub].
  rewrite bool_decide_false by done. cbn [p_hart]. rewrite intr_push.
  by rewrite (bind_Ok _ _ _ _ _ (zoom_mycpu (Pst (push h) _) (push_ok h Hh))).
Qed.

(** sleep(ch, lk) by the running process [p]: before it switches away the
    process is SLEEPING on [ch] with its own lock held, and [lk] is free again. *)
Lemma sleep_enter_run s ch lk p q :
  pst_ok s → cpu_proc (cur (p_hart s)) = Some p → procs s !! p = Some q → lock_free lk →
  sleep_enter ch (Pst (push (p_hart s)) (procs s), held lk (tp (p_hart s))) =
    Ok p (Pst (push (p_hart s))
      (<[p := Proc (held (p_lock q) (tp (p_hart s)))
                (with_state SLEEPING (with_chan (Some ch) (p_pub q))) (p_parent q) (p_priv q)]>
         (procs s)), lk).
Proof.
  intros Hok Hc Hq Hlk. set (h := p_hart s) in *. pose proof (lookup_lt_Some _ _ _ Hq) as Hp.
  assert (hart_ok h) as Hh by apply Hok. pose proof (push_ok h Hh) as Hh1.
  set (s1 := Pst (push h) (procs s)).
  assert (pst_ok s1) as Hok1 by (split; [done|apply Hok|apply Hok]).
  pose proof (me_push h (procs s) p Hh Hc) as Hme. fold s1 in Hme. unfold sleep_enter.
  rewrite (bind_Ok _ _ (s1, _) _ _ (zoom_Ok sl_pst me (s1, _) _ _ Hme)).
  erewrite bind_Ok; [|by apply zoom_Ok, (slot_acquire s1 p q)].
  erewrite bind_Ok; [|by apply zoom_Ok, (release_run (push h) lk)].
  erewrite bind_Ok; [|by apply zoom_Ok, set_pub_at].
  erewrite bind_Ok; [|by apply zoom_Ok, set_pub_at].
  unfold ret. cbn. by rewrite sync_push.
Qed.

Lemma sleep_run s ch lk p q :
  pst_ok s → cpu_proc (cur (p_hart s)) = Some p → procs s !! p = Some q → lock_free lk →
  noff (cur (p_hart s)) = 0 →
  sleep ch (Pst (push (p_hart s)) (procs s), held lk (tp (p_hart s))) =
    Halt Slept (Pst (push (p_hart s))
      (<[p := Proc (held (p_lock q) (tp (p_hart s)))
                (with_state SLEEPING (with_chan (Some ch) (p_pub q))) (p_parent q) (p_priv q)]>
         (procs s)), lk).
Proof.
  intros Hok Hc Hq Hlk Hn. unfold sleep.
  rewrite (bind_Ok _ _ _ _ _ (sleep_enter_run s ch lk p q Hok Hc Hq Hlk)).
  erewrite bind_Halt; [|apply zoom_Halt, sched_run]; try done.
  - apply Hok.
  - by eapply lookup_lt_Some.
Qed.

(** Going to sleep with another lock held is caught. *)
Lemma sched_locks h l p lk a b c :
  hart_ok h → 0 < noff (cur h) → cpu_proc (cur h) = Some p → (p < length l)%nat →
  faults sched (Pst (push h) (<[p := Proc (held lk (tp h)) a b c]> l)) (Panicked "sched locks").
Proof.
  intros Hh Hn Hc Hp. unfold faults, sched. rewrite (bind_Ok _ _ _ _ _ (me_push h _ p Hh Hc)).
  rewrite (bind_Ok _ _ _ _ _ (slot_holding (push h) l p lk a b c Hp)). cbn [negb].
  rewrite (bind_Ok _ _ _ _ _ (zoom_mycpu (Pst (push h) _) (push_ok h Hh))). cbn [p_hart].
  rewrite cur_push by done. cbn [noff].
  by rewrite (proj2 (Z.eqb_neq (noff (cur h) + 1) 1)) by lia.
Qed.
End sleep.

(** ** kill *)
Definition kill_pub (p : ppub) : ppub :=
  with_killed 1 (if bool_decide (p_state p = SLEEPING) then with_state RUNNABLE p else p).
Definition kill_proc (p : proc) : proc :=
  Proc (p_lock p) (kill_pub (p_pub p)) (p_parent p) (p_priv p).

(** The slot kill(pid) acts on. *)
Definition pid_slot (pid : Z) (l : list proc) (i : nat) : Prop :=
  (∃ p, l !! i = Some p ∧ p_pid (p_pub p) = pid) ∧
  ∀ j p, (j < i)%nat → l !! j = Some p → p_pid (p_pub p) ≠ pid.

(** The body of kill's loop on one slot. *)
Lemma kkill_slot s pid i p :
  pst_ok s → procs s !! i = Some p →
  (zoom (proc_lk i) acquire ;;
   do s <- get;
   if p_pid (pub i s) =? pid then
     set_pub i (with_killed 1) ;;
     when (bool_decide (p_state (pub i s) = SLEEPING)) (set_pub i (with_state RUNNABLE)) ;;
     zoom (proc_lk i) release ;;
     ret (Some 0)
   else
     zoom (proc_lk i) release ;;
     ret None) s
  = Ok (if p_pid (p_pub p) =? pid then Some 0 else None)
       (Pst (sync (p_hart s))
          (if p_pid (p_pub p) =? pid then <[i := kill_proc p]> (procs s) else procs s)).
Proof.
  intros Hok Hi. pose proof (lookup_lt_Some _ _ _ Hi) as Hl.
  assert (lock_free (p_lock p)) as Hlk by (by apply (proj1 (Forall_lookup _ _) (ps_locks _ Hok) i)).
  rewrite (bind_Ok _ _ _ _ _ (slot_acquire s i p Hok Hi)).
  rewrite (bind_Ok get _ _ _ _ eq_refl), pub_at by done. cbn [p_pub].
  unfold kill_proc, kill_pub. case_match.
  - rewrite (bind_Ok _ _ _ _ _ (set_pub_at _ _ _ _ _ _ _ _ Hl)).
    unfold when. case_bool_decide.
    + rewrite (bind_Ok _ _ _ _ _ (set_pub_at _ _ _ _ _ _ _ _ Hl)).
      by rewrite (bind_Ok _ _ _ _ _ (slot_release _ _ _ _ _ _ _ (ps_hart _ Hok) Hlk Hl)).
    + rewrite (bind_Ok (ret tt) _ _ _ _ eq_refl).
      by rewrite (bind_Ok _ _ _ _ _ (slot_release _ _ _ _ _ _ _ (ps_hart _ Hok) Hlk Hl)).
  - rewrite (bind_Ok _ _ _ _ _ (slot_release _ _ _ _ _ _ _ (ps_hart _ Hok) Hlk Hl)).
    unfold ret. rewrite proc_eta, list_insert_id by done. done.
Qed.

Lemma kkill_run s pid :
  pst_ok s →
  wp (kkill pid) (λ r s', hart_same (p_hart s) (p_hart s') ∧
    (r = 0 ∧ (∃ i p, pid_slot pid (procs s) i ∧ procs s !! i = Some p ∧
                     procs s' = <[i := kill_proc p]> (procs s)) ∨
     r = -1 ∧ procs s' = procs s ∧ Forall (λ p, p_pid (p_pub p) ≠ pid) (procs s))) s.
Proof.
  intros Hok. unfold kkill. wp_step.
  apply (wp_first slots _ (λ vis s', pst_ok s' ∧ hart_same (p_hart s) (p_hart s') ∧
    procs s' = procs s ∧ ∀ j p, j ∈ vis → procs s !! j = Some p → p_pid (p_pub p) ≠ pid)).
  - split_and!; [done|auto with hart|done|]. intros j p Hj. by apply not_elem_of_nil in Hj.
  - intros pre i post s' Hsl (Hok' & Hh & Hp & Hno).
    apply seq_split in Hsl as [Hi ->]. rewrite <- (ps_len _ Hok) in Hi.
    destruct (lookup_lt_is_Some_2 _ _ Hi) as [p Hpi].
    assert (hart_same (p_hart s) (sync (p_hart s'))) as Hh'
      by (eapply hart_same_trans; [apply Hok|done|auto with hart]).
    eapply wp_of_Ok; [apply (kkill_slot s' pid i p); [done|by rewrite Hp]|].
    destruct (Z.eqb_spec (p_pid (p_pub p)) pid) as [E|E].
    + wp_step. split; [done|]. left. split; [done|]. exists i, p. cbn. rewrite Hp.
      split_and!; [|done|done]. split; [by exists p|].
      intros j q Hj Hq. apply (Hno j q); [|done]. apply elem_of_seq. lia.
    + split_and!; [by apply pst_ok_sync|done|done|].
      intros j q Hj Hq. rewrite elem_of_app, list_elem_of_singleton in Hj.
      destruct Hj as [Hj| ->]; [by eapply Hno|]. by simplify_eq.
  - intros s' (Hok' & Hh & Hp & Hno). wp_step. split; [done|]. right. split_and!; [done|done|].
    apply Forall_lookup. intros j q Hq. apply (Hno j q); [|done].
    by apply (elem_of_seq_lookup (procs s) _ j q), Hq; apply Hok.
Qed.

(** ** Threads that sleep and wake each other

    Any number of threads share a condition, the lock [lk] that protects it and
    a channel. A waiter runs [acquire(lk); while(!cond) sleep(ch, lk);
    cond = 0; release(lk)] and a waker [acquire(lk); cond = 1; wakeup(ch);
    release(lk)]; a step is what a thread does up to its next lock operation.
    The scheduler's part in sched() is the release of p->lock after the switch
    and, once the thread is RUNNABLE, its acquisition before the switch back. *)
Module Cond.
Inductive pc : Type :=
| Out                 (* in neither *)
| Test                (* holds lk: tests the condition *)
| Enter               (* sleep(): about to acquire p->lock, holds lk *)
| Both                (* sleep(): holds p->lock and lk *)
| Mark                (* sleep(): lk released, chan and SLEEPING to be set *)
| Asleep              (* switched away, p->lock released, SLEEPING *)
| Woken               (* as Asleep, but RUNNABLE *)
| Again               (* resumed, p->lock released: acquires lk *)
| Signal              (* waker: holds lk, sets the condition *)
| Wake (j : nat).     (* waker: wakeup() is at slot j *)

Record state : Type := State { lk : option nat; cond : bool; pcs : gmap nat pc }.

Definition at_pc (s : state) (i : nat) : pc := default Out (pcs s !! i).
Definition goto (i : nat) (p : pc) (l : option nat) (c : bool) (s : state) : state :=
  State l c (<[i := p]> (pcs s)).
(** Who holds proc[i].lock between steps: only sleep() keeps it. *)
Definition plock (s : state) (i : nat) : bool :=
  match at_pc s i with Both | Mark => true | _ => false end.

Inductive step : state → state → Prop :=
| step_wait s i :
    (i < Z.to_nat NPROC)%nat → at_pc s i = Out → lk s = None →
    step s (goto i Test (Some i) (cond s) s)
| step_done s i :
    at_pc s i = Test → cond s = true → step s (goto i Out None false s)
| step_sleep s i :
    at_pc s i = Test → cond s = false → step s (goto i Enter (lk s) (cond s) s)
| step_plock s i :
    at_pc s i = Enter → plock s i = false → step s (goto i Both (lk s) (cond s) s)
| step_unlock s i :
    at_pc s i = Both → step s (goto i Mark None (cond s) s)
| step_switch s i :
    at_pc s i = Mark → step s (goto i Asleep (lk s) (cond s) s)
| step_resume s i :
    at_pc s i = Woken → plock s i = false → step s (goto i Again (lk s) (cond s) s)
| step_again s i :
    at_pc s i = Again → lk s = None → step s (goto i Test (Some i) (cond s) s)
| step_signal s i :
    (i < Z.to_nat NPROC)%nat → at_pc s i = Out → lk s = None →
    step s (goto i Signal (Some i) (cond s) s)
| step_set s i :
    at_pc s i = Signal → step s (goto i (Wake 0) (lk s) true s)
| step_wake s i j :
    at_pc s i = Wake j → (j < Z.to_nat NPROC)%nat → j ≠ i → plock s j = false →
    step s (goto i (Wake (S j)) (lk s) (cond s)
              (if at_pc s j is Asleep then goto j Woken (lk s) (cond s) s else s))
| step_wake_self s i :
    at_pc s i = Wake i → step s (goto i (Wake (S i)) (lk s) (cond s) s)
| step_end s i :
    at_pc s i = Wake (Z.to_nat NPROC) → step s (goto i Out None (cond s) s).

Definition init : state := State None false ∅.

(** The points at which a thread holds [lk]. *)
Definition has_lk (p : pc) : Prop :=
  match p with Test | Enter | Both | Signal | Wake _ => True | _ => False end.
(** The points from which a thread waits for a wakeup. *)
Definition waits (p : pc) : Prop :=
  match p with Enter | Both | Mark | Asleep => True | _ => False end.

Record inv (s : state) : Prop := {
  inv_lk i : has_lk (at_pc s i) ↔ lk s = Some i;
  inv_slot i : at_pc s i ≠ Out → (i < Z.to_nat NPROC)%nat;
  inv_wake i : cond s = true → waits (at_pc s i) → ∃ w j, at_pc s w = Wake j ∧ (j ≤ i)%nat
}.

Lemma at_goto s i p l c j :
  at_pc (goto i p l c s) j = if decide (i = j) then p else at_pc s j.
Proof. unfold at_pc, goto. cbn. rewrite lookup_insert. by case_decide. Qed.

Lemma inv_init : inv init.
Proof.
  assert (∀ i, at_pc init i = Out) as H by done.
  split; intros i; rewrite H; cbn; [|done..]. split; done.
Qed.

(** The only thread in wakeup() is the one that holds [lk]. *)
Lemma waker_unique s i j k w :
  inv s → at_pc s i = Wake j → at_pc s w = Wake k → w = i ∧ k = j.
Proof.
  intros [Hl _ _] Hi Hw. pose proof (proj1 (Hl i)) as H1. pose proof (proj1 (Hl w)) as H2.
  rewrite Hi in H1. rewrite Hw in H2. specialize (H1 I). specialize (H2 I).
  assert (w = i) as -> by congruence. split; congruence.
Qed.

(** A step of thread [i] that changes only its own point and keeps the condition. *)
Lemma inv_goto s i p l :
  inv s → (at_pc s i ≠ Out ∨ (i < Z.to_nat NPROC)%nat) → (waits p → waits (at_pc s i)) →
  (∀ j, at_pc s i ≠ Wake j) →
  (has_lk p ↔ l = Some i) → (∀ k, k ≠ i → (lk s = Some k ↔ l = Some k)) →
  inv (goto i p l (cond s) s).
Proof.
  intros [Hl Hs Hw] Hi Hwait Hnw Hpl Hkl. split.
  - intros k. rewrite at_goto. case_decide; subst; cbn; [done|]. rewrite Hl. apply Hkl. congruence.
  - intros k. rewrite at_goto. case_decide; subst; [|apply Hs]. intros _. destruct Hi; auto.
  - intros k Hc Hk. rewrite at_goto in Hk.
    assert (waits (at_pc s k)) as Hk' by (case_decide; subst; auto).
    destruct (Hw k Hc Hk') as (w & j & Hwj & Hj). exists w, j. rewrite at_goto.
    rewrite decide_False; [done|]. intros ->. by apply (Hnw j).
Qed.

(** The waker leaves slot [j] behind: nobody waits there. *)
Lemma inv_next s i j :
  inv s → at_pc s i = Wake j → ¬ waits (at_pc s j) →
  inv (goto i (Wake (S j)) (lk s) (cond s) s).
Proof.
  intros Hinv Hi Hj. pose proof Hinv as [Hl Hs Hw]. split.
  - intros k. rewrite at_goto. case_decide; subst; cbn; [|apply Hl]. rewrite <- Hl, Hi. done.
  - intros k. rewrite at_goto. case_decide; subst; [|apply Hs]. intros _. apply Hs. by rewrite Hi.
  - intros k Hc Hk. rewrite at_goto in Hk. case_decide; [done|].
    destruct (Hw k Hc Hk) as (w & j' & Hwj & Hj').
    destruct (waker_unique s i j j' w Hinv Hi Hwj) as [-> ->].
    exists i, (S j). rewrite at_goto, decide_True by done. split; [done|].
    assert (k ≠ j) by (intros ->; done). lia.
Qed.

(** The side conditions of [inv_goto], at a point known by [Hp]. *)
Ltac goto_side Hp := rewrite ?Hp; cbn; first [done|intuition congruence].

Lemma inv_step s s' : step s s' → inv s → inv s'.
Proof.
  intros Hstep Hinv. pose proof Hinv as [Hl Hs Hw].
  destruct Hstep as [s i Hn Hp Hk|s i Hp Hc|s i Hp Hc|s i Hp Hk|s i Hp|s i Hp|s i Hp Hk|s i Hp Hk
    |s i Hn Hp Hk|s i Hp|s i j Hp Hj Hne Hk|s i Hp|s i Hp];
    pose proof (Hl i) as Hli; rewrite Hp in Hli; cbn in Hli.
  1, 4-9: solve [apply inv_goto; [done|goto_side Hp..]].
  - (* done *)
    split.
    + intros k. rewrite at_goto. case_decide; subst; cbn; [done|]. rewrite Hl. naive_solver.
    + intros k. rewrite at_goto. case_decide; [done|apply Hs].
    + done.
  - (* sleep *)
    split.
    + intros k. rewrite at_goto. case_decide; subst; cbn; [naive_solver|apply Hl].
    + intros k. rewrite at_goto. case_decide; subst; [|apply Hs]. intros _. apply Hs. by rewrite Hp.
    + cbn. by rewrite Hc.
  - (* set *)
    split.
    + intros k. rewrite at_goto. case_decide; subst; cbn; [naive_solver|apply Hl].
    + intros k. rewrite at_goto. case_decide; subst; [|apply Hs]. intros _. apply Hs. by rewrite Hp.
    + intros k _ _. exists i, 0%nat. rewrite at_goto, decide_True by done. split; [done|lia].
  - (* wake slot j *)
    destruct (at_pc s j) eqn:Ej; unfold plock in Hk; rewrite Ej in Hk; try done;
      try (apply inv_next; [done|done|rewrite Ej; cbn; tauto]).
    + exfalso. pose proof (proj1 (Hl j)) as H1. rewrite Ej in H1. specialize (H1 I). naive_solver.
    + pose proof (Hl j) as Hlj. rewrite Ej in Hlj. cbn in Hlj.
      apply (inv_next (goto j Woken (lk s) (cond s) s) i j).
      * apply inv_goto; [done|goto_side Ej..].
      * by rewrite at_goto, decide_False.
      * rewrite at_goto, decide_True by done. cbn. tauto.
  - (* own slot *) apply inv_next; [done|done|rewrite Hp; cbn; tauto].
  - (* end *)
    split.
    + intros k. rewrite at_goto. case_decide; subst; cbn; [done|]. rewrite Hl. naive_solver.
    + intros k. rewrite at_goto. case_decide; [done|apply Hs].
    + intros k Hc Hk. rewrite at_goto in Hk. case_decide; [done|].
      destruct (Hw k Hc Hk) as (w & j & Hwj & Hj).
      destruct (waker_unique s i _ j w Hinv Hp Hwj) as [-> ->].
      assert (at_pc s k ≠ Out) as Hko by (by intros E; rewrite E in Hk).
      specialize (Hs k Hko). lia.
Qed.

Lemma reachable_inv s : rtc step init s → inv s.
Proof.
  intros Hs. pose proof inv_init as Hi. revert Hi.
  induction Hs as [|s0 s1 s2 Hst _ IH]; [done|]. intros Hi. apply IH. by apply (inv_step s0).
Qed.
(** sleep() from the point where it acquires p->lock. *)
Lemma sleep_steps a i :
  at_pc a i = Enter →
  ∃ a', rtc step a a' ∧ lk a' = None ∧ cond a' = cond a ∧
        ∀ j, at_pc a' j = if decide (i = j) then Asleep else at_pc a j.
Proof.
  intros Hi. eexists. split.
  - eapply rtc_l; [apply (step_plock _ i); [done|by unfold plock; rewrite Hi]|].
    eapply rtc_l; [apply (step_unlock _ i); by rewrite at_goto, decide_True|].
    eapply rtc_l; [apply (step_switch _ i); by rewrite at_goto, decide_True|apply rtc_refl].
  - split_and!; [done|done|]. intros j. rewrite !at_goto. by case_decide.
Qed.

(** The last [n] slots of the walk of wakeup(): it wakes the sleepers there. *)
Lemma wake_steps n : ∀ a i,
  at_pc a i = Wake (Z.to_nat NPROC - n) → (n ≤ Z.to_nat NPROC)%nat → (∀ j, plock a j = false) →
  ∃ a', rtc step a a' ∧ lk a' = lk a ∧ cond a' = cond a ∧ at_pc a' i = Wake (Z.to_nat NPROC) ∧
        ∀ j, j ≠ i → at_pc a' j =
          if decide (Z.to_nat NPROC - n ≤ j < Z.to_nat NPROC)%nat
          then match at_pc a j with Asleep => Woken | p => p end else at_pc a j.
Proof.
  induction n as [|n IH]; intros a i Hi Hn Hp.
  { exists a. rewrite Nat.sub_0_r in *. split_and!; [apply rtc_refl|done|done|done|].
    intros j Hj. rewrite decide_False by lia. done. }
  set (k := (Z.to_nat NPROC - S n)%nat) in *.
  assert (∃ b, step a b ∧ lk b = lk a ∧ cond b = cond a ∧ at_pc b i = Wake (S k) ∧
    ∀ j, j ≠ i → at_pc b j =
      if decide (j = k) then match at_pc a j with Asleep => Woken | p => p end else at_pc a j)
    as (b & Hab & Hlk & Hc & Hbi & Hb).
  { destruct (decide (k = i)) as [E|E].
    - eexists. split; [rewrite E in Hi; by apply step_wake_self|].
      split_and!; [done|done|by rewrite at_goto, decide_True, E|].
      intros j Hj. by rewrite at_goto, !decide_False by congruence.
    - eexists. split; [apply (step_wake a i k); [done|lia|done|done]|].
      split_and!; [done|done|by rewrite at_goto, decide_True|]. intros j Hj.
      rewrite at_goto, decide_False by done.
      destruct (decide (j = k)) as [->|Hjk]; [destruct (at_pc a k) eqn:Ek; try done; by rewrite at_goto, decide_True|].
      destruct (at_pc a k); try done. by rewrite at_goto, decide_False. }
  destruct (IH b i) as (a' & Hr & Hl' & Hc' & Hi' & Ha').
  - rewrite Hbi. f_equal. lia.
  - lia.
  - intros j. unfold plock. destruct (decide (j = i)) as [->|Hj]; [by rewrite Hbi|].
    rewrite Hb by done. specialize (Hp j). unfold plock in Hp.
    case_decide; [|done]. by destruct (at_pc a j).
  - exists a'. split_and!; [by eapply rtc_l|congruence|congruence|done|].
    intros j Hj. rewrite Ha', Hb by done.
    repeat case_decide; by (lia || destruct (at_pc a j)).
Qed.
End Cond.

(** ** The code as steps of the threads *)

(** The table [s] and the threads [a]: no p->lock is held, and the threads
    asleep are the processes SLEEPING on the channel of the condition. *)
Record sim (ch : chan) (s : pst) (a : Cond.state) : Prop := {
  sim_ok : pst_ok s;
  sim_plock j : Cond.plock a j = false;
  sim_sleep j p : procs s !! j = Some p →
    p_state (p_pub p) = SLEEPING ∧ p_chan (p_pub p) = Some ch ↔ Cond.at_pc a j = Cond.Asleep
}.

Section sim.
Implicit Types (s : pst) (a : Cond.state).

Lemma sim_sleeps ch s a i q a' :
  sim ch s a → procs s !! i = Some q →
  (∀ j, Cond.at_pc a' j = if decide (i = j) then Cond.Asleep else Cond.at_pc a j) →
  sim ch (Pst (sync (p_hart s))
    (<[i := Proc (p_lock q) (with_state SLEEPING (with_chan (Some ch) (p_pub q))) (p_parent q) (p_priv q)]>
       (procs s))) a'.
Proof.
  intros [Hok Hpl Hsl] Hq Ha'. pose proof (lookup_lt_Some _ _ _ Hq) as Hi. split.
  - destruct (pst_ok_sync s Hok) as [H1 H2 H3]. split; [done|by cbn; rewrite length_insert|].
    cbn. apply Forall_insert; [done|]. exact (proj1 (Forall_lookup _ _) (ps_locks _ Hok) i q Hq).
  - intros j. specialize (Hpl j). unfold Cond.plock in *. rewrite Ha'. by case_decide.
  - intros j p. cbn. rewrite Ha'. case_decide as E; subst.
    + rewrite list_lookup_insert_eq by done. by intros [= <-].
    + rewrite list_lookup_insert_ne by done. apply Hsl.
Qed.

Lemma sim_wakes ch s a i s' a' :
  sim ch s a → cpu_proc (cur (p_hart s)) = Some i → Cond.at_pc a i = Cond.Wake 0 →
  p_hart s' = sync (p_hart s) →
  procs s' = imap (wake_at ch (cpu_proc (cur (p_hart s)))) (procs s) →
  Cond.at_pc a' i = Cond.Wake (Z.to_nat NPROC) →
  (∀ j, j ≠ i → Cond.at_pc a' j =
    if decide (0 ≤ j < Z.to_nat NPROC)%nat
    then match Cond.at_pc a j with Cond.Asleep => Cond.Woken | p => p end else Cond.at_pc a j) →
  sim ch s' a'.
Proof.
  intros [Hok Hpl Hsl] Hc Hi Hh Hp Hi' Ha'. split.
  - destruct (pst_ok_sync s Hok) as [H1 H2 H3]. split.
    + by rewrite Hh.
    + by rewrite Hp, length_imap.
    + apply Forall_lookup. intros j p'. rewrite Hp, list_lookup_imap.
      destruct (procs s !! j) as [p|] eqn:E; [|done]. intros [= <-].
      pose proof (proj1 (Forall_lookup _ _) (ps_locks _ Hok) j p E). unfold wake_at.
      by case_bool_decide.
  - intros j. specialize (Hpl j). unfold Cond.plock in *.
    destruct (decide (j = i)) as [->|Hj]; [by rewrite Hi'|].
    rewrite Ha' by done. case_decide; [|done]. by destruct (Cond.at_pc a j).
  - intros j p'. rewrite Hp, list_lookup_imap. destruct (procs s !! j) as [p|] eqn:E; [|done].
    intros [= <-]. specialize (Hsl j p E). pose proof (lookup_lt_Some _ _ _ E) as Hlt.
    rewrite (ps_len _ Hok) in Hlt. unfold wake_at. rewrite Hc. case_bool_decide as Hji.
    + injection Hji as <-. rewrite Hi' , Hsl, Hi. by split.
    + rewrite Ha', decide_True by (lia || congruence). split.
      * cbn. unfold wake. repeat case_bool_decide; cbn; intros [? ?]; done.
      * by destruct (Cond.at_pc a j).
Qed.
End sim.

(** ** Properties *)

(** C3: no wakeup is lost: in every interleaving of waiters and wakers, once the
    condition is true and no thread is inside the lock, no thread is asleep (or on
    its way to sleep) without having been made RUNNABLE. *)
Theorem no_lost_wakeup s i :
  rtc Cond.step Cond.init s → Cond.cond s = true → Cond.lk s = None →
  ¬ Cond.waits (Cond.at_pc s i).
Proof.
  intros Hs Hc Hl Hw. destruct (Cond.reachable_inv s Hs) as [Hlk _ Hwake].
  destruct (Hwake i Hc Hw) as (w & j & Hwj & _).
  pose proof (proj1 (Hlk w)) as H. rewrite Hwj in H. specialize (H I). congruence.
Qed.

(** Thread 1 waits and sleeps; thread 0 signals and walks the whole table. *)
Definition demo_asleep : Cond.state :=
  Cond.goto 0 (Cond.Wake 0) (Some 0%nat) true
    (Cond.goto 0 Cond.Signal (Some 0%nat) false
      (Cond.goto 1 Cond.Asleep None false
        (Cond.goto 1 Cond.Mark None false
          (Cond.goto 1 Cond.Both (Some 1%nat) false
            (Cond.goto 1 Cond.Enter (Some 1%nat) false
              (Cond.goto 1 Cond.Test (Some 1%nat) false Cond.init)))))).

Lemma demo_asleep_reachable : rtc Cond.step Cond.init demo_asleep.
Proof.
  eapply rtc_l; [apply (Cond.step_wait _ 1); [vm_compute; lia|done|done]|].
  eapply rtc_l; [by apply (Cond.step_sleep _ 1)|].
  eapply rtc_l; [by apply (Cond.step_plock _ 1)|].
  eapply rtc_l; [by apply (Cond.step_unlock _ 1)|].
  eapply rtc_l; [by apply (Cond.step_switch _ 1)|].
  eapply rtc_l; [apply (Cond.step_signal _ 0); [vm_compute; lia|done|done]|].
  eapply rtc_l; [by apply (Cond.step_set _ 0)|]. apply rtc_refl.
Qed.

(** The waker at slot [j], thread 1 already woken. *)
Lemma demo_walk s n :
  Cond.at_pc s 0 = Cond.Wake (Z.to_nat NPROC - n) → (n ≤ Z.to_nat NPROC)%nat →
  (∀ j, j ≠ 0%nat → Cond.plock s j = false ∧ Cond.at_pc s j ≠ Cond.Asleep) →
  ∃ s', rtc Cond.step s s' ∧ Cond.cond s' = Cond.cond s ∧ Cond.lk s' = None ∧
        ∀ j, j ≠ 0%nat → Cond.at_pc s' j = Cond.at_pc s j.
Proof.
  revert s. induction n as [|n IH]; intros s Hp Hn Hj.
  - rewrite Nat.sub_0_r in Hp. eexists. split_and!.
    + eapply rtc_l; [by apply (Cond.step_end _ 0)|apply rtc_refl].
    + done.
    + done.
    + intros j Hne. rewrite Cond.at_goto. by rewrite decide_False.
  - set (j := (Z.to_nat NPROC - S n)%nat) in *.
    assert (Cond.step s (Cond.goto 0 (Cond.Wake (S j)) (Cond.lk s) (Cond.cond s) s)) as Hst.
    { destruct (decide (j = 0%nat)) as [E|E].
      - rewrite E in *. by apply Cond.step_wake_self.
      - pose proof (Cond.step_wake s 0 j Hp) as H. destruct (Hj j E) as [H1 H2].
        destruct (Cond.at_pc s j); try done; apply H; try done; lia. }
    destruct (IH (Cond.goto 0 (Cond.Wake (S j)) (Cond.lk s) (Cond.cond s) s)) as (s' & Hr & Hc & Hl & Hat).
    + rewrite Cond.at_goto, decide_True by done. f_equal. lia.
    + lia.
    + intros k Hk. unfold Cond.plock. rewrite Cond.at_goto, decide_False by done. by apply Hj.
    + exists s'. split_and!; [by eapply rtc_l|done|done|].
      intros k Hk. rewrite Hat by done. by rewrite Cond.at_goto, decide_False.
Qed.

Lemma no_lost_wakeup_witness :
  ∃ s, Cond.cond s = true ∧ Cond.lk s = None ∧ Cond.at_pc s 1 = Cond.Woken ∧
       ¬ Cond.waits (Cond.at_pc s 1).
Proof.
  set (s1 := Cond.goto 0 (Cond.Wake 1) (Some 0%nat) true demo_asleep).
  set (s2 := Cond.goto 0 (Cond.Wake 2) (Some 0%nat) true (Cond.goto 1 Cond.Woken (Some 0%nat) true s1)).
  assert (rtc Cond.step Cond.init s2) as H2.
  { transitivity demo_asleep; [apply demo_asleep_reachable|].
    eapply rtc_l; [by apply (Cond.step_wake_self _ 0)|].
    eapply rtc_l; [|apply rtc_refl].
    apply (Cond.step_wake s1 0 1); [done|vm_compute; lia|done|done]. }
  destruct (demo_walk s2 (Z.to_nat NPROC - 2)) as (s' & Hr & Hc & Hl & Hat); [done|vm_compute; lia| |].
  { intros j Hj. unfold Cond.plock. unfold s2, s1, demo_asleep. rewrite !Cond.at_goto.
    repeat case_decide; try done. }
  exists s'. split; [done|]. split; [done|]. split; [by rewrite Hat|].
  apply (no_lost_wakeup s' 1); [|done|done]. by transitivity s2.
Defined.

(** Sleep(ch, lk) called by the running process with only [lk] held atomically
    releases [lk] and leaves for the scheduler with exactly this process SLEEPING
    on [ch] and its own lock held; with any other lock held it panics instead. *)
Theorem sleep_switches s ch lk p q :
  pst_ok s → cpu_proc (cur (p_hart s)) = Some p → procs s !! p = Some q → lock_free lk →
  (noff (cur (p_hart s)) = 0 →
   sleep ch (Pst (push (p_hart s)) (procs s), held lk (tp (p_hart s))) =
     Halt Slept (Pst (push (p_hart s))
       (<[p := Proc (held (p_lock q) (tp (p_hart s)))
                 (with_state SLEEPING (with_chan (Some ch) (p_pub q))) (p_parent q) (p_priv q)]>
          (procs s)), lk)) ∧
  (0 < noff (cur (p_hart s)) →
   faults (sleep ch) (Pst (push (p_hart s)) (procs s), held lk (tp (p_hart s)))
     (Panicked "sched locks")).
Proof.
  intros Hok Hc Hq Hlk. split; [intros Hn; by apply sleep_run|]. intros Hn.
  unfold faults, sleep. rewrite (bind_Ok _ _ _ _ _ (sleep_enter_run s ch lk p q Hok Hc Hq Hlk)).
  pose proof (sched_locks (p_hart s) (procs s) p (p_lock q)
    (with_state SLEEPING (with_chan (Some ch) (p_pub q))) (p_parent q) (p_priv q)
    (ps_hart _ Hok) Hn Hc (lookup_lt_Some _ _ _ Hq)) as H.
  unfold faults in H. destruct (sched _) as [|g s'] eqn:E; [done|]. subst g.
  by erewrite bind_Halt by (by apply zoom_Halt).
Qed.

(** A process table in which process 3 runs and process 5 sleeps on the log. *)
Definition demo_run : proc :=
  Proc (Spin 0 "proc" None) (Ppub RUNNING None 0 0 7) None (p_priv proc0).
Definition demo_procs : list proc :=
  <[3%nat := demo_run]>
  (<[5%nat := Proc (Spin 0 "proc" None) (Ppub SLEEPING (Some ChLog) 0 0 9) (Some 3%nat) (p_priv proc0)]>
   (replicate 64 proc0)).
Definition demo_pst : pst := Pst demo_hart demo_procs.

Lemma demo_pst_ok : pst_ok demo_pst.
Proof.
  split; [apply demo_hart_ok|reflexivity|].
  unfold demo_pst, demo_procs, procs. repeat apply Forall_insert; try by split.
  apply Forall_replicate. by split.
Qed.

Lemma sleep_switches_witness :
  sleep ChTicks (Pst (push demo_hart) demo_procs, held (Spin 0 "time" None) (tp demo_hart)) =
    Halt Slept (Pst (push demo_hart)
      (<[3%nat := Proc (held (p_lock demo_run) (tp demo_hart))
           (with_state SLEEPING (with_chan (Some ChTicks) (p_pub demo_run)))
           (p_parent demo_run) (p_priv demo_run)]> demo_procs), Spin 0 "time" None).
Proof.
  exact (proj1 (sleep_switches demo_pst ChTicks (Spin 0 "time" None) 3 demo_run demo_pst_ok
    eq_refl eq_refl (conj eq_refl eq_refl)) eq_refl).
Defined.

(** Wakeup(ch) makes RUNNABLE exactly the processes that are SLEEPING on [ch],
    other than the caller, and changes nothing else of the table or the hart. *)
Theorem wakeup_wakes s ch :
  pst_ok s →
  ∃ s', wakeup ch s = Ok tt s' ∧ p_hart s' = sync (p_hart s) ∧
    ∀ i p, procs s !! i = Some p → ∃ p', procs s' !! i = Some p' ∧
      p_lock p' = p_lock p ∧ p_parent p' = p_parent p ∧ p_priv p' = p_priv p ∧
      p_pub p' = if bool_decide (cpu_proc (cur (p_hart s)) ≠ Some i ∧
                                 p_state (p_pub p) = SLEEPING ∧ p_chan (p_pub p) = Some ch)
                 then with_state RUNNABLE (p_pub p) else p_pub p.
Proof.
  intros Hok. destruct (wp_Ok _ _ _ (wakeup_run s ch Hok)) as ([] & s' & -> & Hh & Hp).
  exists s'. split_and!; [done|done|]. intros i p Hi.
  exists (wake_at ch (cpu_proc (cur (p_hart s))) i p). rewrite Hp, list_lookup_imap, Hi.
  unfold wake_at. case_bool_decide.
  - rewrite bool_decide_false by naive_solver. done.
  - split_and!; try done. cbn. unfold wake.
    repeat case_bool_decide; try done; naive_solver.
Qed.

Lemma wakeup_wakes_witness :
  ∃ s' p', wakeup ChLog demo_pst = Ok tt s' ∧ procs s' !! 5%nat = Some p' ∧
           p_pub p' = Ppub RUNNABLE (Some ChLog) 0 0 9.
Proof.
  destruct (wakeup_wakes demo_pst ChLog demo_pst_ok) as (s' & H & _ & Hp).
  destruct (Hp 5%nat _ eq_refl) as (p' & Hp' & _ & _ & _ & Hpub). exists s', p'.
  split; [exact H|]. split; [exact Hp'|]. rewrite Hpub. reflexivity.
Defined.

(** C4: sleep() and wakeup() run as the protocol of the threads says. From a table
    that matches the threads, a process at the start of sleep(ch, lk) switches away
    and, once the scheduler has released its p->lock, the table matches the threads
    after their steps to Asleep, with [lk] free in both; wakeup(ch) by a process that
    holds [lk] returns in the table that matches the threads after the walk over all
    slots. *)
Theorem sleep_wakeup_refine ch s a i q :
  sim ch s a → cpu_proc (cur (p_hart s)) = Some i → procs s !! i = Some q →
  (∀ lk, lock_free lk → noff (cur (p_hart s)) = 0 → Cond.at_pc a i = Cond.Enter →
     ∃ s1 s2 a', sleep ch (Pst (push (p_hart s)) (procs s), held lk (tp (p_hart s))) = Halt Slept (s1, lk) ∧
       zoom (proc_lk i) release s1 = Ok tt s2 ∧
       rtc Cond.step a a' ∧ Cond.lk a' = None ∧ Cond.at_pc a' i = Cond.Asleep ∧ sim ch s2 a') ∧
  (Cond.at_pc a i = Cond.Wake 0 →
     ∃ s1 a', wakeup ch s = Ok tt s1 ∧ rtc Cond.step a a' ∧ Cond.lk a' = Cond.lk a ∧
       Cond.at_pc a' i = Cond.Wake (Z.to_nat NPROC) ∧ sim ch s1 a').
Proof.
  intros Hsim Hc Hq. pose proof (sim_ok _ _ _ Hsim) as Hok.
  pose proof (lookup_lt_Some _ _ _ Hq) as Hi. split.
  - intros lk Hlk Hn Hpc. destruct (Cond.sleep_steps a i Hpc) as (a' & Hr & Hl & _ & Ha').
    do 2 eexists. exists a'. split; [by apply (sleep_run s ch lk i q)|]. split.
    { apply slot_release; [apply Hok| |done]. by apply (proj1 (Forall_lookup _ _) (ps_locks _ Hok) i). }
    split_and!; [done|done|by rewrite Ha', decide_True|]. by apply (sim_sleeps ch s a).
  - intros Hpc. destruct (Cond.wake_steps (Z.to_nat NPROC) a i) as (a' & Hr & Hl & _ & Hi' & Ha').
    { by rewrite Nat.sub_diag. } { lia. } { apply Hsim. }
    destruct (wp_Ok _ _ _ (wakeup_run s ch Hok)) as ([] & s1 & Hrun & Hh & Hp).
    exists s1, a'. split_and!; [done..|]. apply (sim_wakes ch s a i); [done..|].
    intros j Hj. rewrite Ha' by done. by rewrite Nat.sub_diag.
Qed.

(** Threads that match [demo_pst]: process 3 is about to sleep on ticks, or to
    wake the sleepers of the log, of which process 5 is one. *)
Definition demo_threads (p : Cond.pc) (o : Cond.pc) : Cond.state :=
  Cond.State (Some 3%nat) false {[ 3%nat := p; 5%nat := o ]}.

Lemma demo_sim ch p o :
  Cond.plock (demo_threads p o) 3 = false → p ≠ Cond.Asleep →
  (o = Cond.Asleep ∧ ch = ChLog ∨ o = Cond.Out ∧ ch ≠ ChLog) →
  sim ch demo_pst (demo_threads p o).
Proof.
  intros H3 Hp Ho. split; [apply demo_pst_ok| |].
  - intros j. unfold Cond.plock, Cond.at_pc, demo_threads in *. cbn in *.
    destruct (decide (j = 3)%nat) as [->|]; [done|]. rewrite lookup_insert_ne by done.
    destruct (decide (j = 5)%nat) as [->|]; [|by rewrite lookup_singleton_ne].
    rewrite lookup_singleton_eq. cbn. by destruct Ho as [[-> _]|[-> _]].
  - intros j q. unfold demo_pst, demo_procs, procs, Cond.at_pc, demo_threads. cbn [Cond.pcs].
    destruct (decide (j = 3)%nat) as [->|]; [intros [= <-]; cbn; split; [by intros []|done]|].
    rewrite list_lookup_insert_ne, lookup_insert_ne by done.
    destruct (decide (j = 5)%nat) as [->|].
    + intros [= <-]. rewrite lookup_singleton_eq. cbn.
      split; [intros [_ [= <-]]|intros ->]; destruct Ho as [[? ?]|[? ?]]; try congruence; by subst.
    + rewrite list_lookup_insert_ne, lookup_singleton_ne by done.
      intros [-> _]%lookup_replicate. by split; [intros []|].
Qed.

Lemma sleep_wakeup_refine_witness :
  (∃ s1 a', sleep ChTicks (Pst (push demo_hart) demo_procs, held (Spin 0 "time" None) (tp demo_hart))
              = Halt Slept (s1, Spin 0 "time" None) ∧
     rtc Cond.step (demo_threads Cond.Enter Cond.Out) a' ∧ Cond.at_pc a' 3 = Cond.Asleep) ∧
  (∃ s1 a', wakeup ChLog demo_pst = Ok tt s1 ∧
     rtc Cond.step (demo_threads (Cond.Wake 0) Cond.Asleep) a' ∧ sim ChLog s1 a').
Proof.
  split.
  - destruct (sleep_wakeup_refine ChTicks demo_pst (demo_threads Cond.Enter Cond.Out) 3 demo_run)
      as [H _]; [apply demo_sim; [reflexivity|discriminate|by right]|reflexivity|reflexivity|].
    destruct (H (Spin 0 "time" None)) as (s1 & s2 & a' & H1 & _ & H2 & _ & H3 & _);
      [split; reflexivity|reflexivity|reflexivity|].
    exists s1, a'. split_and!; assumption.
  - destruct (sleep_wakeup_refine ChLog demo_pst (demo_threads (Cond.Wake 0) Cond.Asleep) 3 demo_run)
      as [_ H]; [apply demo_sim; [reflexivity|discriminate|by left]|reflexivity|reflexivity|].
    destruct (H eq_refl) as (s1 & a' & H1 & H2 & _ & _ & H3). exists s1, a'. split_and!; assumption.
Defined.

(** Kill(pid) marks the first process with that pid killed, and makes it
    RUNNABLE if it sleeps; with no such process it returns -1 and changes no
    process. *)
Theorem kkill_kills s pid :
  pst_ok s →
  ∃ r s', kkill pid s = Ok r s' ∧ hart_same (p_hart s) (p_hart s') ∧
    (r = 0 ∧ (∃ i p, pid_slot pid (procs s) i ∧ procs s !! i = Some p ∧
                     procs s' = <[i := kill_proc p]> (procs s)) ∨
     r = -1 ∧ procs s' = procs s ∧ Forall (λ p, p_pid (p_pub p) ≠ pid) (procs s)).
Proof. intros Hok. destruct (wp_Ok _ _ _ (kkill_run s pid Hok)) as (r & s' & E & H). eauto. Qed.

Lemma kkill_kills_witness :
  ∃ r s', kkill 9 demo_pst = Ok r s' ∧ hart_same demo_hart (p_hart s') ∧
    (r = 0 ∧ (∃ i p, pid_slot 9 demo_procs i ∧ demo_procs !! i = Some p ∧
                     procs s' = <[i := kill_proc p]> demo_procs) ∨
     r = -1 ∧ procs s' = demo_procs ∧ Forall (λ p, p_pid (p_pub p) ≠ 9) demo_procs).
Proof. apply (kkill_kills demo_pst 9 demo_pst_ok). Defined.
