(* ===== verification/Sleeplock.v ===== *)
(** * kernel/sleeplock.c: long-term locks

    A sleep lock is a flag protected by a spinlock; [ch] is the address of the
    lock, which the waiters sleep on. *)
From S2P Require Import Prelude Memory Riscv Spinlock Sched.

Record sleeplock : Type := Slk {
  sl_locked : Z;
  sl_lock : spinlock;      (* lk->lk *)
  sl_name : string;
  sl_pid : Z
}.

(** The operations see the process table and the lock. *)
Definition slpst : Type := (pst * sleeplock)%type.
Definition sp_pst : lens slpst pst := Lens fst (λ t s, (t, s.2)).
Definition sp_slst : lens slpst slst :=
  Lens (λ s, (s.1, sl_lock s.2))
       (λ t s, (t.1, Slk (sl_locked s.2) t.2 (sl_name s.2) (sl_pid s.2))).
Definition sp_lk : lens slpst lockst :=
  Lens (λ s, (p_hart s.1, sl_lock s.2))
       (λ t s, (Pst t.1 (procs s.1), Slk (sl_locked s.2) t.2 (sl_name s.2) (sl_pid s.2))).
Definition set_sl (locked pid : Z) : M slpst unit :=
  modify (λ s, (s.1, Slk locked (sl_lock s.2) (sl_name s.2) pid)).

Definition initsleeplock (name : string) : M slpst unit :=
  zoom sp_lk (initlock "sleep lock") ;;
  modify (λ s, (s.1, Slk 0 (sl_lock s.2) name 0)).

(** [myproc()->pid] *)
Definition mypid : M pst Z := do p <- me; gets (λ s, p_pid (pub p s)).

Definition acquiresleep (ch : chan) : M slpst unit :=
  zoom sp_lk acquire ;;
  while_sleep (gets (λ s, negb (sl_locked s.2 =? 0))) (zoom sp_slst (sleep ch)) ;;
  modify (λ s, (s.1, Slk 1 (sl_lock s.2) (sl_name s.2) (sl_pid s.2))) ;;
  do pid <- zoom sp_pst mypid;
  modify (λ s, (s.1, Slk (sl_locked s.2) (sl_lock s.2) (sl_name s.2) pid)) ;;
  zoom sp_lk release.

Definition releasesleep (ch : chan) : M slpst unit :=
  zoom sp_lk acquire ;;
  set_sl 0 0 ;;
  zoom sp_pst (wakeup ch) ;;
  zoom sp_lk release.

Definition holdingsleep : M slpst bool :=
  zoom sp_lk acquire ;;
  do l <- gets (λ s, sl_locked s.2);
  do r <- (if negb (l =? 0)
           then do pid <- zoom sp_pst mypid; gets (λ s, sl_pid s.2 =? pid)
           else ret false);
  zoom sp_lk release ;;
  ret r.

(** ** Behaviour *)

(** The pid of the running process. *)
Definition cur_pid (s : pst) : Z :=
  match cpu_proc (cur (p_hart s)) with Some p => p_pid (pub p s) | None => 0 end.
Definition is_running (s : pst) : Prop := ∃ p, running s p.

Definition synced (s : pst) : pst := Pst (sync (p_hart s)) (procs s).

Lemma cur_pid_same s s' : pst_ok s → is_running s → pst_same s s' → cur_pid s' = cur_pid s.
Proof.
  intros Hok [p Hr] Hs. unfold cur_pid.
  rewrite (proj1 (hart_same_proc _ _ (ps_hart _ Hok) (pm_hart _ _ Hs))).
  destruct Hr as [Hc Hl]. rewrite Hc. unfold pub. rewrite (pst_same_me s s' p); done.
Qed.

Lemma is_running_same s s' : pst_ok s → is_running s → pst_same s s' → is_running s'.
Proof. intros Hok [p Hr] Hs. exists p. by apply (pst_same_running s). Qed.

Lemma synced_same s : pst_same s (synced s).
Proof. apply pst_same_hart. auto with hart. Qed.

Lemma synced_ok s : pst_ok s → pst_ok (synced s).
Proof. apply pst_ok_sync. Qed.

Section sleeplock.
Implicit Types (s : pst) (lk : sleeplock).

(** [mypid] inside a critical section. *)
Lemma mypid_push s :
  pst_ok s → is_running s →
  mypid (Pst (push (p_hart s)) (procs s)) = Ok (cur_pid s) (Pst (push (p_hart s)) (procs s)).
Proof.
  intros Hok [p [Hc Hl]]. unfold mypid.
  rewrite (bind_Ok _ _ _ _ _ (me_push _ _ p (ps_hart _ Hok) Hc)).
  unfold gets, cur_pid. by rewrite Hc.
Qed.

Lemma sp_acquire s lk :
  pst_ok s → lock_free (sl_lock lk) →
  zoom sp_lk acquire (s, lk) =
    Ok tt (Pst (push (p_hart s)) (procs s),
           Slk (sl_locked lk) (held (sl_lock lk) (tp (p_hart s))) (sl_name lk) (sl_pid lk)).
Proof. intros Hok Hl. unfold zoom. cbn. by rewrite acquire_run by (done || apply Hok). Qed.

Lemma sp_release s l lkk nm pid :
  pst_ok s → lock_free lkk →
  zoom sp_lk release (Pst (push (p_hart s)) (procs s), Slk l (held lkk (tp (p_hart s))) nm pid) =
    Ok tt (synced s, Slk l lkk nm pid).
Proof. intros Hok Hl. unfold zoom. cbn. by rewrite release_run by (done || apply Hok). Qed.

Lemma acquiresleep_run ch s lk :
  pst_ok s → is_running s → sl_locked lk = 0 → lock_free (sl_lock lk) →
  acquiresleep ch (s, lk) = Ok tt (synced s, Slk 1 (sl_lock lk) (sl_name lk) (cur_pid s)).
Proof.
  intros Hok Hr H0 Hl. unfold acquiresleep. rewrite (bind_Ok _ _ _ _ _ (sp_acquire s lk Hok Hl)).
  erewrite bind_Ok; [|apply while_sleep_skip; unfold gets; cbn; by rewrite H0].
  rewrite (bind_Ok (modify _) _ _ _ _ eq_refl).
  erewrite bind_Ok; [|by apply zoom_Ok, (mypid_push s)].
  rewrite (bind_Ok (modify _) _ _ _ _ eq_refl). by apply sp_release.
Qed.

(** A lock that is taken puts the caller to sleep on it. *)
Lemma acquiresleep_blocks ch s lk p q :
  pst_ok s → cpu_proc (cur (p_hart s)) = Some p → procs s !! p = Some q →
  noff (cur (p_hart s)) = 0 → sl_locked lk ≠ 0 → lock_free (sl_lock lk) →
  acquiresleep ch (s, lk) =
    Halt Slept (Pst (push (p_hart s))
      (<[p := Proc (held (p_lock q) (tp (p_hart s)))
                (with_state SLEEPING (with_chan (Some ch) (p_pub q))) (p_parent q) (p_priv q)]>
         (procs s)), lk).
Proof.
  intros Hok Hc Hq Hn H0 Hl. unfold acquiresleep. rewrite (bind_Ok _ _ _ _ _ (sp_acquire s lk Hok Hl)).
  erewrite bind_Halt; [|eapply while_sleep_halt;
    [unfold gets; cbn; by rewrite (proj2 (Z.eqb_neq _ 0) H0)
    |by apply zoom_Halt, (sleep_run s ch (sl_lock lk) p q)]].
  by destruct lk.
Qed.

Lemma holdingsleep_run s lk :
  pst_ok s → is_running s → lock_free (sl_lock lk) →
  holdingsleep (s, lk) =
    Ok (negb (sl_locked lk =? 0) && (sl_pid lk =? cur_pid s)) (synced s, lk).
Proof.
  intros Hok Hr Hl. unfold holdingsleep. rewrite (bind_Ok _ _ _ _ _ (sp_acquire s lk Hok Hl)).
  rewrite (bind_Ok (gets _) _ _ _ _ eq_refl). cbn [snd sl_locked].
  destruct (sl_locked lk =? 0) eqn:E; cbn [negb andb].
  - rewrite (bind_Ok (ret false) _ _ _ _ eq_refl).
    erewrite bind_Ok; [|by apply sp_release]. by destruct lk.
  - assert (∀ l, (do pid <- zoom sp_pst mypid; gets (λ t, sl_pid t.2 =? pid))
      (Pst (push (p_hart s)) (procs s), l)
      = Ok (sl_pid l =? cur_pid s) (Pst (push (p_hart s)) (procs s), l)) as Hpid.
    { intros l. unfold bind at 1, zoom. cbn. by rewrite mypid_push. }
    rewrite (bind_Ok _ _ _ _ _ (Hpid _)). cbn [sl_pid].
    erewrite bind_Ok; [|by apply sp_release]. by destruct lk.
Qed.

Lemma releasesleep_run ch s lk :
  pst_ok s → lock_free (sl_lock lk) →
  wp (releasesleep ch) (λ _ t, pst_same s t.1 ∧
    t.2 = Slk 0 (sl_lock lk) (sl_name lk) 0) (s, lk).
Proof.
  intros Hok Hl. unfold releasesleep. wp_step.
  eapply wp_of_Ok; [by apply sp_acquire|]. wp_step. unfold set_sl. wp_step. wp_step. wp_step. cbn.
  assert (pst_ok (Pst (push (p_hart s)) (procs s))) as Hok1.
  { split; [apply push_ok, Hok|apply Hok|apply Hok]. }
  wp_call wakeup_run; [done|]. intros _ s1 [Hh1 Hp1]. cbn in Hh1, Hp1. cbn.
  rewrite sync_push in Hh1 by apply Hok. unfold zoom, wp. cbn. rewrite Hh1.
  rewrite release_run by (done || apply Hok). cbn. split; [|done].
  split; cbn; [auto with hart| |].
  - rewrite Hp1. apply Forall2_same_length_lookup_2; [by rewrite length_imap|].
    intros i q q' Hi. rewrite list_lookup_imap, Hi. intros [= <-]. unfold wake_at.
    case_bool_decide; [apply proc_awake_refl|apply wake_awake].
  - intros i Hi. rewrite Hp1, list_lookup_imap, cur_push by apply Hok. cbn. rewrite Hi. unfold wake_at.
    rewrite bool_decide_true by done. by destruct (procs s !! i).
Qed.

(** A sleep lock is owned by a process. acquiresleep of a free lock returns with
    the caller's pid recorded, holdingsleep then answers true for the caller,
    releasesleep frees it; acquiresleep of a lock that is taken switches away
    with the caller SLEEPING on the lock, its spinlock released and the lock
    unchanged; and holdingsleep answers false for any process but the owner. *)
Theorem sleeplock_contract ch s lk p q :
  pst_ok s → cpu_proc (cur (p_hart s)) = Some p → procs s !! p = Some q →
  noff (cur (p_hart s)) = 0 → lock_free (sl_lock lk) →
  (sl_locked lk = 0 →
     wp (acquiresleep ch ;; do h <- holdingsleep; releasesleep ch ;; ret h)
        (λ h t, h = true ∧ sl_locked t.2 = 0 ∧ lock_free (sl_lock t.2) ∧ pst_same s t.1) (s, lk)) ∧
  (sl_locked lk ≠ 0 →
     (∃ t, acquiresleep ch (s, lk) = Halt Slept (t, lk) ∧
        p_pub (procs t !!! p) = with_state SLEEPING (with_chan (Some ch) (p_pub q))) ∧
     holdingsleep (s, lk) = Ok (sl_pid lk =? p_pid (p_pub q)) (synced s, lk)).
Proof.
  intros Hok Hc Hq Hn Hl.
  assert (is_running s) as Hr by (exists p; split; [done|by eapply lookup_lt_Some]).
  assert (cur_pid s = p_pid (p_pub q)) as Epid.
  { unfold cur_pid, pub. by rewrite Hc, (list_lookup_total_correct _ _ _ Hq). }
  split.
  - intros H0. wp_step. eapply wp_of_Ok; [by apply acquiresleep_run|]. wp_step.
    eapply wp_of_Ok; [apply holdingsleep_run; [by apply synced_ok|by apply (is_running_same s); [..|apply synced_same]|done]|].
    cbn [sl_locked sl_pid]. rewrite (cur_pid_same s (synced s)) by (done || apply synced_same). rewrite Z.eqb_refl.
    wp_step. wp_call releasesleep_run; [by apply synced_ok, synced_ok|done|]. intros [] [t l] [Hp Hl']. wp_step.
    cbn [fst snd] in *. subst l. split_and!; [done|done|done|].
    eapply pst_same_trans; [done|apply synced_same|].
    eapply pst_same_trans; [by apply synced_ok|apply synced_same|done].
  - intros H0. split.
    + eexists. split; [by apply acquiresleep_blocks|]. cbn.
      rewrite list_lookup_total_insert_eq; [done|by eapply lookup_lt_Some].
    + rewrite holdingsleep_run by done. by rewrite (proj2 (Z.eqb_neq _ 0) H0), Epid.
Qed.
End sleeplock.

Lemma sleeplock_contract_witness :
  wp (acquiresleep ChLog ;; do h <- holdingsleep; releasesleep ChLog ;; ret h)
     (λ h t, h = true ∧ sl_locked t.2 = 0 ∧ lock_free (sl_lock t.2) ∧ pst_same demo_pst t.1)
     (demo_pst, Slk 0 (Spin 0 "sleep lock" None) "inode" 0).
Proof.
  exact (proj1 (sleeplock_contract ChLog demo_pst (Slk 0 (Spin 0 "sleep lock" None) "inode" 0) 3 demo_run
    demo_pst_ok eq_refl eq_refl eq_refl (conj eq_refl eq_refl)) eq_refl).
Defined.
