(* ===== verification/Disk.v ===== *)
(** * The block device behind the buffer cache

    [BlockDev D] is what the buffer cache needs of the disk driver
    (virtio_disk_rw of kernel/virtio_disk.c, called with a locked buffer): a
    transfer of one block that returns when it is complete. A device has the
    image it was started with and the sequence of block writes that reached it
    since then; its contents are the image with these writes applied in order,
    which is also what a crash after any prefix of them leaves. *)
From S2P Require Import Prelude Memory Riscv.

(** fs.h *)
Definition BSIZE : Z := 1024.

Abbreviation block := (list Z).
Definition zero_block : block := replicate (Z.to_nat BSIZE) 0.

(** Contents of an image after a sequence of writes. *)
Fixpoint apply_writes (ws : list (Z * block)) (f : Z → block) (b : Z) : block :=
  match ws with
  | [] => f b
  | (b', d) :: ws' => apply_writes ws' (λ x, if decide (x = b') then d else f x) b
  end.

Class BlockDev (D : Type) : Type := {
  image : D → Z → block;              (* contents at start *)
  writes : D → list (Z * block);      (* writes completed since, oldest first *)
  (** [transfer b write data] moves block [b] to or from a buffer holding
      [data] and returns what the buffer holds afterwards. *)
  transfer : Z → bool → block → M D block;
  transfer_read d b data :
    ∃ d', transfer b false data d = Ok (apply_writes (writes d) (image d) b) d' ∧
          image d' = image d ∧ writes d' = writes d;
  transfer_write d b data :
    ∃ d', transfer b true data d = Ok data d' ∧
          image d' = image d ∧ writes d' = writes d ++ [(b, data)]
}.

Definition contents {D} `{BlockDev D} (d : D) : Z → block := apply_writes (writes d) (image d).

(** Pointwise update of an image. *)
Definition fupd (f : Z → block) (b : Z) (d : block) : Z → block :=
  λ x, if decide (x = b) then d else f x.

Lemma fupd_eq f b d : fupd f b d b = d.
Proof. unfold fupd. by rewrite decide_True. Qed.

Lemma fupd_ne f b d x : x ≠ b → fupd f b d x = f x.
Proof. intros. unfold fupd. by rewrite decide_False. Qed.

Lemma apply_writes_app ws ws' f b :
  apply_writes (ws ++ ws') f b = apply_writes ws' (apply_writes ws f) b.
Proof.
  revert f b. induction ws as [|[b' d] ws IH]; intros f b; cbn; [done|]. by rewrite IH.
Qed.

Lemma apply_writes_ext ws f g b : f b = g b → apply_writes ws f b = apply_writes ws g b.
Proof.
  revert f g. induction ws as [|[b' d] ws IH]; intros f g H; cbn; [done|].
  apply IH. by case_decide.
Qed.

Lemma apply_writes_snoc ws b d f x :
  apply_writes (ws ++ [(b, d)]) f x = fupd (apply_writes ws f) b d x.
Proof. by rewrite apply_writes_app. Qed.

Lemma apply_writes_notin ws f b : b ∉ ws.*1 → apply_writes ws f b = f b.
Proof.
  revert f. induction ws as [|[b' d] ws IH]; intros f Hb; cbn in *; [done|].
  apply not_elem_of_cons in Hb as [Hne Hb]. rewrite IH by done. by rewrite decide_False.
Qed.

(** The ideal device: an image and the writes made to it. *)
Record ram_disk : Type := RamDisk { rd_image : gmap Z block; rd_writes : list (Z * block) }.

Definition ram_get (d : ram_disk) (b : Z) : block :=
  apply_writes (rd_writes d) (λ x, default zero_block (rd_image d !! x)) b.

#[export, refine] Instance ram_disk_dev : BlockDev ram_disk := {
  image d b := default zero_block (rd_image d !! b);
  writes := rd_writes;
  transfer b write data :=
    if write : bool
    then modify (λ d, RamDisk (rd_image d) (rd_writes d ++ [(b, data)])) ;; ret data
    else gets (λ d, ram_get d b)
}.
Proof.
  - intros d b data. by eexists.
  - intros d b data. by eexists.
Defined.
