(* ===== verification/Bio.v ===== *)
(** * kernel/bio.c: the buffer cache

    The cache keeps NBUF buffers in a circular doubly linked list through
    [bcache.head], most recently used first. A pointer to a buffer is an index
    of [bcache.buf]; in the links [None] is [&bcache.head]. The code runs over a
    block device [D] (see Disk); [virtio_disk_rw] is the driver call on a
    buffer, with the driver's sector arithmetic. *)
From S2P Require Import Prelude Memory Riscv Spinlock Sched Sleeplock Disk.

Abbreviation bptr := (option nat).

(** struct buf *)
Record buf : Type := Buf {
  b_valid : Z;
  b_disk : Z;
  b_dev : Z;
  b_blockno : Z;
  b_lock : sleeplock;
  b_refcnt : Z;
  b_prev : bptr;
  b_next : bptr;
  b_data : block
}.
Definition buf0 : buf :=
  Buf 0 0 0 0 (Slk 0 (Spin 0 "" None) "" 0) 0 None None zero_block.
#[export] Instance buf_inhabited : Inhabited buf := populate buf0.

Definition with_lock (l : sleeplock) (b : buf) : buf :=
  Buf (b_valid b) (b_disk b) (b_dev b) (b_blockno b) l (b_refcnt b) (b_prev b) (b_next b) (b_data b).
Definition with_refcnt (r : Z) (b : buf) : buf :=
  Buf (b_valid b) (b_disk b) (b_dev b) (b_blockno b) (b_lock b) r (b_prev b) (b_next b) (b_data b).
Definition with_prev (p : bptr) (b : buf) : buf :=
  Buf (b_valid b) (b_disk b) (b_dev b) (b_blockno b) (b_lock b) (b_refcnt b) p (b_next b) (b_data b).
Definition with_next (p : bptr) (b : buf) : buf :=
  Buf (b_valid b) (b_disk b) (b_dev b) (b_blockno b) (b_lock b) (b_refcnt b) (b_prev b) p (b_data b).
Definition with_data (d : block) (b : buf) : buf :=
  Buf (b_valid b) (b_disk b) (b_dev b) (b_blockno b) (b_lock b) (b_refcnt b) (b_prev b) (b_next b) d.
Definition with_valid (v : Z) (b : buf) : buf :=
  Buf v (b_disk b) (b_dev b) (b_blockno b) (b_lock b) (b_refcnt b) (b_prev b) (b_next b) (b_data b).
(** The assignments of bget to a recycled buffer. *)
Definition recycle (dev blockno : Z) (b : buf) : buf :=
  Buf 0 (b_disk b) dev blockno (b_lock b) 1 (b_prev b) (b_next b) (b_data b).

(** bcache, with the process table and the device it runs over. *)
Record bst (D : Type) : Type := Bst {
  b_p : pst;
  bc_lock : spinlock;
  bufs : list buf;
  head_prev : bptr;
  head_next : bptr;
  b_dsk : D
}.
Arguments Bst {D}.
Arguments b_p {D}.
Arguments bc_lock {D}.
Arguments bufs {D}.
Arguments head_prev {D}.
Arguments head_next {D}.
Arguments b_dsk {D}.

Section bio.
Context {D : Type} `{!BlockDev D}.

Definition on_pst : lens (bst D) pst :=
  Lens b_p (λ p s, Bst p (bc_lock s) (bufs s) (head_prev s) (head_next s) (b_dsk s)).
Definition on_bc : lens (bst D) lockst :=
  Lens (λ s, (p_hart (b_p s), bc_lock s))
       (λ t s, Bst (Pst t.1 (procs (b_p s))) t.2 (bufs s) (head_prev s) (head_next s) (b_dsk s)).
Definition with_bufs (f : list buf → list buf) (s : bst D) : bst D :=
  Bst (b_p s) (bc_lock s) (f (bufs s)) (head_prev s) (head_next s) (b_dsk s).
Definition on_dsk : lens (bst D) D :=
  Lens b_dsk (λ d s, Bst (b_p s) (bc_lock s) (bufs s) (head_prev s) (head_next s) d).
(** The sleep lock of buffer [i] with the process table. *)
Definition on_blk (i : nat) : lens (bst D) slpst :=
  Lens (λ s, (b_p s, b_lock (bufs s !!! i)))
       (λ t s, Bst t.1 (bc_lock s) (alter (with_lock t.2) i (bufs s))
                 (head_prev s) (head_next s) (b_dsk s)).

Definition bufi (i : nat) (s : bst D) : buf := bufs s !!! i.
Definition set_buf (i : nat) (f : buf → buf) : M (bst D) unit := modify (with_bufs (alter f i)).

(** The links of the ring, head included. *)
Definition nextp (s : bst D) (p : bptr) : bptr :=
  match p with None => head_next s | Some i => b_next (bufi i s) end.
Definition prevp (s : bst D) (p : bptr) : bptr :=
  match p with None => head_prev s | Some i => b_prev (bufi i s) end.
Definition set_next (p q : bptr) : M (bst D) unit :=
  match p with
  | None => modify (λ s, Bst (b_p s) (bc_lock s) (bufs s) (head_prev s) q (b_dsk s))
  | Some i => set_buf i (with_next q)
  end.
Definition set_prev (p q : bptr) : M (bst D) unit :=
  match p with
  | None => modify (λ s, Bst (b_p s) (bc_lock s) (bufs s) q (head_next s) (b_dsk s))
  | Some i => set_buf i (with_prev q)
  end.

(** Insertion of buffer [i] after the head. *)
Definition link_front (i : nat) : M (bst D) unit :=
  do hn <- gets (λ s, nextp s None);
  set_next (Some i) hn ;;
  set_prev (Some i) None ;;
  do hn <- gets (λ s, nextp s None);
  set_prev hn (Some i) ;;
  set_next None (Some i).

Definition binit : M (bst D) unit :=
  zoom on_bc (initlock "bcache") ;;
  set_prev None None ;;
  set_next None None ;;
  each (seq 0 (Z.to_nat NBUF)) (λ i,
    do hn <- gets (λ s, nextp s None);
    set_next (Some i) hn ;;
    set_prev (Some i) None ;;
    zoom (on_blk i) (initsleeplock "buffer") ;;
    do hn <- gets (λ s, nextp s None);
    set_prev hn (Some i) ;;
    set_next None (Some i)).

(** The two scans of bget: the buffer that caches the block, and the least
    recently used buffer that is not referenced. The ring has NBUF buffers. *)
Definition scan (from : bptr) (step : buf → bptr) (test : buf → bool) : M (bst D) bptr :=
  loop (S (Z.to_nat NBUF))
    (λ p, match p with
          | None => ret (inr None)
          | Some i =>
              do b <- gets (bufi i);
              if test b then ret (inr (Some i)) else ret (inl (step b))
          end) from.

Definition bget (dev blockno : Z) : M (bst D) nat :=
  zoom on_bc acquire ;;
  do from <- gets head_next;
  do hit <- scan from b_next (λ b, (b_dev b =? dev) && (b_blockno b =? blockno));
  match hit with
  | Some i =>
      set_buf i (λ b, with_refcnt (u32 (b_refcnt b + 1)) b) ;;
      zoom on_bc release ;;
      zoom (on_blk i) (acquiresleep (ChBufLock i)) ;;
      ret i
  | None =>
      do from <- gets head_prev;
      do free <- scan from b_prev (λ b, b_refcnt b =? 0);
      match free with
      | Some i =>
          set_buf i (recycle dev blockno) ;;
          zoom on_bc release ;;
          zoom (on_blk i) (acquiresleep (ChBufLock i)) ;;
          ret i
      | None => panic "bget: no buffers"
      end
  end.

(** virtio_disk_rw(b, write): the sector number is computed in 32 bits. *)
Definition virtio_disk_rw (i : nat) (write : bool) : M (bst D) unit :=
  do b <- gets (bufi i);
  let sector := u32 (b_blockno b * (BSIZE `div` 512)) in
  do d <- zoom on_dsk (transfer (sector `div` (BSIZE `div` 512)) write (b_data b));
  set_buf i (with_data d).

Definition bread (dev blockno : Z) : M (bst D) nat :=
  do i <- bget dev blockno;
  do b <- gets (bufi i);
  when (b_valid b =? 0) (virtio_disk_rw i false ;; set_buf i (with_valid 1)) ;;
  ret i.

Definition bwrite (i : nat) : M (bst D) unit :=
  do h <- zoom (on_blk i) holdingsleep;
  if negb h then panic "bwrite" else virtio_disk_rw i true.

(** brelse's unlinking of a buffer no one waits for, and its move to the front. *)
Definition unlink (i : nat) : M (bst D) unit :=
  do n <- gets (λ s, nextp s (Some i));
  do p <- gets (λ s, prevp s (Some i));
  set_prev n p ;;
  do n <- gets (λ s, nextp s (Some i));
  do p <- gets (λ s, prevp s (Some i));
  set_next p n.

Definition brelse (i : nat) : M (bst D) unit :=
  do h <- zoom (on_blk i) holdingsleep;
  if negb h then panic "brelse"
  else
    zoom (on_blk i) (releasesleep (ChBufLock i)) ;;
    zoom on_bc acquire ;;
    set_buf i (λ b, with_refcnt (u32 (b_refcnt b - 1)) b) ;;
    do b <- gets (bufi i);
    when (b_refcnt b =? 0) (unlink i ;; link_front i) ;;
    zoom on_bc release.

Definition bpin (i : nat) : M (bst D) unit :=
  zoom on_bc acquire ;;
  set_buf i (λ b, with_refcnt (u32 (b_refcnt b + 1)) b) ;;
  zoom on_bc release.

Definition bunpin (i : nat) : M (bst D) unit :=
  zoom on_bc acquire ;;
  set_buf i (λ b, with_refcnt (u32 (b_refcnt b - 1)) b) ;;
  zoom on_bc release.

(** A store to b->data by the holder of the buffer. *)
Definition set_data (i : nat) (f : block → block) : M (bst D) unit :=
  set_buf i (λ b, with_data (f (b_data b)) b).
End bio.
