(* ===== verification/BioSpec.v ===== *)
(** * The LRU ring of kernel/bio.c as a list

    [links s l]: the next and prev pointers of the cache form the circular list
    [l], most recently used first. The pointer assignments of brelse are the
    move of one element to the front. *)
From S2P Require Import Prelude Memory Riscv Spinlock Sched Sleeplock Disk Bio.

(** ** Segments of a linked list *)
Section seg.
Implicit Types (f g : bptr → bptr) (p q : bptr) (l : list nat).

Fixpoint seg f p l q : Prop :=
  match l with
  | [] => f p = q
  | i :: l' => f p = Some i ∧ seg f (Some i) l' q
  end.

Definition fset f p q : bptr → bptr := λ x, if decide (x = p) then q else f x.
Definition lastp p l : bptr := match last l with Some x => Some x | None => p end.

Lemma fset_eq f p q : fset f p q p = q.
Proof. unfold fset. by rewrite decide_True. Qed.

Lemma fset_ne f p q x : x ≠ p → fset f p q x = f x.
Proof. intros. unfold fset. by rewrite decide_False. Qed.

Lemma seg_app f p l1 i l2 q : seg f p (l1 ++ i :: l2) q ↔ seg f p l1 (Some i) ∧ seg f (Some i) l2 q.
Proof.
  revert p. induction l1 as [|a l1 IH]; intros p; cbn; [done|]. rewrite IH. naive_solver.
Qed.

Lemma seg_head f p l : seg f p l None → f p = head l.
Proof. destruct l; cbn; [done|]. by intros [? _]. Qed.

Lemma seg_ext f g p l q : g p = f p → (∀ x, x ∈ l → g (Some x) = f (Some x)) → seg f p l q → seg g p l q.
Proof.
  revert p. induction l as [|i l IH]; intros p Hp Hl; cbn; [congruence|].
  intros [Hf Hs]. split; [congruence|]. apply IH; [by apply Hl; left| |done].
  intros x Hx. apply Hl. by right.
Qed.

Lemma seg_start f g p p' l q :
  g p' = f p → (∀ x, x ∈ l → g (Some x) = f (Some x)) → seg f p l q → seg g p' l q.
Proof.
  destruct l as [|i l]; cbn; [congruence|]. intros Hp Hl [Hf Hs]. split; [congruence|].
  eapply seg_ext; [by apply Hl; left| |done]. intros x Hx. apply Hl. by right.
Qed.

Lemma lastp_cons p i l : lastp p (i :: l) = lastp (Some i) l.
Proof. unfold lastp. rewrite last_cons. by destruct (last l). Qed.

Lemma lastp_in p l : lastp p l = p ∨ ∃ x, x ∈ l ∧ lastp p l = Some x.
Proof.
  unfold lastp. destruct (last l) as [x|] eqn:E; [right|by left].
  exists x. split; [|done]. apply last_Some in E as [l' ->]. set_solver.
Qed.

(** Unlinking [i]. *)
Lemma seg_skip f p l1 i l2 q :
  NoDup (l1 ++ i :: l2) → p ∉ Some <$> (l1 ++ i :: l2) →
  seg f p (l1 ++ i :: l2) q → seg (fset f (lastp p l1) (f (Some i))) p (l1 ++ l2) q.
Proof.
  revert p. induction l1 as [|a l1 IH]; intros p Hnd Hp; cbn [app].
  - cbn in *. intros [Hf Hs]. apply NoDup_cons in Hnd as [Hi _].
    change (lastp p []) with p.
    apply (seg_start f _ (Some i)); [by rewrite fset_eq| |done].
    intros x Hx. apply fset_ne. intros Heq. apply Hp. right. rewrite <- Heq.
    by apply list_elem_of_fmap_2.
  - intros [Hf Hs]. cbn [app] in *. rewrite lastp_cons. apply NoDup_cons in Hnd as [Ha Hnd].
    split.
    + rewrite fset_ne; [done|]. intros E. apply Hp.
      destruct (lastp_in (Some a) l1) as [E'|(x & Hx & E')]; rewrite E' in E; subst p.
      * cbn. by left.
      * cbn. right. apply list_elem_of_fmap_2. set_solver.
    + apply IH; [done| |done]. intros Hin. apply list_elem_of_fmap in Hin as (x & [= <-] & Hx). done.
Qed.

(** Retargeting the end of a segment. *)
Lemma seg_end f p l q q' :
  NoDup l → p ∉ Some <$> l → seg f p l q → seg (fset f (lastp p l) q') p l q'.
Proof.
  revert p. induction l as [|a l IH]; intros p Hnd Hp; cbn [seg].
  - intros _. apply fset_eq.
  - intros [Hf Hs]. rewrite lastp_cons. apply NoDup_cons in Hnd as [Ha Hnd]. split.
    + rewrite fset_ne; [done|]. intros E. apply Hp.
      destruct (lastp_in (Some a) l) as [E'|(x & Hx & E')]; rewrite E' in E; subst p; cbn.
      * by left.
      * right. by apply list_elem_of_fmap_2.
    + apply IH; [done| |done]. intros Hin. apply list_elem_of_fmap in Hin as (x & [= <-] & Hx). done.
Qed.
End seg.

(** ** The links of the cache *)
Section ring.
Context {D : Type} `{!BlockDev D}.
Implicit Types (s : bst D) (l : list nat) (p q : bptr).

Definition put_next p q s : bst D :=
  match p with
  | None => Bst (b_p s) (bc_lock s) (bufs s) (head_prev s) q (b_dsk s)
  | Some i => with_bufs (alter (with_next q) i) s
  end.
Definition put_prev p q s : bst D :=
  match p with
  | None => Bst (b_p s) (bc_lock s) (bufs s) q (head_next s) (b_dsk s)
  | Some i => with_bufs (alter (with_prev q) i) s
  end.

(** Valid pointers. *)
Definition pok s p : Prop := match p with None => True | Some i => (i < length (bufs s))%nat end.

Lemma set_next_run p q s : set_next p q s = Ok tt (put_next p q s).
Proof. by destruct p. Qed.

Lemma set_prev_run p q s : set_prev p q s = Ok tt (put_prev p q s).
Proof. by destruct p. Qed.

Lemma bufi_alter s f i j :
  (i < length (bufs s))%nat →
  bufi j (with_bufs (alter f i) s) = if decide (j = i) then f (bufi i s) else bufi j s.
Proof.
  intros Hi. unfold bufi. cbn. case_decide; subst.
  - by rewrite list_lookup_total_alter_eq.
  - by rewrite list_lookup_total_alter_ne.
Qed.

Lemma nextp_put_next p q s x : pok s p → nextp (put_next p q s) x = fset (nextp s) p q x.
Proof.
  unfold fset, pok. destruct p as [i|], x as [j|]; intros Hi; cbn -[bufi]; try done.
  - rewrite bufi_alter by done. destruct (decide (j = i)) as [->|].
    + by rewrite decide_True.
    + rewrite decide_False by congruence. done.
Qed.

Lemma prevp_put_next p q s x : pok s p → prevp (put_next p q s) x = prevp s x.
Proof.
  destruct p as [i|], x as [j|]; intros Hi; cbn -[bufi]; try done.
  rewrite bufi_alter by done. case_decide; by subst.
Qed.

Lemma prevp_put_prev p q s x : pok s p → prevp (put_prev p q s) x = fset (prevp s) p q x.
Proof.
  unfold fset, pok. destruct p as [i|], x as [j|]; intros Hi; cbn -[bufi]; try done.
  - rewrite bufi_alter by done. destruct (decide (j = i)) as [->|].
    + by rewrite decide_True.
    + rewrite decide_False by congruence. done.
Qed.

Lemma nextp_put_prev p q s x : pok s p → nextp (put_prev p q s) x = nextp s x.
Proof.
  destruct p as [i|], x as [j|]; intros Hi; cbn -[bufi]; try done.
  rewrite bufi_alter by done. case_decide; by subst.
Qed.

Lemma pok_put_next p q s x : pok (put_next p q s) x ↔ pok s x.
Proof. destruct p, x; cbn; rewrite ?length_alter; done. Qed.

Lemma pok_put_prev p q s x : pok (put_prev p q s) x ↔ pok s x.
Proof. destruct p, x; cbn; rewrite ?length_alter; done. Qed.

(** The ring holds [l] in this order. *)
Record links s l : Prop := {
  lk_next : seg (nextp s) None l None;
  lk_prev : seg (prevp s) None (reverse l) None;
  lk_nodup : NoDup l;
  lk_range : Forall (λ i, i < length (bufs s))%nat l
}.

(** States that differ in the links only. *)
Definition core (b : buf) : buf := with_prev None (with_next None b).
Record relinked s s' : Prop := {
  rl_p : b_p s' = b_p s;
  rl_lock : bc_lock s' = bc_lock s;
  rl_dsk : b_dsk s' = b_dsk s;
  rl_bufs : core <$> bufs s' = core <$> bufs s
}.

Lemma relinked_refl s : relinked s s.
Proof. done. Qed.

Lemma relinked_trans s1 s2 s3 : relinked s1 s2 → relinked s2 s3 → relinked s1 s3.
Proof. intros [H1 H2 H3 H4] [G1 G2 G3 G4]. split; [by rewrite G1|by rewrite G2|by rewrite G3|by rewrite G4]. Qed.

Lemma relinked_next p q s : relinked s (put_next p q s).
Proof.
  destruct p as [i|]; split; try done. cbn. apply list_eq. intros j.
  rewrite !list_lookup_fmap, list_lookup_alter. case_decide; subst; [|done]. by destruct (_ !! _).
Qed.

Lemma relinked_prev p q s : relinked s (put_prev p q s).
Proof.
  destruct p as [i|]; split; try done. cbn. apply list_eq. intros j.
  rewrite !list_lookup_fmap, list_lookup_alter. case_decide; subst; [|done]. by destruct (_ !! _).
Qed.

Lemma relinked_length s s' : relinked s s' → length (bufs s') = length (bufs s).
Proof.
  intros H. pose proof (f_equal length (rl_bufs _ _ H)) as E. by rewrite !length_fmap in E.
Qed.

Lemma relinked_lookup s s' i b' :
  relinked s s' → bufs s' !! i = Some b' →
  ∃ b, bufs s !! i = Some b ∧ core b' = core b.
Proof.
  intros H Hi. pose proof (f_equal (λ k, k !! i) (rl_bufs _ _ H)) as E. cbn in E.
  rewrite !list_lookup_fmap, Hi in E. destruct (bufs s !! i) as [b|]; [|done].
  exists b. split; [done|]. change (Some (core b') = Some (core b)) in E. congruence.
Qed.

Lemma not_none_fmap l : None ∉ Some <$> l.
Proof. intros H. apply list_elem_of_fmap in H as (x & ? & _). done. Qed.

Lemma pok_head s l : Forall (λ i, i < length (bufs s))%nat l → pok s (head l).
Proof. destruct l; [done|]. intros H. by apply Forall_cons in H as [? _]. Qed.

Lemma pok_last s l : Forall (λ i, i < length (bufs s))%nat l → pok s (last l).
Proof.
  intros H. destruct (last l) as [x|] eqn:E; [|done].
  apply last_Some in E as [l' ->]. apply Forall_app in H as [_ H]. by apply Forall_cons in H as [? _].
Qed.

Lemma lastp_None l : lastp None l = last l.
Proof. unfold lastp. by destruct (last l). Qed.

(** Unlinking [i] leaves the others in order. *)
Lemma unlink_run s l1 i l2 :
  links s (l1 ++ i :: l2) →
  ∃ s', unlink i s = Ok tt s' ∧ links s' (l1 ++ l2) ∧ relinked s s'.
Proof.
  intros [Hn Hp Hnd Hr]. rewrite reverse_app, reverse_cons, <- app_assoc in Hp. cbn [app] in Hp.
  assert (i < length (bufs s))%nat as Hi by (rewrite Forall_app, Forall_cons in Hr; tauto).
  assert (nextp s (Some i) = head l2) as En by (apply seg_app in Hn as [_ Hn]; by apply seg_head).
  assert (prevp s (Some i) = last l1) as Ep.
  { apply seg_app in Hp as [_ Hp]. rewrite (seg_head _ _ _ Hp). apply head_reverse. }
  assert (pok s (head l2)) as Hok2 by (apply pok_head; rewrite Forall_app, Forall_cons in Hr; tauto).
  assert (pok s (last l1)) as Hok1 by (apply pok_last; rewrite Forall_app in Hr; tauto).
  set (s1 := put_prev (head l2) (last l1) s). set (s2 := put_next (last l1) (head l2) s1).
  assert (nextp s1 (Some i) = head l2) as En1 by (unfold s1; by rewrite nextp_put_prev).
  assert (prevp s1 (Some i) = last l1) as Ep1.
  { unfold s1. rewrite prevp_put_prev by done. unfold fset. by case_decide. }
  assert (pok s1 (last l1)) as Hok1' by (by apply pok_put_prev).
  exists s2. split_and!.
  - unfold unlink. rewrite (bind_Ok (gets _) _ _ _ _ eq_refl), (bind_Ok (gets _) _ _ _ _ eq_refl), En, Ep.
    rewrite (bind_Ok _ _ _ _ _ (set_prev_run _ _ _)). fold s1.
    rewrite (bind_Ok (gets _) _ _ _ _ eq_refl), (bind_Ok (gets _) _ _ _ _ eq_refl), En1, Ep1.
    apply set_next_run.
  - assert (NoDup (l1 ++ l2)) as Hnd'.
    { rewrite <- Permutation_middle in Hnd. by apply NoDup_cons in Hnd as [_ ?]. }
    split; [| |done|].
    + apply (seg_ext (fset (nextp s) (lastp None l1) (nextp s (Some i)))); [| |
        apply seg_skip; [done|apply not_none_fmap|done]];
      intros; unfold s2; rewrite nextp_put_next by done; unfold fset, s1;
      rewrite lastp_None, nextp_put_prev, En by done; done.
    + rewrite reverse_app.
      apply (seg_ext (fset (prevp s) (lastp None (reverse l2)) (prevp s (Some i)))); [| |
        apply seg_skip; [|apply not_none_fmap|done]].
      1, 2: intros; unfold s2; rewrite prevp_put_next by done; unfold s1;
        rewrite prevp_put_prev, lastp_None, Ep by done; unfold fset;
        by rewrite last_reverse.
      apply (NoDup_Permutation_proper _ (l1 ++ i :: l2)); [|done].
      rewrite !reverse_Permutation, <- !Permutation_middle. constructor. apply Permutation_app_comm.
    + eapply Forall_impl; [|intros x Hx; unfold s2, s1; destruct (last l1), (head l2); cbn;
        rewrite ?length_alter; exact Hx]. rewrite Forall_app, Forall_cons in Hr. rewrite Forall_app. tauto.
  - eapply relinked_trans; [apply relinked_prev|apply relinked_next].
Qed.

(** Linking [i] after the head. *)
Lemma link_front_run s l i :
  links s l → i ∉ l → (i < length (bufs s))%nat →
  ∃ s', link_front i s = Ok tt s' ∧ links s' (i :: l) ∧ relinked s s'.
Proof.
  intros [Hn Hp Hnd Hr] Hi Hlt. pose proof (seg_head _ _ _ Hn) as Eh.
  set (s1 := put_next (Some i) (head l) s). set (s2 := put_prev (Some i) None s1).
  set (s3 := put_prev (head l) (Some i) s2). set (s4 := put_next None (Some i) s3).
  assert (pok s (head l)) as Hh by (by apply pok_head).
  assert (pok s1 (Some i)) as Hi1 by (by apply pok_put_next).
  assert (pok s2 (head l)) as Hh2 by (by apply pok_put_prev, pok_put_next).
  assert (∀ x, nextp s4 x = fset (fset (nextp s) (Some i) (head l)) None (Some i) x) as En.
  { intros x. unfold s4. rewrite nextp_put_next by done. unfold fset at 1 2. case_decide; [done|].
    unfold s3. rewrite nextp_put_prev by done. unfold s2. rewrite nextp_put_prev by done.
    unfold s1. by rewrite nextp_put_next. }
  assert (∀ x, prevp s4 x = fset (fset (prevp s) (Some i) None) (head l) (Some i) x) as Ep.
  { intros x. unfold s4. rewrite prevp_put_next by done. unfold s3. rewrite prevp_put_prev by done.
    unfold fset at 1 2. case_decide; [done|]. unfold s2. rewrite prevp_put_prev by done.
    unfold fset. case_decide; [done|]. unfold s1. by rewrite prevp_put_next. }
  assert (head l ≠ Some i) as Hhi by (intros E; apply Hi; by apply head_Some_elem_of in E).
  exists s4. split_and!.
  - unfold link_front. rewrite (bind_Ok (gets _) _ _ _ _ eq_refl), Eh.
    rewrite (bind_Ok _ _ _ _ _ (set_next_run _ _ _)), (bind_Ok _ _ _ _ _ (set_prev_run _ _ _)).
    fold s1 s2. rewrite (bind_Ok (gets _) _ _ _ _ eq_refl).
    assert (nextp s2 None = head l) as ->.
    { unfold s2. rewrite nextp_put_prev by done. unfold s1. by rewrite nextp_put_next. }
    by rewrite (bind_Ok _ _ _ _ _ (set_prev_run _ _ _)), set_next_run.
  - split.
    + split; [by rewrite En|]. apply (seg_start (nextp s) _ None); [| |done].
      * rewrite En, fset_ne, fset_eq by done. done.
      * intros x Hx. rewrite En, !fset_ne; [done|intros [= ->]; done|done].
    + rewrite reverse_cons. apply seg_app. split; [|].
      * apply (seg_ext (fset (prevp s) (lastp None (reverse l)) (Some i))).
        1: rewrite lastp_None, last_reverse, Ep; unfold fset; case_decide; done.
        { intros x Hx. rewrite lastp_None, last_reverse, Ep. unfold fset. case_decide; [done|].
          rewrite decide_False; [done|]. intros [= ->]. by rewrite elem_of_reverse in Hx. }
        eapply seg_end; [by rewrite reverse_Permutation|apply not_none_fmap|done].
      * change (prevp s4 (Some i) = None). rewrite Ep, fset_ne, fset_eq by done. done.
    + by constructor.
    + assert (length (bufs s4) = length (bufs s)) as ->.
      { unfold s4, s3, s2, s1. destruct (head l); cbn; by rewrite ?length_alter. }
      by constructor.
  - eapply relinked_trans; [|apply relinked_next]. eapply relinked_trans; [|apply relinked_prev].
    eapply relinked_trans; [apply relinked_next|apply relinked_prev].
Qed.
End ring.
