(* ===== verification/BioInv.v ===== *)
(** * The buffer cache as an abstract cache of blocks

    The abstract state [cache] of kernel/bio.c: what each block of the device
    reads as through the cache, the blocks in use with their reference counts,
    and the buffers the running process has locked. [binv s a] relates a state of
    the code to it; the lemmas give every operation of bio.c as an operation on
    [cache]. Blocks are those of device ROOTDEV, the only one the kernel has. *)
From S2P Require Import Prelude Memory Riscv Spinlock Sched Sleeplock Disk Bio BioSpec.

Record cache : Type := Cache {
  c_view : Z → block;
  c_refs : gmap Z Z;
  c_held : gmap nat Z
}.

Section inv.
Context {D : Type} `{!BlockDev D}.
Implicit Types (s : bst D) (d : D) (p : pst) (bs : list buf) (a : cache).

(** One buffer, between operations. *)
Record buf_ok p d (b : buf) : Prop := {
  bo_lk : lock_free (sl_lock (b_lock b));
  bo_locked : sl_locked (b_lock b) ≠ 0 →
    sl_pid (b_lock b) = cur_pid p ∧ b_refcnt b ≠ 0;
  bo_refcnt : 0 ≤ b_refcnt b < 2 ^ 32;
  bo_used : b_refcnt b ≠ 0 → b_valid b ≠ 0;
  bo_valid : b_valid b ≠ 0 → b_dev b = ROOTDEV ∧ 0 ≤ b_blockno b < 2 ^ 31;
  bo_dev : b_dev b = ROOTDEV → b_valid b ≠ 0;
  bo_clean : b_refcnt b = 0 → b_valid b ≠ 0 → b_data b = contents d (b_blockno b)
}.

(** Everything but the links. *)
Record cinv p bs d a : Prop := {
  ci_pst : pst_ok p;
  ci_run : is_running p;
  ci_len : length bs = Z.to_nat NBUF;
  ci_ok i b : bs !! i = Some b → buf_ok p d b;
  ci_uniq i j b b' : bs !! i = Some b → bs !! j = Some b' →
    b_dev b = ROOTDEV → b_dev b' = ROOTDEV → b_blockno b = b_blockno b' → i = j;
  ci_refs x n : c_refs a !! x = Some n ↔
    ∃ i b, bs !! i = Some b ∧ b_refcnt b = n ∧ n ≠ 0 ∧ b_blockno b = x;
  ci_held i x : c_held a !! i = Some x ↔
    ∃ b, bs !! i = Some b ∧ sl_locked (b_lock b) ≠ 0 ∧ b_blockno b = x;
  ci_view i b : bs !! i = Some b → b_valid b ≠ 0 → c_view a (b_blockno b) = b_data b;
  ci_miss x : (∀ i b, bs !! i = Some b → b_valid b ≠ 0 → b_blockno b ≠ x) →
    c_view a x = contents d x
}.

Record binv s a : Prop := {
  bi_cinv : cinv (b_p s) (bufs s) (b_dsk s) a;
  bi_lock : lock_free (bc_lock s);
  bi_ring : ∃ l, links s l ∧ length l = Z.to_nat NBUF
}.

(** [refs] with the count of [x] set to [n], absent when 0. *)
Definition set_ref (x n : Z) (refs : gmap Z Z) : gmap Z Z :=
  if decide (n = 0) then delete x refs else <[x := n]> refs.

Lemma lookup_set_ref x n refs y :
  set_ref x n refs !! y = if decide (y = x) then (if decide (n = 0) then None else Some n) else refs !! y.
Proof.
  unfold set_ref. repeat case_decide; subst.
  - apply lookup_delete_eq.
  - by rewrite lookup_delete_ne.
  - apply lookup_insert_eq.
  - by rewrite lookup_insert_ne.
Qed.

(** ** Changing one buffer *)

(** Buffer [i] becomes [b'], a buffer for block [x]: it was one already, or it was
    free and [x] was not in the cache. *)
Record replaces bs i b b' x : Prop := {
  rp_old : bs !! i = Some b;
  rp_valid : b_valid b' ≠ 0;
  rp_dev : b_dev b' = ROOTDEV;
  rp_blk : b_blockno b' = x;
  rp_key : b_dev b = ROOTDEV ∧ b_blockno b = x ∧ b_valid b ≠ 0 ∨
    b_refcnt b = 0 ∧ sl_locked (b_lock b) = 0 ∧
    ∀ j bj, bs !! j = Some bj → b_dev bj = ROOTDEV → b_blockno bj ≠ x
}.

Lemma replaces_other p bs d a i b b' x j bj :
  cinv p bs d a → replaces bs i b b' x → bs !! j = Some bj → j ≠ i →
  b_dev bj = ROOTDEV → b_blockno bj ≠ x.
Proof.
  intros Hc [Ho _ _ _ Hk] Hj Hne Hd Hx. destruct Hk as [(Hd' & Hx' & _)|(_ & _ & Hno)].
  - apply Hne. apply (ci_uniq _ _ _ _ Hc j i bj b); congruence.
  - by apply (Hno j bj).
Qed.

Lemma buf_ok_mono p p' d d' b :
  cur_pid p' = cur_pid p →
  (b_valid b ≠ 0 → contents d' (b_blockno b) = contents d (b_blockno b)) →
  buf_ok p d b → buf_ok p' d' b.
Proof.
  intros Hp Hd [?????? Hc]. split; rewrite ?Hp; try done. intros Hr Hv. rewrite Hd by done. auto.
Qed.

Definition set_held (i : nat) (x : Z) (locked : Z) (held : gmap nat Z) : gmap nat Z :=
  if decide (locked = 0) then delete i held else <[i := x]> held.

Lemma lookup_set_held i x l held j :
  set_held i x l held !! j =
    if decide (j = i) then (if decide (l = 0) then None else Some x) else held !! j.
Proof.
  unfold set_held. repeat case_decide; subst.
  - apply lookup_delete_eq.
  - by rewrite lookup_delete_ne.
  - apply lookup_insert_eq.
  - by rewrite lookup_insert_ne.
Qed.

Section put.
Context p bs d a (i : nat) (b b' : buf) (x : Z) p' d' (view' : Z → block).
Context (Hc : cinv p bs d a) (Hr : replaces bs i b b' x) (Hps : pst_same p p') (Hb' : buf_ok p' d' b')
  (Hd : ∀ y, y ≠ x → contents d' y = contents d y)
  (Hvx : view' x = b_data b') (Hvy : ∀ y, y ≠ x → view' y = c_view a y).

Lemma put_lookup j bj :
  <[i := b']> bs !! j = Some bj ↔ j = i ∧ bj = b' ∨ j ≠ i ∧ bs !! j = Some bj.
Proof.
  pose proof (lookup_lt_Some _ _ _ (rp_old _ _ _ _ _ Hr)). rewrite list_lookup_insert_Some. naive_solver.
Qed.

Lemma put_valid_ne j bj : bs !! j = Some bj → j ≠ i → b_valid bj ≠ 0 → b_blockno bj ≠ x.
Proof.
  intros Hj Hne Hv. eapply replaces_other; [done..|].
  by apply (bo_valid _ _ _ (ci_ok _ _ _ _ Hc j bj Hj)).
Qed.

Lemma put_refs y n :
  set_ref x (b_refcnt b') (c_refs a) !! y = Some n ↔
  ∃ j bj, <[i := b']> bs !! j = Some bj ∧ b_refcnt bj = n ∧ n ≠ 0 ∧ b_blockno bj = y.
Proof.
  rewrite lookup_set_ref. setoid_rewrite put_lookup. case_decide as Hy; subst.
  - split.
    + case_decide; [done|]. intros [= <-]. exists i, b'. rewrite (rp_blk _ _ _ _ _ Hr). auto.
    + intros (j & bj & [[-> ->]|[Hne Hj]] & <- & Hn & Hx); [by case_decide|].
      exfalso. apply (put_valid_ne j bj Hj Hne); [|done]. by apply (bo_used _ _ _ (ci_ok _ _ _ _ Hc j bj Hj)).
  - rewrite (ci_refs _ _ _ _ Hc). split.
    + intros (j & bj & Hj & Hn & Hn0 & Hyj). exists j, bj. split_and!; try done. right.
      split; [|done]. intros ->. rewrite (rp_old _ _ _ _ _ Hr) in Hj. injection Hj as <-.
      destruct (rp_key _ _ _ _ _ Hr) as [(_ & ? & _)|(? & _)]; congruence.
    + intros (j & bj & [[-> ->]|[Hne Hj]] & Hn & Hn0 & Hyj); [|eauto 10].
      exfalso. apply Hy. rewrite <- Hyj. apply Hr.
Qed.

Lemma put_held j y :
  set_held i x (sl_locked (b_lock b')) (c_held a) !! j = Some y ↔
  ∃ bj, <[i := b']> bs !! j = Some bj ∧ sl_locked (b_lock bj) ≠ 0 ∧ b_blockno bj = y.
Proof.
  rewrite lookup_set_held. setoid_rewrite put_lookup. case_decide; subst.
  - split.
    + case_decide; [done|]. intros [= <-]. exists b'. rewrite (rp_blk _ _ _ _ _ Hr). auto.
    + intros (bj & [[_ ->]|[? _]] & Hl & <-); [|done]. rewrite decide_False by done. by rewrite (rp_blk _ _ _ _ _ Hr).
  - rewrite (ci_held _ _ _ _ Hc). naive_solver.
Qed.

Lemma put_miss y :
  (∀ j bj, <[i := b']> bs !! j = Some bj → b_valid bj ≠ 0 → b_blockno bj ≠ y) →
  view' y = contents d' y.
Proof.
  intros Hno. assert (y ≠ x) as Hne.
  { intros ->. apply (Hno i b'); [apply put_lookup; auto|apply Hr|apply Hr]. }
  rewrite Hvy, Hd by done.
  destruct (decide (b_valid b ≠ 0 ∧ b_blockno b = y)) as [[Hv Hy]|Hn].
  - pose proof (rp_old _ _ _ _ _ Hr) as Hi. destruct (rp_key _ _ _ _ _ Hr) as [(_ & ? & _)|(Hr0 & _)]; [congruence|].
    rewrite <- Hy, (ci_view _ _ _ _ Hc i b Hi Hv). by apply (bo_clean _ _ _ (ci_ok _ _ _ _ Hc i b Hi)).
  - apply (ci_miss _ _ _ _ Hc). intros j bj Hj Hv.
    destruct (decide (j = i)) as [->|Hji].
    + rewrite (rp_old _ _ _ _ _ Hr) in Hj. injection Hj as <-. naive_solver.
    + apply (Hno j bj); [apply put_lookup; auto|done].
Qed.

(** Replacing one buffer keeps the invariant, for the abstract state with the
    new count, lock and contents of its block. *)
Lemma cinv_put :
  cinv p' (<[i := b']> bs) d'
    (Cache view' (set_ref x (b_refcnt b') (c_refs a)) (set_held i x (sl_locked (b_lock b')) (c_held a))).
Proof.
  split.
  - eapply pst_same_ok; [apply Hc|done].
  - eapply is_running_same; [apply Hc|apply Hc|done].
  - rewrite length_insert. apply Hc.
  - intros j bj Hj. apply put_lookup in Hj as [[-> ->]|[Hne Hj]]; [done|].
    eapply buf_ok_mono; [| |by apply (ci_ok _ _ _ _ Hc j)].
    + apply cur_pid_same; [apply Hc|apply Hc|done].
    + intros Hv. apply Hd. by apply (put_valid_ne j bj).
  - intros j k bj bk Hj Hk Hdj Hdk He.
    apply put_lookup in Hj as [[-> ->]|[Hne Hj]]; apply put_lookup in Hk as [[-> ->]|[Hne' Hk]]; [done| | |].
    + exfalso. rewrite (rp_blk _ _ _ _ _ Hr) in He.
      by apply (replaces_other p bs d a i b b' x k bk Hc Hr Hk Hne' Hdk).
    + exfalso. rewrite (rp_blk _ _ _ _ _ Hr) in He.
      by apply (replaces_other p bs d a i b b' x j bj Hc Hr Hj Hne Hdj).
    + by apply (ci_uniq _ _ _ _ Hc j k bj bk).
  - apply put_refs.
  - apply put_held.
  - intros j bj Hj Hv. cbn. apply put_lookup in Hj as [[-> ->]|[Hne Hj]].
    + by rewrite (rp_blk _ _ _ _ _ Hr).
    + rewrite Hvy by (by apply (put_valid_ne j bj)). by apply (ci_view _ _ _ _ Hc j).
  - apply put_miss.
Qed.
End put.

(** The invariant does not depend on the links. *)
Lemma cinv_core p bs bs' d a :
  core <$> bs' = core <$> bs → cinv p bs d a → cinv p bs' d a.
Proof.
  intros Hcore Hc.
  assert (∀ bs1 bs2 j bj, core <$> bs1 = core <$> bs2 → bs1 !! j = Some bj →
            ∃ bk, bs2 !! j = Some bk ∧ core bj = core bk) as Hl.
  { intros bs1 bs2 j bj E Hj. pose proof (f_equal (λ k, k !! j) E) as E'. cbn in E'.
    rewrite !list_lookup_fmap, Hj in E'. destruct (bs2 !! j) as [bk|]; [|done].
    exists bk. split; [done|]. change (Some (core bj) = Some (core bk)) in E'. congruence. }
  assert (∀ (P : buf → Prop) j, (∀ b1 b2, core b1 = core b2 → P b1 → P b2) →
            (∃ bj, bs' !! j = Some bj ∧ P bj) ↔ (∃ bj, bs !! j = Some bj ∧ P bj)) as Hiff.
  { intros P j HP. split; intros (bj & Hj & Hb).
    - destruct (Hl bs' bs j bj Hcore Hj) as (bk & Hk & E). eauto.
    - destruct (Hl bs bs' j bj (eq_sym Hcore) Hj) as (bk & Hk & E). eauto. }
  split.
  - apply Hc.
  - apply Hc.
  - rewrite <- (ci_len _ _ _ _ Hc). pose proof (f_equal length Hcore) as E. by rewrite !length_fmap in E.
  - intros j bj Hj. destruct (Hl _ _ _ _ Hcore Hj) as (bk & Hk & E).
    destruct (ci_ok _ _ _ _ Hc j bk Hk). destruct bj, bk. injection E as -> -> -> -> -> -> ->. by split.
  - intros j k bj bk Hj Hk.
    destruct (Hl _ _ _ _ Hcore Hj) as (cj & Hcj & Ej). destruct (Hl _ _ _ _ Hcore Hk) as (ck & Hck & Ek).
    destruct bj, bk, cj, ck. injection Ej as -> -> -> -> -> -> ->. injection Ek as -> -> -> -> -> -> ->.
    apply (ci_uniq _ _ _ _ Hc j k _ _ Hcj Hck).
  - intros x n. rewrite (ci_refs _ _ _ _ Hc). f_equiv. intros j. symmetry. apply Hiff.
    intros [] [] E. by injection E as -> -> -> -> -> -> ->.
  - intros j x. rewrite (ci_held _ _ _ _ Hc). symmetry. apply Hiff.
    intros [] [] E. by injection E as -> -> -> -> -> -> ->.
  - intros j bj Hj. destruct (Hl _ _ _ _ Hcore Hj) as (bk & Hk & E).
    pose proof (ci_view _ _ _ _ Hc j bk Hk) as Hv. destruct bj, bk.
    by injection E as -> -> -> -> -> -> ->.
  - intros x Hx. apply (ci_miss _ _ _ _ Hc). intros j bj Hj Hv.
    destruct (Hl bs bs' j bj (eq_sym Hcore) Hj) as (bk & Hk & E).
    pose proof (Hx j bk Hk) as Hy. destruct bj, bk. injection E as -> -> -> -> -> -> ->. by apply Hy.
Qed.

(** Fewer than NBUF blocks in use: some buffer is free. *)
Lemma free_buffer p bs d a :
  cinv p bs d a → (size (c_refs a) < Z.to_nat NBUF)%nat →
  ∃ i b, bs !! i = Some b ∧ b_refcnt b = 0.
Proof.
  intros Hc Hs.
  destruct (decide (Exists (λ b, b_refcnt b = 0) bs)) as [He|Hne].
  { apply Exists_exists in He as (b & Hb & H0). apply list_elem_of_lookup in Hb as [i Hi]. eauto. }
  exfalso. apply not_Exists_Forall in Hne; [|intros b; apply _]. rewrite Forall_lookup in Hne.
  assert (NoDup (b_blockno <$> bs)) as Hnd.
  { apply NoDup_alt. intros i j x Hi Hj. rewrite list_lookup_fmap in Hi, Hj.
    destruct (bs !! i) as [b|] eqn:Ei; [|done]. destruct (bs !! j) as [b'|] eqn:Ej; [|done].
    injection Hi as Hi. injection Hj as Hj.
    apply (ci_uniq _ _ _ _ Hc i j b b' Ei Ej); [| |congruence].
    - apply (bo_valid _ _ _ (ci_ok _ _ _ _ Hc i b Ei)), (bo_used _ _ _ (ci_ok _ _ _ _ Hc i b Ei)), (Hne i b Ei).
    - apply (bo_valid _ _ _ (ci_ok _ _ _ _ Hc j b' Ej)), (bo_used _ _ _ (ci_ok _ _ _ _ Hc j b' Ej)), (Hne j b' Ej). }
  assert (list_to_set (b_blockno <$> bs) ⊆@{gset Z} dom (c_refs a)) as Hsub.
  { intros x Hx. apply elem_of_list_to_set, list_elem_of_fmap in Hx as (b & -> & Hb).
    apply list_elem_of_lookup in Hb as [i Hi]. apply elem_of_dom. exists (b_refcnt b).
    apply (ci_refs _ _ _ _ Hc). exists i, b. split_and!; [done|done|by apply (Hne i)|done]. }
  apply subseteq_size in Hsub. rewrite size_list_to_set, length_fmap, size_dom, (ci_len _ _ _ _ Hc) in Hsub by done.
  lia.
Qed.

Lemma size_blocks (l : list Z) : (size (list_to_set l : gset Z) ≤ length l)%nat.
Proof.
  induction l as [|x l IH]; cbn [list_to_set length]; [by rewrite size_empty|].
  rewrite size_union_alt, size_singleton.
  assert (size ((list_to_set l : gset Z) ∖ {[x]}) ≤ size (list_to_set l : gset Z))%nat; [|lia].
  apply subseteq_size. set_solver.
Qed.

(** There are at most as many blocks in use as buffers. *)
Lemma refs_bounded s a : binv s a → (size (c_refs a) ≤ Z.to_nat NBUF)%nat.
Proof.
  intros [Hc _ _]. rewrite <- (ci_len _ _ _ _ Hc), <- (length_fmap b_blockno), <- size_dom.
  etransitivity; [|apply (size_blocks (b_blockno <$> bufs s))]. apply subseteq_size. intros x Hx.
  apply elem_of_dom in Hx as [n Hn]. apply (ci_refs _ _ _ _ Hc) in Hn as (i & b & Hi & _ & _ & Hb).
  apply elem_of_list_to_set, list_elem_of_fmap. exists b. split; [done|]. by eapply list_elem_of_lookup_2.
Qed.

(** The reference count of a buffer, from the abstract state. *)
Lemma refs_lookup p bs d a i b :
  cinv p bs d a → bs !! i = Some b → b_valid b ≠ 0 → default 0 (c_refs a !! b_blockno b) = b_refcnt b.
Proof.
  intros Hc Hi Hv. destruct (c_refs a !! b_blockno b) as [n|] eqn:E; cbn.
  - apply (ci_refs _ _ _ _ Hc) in E as (j & bj & Hj & Hn & Hn0 & Hx).
    assert (j = i) as ->; [|congruence].
    apply (ci_uniq _ _ _ _ Hc j i bj b Hj Hi); [| |done].
    + apply (bo_valid _ _ _ (ci_ok _ _ _ _ Hc j bj Hj)), (bo_used _ _ _ (ci_ok _ _ _ _ Hc j bj Hj)). congruence.
    + by apply (bo_valid _ _ _ (ci_ok _ _ _ _ Hc i b Hi)).
  - destruct (decide (b_refcnt b = 0)); [done|].
    assert (c_refs a !! b_blockno b = Some (b_refcnt b)); [|congruence].
    apply (ci_refs _ _ _ _ Hc). eauto 10.
Qed.

(** Only the values of the view matter. *)
Lemma binv_ext s f g r h :
  (∀ x, g x = f x) → binv s (Cache f r h) → binv s (Cache g r h).
Proof.
  intros Hfg [Hc Hl Hr]. split; [|done|done]. destruct Hc as [H1 H2 H3 H4 H5 H6 H7 H8 H9].
  split; try done; cbn in *.
  - intros i b Hi Hv. rewrite Hfg. by apply (H8 i).
  - intros x Hx. rewrite Hfg. by apply H9.
Qed.
End inv.
