(* ===== verification/BioOps.v ===== *)
(** * The operations of kernel/bio.c on the abstract cache

    For a state related to the abstract cache [a] by [binv]: what bread, bwrite,
    brelse, bpin, bunpin and a store to b->data do to [a] and to the device. *)
From S2P Require Import Prelude Memory Riscv Spinlock Sched Sleeplock Disk Bio BioSpec BioInv.

Section run.
Context {D : Type} `{!BlockDev D}.
Implicit Types (s : bst D) (d : D) (l : list nat).

(** ** Critical sections on bcache.lock *)
Definition with_p (q : pst) s : bst D :=
  Bst q (bc_lock s) (bufs s) (head_prev s) (head_next s) (b_dsk s).
Definition inside s : bst D :=
  Bst (Pst (push (p_hart (b_p s))) (procs (b_p s))) (held (bc_lock s) (tp (p_hart (b_p s))))
    (bufs s) (head_prev s) (head_next s) (b_dsk s).

Lemma bc_acquire s :
  hart_ok (p_hart (b_p s)) → lock_free (bc_lock s) → zoom on_bc acquire s = Ok tt (inside s).
Proof. intros Hh Hl. unfold zoom. cbn. by rewrite acquire_run. Qed.

Lemma bc_release s :
  hart_ok (p_hart (b_p s)) → lock_free (bc_lock s) →
  zoom on_bc release (inside s) = Ok tt (with_p (synced (b_p s)) s).
Proof. intros Hh Hl. unfold zoom. cbn. by rewrite release_run. Qed.

(** The links do not depend on the rest of the state. *)
Lemma links_ext s s' l :
  (∀ x, nextp s' x = nextp s x) → (∀ x, prevp s' x = prevp s x) →
  length (bufs s') = length (bufs s) → links s l → links s' l.
Proof.
  intros Hn Hp Hl [H1 H2 H3 H4]. split; [| |done|by rewrite Hl].
  - eapply seg_ext; [| |exact H1]; intros; apply Hn.
  - eapply seg_ext; [| |exact H2]; intros; apply Hp.
Qed.

Lemma links_alter s l f i :
  (∀ b, b_next (f b) = b_next b) → (∀ b, b_prev (f b) = b_prev b) →
  links s l → links (with_bufs (alter f i) s) l.
Proof.
  intros Hn Hp Hl. destruct (decide (i < length (bufs s))%nat) as [Hi|Hi].
  - apply (links_ext s); [| |cbn; by rewrite length_alter|done].
    + intros [j|]; cbn -[bufi]; [|done]. rewrite bufi_alter by done. case_decide; [|done]. by subst.
    + intros [j|]; cbn -[bufi]; [|done]. rewrite bufi_alter by done. case_decide; [|done]. by subst.
  - replace (with_bufs (alter f i) s) with s; [done|]. unfold with_bufs.
    assert (alter f i (bufs s) = bufs s) as ->; [|by destruct s].
    apply list_eq. intros j. rewrite list_lookup_alter. case_decide; [|done].
    subst. by rewrite lookup_ge_None_2 by lia.
Qed.

(** The ring holds every buffer. *)
Lemma links_perm s l :
  links s l → length l = Z.to_nat NBUF → length (bufs s) = Z.to_nat NBUF → l ≡ₚ seq 0 (Z.to_nat NBUF).
Proof.
  intros [_ _ Hnd Hr] Hl Hlen. apply submseteq_length_Permutation.
  - apply NoDup_submseteq; [done|]. intros x Hx. apply elem_of_seq.
    rewrite Forall_forall in Hr. specialize (Hr x Hx). lia.
  - rewrite length_seq. lia.
Qed.

Lemma links_all s l :
  links s l → length l = Z.to_nat NBUF → length (bufs s) = Z.to_nat NBUF →
  ∀ i b, bufs s !! i = Some b → i ∈ l.
Proof.
  intros Hk Hl Hlen i b Hi. apply lookup_lt_Some in Hi. rewrite (links_perm s l Hk Hl Hlen).
  apply elem_of_seq. lia.
Qed.

(** ** The scans of bget *)
Lemma scan_run (nxt : bptr → bptr) step test s p l :
  (∀ i, nxt (Some i) = step (bufi i s)) → seg nxt p l None → (length l ≤ Z.to_nat NBUF)%nat →
  scan (nxt p) step test s = Ok (List.find (λ i, test (bufi i s)) l) s.
Proof.
  intros Hstep Hs Hl. unfold scan.
  cut (∀ fuel p l, seg nxt p l None → (length l < fuel)%nat →
    loop fuel (λ p, match p with
          | None => ret (inr None)
          | Some i => do b <- gets (bufi i); if test b then ret (inr (Some i)) else ret (inl (step b))
          end) (nxt p) s = Ok (List.find (λ i, test (bufi i s)) l) s).
  { intros H. by apply H; [|lia]. }
  clear p l Hs Hl. induction fuel as [|fuel IH]; intros p l Hs Hl; [lia|].
  destruct l as [|i l]; cbn [seg] in Hs.
  - by rewrite Hs.
  - destruct Hs as [Hp Hs]. rewrite Hp. cbn [loop List.find].
    unfold bind at 1, bind at 1, gets at 1. destruct (test (bufi i s)); [done|].
    unfold ret at 1. rewrite <- Hstep. apply IH; [done|cbn in Hl; lia].
Qed.

Lemma find_hit test s l i : List.find (λ i, test (bufi i s)) l = Some i → i ∈ l ∧ test (bufi i s) = true.
Proof. intros H. apply List.find_some in H as [Hi Ht]. split; [by apply list_elem_of_In|done]. Qed.

Lemma find_none_all (test : nat → bool) l : (∀ i, i ∈ l → test i = false) → List.find test l = None.
Proof.
  induction l as [|i l IH]; intros H; cbn; [done|]. rewrite (H i) by (by left). apply IH. intros j Hj. apply H. by right.
Qed.

Lemma find_miss test s l : List.find (λ i, test (bufi i s)) l = None → ∀ i, i ∈ l → test (bufi i s) = false.
Proof. intros H i Hi. apply (List.find_none _ _ H). by apply list_elem_of_In. Qed.

Lemma bufi_lookup s i b : bufs s !! i = Some b → bufi i s = b.
Proof. apply list_lookup_total_correct. Qed.

(** ** One buffer *)
Definition upd_buf (i : nat) (b : buf) s : bst D := with_bufs (insert i b) s.

Lemma set_buf_run s i b f : bufs s !! i = Some b → set_buf i f s = Ok tt (upd_buf i (f b) s).
Proof.
  intros Hi. unfold set_buf, modify, upd_buf, with_bufs. do 2 f_equal. by apply list_alter_at.
Qed.

Lemma upd_upd i b b' s : upd_buf i b' (upd_buf i b s) = upd_buf i b' s.
Proof. unfold upd_buf, with_bufs. cbn. by rewrite list_insert_insert_eq. Qed.

Lemma upd_lookup s i b b' : bufs s !! i = Some b → bufs (upd_buf i b' s) !! i = Some b'.
Proof. intros Hi. cbn. apply list_lookup_insert_eq. by eapply lookup_lt_Some. Qed.

Lemma synced_synced p : pst_ok p → synced (synced p) = synced p.
Proof. intros Hok. unfold synced. cbn. by rewrite sync_sync by apply Hok. Qed.

Lemma is_running_synced p : pst_ok p → is_running p → is_running (synced p).
Proof. intros Hok Hr. eapply is_running_same; [done|done|apply synced_same]. Qed.

Lemma cur_pid_synced p : pst_ok p → is_running p → cur_pid (synced p) = cur_pid p.
Proof. intros Hok Hr. apply cur_pid_same; [done|done|apply synced_same]. Qed.

(** The lock a process holds after acquiresleep. *)
Definition mine (p : pst) (l : sleeplock) : sleeplock := Slk 1 (sl_lock l) (sl_name l) (cur_pid p).

Lemma blk_acquire s i b ch :
  bufs s !! i = Some b → pst_ok (b_p s) → is_running (b_p s) →
  sl_locked (b_lock b) = 0 → lock_free (sl_lock (b_lock b)) →
  zoom (on_blk i) (acquiresleep ch) s =
    Ok tt (with_p (synced (b_p s)) (upd_buf i (with_lock (mine (b_p s) (b_lock b)) b) s)).
Proof.
  intros Hi Hok Hr H0 Hl. unfold zoom. cbn. rewrite (list_lookup_total_correct _ _ _ Hi).
  rewrite acquiresleep_run by done. cbn. unfold upd_buf, with_bufs, with_p. cbn.
  by rewrite (list_alter_at _ _ _ b Hi).
Qed.

Lemma blk_holding s i b :
  bufs s !! i = Some b → pst_ok (b_p s) → is_running (b_p s) → lock_free (sl_lock (b_lock b)) →
  zoom (on_blk i) holdingsleep s =
    Ok (negb (sl_locked (b_lock b) =? 0) && (sl_pid (b_lock b) =? cur_pid (b_p s)))
       (with_p (synced (b_p s)) s).
Proof.
  intros Hi Hok Hr Hl. unfold zoom. cbn. rewrite (list_lookup_total_correct _ _ _ Hi).
  rewrite holdingsleep_run by done. cbn. unfold with_p.
  rewrite (list_alter_at _ _ _ b Hi), list_insert_id; [done|]. by destruct b.
Qed.

(** The code of bget after it has chosen buffer [i] and changed it to [b']. *)
Lemma bget_take s i b f :
  bufs s !! i = Some b → pst_ok (b_p s) → is_running (b_p s) → lock_free (bc_lock s) →
  b_lock (f b) = b_lock b → sl_locked (b_lock b) = 0 → lock_free (sl_lock (b_lock b)) →
  (set_buf i f ;; zoom on_bc release ;; zoom (on_blk i) (acquiresleep (ChBufLock i)) ;; ret i) (inside s) =
    Ok i (with_p (synced (b_p s)) (upd_buf i (with_lock (mine (b_p s) (b_lock b)) (f b)) s)).
Proof.
  intros Hi Hok Hr Hbc Hf H0 Hl.
  rewrite (bind_Ok _ _ _ _ _ (set_buf_run (inside s) i b f Hi)).
  change (upd_buf i (f b) (inside s)) with (inside (upd_buf i (f b) s)).
  erewrite bind_Ok; [|apply bc_release; [apply Hok|done]].
  erewrite bind_Ok.
  2: { apply (blk_acquire _ i (f b)).
       - by apply (upd_lookup s i b).
       - by apply synced_ok.
       - by apply is_running_synced.
       - by rewrite Hf.
       - by rewrite Hf. }
  unfold ret. cbn [b_p with_p upd_buf with_bufs]. rewrite Hf, synced_synced by done.
  unfold mine. rewrite cur_pid_synced by done. f_equal.
  unfold with_p, upd_buf, with_bufs. cbn. by rewrite list_insert_insert_eq.
Qed.

Definition is_block (dev x : Z) (b : buf) : bool := (b_dev b =? dev) && (b_blockno b =? x).

(** bget finds the buffer of a block that is cached. *)
Lemma bget_hit s l i b dev x :
  pst_ok (b_p s) → is_running (b_p s) → lock_free (bc_lock s) →
  links s l → length l = Z.to_nat NBUF →
  List.find (λ i, is_block dev x (bufi i s)) l = Some i → bufs s !! i = Some b →
  sl_locked (b_lock b) = 0 → lock_free (sl_lock (b_lock b)) →
  bget dev x s = Ok i (with_p (synced (b_p s))
    (upd_buf i (with_lock (mine (b_p s) (b_lock b)) (with_refcnt (u32 (b_refcnt b + 1)) b)) s)).
Proof.
  intros Hok Hr Hbc Hl Hlen Hf Hi H0 Hlk. unfold bget.
  rewrite (bind_Ok _ _ _ _ _ (bc_acquire s (ps_hart _ Hok) Hbc)).
  rewrite (bind_Ok (gets _) _ _ _ _ eq_refl).
  erewrite bind_Ok.
  2: { apply (scan_run (nextp (inside s)) b_next (is_block dev x) (inside s) None l);
         [done|apply (lk_next _ _ Hl)|lia]. }
  change (List.find (λ i, is_block dev x (bufi i (inside s))) l)
    with (List.find (λ i, is_block dev x (bufi i s)) l).
  rewrite Hf. by apply (bget_take s i b (λ b, with_refcnt (u32 (b_refcnt b + 1)) b)).
Qed.

(** bget recycles the least recently used free buffer for a block that is not. *)
Lemma bget_miss s l i b dev x :
  pst_ok (b_p s) → is_running (b_p s) → lock_free (bc_lock s) →
  links s l → length l = Z.to_nat NBUF →
  List.find (λ i, is_block dev x (bufi i s)) l = None →
  List.find (λ i, b_refcnt (bufi i s) =? 0) (reverse l) = Some i → bufs s !! i = Some b →
  sl_locked (b_lock b) = 0 → lock_free (sl_lock (b_lock b)) →
  bget dev x s = Ok i (with_p (synced (b_p s))
    (upd_buf i (with_lock (mine (b_p s) (b_lock b)) (recycle dev x b)) s)).
Proof.
  intros Hok Hr Hbc Hl Hlen Hf Hf2 Hi H0 Hlk. unfold bget.
  rewrite (bind_Ok _ _ _ _ _ (bc_acquire s (ps_hart _ Hok) Hbc)).
  rewrite (bind_Ok (gets _) _ _ _ _ eq_refl).
  erewrite bind_Ok.
  2: { apply (scan_run (nextp (inside s)) b_next (is_block dev x) (inside s) None l);
         [done|apply (lk_next _ _ Hl)|lia]. }
  change (List.find (λ i, is_block dev x (bufi i (inside s))) l)
    with (List.find (λ i, is_block dev x (bufi i s)) l). rewrite Hf.
  rewrite (bind_Ok (gets _) _ _ _ _ eq_refl).
  erewrite bind_Ok.
  2: { apply (scan_run (prevp (inside s)) b_prev (λ b, b_refcnt b =? 0) (inside s) None (reverse l));
         [done|apply (lk_prev _ _ Hl)|rewrite length_reverse; lia]. }
  change (λ i, b_refcnt (bufi i (inside s)) =? 0) with (λ i, b_refcnt (bufi i s) =? 0).
  rewrite Hf2. by apply (bget_take s i b (recycle dev x)).
Qed.

(** ** Transfers *)
Lemma sector_block x : 0 ≤ x < 2 ^ 31 → u32 (x * (BSIZE `div` 512)) `div` (BSIZE `div` 512) = x.
Proof. intros Hx. change (BSIZE `div` 512) with 2. rewrite u32_small by lia. dlia. Qed.

Definition with_dsk d s : bst D :=
  Bst (b_p s) (bc_lock s) (bufs s) (head_prev s) (head_next s) d.

Lemma disk_read s i b :
  bufs s !! i = Some b → 0 ≤ b_blockno b < 2 ^ 31 →
  ∃ d', virtio_disk_rw i false s =
          Ok tt (with_dsk d' (upd_buf i (with_data (contents (b_dsk s) (b_blockno b)) b) s)) ∧
        image d' = image (b_dsk s) ∧ writes d' = writes (b_dsk s).
Proof.
  intros Hi Hx. destruct (transfer_read (b_dsk s) (b_blockno b) (b_data b)) as (d' & E & Him & Hw).
  exists d'. split; [|done]. unfold virtio_disk_rw. rewrite (bind_Ok (gets _) _ _ _ _ eq_refl).
  rewrite (bufi_lookup _ _ _ Hi), sector_block by done.
  erewrite bind_Ok; [|by apply zoom_Ok]. by apply (set_buf_run (with_dsk d' s)).
Qed.

Lemma disk_write s i b :
  bufs s !! i = Some b → 0 ≤ b_blockno b < 2 ^ 31 →
  ∃ d', virtio_disk_rw i true s = Ok tt (with_dsk d' s) ∧
        image d' = image (b_dsk s) ∧ writes d' = writes (b_dsk s) ++ [(b_blockno b, b_data b)].
Proof.
  intros Hi Hx. destruct (transfer_write (b_dsk s) (b_blockno b) (b_data b)) as (d' & E & Him & Hw).
  exists d'. split; [|done]. unfold virtio_disk_rw. rewrite (bind_Ok (gets _) _ _ _ _ eq_refl).
  rewrite (bufi_lookup _ _ _ Hi), sector_block by done.
  erewrite bind_Ok; [|by apply zoom_Ok]. cbn [over on_dsk].
  rewrite (set_buf_run (with_dsk d' s) i b) by done. f_equal.
  unfold upd_buf, with_bufs, with_dsk. cbn. rewrite list_insert_id; [done|]. rewrite Hi. by destruct b.
Qed.

Lemma same_contents d d' : image d' = image d → writes d' = writes d → contents d' = contents d.
Proof. unfold contents. by intros -> ->. Qed.

(** Reading a block does not change the device. *)
Definition dsk_same d d' : Prop := image d' = image d ∧ writes d' = writes d.

(** What an operation that leaves the device alone promises. *)
Record bstep s s' a' : Prop := {
  bs_inv : binv s' a';
  bs_pst : pst_same (b_p s) (b_p s');
  bs_dsk : dsk_same (b_dsk s) (b_dsk s')
}.

(** Assembling the invariant after a change of one buffer. *)
Lemma binv_upd s a i b b' x s' view' :
  binv s a → replaces (bufs s) i b b' x → pst_same (b_p s) (b_p s') →
  buf_ok (b_p s') (b_dsk s') b' → bc_lock s' = bc_lock s →
  core <$> bufs s' = core <$> <[i := b']> (bufs s) →
  (∀ y, y ≠ x → contents (b_dsk s') y = contents (b_dsk s) y) →
  view' x = b_data b' → (∀ y, y ≠ x → view' y = c_view a y) →
  (∃ l, links s' l ∧ length l = Z.to_nat NBUF) →
  binv s' (Cache view' (set_ref x (b_refcnt b') (c_refs a)) (set_held i x (sl_locked (b_lock b')) (c_held a))).
Proof.
  intros [Hc Hl _] Hr Hp Hb Hlk Hcore Hd Hvx Hvy Hring. split; [|by rewrite Hlk|done].
  eapply cinv_core; [done|]. by eapply cinv_put.
Qed.

(** ** bread *)
Lemma links_upd s l i b b' q d :
  bufs s !! i = Some b → b_next b' = b_next b → b_prev b' = b_prev b →
  links s l → links (with_dsk d (with_p q (upd_buf i b' s))) l.
Proof.
  intros Hi Hn Hp Hl. pose proof (lookup_lt_Some _ _ _ Hi).
  apply (links_ext s); [| |cbn; by rewrite length_insert|done].
  - intros [j|]; [|done]. unfold nextp, bufi. cbn. destruct (decide (i = j)) as [->|].
    + by rewrite list_lookup_total_insert_eq, (list_lookup_total_correct _ _ _ Hi).
    + by rewrite list_lookup_total_insert_ne.
  - intros [j|]; [|done]. unfold prevp, bufi. cbn. destruct (decide (i = j)) as [->|].
    + by rewrite list_lookup_total_insert_eq, (list_lookup_total_correct _ _ _ Hi).
    + by rewrite list_lookup_total_insert_ne.
Qed.

(** What bread(ROOTDEV, x) makes of the abstract cache. *)
Definition c_bread (i : nat) (x : Z) (a : cache) : cache :=
  Cache (c_view a) (<[x := default 0 (c_refs a !! x) + 1]> (c_refs a)) (<[i := x]> (c_held a)).

Lemma not_held_unlocked s a i b x :
  binv s a → (∀ j, c_held a !! j ≠ Some x) → bufs s !! i = Some b → b_blockno b = x →
  sl_locked (b_lock b) = 0.
Proof.
  intros Hb Hh Hi Hx. destruct (decide (sl_locked (b_lock b) = 0)); [done|].
  exfalso. apply (Hh i), (ci_held _ _ _ _ (bi_cinv _ _ Hb)). eauto.
Qed.

Lemma set_ref_pos x n refs : n ≠ 0 → set_ref x n refs = <[x := n]> refs.
Proof. intros. unfold set_ref. by rewrite decide_False. Qed.

Lemma bread_hit s a l x i :
  binv s a → 0 ≤ x < 2 ^ 31 → (∀ j, c_held a !! j ≠ Some x) →
  default 0 (c_refs a !! x) + 1 < 2 ^ 32 → links s l → length l = Z.to_nat NBUF →
  List.find (λ i, is_block ROOTDEV x (bufi i s)) l = Some i →
  wp (bread ROOTDEV x) (λ j s', bstep s s' (c_bread j x a) ∧ c_held a !! j = None) s.
Proof.
  intros Hb Hx Hh Hn Hl Hlen Hf. pose proof Hb as [Hc Hbc _].
  destruct (find_hit _ _ _ _ Hf) as [Hil Ht]. unfold is_block in Ht.
  apply andb_true_iff in Ht as [Hd%Z.eqb_eq Hk%Z.eqb_eq].
  pose proof (lk_range _ _ Hl) as Hr. rewrite Forall_forall in Hr. specialize (Hr i Hil).
  destruct (lookup_lt_is_Some_2 _ _ Hr) as [b Hi]. rewrite (bufi_lookup _ _ _ Hi) in Hd, Hk.
  pose proof (ci_ok _ _ _ _ Hc i b Hi) as Hok.
  assert (sl_locked (b_lock b) = 0) as H0 by (by apply (not_held_unlocked s a i b x)).
  pose proof (refs_lookup _ _ _ _ i b Hc Hi (bo_dev _ _ _ Hok Hd)) as Href. rewrite Hk in Href.
  pose proof (bo_refcnt _ _ _ Hok). rewrite Href in Hn.
  unfold bread. wp_step.
  eapply wp_of_Ok; [eapply bget_hit; [apply Hc|apply Hc|done|exact Hl|done|exact Hf|exact Hi|done|apply Hok]|].
  set (b' := with_lock (mine (b_p s) (b_lock b)) (with_refcnt (u32 (b_refcnt b + 1)) b)).
  set (s' := with_p (synced (b_p s)) (upd_buf i b' s)).
  wp_step. wp_step.
  assert (bufi i s' = b') as -> by (apply bufi_lookup; by apply (upd_lookup s i b)).
  assert ((b_valid b' =? 0) = false) as -> by (apply Z.eqb_neq, (bo_dev _ _ _ Hok Hd)).
  wp_step. wp_step. wp_step. wp_step.
  assert (u32 (b_refcnt b + 1) = b_refcnt b + 1) as Hu by (apply u32_small; lia).
  assert (c_held a !! i = None) as Hnone.
  { destruct (c_held a !! i) as [y|] eqn:E; [|done].
    apply (ci_held _ _ _ _ Hc) in E as (b2 & Hb2 & Hl2 & _). congruence. }
  split; [|done]. split; [|apply synced_same|done].
  replace (c_bread i x a) with (Cache (c_view a) (set_ref x (b_refcnt b') (c_refs a))
    (set_held i x (sl_locked (b_lock b')) (c_held a))).
  2: { unfold c_bread. rewrite Href. cbn. rewrite Hu, set_ref_pos by lia. done. }
  apply (binv_upd s a i b b' x s'); try done.
  - split; [done|apply (bo_dev _ _ _ Hok Hd)|done|done|left; split_and!; [done|done|apply (bo_dev _ _ _ Hok Hd)]].
  - apply synced_same.
  - destruct Hok as [O1 O2 O3 O4 O5 O6 O7]. split; cbn; rewrite ?Hu; try done; try lia.
    intros _. split; [|lia]. symmetry. by apply cur_pid_synced; apply Hc.
  - rewrite <- Hk. apply (ci_view _ _ _ _ Hc i b Hi), (bo_dev _ _ _ Hok Hd).
  - exists l. split; [|done]. by apply (links_upd s l i b b' (synced (b_p s)) (b_dsk s)).
Qed.

Lemma bread_miss s a l x :
  binv s a → 0 ≤ x < 2 ^ 31 → (size (c_refs a) < Z.to_nat NBUF)%nat →
  links s l → length l = Z.to_nat NBUF →
  List.find (λ i, is_block ROOTDEV x (bufi i s)) l = None →
  wp (bread ROOTDEV x) (λ j s', bstep s s' (c_bread j x a) ∧ c_held a !! j = None) s.
Proof.
  intros Hb Hx Hsz Hl Hlen Hf. pose proof Hb as [Hc Hbc _].
  assert (∀ j bj, bufs s !! j = Some bj → b_dev bj = ROOTDEV → b_blockno bj ≠ x) as Hno.
  { intros j bj Hj Hd Hxj. pose proof (find_miss _ _ _ Hf j (links_all _ _ Hl Hlen (ci_len _ _ _ _ Hc) j bj Hj)) as Ht.
    unfold is_block in Ht. rewrite (bufi_lookup _ _ _ Hj), Hd, Hxj, !Z.eqb_refl in Ht. done. }
  assert (∃ i, List.find (λ i, b_refcnt (bufi i s) =? 0) (reverse l) = Some i) as [i Hf2].
  { destruct (List.find (λ i, b_refcnt (bufi i s) =? 0) (reverse l)) as [i|] eqn:E; [by exists i|].
    destruct (free_buffer _ _ _ _ Hc Hsz) as (i & b & Hi & H0).
    pose proof (List.find_none _ _ E i) as Hz. rewrite <- list_elem_of_In, elem_of_reverse in Hz.
    specialize (Hz (links_all _ _ Hl Hlen (ci_len _ _ _ _ Hc) i b Hi)). cbn in Hz.
    rewrite (bufi_lookup _ _ _ Hi), H0 in Hz. done. }
  apply List.find_some in Hf2 as Hf2'. destruct Hf2' as [Hil Ht]. rewrite <- list_elem_of_In, elem_of_reverse in Hil.
  pose proof (lk_range _ _ Hl) as Hr. rewrite Forall_forall in Hr. specialize (Hr i Hil).
  destruct (lookup_lt_is_Some_2 _ _ Hr) as [b Hi]. rewrite (bufi_lookup _ _ _ Hi) in Ht. apply Z.eqb_eq in Ht.
  pose proof (ci_ok _ _ _ _ Hc i b Hi) as Hok.
  assert (sl_locked (b_lock b) = 0) as H0.
  { destruct (decide (sl_locked (b_lock b) = 0)) as [|Hne]; [done|]. by apply (bo_locked _ _ _ Hok) in Hne as [_ ?]. }
  assert (c_held a !! i = None) as Hnone.
  { destruct (c_held a !! i) as [y|] eqn:E; [|done].
    apply (ci_held _ _ _ _ Hc) in E as (b2 & Hb2 & Hl2 & _). congruence. }
  assert (c_refs a !! x = None) as Href.
  { destruct (c_refs a !! x) as [n|] eqn:E; [|done].
    apply (ci_refs _ _ _ _ Hc) in E as (j & bj & Hj & Hn & Hn0 & Hxj). exfalso. apply (Hno j bj Hj); [|done].
    apply (bo_valid _ _ _ (ci_ok _ _ _ _ Hc j bj Hj)), (bo_used _ _ _ (ci_ok _ _ _ _ Hc j bj Hj)). congruence. }
  unfold bread. wp_step.
  eapply wp_of_Ok; [eapply bget_miss; [apply Hc|apply Hc|done|exact Hl|done|exact Hf|exact Hf2|exact Hi|done|apply Hok]|].
  set (b1 := with_lock (mine (b_p s) (b_lock b)) (recycle ROOTDEV x b)).
  set (s1 := with_p (synced (b_p s)) (upd_buf i b1 s)).
  assert (bufs s1 !! i = Some b1) as Hi1 by (by apply (upd_lookup s i b)).
  wp_step. wp_step. rewrite (bufi_lookup _ _ _ Hi1). change (b_valid b1 =? 0) with true. cbn [when].
  destruct (disk_read s1 i b1 Hi1) as (d' & E & Him & Hw); [done|].
  wp_step. wp_step. eapply wp_of_Ok; [exact E|]. cbn [b_dsk s1 with_p upd_buf with_bufs] in Him, Hw.
  eapply wp_of_Ok; [apply (set_buf_run _ i (with_data (contents (b_dsk s1) (b_blockno b1)) b1)); by apply (upd_lookup s1 i b1)|].
  wp_step. split; [|done].
  change (contents (b_dsk s1) (b_blockno b1)) with (contents (b_dsk s) x).
  set (b' := with_valid 1 (with_data (contents (b_dsk s) x) b1)).
  split; [|apply synced_same|by split].
  replace (c_bread i x a) with (Cache (c_view a) (set_ref x (b_refcnt b') (c_refs a))
    (set_held i x (sl_locked (b_lock b')) (c_held a))).
  2: { unfold c_bread. rewrite Href. done. }
  pose proof (same_contents _ _ Him Hw) as Hcont.
  apply (binv_upd s a i b b' x); try done.
  - split; [done|done|done|done|right; split_and!; done].
  - apply synced_same.
  - destruct Hok as [O1 O2 O3 O4 O5 O6 O7]. split; cbn; try done; try lia.
    intros _. split; [|lia]. symmetry. by apply cur_pid_synced; apply Hc.
  - cbn. by rewrite !list_insert_insert_eq.
  - intros y _. cbn. by rewrite Hcont.
  - cbn. apply (ci_miss _ _ _ _ Hc). intros j bj Hj Hv. apply (Hno j bj Hj).
    by apply (bo_valid _ _ _ (ci_ok _ _ _ _ Hc j bj Hj)).
  - exists l. split; [|done].
    replace (upd_buf i b' _) with (with_dsk d' (with_p (synced (b_p s)) (upd_buf i b' s)))
      by (unfold s1, upd_buf, with_bufs, with_dsk, with_p; cbn; by rewrite !list_insert_insert_eq).
    by apply (links_upd s l i b b').
Qed.

Lemma bread_ok s a x :
  binv s a → 0 ≤ x < 2 ^ 31 → (∀ j, c_held a !! j ≠ Some x) →
  default 0 (c_refs a !! x) + 1 < 2 ^ 32 →
  is_Some (c_refs a !! x) ∨ (size (c_refs a) < Z.to_nat NBUF)%nat →
  wp (bread ROOTDEV x) (λ j s', bstep s s' (c_bread j x a) ∧ c_held a !! j = None) s.
Proof.
  intros Hb Hx Hh Hn Hroom. destruct (bi_ring _ _ Hb) as (l & Hl & Hlen).
  destruct (List.find (λ i, is_block ROOTDEV x (bufi i s)) l) as [i|] eqn:Hf.
  - by apply (bread_hit s a l x i).
  - apply (bread_miss s a l x); try done. destruct Hroom as [[n Hr]|]; [|done]. exfalso.
    pose proof (bi_cinv _ _ Hb) as Hc. apply (ci_refs _ _ _ _ Hc) in Hr as (j & bj & Hj & Hn' & Hn0 & Hxj).
    pose proof (find_miss _ _ _ Hf j (links_all _ _ Hl Hlen (ci_len _ _ _ _ Hc) j bj Hj)) as Ht.
    unfold is_block in Ht. rewrite (bufi_lookup _ _ _ Hj), Hxj, Z.eqb_refl in Ht.
    assert (b_dev bj = ROOTDEV) as Hd; [|by rewrite Hd in Ht].
    apply (bo_valid _ _ _ (ci_ok _ _ _ _ Hc j bj Hj)), (bo_used _ _ _ (ci_ok _ _ _ _ Hc j bj Hj)). congruence.
Qed.

(** ** Operations on a buffer the process holds *)
Record holds s a i x b : Prop := {
  ho_buf : bufs s !! i = Some b;
  ho_blk : b_blockno b = x;
  ho_dev : b_dev b = ROOTDEV;
  ho_range : 0 ≤ x < 2 ^ 31;
  ho_valid : b_valid b ≠ 0;
  ho_locked : sl_locked (b_lock b) ≠ 0;
  ho_pid : sl_pid (b_lock b) = cur_pid (b_p s);
  ho_refs : c_refs a !! x = Some (b_refcnt b);
  ho_pos : 0 < b_refcnt b < 2 ^ 32;
  ho_view : c_view a x = b_data b;
  ho_ok : buf_ok (b_p s) (b_dsk s) b
}.

Lemma held_holds s a i x : binv s a → c_held a !! i = Some x → ∃ b, holds s a i x b.
Proof.
  intros [Hc _ _] Hh. pose proof Hh as Hh'. apply (ci_held _ _ _ _ Hc) in Hh' as (b & Hi & Hl & Hx).
  pose proof (ci_ok _ _ _ _ Hc i b Hi) as Hok. destruct (bo_locked _ _ _ Hok Hl) as [Hpid Hr].
  pose proof (bo_used _ _ _ Hok Hr) as Hv. destruct (bo_valid _ _ _ Hok Hv) as [Hd Hrange].
  pose proof (bo_refcnt _ _ _ Hok). exists b. split; try done; try lia.
  - apply (ci_refs _ _ _ _ Hc). eauto 10.
  - rewrite <- Hx. by apply (ci_view _ _ _ _ Hc i).
Qed.

Lemma holds_test s a i x b :
  holds s a i x b → negb (sl_locked (b_lock b) =? 0) && (sl_pid (b_lock b) =? cur_pid (b_p s)) = true.
Proof.
  intros H. rewrite (ho_pid _ _ _ _ _ H), Z.eqb_refl, (proj2 (Z.eqb_neq _ 0) (ho_locked _ _ _ _ _ H)). done.
Qed.

Lemma holds_replaces s a i x b b' :
  holds s a i x b → b_valid b' = b_valid b → b_dev b' = b_dev b → b_blockno b' = b_blockno b →
  replaces (bufs s) i b b' x.
Proof.
  intros [Hi Hx Hd Hrg Hv Hl Hp Hr Hps Hvw Hok] E1 E2 E3. split; [done|congruence|congruence|congruence|].
  left. done.
Qed.

Lemma set_ref_same x n refs : refs !! x = Some n → n ≠ 0 → set_ref x n refs = refs.
Proof. intros Hx Hn. rewrite set_ref_pos by done. by apply insert_id. Qed.

Lemma set_held_same i x k held : held !! i = Some x → k ≠ 0 → set_held i x k held = held.
Proof. intros Hx Hn. unfold set_held. rewrite decide_False by done. by apply insert_id. Qed.

Lemma set_held_0 i x held : set_held i x 0 held = delete i held.
Proof. done. Qed.

(** bwrite(b): the block reaches the device; the cache is unchanged. *)
Lemma bwrite_ok s a i x :
  binv s a → c_held a !! i = Some x →
  wp (bwrite i) (λ _ s', binv s' a ∧ pst_same (b_p s) (b_p s') ∧
    image (b_dsk s') = image (b_dsk s) ∧
    writes (b_dsk s') = writes (b_dsk s) ++ [(x, c_view a x)]) s.
Proof.
  intros Hb Hh. pose proof Hb as [Hc Hbc (l & Hl & Hlen)]. destruct (held_holds s a i x Hb Hh) as [b Hb1].
  pose proof (ho_buf _ _ _ _ _ Hb1) as Hi. pose proof (ho_ok _ _ _ _ _ Hb1) as Hok.
  unfold bwrite. wp_step.
  eapply wp_of_Ok; [apply (blk_holding s i b); [done|apply Hc|apply Hc|apply Hok]|].
  rewrite (holds_test _ _ _ _ _ Hb1). cbn [negb].
  destruct (disk_write (with_p (synced (b_p s)) s) i b Hi) as (d' & E & Him & Hw).
  { rewrite (ho_blk _ _ _ _ _ Hb1). apply Hb1. }
  eapply wp_of_Ok; [exact E|]. cbn [b_dsk with_p] in Him, Hw.
  rewrite (ho_blk _ _ _ _ _ Hb1), <- (ho_view _ _ _ _ _ Hb1) in Hw.
  split_and!; [|apply synced_same|done|done].
  assert (∀ y, contents d' y = fupd (contents (b_dsk s)) x (c_view a x) y) as Hcont.
  { intros y. unfold contents. rewrite Him, Hw. apply apply_writes_snoc. }
  replace a with (Cache (c_view a) (set_ref x (b_refcnt b) (c_refs a))
    (set_held i x (sl_locked (b_lock b)) (c_held a))).
  2: { rewrite set_ref_same, set_held_same; [by destruct a|done|apply Hb1|apply Hb1|pose proof (ho_pos _ _ _ _ _ Hb1); lia]. }
  apply (binv_upd s a i b b x); try done.
  - by eapply holds_replaces.
  - apply synced_same.
  - destruct Hok as [O1 O2 O3 O4 O5 O6 O7]. split; try done.
    + intros Hl'. destruct (O2 Hl') as [Hp Hr]. split; [|done]. rewrite Hp. symmetry. by apply cur_pid_synced; apply Hc.
    + intros Hr. pose proof (ho_pos _ _ _ _ _ Hb1). lia.
  - cbn. by rewrite list_insert_id.
  - intros y Hy. cbn. by rewrite Hcont, fupd_ne.
  - apply Hb1.
  - exists l. split; [|done]. by apply (links_ext s).
Qed.

(** A store to b->data. *)
Lemma set_data_ok s a i x f :
  binv s a → c_held a !! i = Some x →
  wp (set_data i f) (λ _ s', bstep s s' (Cache (fupd (c_view a) x (f (c_view a x))) (c_refs a) (c_held a))) s.
Proof.
  intros Hb Hh. pose proof Hb as [Hc Hbc (l & Hl & Hlen)]. destruct (held_holds s a i x Hb Hh) as [b Hb1].
  pose proof (ho_buf _ _ _ _ _ Hb1) as Hi. pose proof (ho_ok _ _ _ _ _ Hb1) as Hok. pose proof (ho_pos _ _ _ _ _ Hb1).
  unfold set_data. eapply wp_of_Ok; [by apply (set_buf_run s i b)|].
  set (b' := with_data (f (b_data b)) b).
  split; [|apply pst_same_refl|done].
  replace (Cache _ (c_refs a) (c_held a)) with (Cache (fupd (c_view a) x (f (c_view a x)))
    (set_ref x (b_refcnt b') (c_refs a)) (set_held i x (sl_locked (b_lock b')) (c_held a))).
  2: { cbn. rewrite set_ref_same, set_held_same; [done|done|apply Hb1|apply Hb1|lia]. }
  apply (binv_upd s a i b b' x); try done.
  - by eapply holds_replaces.
  - apply pst_same_refl.
  - destruct Hok as [O1 O2 O3 O4 O5 O6 O7]. split; try done. cbn. lia.
  - cbn. by rewrite fupd_eq, (ho_view _ _ _ _ _ Hb1).
  - intros y Hy. by rewrite fupd_ne.
  - exists l. split; [|done].
    by apply (links_upd s l i b b' (b_p s) (b_dsk s)).
Qed.

(** The reading of b->data. *)
Lemma data_view s a i x : binv s a → c_held a !! i = Some x → b_data (bufi i s) = c_view a x.
Proof.
  intros Hb Hh. destruct (held_holds s a i x Hb Hh) as [b H].
  rewrite (bufi_lookup _ _ _ (ho_buf _ _ _ _ _ H)). symmetry. apply H.
Qed.

(** ** brelse *)

(** The order of use after buffer [i] is released for the last time. *)
Definition move_front (i : nat) (l : list nat) : list nat := i :: filter (.≠ i) l.

Lemma filter_ne_notin (i : nat) l : i ∉ l → filter (.≠ i) l = l.
Proof.
  induction l as [|j l IH]; [done|]. intros [Hne Hl]%not_elem_of_cons.
  rewrite filter_cons_True by done. by rewrite IH.
Qed.

Lemma move_front_split i l1 l2 : NoDup (l1 ++ i :: l2) → move_front i (l1 ++ i :: l2) = i :: l1 ++ l2.
Proof.
  intros Hnd. rewrite <- Permutation_middle in Hnd. apply NoDup_cons in Hnd as [Hnin _].
  rewrite elem_of_app in Hnin. unfold move_front. rewrite filter_app, filter_cons_False by (by intros []).
  by rewrite !filter_ne_notin by tauto.
Qed.

Lemma length_move_front i l : NoDup l → i ∈ l → length (move_front i l) = length l.
Proof.
  intros Hnd (l1 & l2 & ->)%list_elem_of_split. rewrite move_front_split by done.
  cbn. rewrite !length_app. cbn. lia.
Qed.

(** The move to the front of the ring, inside the critical section. *)
Lemma to_front s i b l :
  links s l → bufs s !! i = Some b → i ∈ l →
  wp (unlink i ;; link_front i)
     (λ _ s', ∃ s6, s' = inside s6 ∧ relinked s s6 ∧ links s6 (move_front i l)) (inside s).
Proof.
  intros Hl Hi Hil. apply list_elem_of_split in Hil as (l1 & l2 & ->).
  rewrite (move_front_split _ _ _ (lk_nodup _ _ Hl)).
  assert (links (inside s) (l1 ++ i :: l2)) as Hl0 by (by apply (links_ext s)).
  destruct (unlink_run (inside s) l1 i l2 Hl0) as (s4 & E4 & Hl4 & Hr4).
  pose proof (lk_nodup _ _ Hl) as Hnd. rewrite <- Permutation_middle in Hnd.
  apply NoDup_cons in Hnd as [Hnin _].
  destruct (link_front_run s4 (l1 ++ l2) i Hl4 Hnin) as (s5 & E5 & Hl5 & Hr5).
  { rewrite (relinked_length _ _ Hr4). by eapply lookup_lt_Some. }
  wp_step. eapply wp_of_Ok; [exact E4|]. eapply wp_of_Ok; [exact E5|].
  pose proof (relinked_trans _ _ _ Hr4 Hr5) as Hr. destruct Hr as [R1 R2 R3 R4].
  exists (Bst (b_p s) (bc_lock s) (bufs s5) (head_prev s5) (head_next s5) (b_dsk s)).
  split_and!.
  - destruct s5. cbn in *. by subst.
  - by split.
  - by apply (links_ext s5).
Qed.

Lemma i_in_ring s a i b l :
  binv s a → links s l → length l = Z.to_nat NBUF → bufs s !! i = Some b → i ∈ l.
Proof. intros [Hc _ _] Hl Hlen. apply links_all; [done|done|apply Hc]. Qed.

(** brelse after releasesleep: the buffer is [b1] in a state [s2]. *)
Lemma brelse_tail s2 i b1 l :
  hart_ok (p_hart (b_p s2)) → lock_free (bc_lock s2) → bufs s2 !! i = Some b1 →
  links s2 l → i ∈ l →
  wp (zoom on_bc acquire ;;
      set_buf i (λ b, with_refcnt (u32 (b_refcnt b - 1)) b) ;;
      do b <- gets (bufi i);
      when (b_refcnt b =? 0) (unlink i ;; link_front i) ;;
      zoom on_bc release)
     (λ _ s', b_p s' = synced (b_p s2) ∧ bc_lock s' = bc_lock s2 ∧ b_dsk s' = b_dsk s2 ∧
        core <$> bufs s' = core <$> <[i := with_refcnt (u32 (b_refcnt b1 - 1)) b1]> (bufs s2) ∧
        links s' (if u32 (b_refcnt b1 - 1) =? 0 then move_front i l else l)) s2.
Proof.
  intros Hh Hbc Hi Hl Hil. wp_step. eapply wp_of_Ok; [by apply bc_acquire|].
  set (b2 := with_refcnt (u32 (b_refcnt b1 - 1)) b1).
  wp_step. eapply wp_of_Ok; [by apply (set_buf_run (inside s2) i b1)|].
  change (upd_buf i _ (inside s2)) with (inside (upd_buf i b2 s2)).
  set (s3 := upd_buf i b2 s2).
  assert (bufs s3 !! i = Some b2) as Hi3 by (by apply (upd_lookup s2 i b1)).
  assert (links s3 l) as Hl3 by (by apply (links_upd s2 l i b1 b2 (b_p s2) (b_dsk s2))).
  wp_step. wp_step. rewrite (bufi_lookup (inside s3) i b2) by done. wp_step. wp_step.
  change (b_refcnt b2) with (u32 (b_refcnt b1 - 1)). destruct (u32 (b_refcnt b1 - 1) =? 0).
  - wp_call (to_front s3 i b2 l); [done|done|done|]. intros [] s' (s6 & -> & Hr & Hl').
    pose proof (rl_p _ _ Hr) as R1. pose proof (rl_lock _ _ Hr) as R2.
    eapply wp_of_Ok; [apply bc_release; [by rewrite R1|by rewrite R2]|].
    cbn. rewrite R1, R2. split_and!; [done|done|by rewrite (rl_dsk _ _ Hr)|apply (rl_bufs _ _ Hr)|].
    by apply (links_ext s6).
  - wp_step. eapply wp_of_Ok; [by apply bc_release|]. split_and!; try done.
    by apply (links_ext s3).
Qed.

(** What brelse makes of the abstract cache, when the block had [n] references. *)
Definition c_brelse (i : nat) (x n : Z) (a : cache) : cache :=
  Cache (c_view a) (set_ref x (n - 1) (c_refs a)) (delete i (c_held a)).

Lemma brelse_order s a i x n l :
  binv s a → c_held a !! i = Some x → c_refs a !! x = Some n →
  (n = 1 → c_view a x = contents (b_dsk s) x) → links s l → length l = Z.to_nat NBUF →
  wp (brelse i) (λ _ s', bstep s s' (c_brelse i x n a) ∧
    links s' (if n =? 1 then move_front i l else l)) s.
Proof.
  intros Hb Hh Hn Hclean Hl Hlen. pose proof Hb as [Hc Hbc _].
  destruct (held_holds s a i x Hb Hh) as [b Hb1].
  pose proof (ho_buf _ _ _ _ _ Hb1) as Hi. pose proof (ho_ok _ _ _ _ _ Hb1) as Hok.
  pose proof (ho_pos _ _ _ _ _ Hb1) as Hpos.
  assert (n = b_refcnt b) as -> by (pose proof (ho_refs _ _ _ _ _ Hb1); congruence).
  pose proof (ci_pst _ _ _ _ Hc) as Hpok. pose proof (synced_ok _ Hpok) as Hpok1.
  unfold brelse. wp_step. eapply wp_of_Ok; [apply (blk_holding s i b); [done|done|apply Hc|apply Hok]|].
  rewrite (holds_test _ _ _ _ _ Hb1). cbn [negb]. wp_step. wp_step.
  cbn [view on_blk with_p bufs b_p]. rewrite (list_lookup_total_correct _ _ _ Hi).
  wp_call (releasesleep_run (ChBufLock i) (synced (b_p s)) (b_lock b)); [done|apply Hok|].
  intros _ [p2 L0] [Hp2 HL0]. cbn in Hp2, HL0. subst L0. cbn [over on_blk fst snd with_p bc_lock head_prev head_next b_dsk].
  rewrite (list_alter_at _ _ _ b) by done.
  set (b1 := with_lock _ b). set (s2 := Bst p2 _ _ _ _ _).
  assert (bufs s2 !! i = Some b1) as Hi2 by (by apply (upd_lookup s i b)).
  assert (pst_same (b_p s) p2) as Hps by (eapply pst_same_trans; [done|apply synced_same|done]).
  wp_call (brelse_tail s2 i b1 l).
  { apply (ps_hart _ (pst_same_ok _ _ Hpok Hps)). } { done. } { done. }
  { by apply (links_upd s l i b b1 p2 (b_dsk s)). } { by apply (i_in_ring s a i b). }
  intros _ s' (Hp' & Hlk' & Hd' & Hcore & Hl'). cbn [with_lock b_refcnt b1] in Hl'.
  assert ((u32 (b_refcnt b - 1) =? 0) = (b_refcnt b =? 1)) as Et by (rewrite u32_small by lia; lia).
  rewrite Et in Hl'. split; [|done].
  assert (pst_same (b_p s) (b_p s')) as Hps'.
  { rewrite Hp'. eapply pst_same_trans; [done|exact Hps|apply synced_same]. }
  split; [|done|by rewrite Hd'].
  set (b' := with_refcnt (u32 (b_refcnt b1 - 1)) b1) in Hcore.
  assert (b_refcnt b' = b_refcnt b - 1) as Er by (cbn; rewrite u32_small by lia; done).
  unfold c_brelse. rewrite <- Er. change (delete i (c_held a)) with (set_held i x (sl_locked (b_lock b')) (c_held a)).
  apply (binv_upd s a i b b' x); try done.
  - by eapply holds_replaces.
  - destruct Hok as [O1 O2 O3 O4 O5 O6 O7]. split; rewrite ?Er; cbn; try done; try lia.
    intros Hz _. rewrite Hd'. cbn. rewrite (ho_blk _ _ _ _ _ Hb1), <- (ho_view _ _ _ _ _ Hb1).
    apply Hclean. lia.
  - rewrite Hcore. cbn. by rewrite list_insert_insert_eq.
  - intros y _. by rewrite Hd'.
  - apply Hb1.
  - eexists. split; [exact Hl'|]. case_test; [|done]. rewrite length_move_front; [done|apply Hl|by apply (i_in_ring s a i b)].
Qed.

Lemma brelse_ok s a i x n :
  binv s a → c_held a !! i = Some x → c_refs a !! x = Some n →
  (n = 1 → c_view a x = contents (b_dsk s) x) →
  wp (brelse i) (λ _ s', bstep s s' (c_brelse i x n a)) s.
Proof.
  intros Hb Hh Hn Hclean. destruct (bi_ring _ _ Hb) as (l & Hl & Hlen).
  wp_call (brelse_order s a i x n l); [done|done|done|done|done|done|]. by intros [] s' [? _].
Qed.

(** ** bpin and bunpin *)
Lemma pin_run s i b f :
  hart_ok (p_hart (b_p s)) → lock_free (bc_lock s) → bufs s !! i = Some b →
  (zoom on_bc acquire ;; set_buf i f ;; zoom on_bc release) s =
    Ok tt (with_p (synced (b_p s)) (upd_buf i (f b) s)).
Proof.
  intros Hh Hbc Hi. rewrite (bind_Ok _ _ _ _ _ (bc_acquire s Hh Hbc)).
  rewrite (bind_Ok _ _ _ _ _ (set_buf_run (inside s) i b f Hi)).
  by apply (bc_release (upd_buf i (f b) s)).
Qed.

(** A change of the reference count of a buffer the process holds. *)
Lemma pin_ok s a i x b n :
  binv s a → holds s a i x b → 0 < n < 2 ^ 32 → c_held a !! i = Some x →
  bstep s (with_p (synced (b_p s)) (upd_buf i (with_refcnt n b) s))
    (Cache (c_view a) (<[x := n]> (c_refs a)) (c_held a)).
Proof.
  intros Hb Hb1 Hn Hh. pose proof Hb as [Hc Hbc (l & Hl & Hlen)].
  pose proof (ho_buf _ _ _ _ _ Hb1) as Hi. pose proof (ho_ok _ _ _ _ _ Hb1) as Hok.
  split; [|apply synced_same|done]. set (b' := with_refcnt n b).
  replace (Cache _ _ (c_held a)) with (Cache (c_view a)
    (set_ref x (b_refcnt b') (c_refs a)) (set_held i x (sl_locked (b_lock b')) (c_held a))).
  2: { cbn. rewrite set_ref_pos, set_held_same; [done|done|apply Hb1|lia]. }
  apply (binv_upd s a i b b' x); try done.
  - by eapply holds_replaces.
  - apply synced_same.
  - destruct Hok as [O1 O2 O3 O4 O5 O6 O7]. split; cbn; try done; try lia.
    + intros Hl'. destruct (O2 Hl') as [Hp Hr]. split; [|lia]. rewrite Hp. symmetry.
      by apply cur_pid_synced; apply Hc.
    + intros _. apply Hb1.
  - cbn. apply Hb1.
  - exists l. split; [|done]. by apply (links_upd s l i b b' (synced (b_p s)) (b_dsk s)).
Qed.

Lemma bpin_ok s a i x n :
  binv s a → c_held a !! i = Some x → c_refs a !! x = Some n → n + 1 < 2 ^ 32 →
  wp (bpin i) (λ _ s', bstep s s' (Cache (c_view a) (<[x := n + 1]> (c_refs a)) (c_held a))) s.
Proof.
  intros Hb Hh Hn Hlt. destruct (held_holds s a i x Hb Hh) as [b Hb1]. pose proof (ho_pos _ _ _ _ _ Hb1).
  assert (n = b_refcnt b) as -> by (pose proof (ho_refs _ _ _ _ _ Hb1); congruence).
  pose proof Hb as [Hc Hbc _]. unfold bpin.
  eapply wp_of_Ok; [apply (pin_run s i b); [apply Hc|done|apply Hb1]|].
  cbn beta. rewrite u32_small by lia. apply pin_ok; try done. lia.
Qed.

Lemma bunpin_ok s a i x n :
  binv s a → c_held a !! i = Some x → c_refs a !! x = Some n → 1 < n →
  wp (bunpin i) (λ _ s', bstep s s' (Cache (c_view a) (<[x := n - 1]> (c_refs a)) (c_held a))) s.
Proof.
  intros Hb Hh Hn Hlt. destruct (held_holds s a i x Hb Hh) as [b Hb1]. pose proof (ho_pos _ _ _ _ _ Hb1).
  assert (n = b_refcnt b) as -> by (pose proof (ho_refs _ _ _ _ _ Hb1); congruence).
  pose proof Hb as [Hc Hbc _]. unfold bunpin.
  eapply wp_of_Ok; [apply (pin_run s i b); [apply Hc|done|apply Hb1]|].
  cbn beta. rewrite u32_small by lia. apply pin_ok; try done. lia.
Qed.

(** ** binit *)

(** A buffer of the zeroed bss, its sleep lock initialised or not. *)
Record fresh (b : buf) : Prop := {
  fr_valid : b_valid b = 0;
  fr_refcnt : b_refcnt b = 0;
  fr_dev : b_dev b = 0;
  fr_locked : sl_locked (b_lock b) = 0;
  fr_lk : lock_free (sl_lock (b_lock b))
}.

Lemma fresh_core b b' : core b' = core b → fresh b → fresh b'.
Proof. intros E [H1 H2 H3 H4 H5]. destruct b, b'. injection E as -> -> -> -> -> -> ->. by split. Qed.

Lemma relinked_fresh s s' : relinked s s' → Forall fresh (bufs s) → Forall fresh (bufs s').
Proof.
  intros Hr Hf. apply Forall_lookup. intros i b' Hi. destruct (relinked_lookup _ _ _ _ Hr Hi) as (b & Hb & E).
  eapply fresh_core; [exact E|]. rewrite Forall_lookup in Hf. by apply (Hf i).
Qed.

Definition lock0 : sleeplock := Slk 0 (Spin 0 "sleep lock" None) "buffer" 0.
Definition init_lock (i : nat) s : bst D := with_bufs (alter (with_lock lock0) i) s.

Lemma init_lock_run i s : zoom (on_blk i) (initsleeplock "buffer") s = Ok tt (init_lock i s).
Proof.
  unfold zoom, initsleeplock, bind, zoom, initlock, modify, init_lock, with_bufs. cbn.
  do 2 f_equal. by destruct (b_p s).
Qed.

(** The body of binit's loop is the insertion at the front of a buffer with an
    initialised lock. *)
Lemma binit_body i s :
  (i < length (bufs s))%nat →
  (do hn <- gets (λ s, nextp s None);
   set_next (Some i) hn ;;
   set_prev (Some i) None ;;
   zoom (on_blk i) (initsleeplock "buffer") ;;
   do hn <- gets (λ s, nextp s None);
   set_prev hn (Some i) ;;
   set_next None (Some i)) s = link_front i (init_lock i s).
Proof.
  intros Hi. unfold link_front.
  rewrite !(bind_Ok (gets _) _ _ _ _ eq_refl), !(bind_Ok _ _ _ _ _ (set_next_run _ _ _)),
    !(bind_Ok _ _ _ _ _ (set_prev_run _ _ _)), (bind_Ok _ _ _ _ _ (init_lock_run _ _)).
  rewrite !(bind_Ok (gets _) _ _ _ _ eq_refl). cbn [nextp init_lock with_bufs head_next].
  assert (∀ h, init_lock i (put_prev (Some i) None (put_next (Some i) h s)) =
          put_prev (Some i) None (put_next (Some i) h (init_lock i s))) as ->; [|done].
  intros h. unfold init_lock, put_prev, put_next, with_bufs. cbn. f_equal.
  apply list_eq. intros j. rewrite !list_lookup_alter. repeat case_decide; try done. by destruct (bufs s !! _).
Qed.

(** After binit the cache is empty and shows the device. *)
Lemma binit_ok s :
  pst_ok (b_p s) → is_running (b_p s) → length (bufs s) = Z.to_nat NBUF → Forall fresh (bufs s) →
  wp binit (λ _ s', bstep s s' (Cache (contents (b_dsk s)) ∅ ∅)) s.
Proof.
  intros Hok Hr Hlen Hf. unfold binit. wp_step. unfold initlock. wp_step. wp_step. wp_step.
  eapply wp_of_Ok; [apply set_prev_run|]. wp_step. eapply wp_of_Ok; [apply set_next_run|].
  set (s0 := put_next None None _).
  wp_call (wp_each_ind (seq 0 (Z.to_nat NBUF)) _ (λ vis s', links s' (reverse vis) ∧
    b_p s' = b_p s0 ∧ bc_lock s' = bc_lock s0 ∧ b_dsk s' = b_dsk s ∧
    length (bufs s') = Z.to_nat NBUF ∧ Forall fresh (bufs s'))).
  - split_and!; try done. split; [done|done|constructor|constructor].
  - intros pre i post s' Hs (Hl & Hp & Hk & Hd & Hn & Hfr). apply seq_split in Hs as [Hi ->].
    assert (links (init_lock i s') (reverse (seq 0 i))) as Hl' by (by apply links_alter).
    destruct (link_front_run (init_lock i s') (reverse (seq 0 i)) i Hl') as (s2 & E & Hl2 & Hrl).
    { rewrite elem_of_reverse, elem_of_seq. lia. } { cbn. rewrite length_alter. lia. }
    eapply wp_of_Ok; [rewrite binit_body by lia; exact E|].
    rewrite reverse_snoc. split_and!; [done|by rewrite (rl_p _ _ Hrl)|by rewrite (rl_lock _ _ Hrl)
      |by rewrite (rl_dsk _ _ Hrl)|rewrite (relinked_length _ _ Hrl); cbn; by rewrite length_alter|].
    eapply relinked_fresh; [exact Hrl|]. cbn. apply Forall_alter; [done|]. intros b _ [H1 H2 H3 H4 H5]. by split.
  - intros _ s' (Hl & Hp & Hk & Hd & Hn & Hfr).
    assert (b_p s' = b_p s) as Hp' by (rewrite Hp; cbn; by destruct (b_p s)).
    split; [|rewrite Hp'; apply pst_same_refl|by rewrite Hd].
    split; [|rewrite Hk; by split|exists (reverse (seq 0 (Z.to_nat NBUF))); split; [done|by rewrite length_reverse, length_seq]].
    rewrite Hp', Hd. rewrite Forall_lookup in Hfr. split; try done.
    + intros i b Hi. destruct (Hfr i b Hi) as [F1 F2 F3 F4 F5]. split; rewrite ?F1, ?F2, ?F3, ?F4; try done; lia.
    + intros i j b b' Hi Hj Hd1. destruct (Hfr i b Hi) as [_ _ F3 _ _]. by rewrite F3 in Hd1.
    + intros x n. cbn [c_refs]. rewrite lookup_empty. split; [done|]. intros (i & b & Hi & Hb & Hn0 & _).
      destruct (Hfr i b Hi). congruence.
    + intros i x. cbn [c_held]. rewrite lookup_empty. split; [done|]. intros (b & Hi & Hb & _).
      destruct (Hfr i b Hi). congruence.
    + intros i b Hi Hv. destruct (Hfr i b Hi). congruence.
Qed.
End run.
