(* ===== verification/BioProps.v ===== *)
(** * What the buffer cache promises

    The theorems about kernel/bio.c its clients rely on, stated over the abstract
    cache of BioInv. *)
From S2P Require Import Prelude Memory Riscv Spinlock Sched Sleeplock Disk Bio BioSpec BioInv BioOps.

Section props.
Context {D : Type} `{!BlockDev D}.
Implicit Types (s : bst D) (a : cache).

(** C5: bread(ROOTDEV, x) of a block the process has not locked returns a buffer that
    was not locked, is now locked by the caller, holds the current contents of
    block x (the cached ones, or those read from the device) and is the only
    buffer of the cache for x. Nothing is written to the device, no other block
    changes, and x has one more reference. *)
Theorem bread_reads s a x :
  binv s a → 0 ≤ x < 2 ^ 31 → (∀ j, c_held a !! j ≠ Some x) →
  default 0 (c_refs a !! x) + 1 < 2 ^ 32 →
  is_Some (c_refs a !! x) ∨ (size (c_refs a) < Z.to_nat NBUF)%nat →
  wp (bread ROOTDEV x) (λ j s', bstep s s' (c_bread j x a) ∧ c_held a !! j = None ∧
    b_data (bufi j s') = c_view a x ∧
    ∀ k b, bufs s' !! k = Some b → b_dev b = ROOTDEV → b_blockno b = x → k = j) s.
Proof.
  intros Hb Hx Hh Hn Hroom. wp_call (bread_ok s a x); [done|done|done|done|done|].
  intros j s' [Hs Hj]. pose proof (bs_inv _ _ _ Hs) as Hb'.
  assert (c_held (c_bread j x a) !! j = Some x) as Hheld by (cbn; by rewrite lookup_insert_eq).
  split_and!; [done|done|by rewrite (data_view _ _ _ _ Hb' Hheld)|].
  intros k b Hk Hd Hxk. destruct (held_holds _ _ _ _ Hb' Hheld) as [b' [Hj' Hx' Hd' _ _ _ _ _ _ _ _]].
  apply (ci_uniq _ _ _ _ (bi_cinv _ _ Hb') k j b b'); congruence.
Qed.

(** What is stored in a locked buffer, written with bwrite and released is on the
    device and is what the next bread of that block returns, whichever buffer
    it then uses. *)
Theorem write_read_back s a i x d :
  binv s a → c_held a !! i = Some x → c_refs a !! x = Some 1 →
  wp (set_data i (λ _, d) ;; bwrite i ;; brelse i ;; do j <- bread ROOTDEV x; gets (λ s, b_data (bufi j s)))
     (λ r s', r = d ∧ contents (b_dsk s') x = d) s.
Proof.
  intros Hb Hh Hr. wp_step. wp_call (set_data_ok s a i x (λ _, d)); [done|done|].
  intros [] s1 [Hb1 _ [_ _]]. set (a1 := Cache _ _ _) in *.
  wp_step. wp_call (bwrite_ok s1 a1 i x); [done|done|]. intros [] s2 (Hb2 & _ & Him2 & Hw2).
  assert (c_view a1 x = d) as Hv by apply fupd_eq. rewrite Hv in Hw2.
  assert (contents (b_dsk s2) x = d) as Hc2.
  { unfold contents. by rewrite Hw2, apply_writes_snoc, fupd_eq. }
  wp_step. wp_call (brelse_ok s2 a1 i x 1); [done|done|done|by rewrite Hv|].
  intros [] s3 [Hb3 _ [Him3 Hw3]]. set (a3 := c_brelse i x 1 a1) in *.
  assert (c_refs a3 !! x = None) as Hr3 by (cbn; by rewrite lookup_set_ref, decide_True).
  pose proof (held_holds _ _ _ _ Hb Hh) as [b Hbuf].
  wp_step. wp_call (bread_ok s3 a3 x); [done|apply Hbuf| | | |].
  - intros j Hj. cbn in Hj. rewrite lookup_delete in Hj. case_decide; [done|].
    apply (ci_held _ _ _ _ (bi_cinv _ _ Hb)) in Hj as (bj & Hbj & Hl & Hxj).
    pose proof (ci_ok _ _ _ _ (bi_cinv _ _ Hb) j bj Hbj) as Hok. destruct (bo_locked _ _ _ Hok Hl) as [_ Hrj].
    destruct (bo_valid _ _ _ Hok (bo_used _ _ _ Hok Hrj)) as [Hdj _].
    assert (j = i); [|done]. destruct Hbuf as [B1 B2 B3 _ _ _ _ _ _ _ _].
    apply (ci_uniq _ _ _ _ (bi_cinv _ _ Hb) j i bj b); congruence.
  - by rewrite Hr3.
  - right. change (c_refs a3) with (set_ref x 0 (c_refs a)). unfold set_ref.
    rewrite decide_True, map_size_delete_Some by eauto.
    pose proof (refs_bounded _ _ Hb). destruct (size (c_refs a)) eqn:E; [|lia].
    apply map_size_empty_inv in E. rewrite E in Hr. done.
  - intros j s4 [[Hb4 _ [Him4 Hw4]] _]. wp_step. cbn beta.
    assert (c_held (c_bread j x a3) !! j = Some x) as Hh4 by (cbn; by rewrite lookup_insert_eq).
    split; [by rewrite (data_view _ _ _ _ Hb4 Hh4)|].
    rewrite <- Hc2. unfold contents. by rewrite Him4, Hw4, Him3, Hw3.
Qed.

(** C16: the cache is replaced in least recently used order. With the buffers in order
    of use [l], most recent first, the last brelse of a buffer moves it to the
    front and keeps the order of the others, any other brelse changes nothing;
    and a bread of a block that is not cached takes the last unreferenced buffer
    of the order. *)
Theorem lru_order s a l :
  binv s a → links s l → length l = Z.to_nat NBUF →
  (∀ i x n, c_held a !! i = Some x → c_refs a !! x = Some n →
     (n = 1 → c_view a x = contents (b_dsk s) x) →
     wp (brelse i) (λ _ s', links s' (if n =? 1 then i :: filter (.≠ i) l else l)) s) ∧
  (∀ x i, 0 ≤ x < 2 ^ 31 → (∀ j b, bufs s !! j = Some b → b_dev b = ROOTDEV → b_blockno b ≠ x) →
     List.find (λ i, b_refcnt (bufi i s) =? 0) (reverse l) = Some i →
     wp (bread ROOTDEV x) (λ j s', j = i ∧ links s' l) s).
Proof.
  intros Hb Hl Hlen. split.
  - intros i x n Hh Hn Hcl. wp_call (brelse_order s a i x n l); [done..|]. by intros [] s' [_ ?].
  - intros x i Hx Hno Hf. pose proof Hb as [Hc Hbc _].
    destruct (find_hit (λ b, b_refcnt b =? 0) s _ i Hf) as [Hil Ht]. rewrite elem_of_reverse in Hil.
    pose proof (lk_range _ _ Hl) as Hr. rewrite Forall_forall in Hr. specialize (Hr i Hil).
    destruct (lookup_lt_is_Some_2 (bufs s) i Hr) as [b Hi]. rewrite (bufi_lookup _ _ _ Hi) in Ht.
    apply Z.eqb_eq in Ht. pose proof (ci_ok _ _ _ _ Hc i b Hi) as Hok.
    assert (sl_locked (b_lock b) = 0) as Hul.
    { destruct (decide (sl_locked (b_lock b) = 0)); [done|]. by destruct (bo_locked _ _ _ Hok n). }
    assert (List.find (λ i, is_block ROOTDEV x (bufi i s)) l = None) as Hmiss.
    { destruct (List.find _ l) as [j|] eqn:Ej; [|done]. destruct (find_hit _ _ _ _ Ej) as [Hjl Htj].
      unfold is_block in Htj. apply andb_true_iff in Htj as [Hd%Z.eqb_eq Hk%Z.eqb_eq].
      pose proof (lk_range _ _ Hl) as Hr'. rewrite Forall_forall in Hr'. specialize (Hr' j Hjl).
      destruct (lookup_lt_is_Some_2 (bufs s) j Hr') as [bj Hj]. rewrite (bufi_lookup _ _ _ Hj) in Hd, Hk.
      by destruct (Hno j bj Hj Hd). }
    unfold bread. wp_step. eapply wp_of_Ok.
    { apply (bget_miss s l i b); [apply Hc|apply Hc|done|done|done|done|exact Hf|done|done|apply Hok]. }
    set (b1 := with_lock _ _). set (s1 := with_p _ _).
    assert (bufs s1 !! i = Some b1) as Hi1 by (by apply (upd_lookup s i b)).
    assert (links s1 l) as Hl1 by (by apply (links_upd s l i b b1 (synced (b_p s)) (b_dsk s))).
    wp_step. wp_step. rewrite (bufi_lookup _ _ _ Hi1). cbn [b_valid b1 with_lock recycle Z.eqb when]. wp_step.
    destruct (disk_read s1 i b1 Hi1 Hx) as (d' & Ed & _). wp_step.
    eapply wp_of_Ok; [exact Ed|]. set (b2 := with_data _ b1). set (s2 := with_dsk _ _).
    assert (bufs s2 !! i = Some b2) as Hi2 by (by apply (upd_lookup s1 i b1)).
    eapply wp_of_Ok; [by apply (set_buf_run s2 i b2)|]. wp_step. split; [done|].
    apply (links_upd s2 l i b2 _ (b_p s2) (b_dsk s2)); [done|done|done|].
    by apply (links_upd s1 l i b1 b2 (b_p s1) d').
Qed.

(** No buffer is left for a block that is not cached. *)
Lemma bio_panics_full s a x :
  binv s a → (∀ i b, bufs s !! i = Some b → b_refcnt b ≠ 0 ∧ b_blockno b ≠ x) →
  faults (bread ROOTDEV x) s (Panicked "bget: no buffers").
Proof.
  intros [Hc Hbc (l & Hl & Hlen)] Hno. unfold faults, bread, bget.
  assert (∀ i, i ∈ l → ∃ b, bufs s !! i = Some b) as Hin.
  { intros i Hi. pose proof (lk_range _ _ Hl) as Hr. rewrite Forall_forall in Hr.
    by apply lookup_lt_is_Some_2, Hr. }
  erewrite bind_Halt; [done|]. rewrite (bind_Ok _ _ _ _ _ (bc_acquire s (ps_hart _ (ci_pst _ _ _ _ Hc)) Hbc)).
  assert (links (inside s) l) as Hl' by (by apply (links_ext s)).
  rewrite (bind_Ok (gets _) _ _ _ _ eq_refl).
  erewrite bind_Ok; [|apply (scan_run (nextp (inside s)) _ _ _ None l); [done|apply Hl'|lia]].
  rewrite find_none_all.
  - rewrite (bind_Ok (gets _) _ _ _ _ eq_refl).
    erewrite bind_Ok; [|apply (scan_run (prevp (inside s)) _ _ _ None (reverse l)); [done|apply Hl'|rewrite length_reverse; lia]].
    rewrite find_none_all; [done|]. intros i Hi. rewrite elem_of_reverse in Hi. destruct (Hin i Hi) as [b Hbi].
    rewrite (bufi_lookup (inside s) i b Hbi). apply Z.eqb_neq. by apply (Hno i b).
  - intros i Hi. destruct (Hin i Hi) as [b Hbi]. rewrite (bufi_lookup (inside s) i b Hbi).
    rewrite (proj2 (Z.eqb_neq (b_blockno b) x)) by (by apply (Hno i b)). apply andb_false_r.
Qed.

(** The checks of the buffer cache. A bread that finds neither the block nor an
    unreferenced buffer panics, and so do bwrite and brelse of a buffer that the
    process has not locked. *)
Theorem bio_panics s a :
  binv s a →
  (∀ x, (∀ i b, bufs s !! i = Some b → b_refcnt b ≠ 0 ∧ b_blockno b ≠ x) →
     faults (bread ROOTDEV x) s (Panicked "bget: no buffers")) ∧
  (∀ i b, bufs s !! i = Some b → c_held a !! i = None →
     faults (bwrite i) s (Panicked "bwrite") ∧ faults (brelse i) s (Panicked "brelse")).
Proof.
  intros Hb. pose proof Hb as [Hc Hbc (l & Hl & Hlen)]. split.
  - intros x Hno. by eapply bio_panics_full.
  - intros i b Hi Hh. pose proof (ci_ok _ _ _ _ Hc i b Hi) as Hok.
    assert (sl_locked (b_lock b) = 0) as Hul.
    { destruct (decide (sl_locked (b_lock b) = 0)); [done|].
      assert (c_held a !! i = Some (b_blockno b)) by (apply (ci_held _ _ _ _ Hc); eauto). congruence. }
    pose proof (blk_holding s i b Hi (ci_pst _ _ _ _ Hc) (ci_run _ _ _ _ Hc) (bo_lk _ _ _ Hok)) as E.
    rewrite Hul in E. unfold faults, bwrite, brelse. by rewrite !(bind_Ok _ _ _ _ _ E).
Qed.

(** Binit() turns the zeroed memory of the boot into an empty cache that shows
    the device: the ring holds all NBUF buffers, none is referenced or locked. *)
Theorem binit_empty s :
  pst_ok (b_p s) → is_running (b_p s) → length (bufs s) = Z.to_nat NBUF → Forall fresh (bufs s) →
  wp binit (λ _ s', bstep s s' (Cache (contents (b_dsk s)) ∅ ∅) ∧
    ∃ l, links s' l ∧ l ≡ₚ seq 0 (Z.to_nat NBUF)) s.
Proof.
  intros Hok Hr Hlen Hf. wp_call (binit_ok s); [done..|]. intros [] s' Hs. split; [done|].
  pose proof (bs_inv _ _ _ Hs) as [Hc _ (l & Hl & Hn)]. exists l. split; [done|]. apply (links_perm s' l); [done|done|apply Hc].
Qed.
End props.

(** ** A machine on which the theorems can be tried *)
Definition demo_bst0 : bst ram_disk :=
  Bst demo_pst (Spin 0 "" None) (replicate (Z.to_nat NBUF) buf0) None None (RamDisk ∅ []).
Definition demo_bst : bst ram_disk :=
  match binit demo_bst0 with Ok _ s => s | Halt _ s => s end.

Lemma demo_running : is_running demo_pst.
Proof. exists 3%nat. split; [reflexivity|vm_compute; lia]. Qed.

Lemma demo_fresh : Forall fresh (bufs demo_bst0).
Proof. apply Forall_replicate. by split. Qed.

Lemma demo_bst_step : bstep demo_bst0 demo_bst (Cache (λ _, zero_block) ∅ ∅).
Proof.
  destruct (wp_Ok _ _ _ (binit_ok demo_bst0 demo_pst_ok demo_running ltac:(apply length_replicate) demo_fresh))
    as ([] & s & E & Hs). unfold demo_bst. rewrite E.
  destruct Hs as [Hb Hp Hd]. split; [|done|done]. eapply binv_ext; [|exact Hb]. intros x. done.
Qed.

Lemma demo_bst_ok : binv demo_bst (Cache (λ _, zero_block) ∅ ∅).
Proof. apply (bs_inv _ _ _ demo_bst_step). Qed.

Lemma binit_empty_witness :
  wp binit (λ _ s', bstep demo_bst0 s' (Cache (contents (b_dsk demo_bst0)) ∅ ∅) ∧
    ∃ l, links s' l ∧ l ≡ₚ seq 0 (Z.to_nat NBUF)) demo_bst0.
Proof. apply (binit_empty demo_bst0 demo_pst_ok demo_running); [apply length_replicate|apply demo_fresh]. Defined.

Lemma bread_reads_witness :
  wp (bread ROOTDEV 5) (λ j s', bstep demo_bst s' (c_bread j 5 (Cache (λ _, zero_block) ∅ ∅)) ∧
    (∅ : gmap nat Z) !! j = None ∧ b_data (bufi j s') = zero_block ∧
    ∀ k b, bufs s' !! k = Some b → b_dev b = ROOTDEV → b_blockno b = 5 → k = j) demo_bst.
Proof.
  apply (bread_reads demo_bst (Cache (λ _, zero_block) ∅ ∅) 5 demo_bst_ok); [lia|done|done|].
  right. cbn. rewrite map_size_empty. unfold NBUF, MAXOPBLOCKS. lia.
Defined.

(** The machine after a bread of block 5. *)
Lemma demo_held : ∃ s i, binv s (c_bread i 5 (Cache (λ _, zero_block) ∅ ∅)) ∧
  bread ROOTDEV 5 demo_bst = Ok i s.
Proof.
  destruct (wp_Ok _ _ _ (bread_ok demo_bst (Cache (λ _, zero_block) ∅ ∅) 5 demo_bst_ok ltac:(lia) ltac:(done)
    ltac:(done) ltac:(right; cbn; rewrite map_size_empty; unfold NBUF, MAXOPBLOCKS; lia))) as (i & s & E & Hs & _).
  exists s, i. split; [apply (bs_inv _ _ _ Hs)|done].
Qed.

Lemma write_read_back_witness : ∃ i s, bread ROOTDEV 5 demo_bst = Ok i s ∧
  wp (set_data i (λ _, [1; 2]) ;; bwrite i ;; brelse i ;; do j <- bread ROOTDEV 5; gets (λ s, b_data (bufi j s)))
     (λ r s', r = [1; 2] ∧ contents (b_dsk s') 5 = [1; 2]) s.
Proof.
  destruct demo_held as (s & i & Hb & E). exists i, s. split; [done|].
  apply (write_read_back s _ i 5 [1; 2] Hb); cbn; by rewrite lookup_insert_eq.
Defined.

Lemma lru_order_witness : ∃ l, links demo_bst l ∧
  (∀ x i, 0 ≤ x < 2 ^ 31 → (∀ j b, bufs demo_bst !! j = Some b → b_dev b = ROOTDEV → b_blockno b ≠ x) →
     List.find (λ i, b_refcnt (bufi i demo_bst) =? 0) (reverse l) = Some i →
     wp (bread ROOTDEV x) (λ j s', j = i ∧ links s' l) demo_bst).
Proof.
  destruct (bi_ring _ _ demo_bst_ok) as (l & Hl & Hn). exists l. split; [done|].
  exact (proj2 (lru_order demo_bst _ l demo_bst_ok Hl Hn)).
Defined.

Lemma bio_panics_witness : ∃ b, bufs demo_bst !! 3%nat = Some b ∧
  faults (bwrite 3) demo_bst (Panicked "bwrite") ∧ faults (brelse 3) demo_bst (Panicked "brelse").
Proof.
  destruct (lookup_lt_is_Some_2 (bufs demo_bst) 3) as [b Hb].
  { rewrite (ci_len _ _ _ _ (bi_cinv _ _ demo_bst_ok)). unfold NBUF, MAXOPBLOCKS. lia. }
  exists b. split; [done|]. exact (proj2 (bio_panics demo_bst _ demo_bst_ok) 3%nat b Hb eq_refl).
Defined.
