(* ===== verification/Log.v ===== *)
(** * kernel/log.c: the write-ahead log

    The in-memory log (struct log) over the buffer cache. Block numbers and the
    counters of struct log are C ints; the header block stores them as 32-bit
    little-endian words. sleep() ends the run of the calling thread (outcome
    [Slept], see Sched). The diagnostic printf of recovery is not modelled. *)
From S2P Require Import Prelude Memory Riscv Spinlock Sched Sleeplock Disk Bio.

(** ** The 32-bit words of a block: element [k] of b->data seen as an array of int *)
Definition get32 (k : Z) (b : block) : Z := le_val (take 4 (drop (Z.to_nat (4 * k)) b)).
Definition put32 (k v : Z) (b : block) : block :=
  take (Z.to_nat (4 * k)) b ++ le_bytes 4 v ++ drop (Z.to_nat (4 * k + 4)) b.

Record logheader : Type := Lh { lh_n : Z; lh_block : list Z }.
Record lst (D : Type) : Type := Lst {
  l_b : bst D;
  log_lock : spinlock;
  log_start : Z;
  outstanding : Z;
  committing : Z;
  log_dev : Z;
  lh : logheader
}.
Arguments Lst {D}.
Arguments l_b {D}.
Arguments log_lock {D}.
Arguments log_start {D}.
Arguments outstanding {D}.
Arguments committing {D}.
Arguments log_dev {D}.
Arguments lh {D}.

Section log.
Context {D : Type} `{!BlockDev D}.
Implicit Types s : lst D.

Definition on_b : lens (lst D) (bst D) :=
  Lens l_b (λ b s, Lst b (log_lock s) (log_start s) (outstanding s) (committing s) (log_dev s) (lh s)).
(** log.lock with the hart, and with the process table. *)
Definition log_lk : lens (lst D) lockst :=
  Lens (λ s, (p_hart (b_p (l_b s)), log_lock s))
       (λ t s, Lst (over on_pst (Pst t.1 (procs (b_p (l_b s)))) (l_b s)) t.2
                 (log_start s) (outstanding s) (committing s) (log_dev s) (lh s)).
Definition log_slst : lens (lst D) slst :=
  Lens (λ s, (b_p (l_b s), log_lock s))
       (λ t s, Lst (over on_pst t.1 (l_b s)) t.2
                 (log_start s) (outstanding s) (committing s) (log_dev s) (lh s)).
Definition on_procs : lens (lst D) pst :=
  Lens (λ s, b_p (l_b s)) (λ p s, over on_b (over on_pst p (l_b s)) s).

Definition set_lh (h : logheader) s : lst D :=
  Lst (l_b s) (log_lock s) (log_start s) (outstanding s) (committing s) (log_dev s) h.
Definition set_n (n : Z) : M (lst D) unit := modify (λ s, set_lh (Lh n (lh_block (lh s))) s).
Definition set_outstanding (n : Z) : M (lst D) unit :=
  modify (λ s, Lst (l_b s) (log_lock s) (log_start s) n (committing s) (log_dev s) (lh s)).
Definition set_committing (n : Z) : M (lst D) unit :=
  modify (λ s, Lst (l_b s) (log_lock s) (log_start s) (outstanding s) n (log_dev s) (lh s)).

(** [log.lh.block[i]] read and written; out of the array the C code would touch
    other memory, which is the outcome [Wild]. *)
Definition lh_get (i : Z) : M (lst D) Z :=
  do s <- get; of_option (lh_block (lh s) !! Z.to_nat i).
Definition lh_set (i v : Z) : M (lst D) unit :=
  do s <- get;
  if Z.of_nat (length (lh_block (lh s))) <=? i then halt Wild
  else modify (λ s, set_lh (Lh (lh_n (lh s)) (<[Z.to_nat i := v]> (lh_block (lh s)))) s).

(** [bread(log.dev, x)] with the conversion of an int to uint. *)
Definition log_bread (x : Z) : M (lst D) nat :=
  do s <- get; zoom on_b (bread (u32 (log_dev s)) (u32 x)).
Definition b_bytes (i : nat) s : block := b_data (bufi i (l_b s)).

(** One iteration of install_trans. *)
Definition install_block (recovering : bool) (tail : Z) : M (lst D) unit :=
  do s <- get;
  do lbuf <- log_bread (log_start s + tail + 1);
  do home <- lh_get tail;
  do dbuf <- log_bread home;
  do data <- gets (b_bytes lbuf);
  zoom on_b (set_data dbuf (λ _, data)) ;;
  zoom on_b (bwrite dbuf) ;;
  when (negb recovering) (zoom on_b (bunpin dbuf)) ;;
  zoom on_b (brelse lbuf) ;;
  zoom on_b (brelse dbuf).

Definition install_trans (recovering : bool) : M (lst D) unit :=
  do s <- get; each (seqZ 0 (lh_n (lh s))) (install_block recovering).

Definition read_head : M (lst D) unit :=
  do s <- get;
  do buf <- log_bread (log_start s);
  do data <- gets (b_bytes buf);
  set_n (i32 (get32 0 data)) ;;
  do s <- get;
  each (seqZ 0 (lh_n (lh s))) (λ i, lh_set i (i32 (get32 (1 + i) data))) ;;
  zoom on_b (brelse buf).

Definition write_head : M (lst D) unit :=
  do s <- get;
  do buf <- log_bread (log_start s);
  do s <- get;
  zoom on_b (set_data buf (put32 0 (u32 (lh_n (lh s))))) ;;
  each (seqZ 0 (lh_n (lh s))) (λ i,
    do v <- lh_get i;
    zoom on_b (set_data buf (put32 (1 + i) (u32 v)))) ;;
  zoom on_b (bwrite buf) ;;
  zoom on_b (brelse buf).

Definition recover_from_log : M (lst D) unit :=
  read_head ;;
  install_trans true ;;
  set_n 0 ;;
  write_head.

(** [sizeof(struct logheader)] *)
Definition sizeof_logheader : Z := 4 + 4 * LOGBLOCKS.

(** initlog(dev, sb), given sb->logstart. *)
Definition initlog (dev logstart : Z) : M (lst D) unit :=
  if BSIZE <=? sizeof_logheader then panic "initlog: too big logheader"
  else
    zoom log_lk (initlock "log") ;;
    modify (λ s, Lst (l_b s) (log_lock s) (i32 logstart) (outstanding s) (committing s) dev (lh s)) ;;
    recover_from_log.

Definition begin_op : M (lst D) unit :=
  zoom log_lk acquire ;;
  while_sleep
    (gets (λ s, negb (committing s =? 0) ||
                (LOGBLOCKS <? lh_n (lh s) + (outstanding s + 1) * MAXOPBLOCKS)))
    (zoom log_slst (sleep ChLog)) ;;
  do s <- get;
  set_outstanding (outstanding s + 1) ;;
  zoom log_lk release.

(** One iteration of write_log. *)
Definition log_block (tail : Z) : M (lst D) unit :=
  do s <- get;
  do to <- log_bread (log_start s + tail + 1);
  do home <- lh_get tail;
  do from <- log_bread home;
  do data <- gets (b_bytes from);
  zoom on_b (set_data to (λ _, data)) ;;
  zoom on_b (bwrite to) ;;
  zoom on_b (brelse from) ;;
  zoom on_b (brelse to).

Definition write_log : M (lst D) unit :=
  do s <- get; each (seqZ 0 (lh_n (lh s))) log_block.

Definition commit : M (lst D) unit :=
  do s <- get;
  when (0 <? lh_n (lh s))
    (write_log ;;
     write_head ;;
     install_trans false ;;
     set_n 0 ;;
     write_head).

Definition end_op : M (lst D) unit :=
  zoom log_lk acquire ;;
  do s <- get;
  set_outstanding (outstanding s - 1) ;;
  if negb (committing s =? 0) then panic "log.committing"
  else
    do do_commit <-
      (if outstanding s - 1 =? 0
       then set_committing 1 ;; ret true
       else zoom on_procs (wakeup ChLog) ;; ret false);
    zoom log_lk release ;;
    when do_commit
      (commit ;;
       zoom log_lk acquire ;;
       set_committing 0 ;;
       zoom on_procs (wakeup ChLog) ;;
       zoom log_lk release).

(** The index of [v] in the first [n] entries, or [n]. *)
Fixpoint absorb (v : Z) (l : list Z) (n : nat) : nat :=
  match n, l with
  | S n', b :: l' => if u32 b =? v then 0%nat else S (absorb v l' n')
  | _, _ => 0%nat
  end.

Definition log_write (b : nat) : M (lst D) unit :=
  zoom log_lk acquire ;;
  do s <- get;
  if LOGBLOCKS <=? lh_n (lh s) then panic "too big a transaction"
  else if outstanding s <? 1 then panic "log_write outside of trans"
  else
    let blockno := b_blockno (bufi b (l_b s)) in
    let i := Z.of_nat (absorb blockno (lh_block (lh s)) (Z.to_nat (lh_n (lh s)))) in
    lh_set i (i32 blockno) ;;
    when (i =? lh_n (lh s))
      (zoom on_b (bpin b) ;; set_n (lh_n (lh s) + 1)) ;;
    zoom log_lk release.
End log.
