(* ===== verification/LogSpec.v ===== *)
(** * The disk writes of kernel/log.c

    [lrep s f r img ws]: the log's buffer cache shows the blocks [f], the blocks
    in [r] are in use, no buffer is locked, and the device started as [img] and
    received the writes [ws]. The lemmas give the writes each function of log.c
    makes, in order, and what it does to the view. *)
From S2P Require Import Prelude Memory Riscv Spinlock Sched Sleeplock Disk Bio BioSpec BioInv BioOps Log.

(** ** The header block *)
Lemma length_put32 k v b :
  0 ≤ k → 4 * k + 4 ≤ Z.of_nat (length b) → length (put32 k v b) = length b.
Proof.
  intros Hk Hl. unfold put32. rewrite !length_app, length_take, length_le_bytes, length_drop. lia.
Qed.

Lemma get_put32 k v b :
  0 ≤ k → 4 * k + 4 ≤ Z.of_nat (length b) → get32 k (put32 k v b) = u32 v.
Proof.
  intros Hk Hl. unfold get32, put32.
  rewrite drop_app_length' by (rewrite length_take; lia).
  rewrite take_app_length' by (by rewrite length_le_bytes).
  change (le_val [u8 v; u8 (v `div` 256); u8 ((v `div` 256) `div` 256);
    u8 (((v `div` 256) `div` 256) `div` 256)] = u32 v).
  cbn [le_val]. unfold u8, u32. dlia.
Qed.

Lemma get_put32_ne k j v b :
  0 ≤ k → 0 ≤ j → j ≠ k → 4 * k + 4 ≤ Z.of_nat (length b) → get32 j (put32 k v b) = get32 j b.
Proof.
  intros Hk Hj Hne Hl. unfold get32. f_equal. apply list_eq. intros i.
  destruct (decide (i < 4)%nat) as [Hi|Hi].
  2: { rewrite !lookup_ge_None_2; [done|rewrite length_take; lia|rewrite length_take; lia]. }
  rewrite !lookup_take_lt, !lookup_drop by lia. unfold put32.
  destruct (decide (j < k)).
  - rewrite lookup_app_l by (rewrite length_take; lia). by rewrite lookup_take_lt by lia.
  - rewrite lookup_app_r by (rewrite length_take; lia).
    rewrite lookup_app_r by (rewrite length_le_bytes, length_take; lia).
    rewrite length_take, length_le_bytes, lookup_drop. f_equal. lia.
Qed.

(** The header as the code reads it: the count and the home blocks. *)
Definition hdr_n (b : block) : Z := i32 (get32 0 b).
Definition hdr_blocks (b : block) : list Z :=
  (λ i, i32 (get32 (1 + i) b)) <$> seqZ 0 (hdr_n b).

(** The header write_head builds: the count and the block numbers over the old
    contents of the block. *)
Definition put_blocks (l : list Z) (b : block) : block :=
  foldl (λ b '(i, v), put32 (1 + Z.of_nat i) (u32 v) b) b (imap pair l).
Definition put_hdr (l : list Z) (b : block) : block :=
  put_blocks l (put32 0 (u32 (Z.of_nat (length l))) b).

Lemma imap_snoc {A B} (f : nat → A → B) l x : imap f (l ++ [x]) = imap f l ++ [f (length l) x].
Proof. rewrite imap_app. cbn. by rewrite Nat.add_0_r. Qed.

Lemma put_blocks_snoc l v b :
  put_blocks (l ++ [v]) b = put32 (1 + Z.of_nat (length l)) (u32 v) (put_blocks l b).
Proof. unfold put_blocks. rewrite imap_snoc, foldl_app. done. Qed.

Definition fits (l : list Z) (b : block) : Prop := 4 + 4 * Z.of_nat (length l) ≤ Z.of_nat (length b).

Lemma length_put_blocks l b : fits l b → length (put_blocks l b) = length b.
Proof.
  induction l as [|v l IH] using rev_ind; intros Hf; [done|].
  unfold fits in *. rewrite length_app in Hf. cbn in Hf. rewrite put_blocks_snoc, length_put32; rewrite ?IH; lia.
Qed.

Lemma get_put_blocks_0 l b : fits l b → get32 0 (put_blocks l b) = get32 0 b.
Proof.
  induction l as [|v l IH] using rev_ind; intros Hf; [done|].
  unfold fits in *. rewrite length_app in Hf. cbn in Hf. rewrite put_blocks_snoc, get_put32_ne.
  - apply IH. lia.
  - lia.
  - lia.
  - lia.
  - rewrite length_put_blocks; unfold fits; lia.
Qed.

Lemma get_put_blocks l b i v :
  fits l b → l !! i = Some v → get32 (1 + Z.of_nat i) (put_blocks l b) = u32 v.
Proof.
  revert i. induction l as [|w l IH] using rev_ind; intros i Hf Hi; [done|].
  assert (fits l b) as Hf' by (unfold fits in *; rewrite length_app in Hf; cbn in Hf; lia).
  assert (4 * (1 + Z.of_nat (length l)) + 4 ≤ Z.of_nat (length (put_blocks l b))) as Hlen.
  { rewrite length_put_blocks by done. unfold fits in Hf. rewrite length_app in Hf. cbn in Hf. lia. }
  rewrite put_blocks_snoc. destruct (decide (i = length l)) as [->|Hne].
  - rewrite lookup_app_r, Nat.sub_diag in Hi by lia. injection Hi as ->. rewrite get_put32 by lia.
    unfold u32. by rewrite Z.mod_mod.
  - rewrite lookup_app_l in Hi. 2: { apply lookup_lt_Some in Hi. rewrite length_app in Hi. cbn in Hi. lia. }
    rewrite get_put32_ne by lia. by apply IH.
Qed.

(** Reading back the header that was written. *)
Lemma hdr_put l b :
  fits l b → Z.of_nat (length l) < 2 ^ 31 → Forall (λ v, 0 ≤ v < 2 ^ 31) l →
  hdr_n (put_hdr l b) = Z.of_nat (length l) ∧ hdr_blocks (put_hdr l b) = l.
Proof.
  intros Hf Hn Hl. set (b0 := put32 0 (u32 (Z.of_nat (length l))) b).
  assert (length b0 = length b) as Hb0 by (apply length_put32; unfold fits in *; lia).
  assert (fits l b0) as Hf0 by (unfold fits in *; lia).
  assert (hdr_n (put_hdr l b) = Z.of_nat (length l)) as En.
  { unfold hdr_n, put_hdr. fold b0. rewrite get_put_blocks_0 by done. unfold b0.
    rewrite get_put32 by (unfold fits in *; lia). rewrite !i32_u32. apply i32_small. lia. }
  split; [done|]. unfold hdr_blocks. rewrite En. apply list_eq. intros i.
  rewrite list_lookup_fmap. destruct (l !! i) as [v|] eqn:Hi.
  - rewrite lookup_seqZ_lt by (apply lookup_lt_Some in Hi; lia). cbn. f_equal.
    unfold put_hdr. fold b0. rewrite Z.add_0_l, (get_put_blocks l b0 i v), i32_u32 by done.
    rewrite Forall_lookup in Hl. specialize (Hl i v Hi). cbn in Hl. apply i32_small. lia.
  - rewrite lookup_seqZ_ge; [done|]. apply lookup_ge_None in Hi. lia.
Qed.

(** ** Running over the buffer cache *)
Section ops.
Context {D : Type} `{!BlockDev D}.
Implicit Types (s : lst D) (f : Z → block) (r : gmap Z Z) (ws : list (Z * block)).

(** The fields of struct log, which the cache operations leave alone. *)
Definition lfields s := (log_lock s, log_start s, outstanding s, committing s, log_dev s, lh s).

Record lrep s f r (img : Z → block) ws : Prop := {
  lr_inv : binv (l_b s) (Cache f r ∅);
  lr_img : image (b_dsk (l_b s)) = img;
  lr_ws : writes (b_dsk (l_b s)) = ws
}.

(** Two states of the same thread. *)
Record lstep s s' : Prop := {
  ls_fields : lfields s' = lfields s;
  ls_pst : pst_same (b_p (l_b s)) (b_p (l_b s'))
}.

Lemma lstep_refl s : lstep s s.
Proof. split; [done|apply pst_same_refl]. Qed.

Lemma lstep_trans s1 s2 s3 :
  pst_ok (b_p (l_b s1)) → lstep s1 s2 → lstep s2 s3 → lstep s1 s3.
Proof.
  intros Hok [H1 P1] [H2 P2]. split; [by rewrite H2|]. by eapply pst_same_trans.
Qed.

Lemma lift_b {A} (c : M (bst D) A) (Q : A → bst D → Prop) s :
  wp c Q (l_b s) → wp (zoom on_b c) (λ x s', Q x (l_b s') ∧ lfields s' = lfields s) s.
Proof. intros H. apply wp_zoom. eapply wp_mono; [exact H|]. intros x b Hq. done. Qed.

(** The abstract cache during a sequence of operations of one function. *)
Record lcur s a (img : Z → block) ws s' : Prop := {
  lc_inv : binv (l_b s') a;
  lc_img : image (b_dsk (l_b s')) = img;
  lc_ws : writes (b_dsk (l_b s')) = ws;
  lc_step : lstep s s'
}.

Lemma lcur_pst s a img ws s' : lcur s a img ws s' → pst_ok (b_p (l_b s')).
Proof. intros [Hi _ _ _]. apply (bi_cinv _ _ Hi). Qed.

Lemma lcur_next s a img ws s1 a' ws' s2 :
  pst_ok (b_p (l_b s)) → lcur s a img ws s1 → binv (l_b s2) a' → pst_same (b_p (l_b s1)) (b_p (l_b s2)) →
  image (b_dsk (l_b s2)) = image (b_dsk (l_b s1)) → writes (b_dsk (l_b s2)) = ws' →
  lfields s2 = lfields s1 → lcur s a' img ws' s2.
Proof.
  intros Hok [Hi Him Hw Hst] Hi2 Hp Him2 Hw2 Hf. split; [done|congruence|done|].
  eapply lstep_trans; [done|done|by split].
Qed.

Definition room (x : Z) (a : cache) : Prop :=
  is_Some (c_refs a !! x) ∨ (size (c_refs a) < Z.to_nat NBUF)%nat.

Lemma cur_bread s a img ws s1 x :
  pst_ok (b_p (l_b s)) → lcur s a img ws s1 → log_dev s = ROOTDEV → 0 ≤ x < 2 ^ 31 →
  (∀ j, c_held a !! j ≠ Some x) → default 0 (c_refs a !! x) + 1 < 2 ^ 32 → room x a →
  wp (log_bread x) (λ j s2, lcur s (c_bread j x a) img ws s2 ∧ c_held a !! j = None) s1.
Proof.
  intros Hok Hcur Hdev Hx Hh Hn Hroom. unfold log_bread. wp_step. wp_step.
  assert (log_dev s1 = ROOTDEV) as ->.
  { pose proof (ls_fields _ _ (lc_step _ _ _ _ _ Hcur)) as E. unfold lfields in E. congruence. }
  change (u32 ROOTDEV) with ROOTDEV. rewrite u32_small by lia.
  wp_call (lift_b (bread ROOTDEV x)); [by eapply bread_ok; [apply Hcur|..]|].
  intros j s2 [[[Hi Hp [Him Hw]] Hj] Hf]. split; [|done].
  eapply lcur_next; [done|exact Hcur|done|done|done| |done]. rewrite Hw. apply Hcur.
Qed.

Lemma cur_set_data s a img ws s1 i x g :
  pst_ok (b_p (l_b s)) → lcur s a img ws s1 → c_held a !! i = Some x →
  wp (zoom on_b (set_data i g)) (λ _ s2,
    lcur s (Cache (fupd (c_view a) x (g (c_view a x))) (c_refs a) (c_held a)) img ws s2) s1.
Proof.
  intros Hok Hcur Hh. wp_call (lift_b (set_data i g)); [by eapply set_data_ok; [apply Hcur|]|].
  intros [] s2 [[Hi Hp [Him Hw]] Hf].
  eapply lcur_next; [done|exact Hcur|done|done|done| |done]. rewrite Hw. apply Hcur.
Qed.

Lemma cur_bwrite s a img ws s1 i x :
  pst_ok (b_p (l_b s)) → lcur s a img ws s1 → c_held a !! i = Some x →
  wp (zoom on_b (bwrite i)) (λ _ s2, lcur s a img (ws ++ [(x, c_view a x)]) s2) s1.
Proof.
  intros Hok Hcur Hh. wp_call (lift_b (bwrite i)); [by eapply bwrite_ok; [apply Hcur|]|].
  intros [] s2 [(Hi & Hp & Him & Hw) Hf].
  eapply lcur_next; [done|exact Hcur|done|done|done| |done]. rewrite Hw. by rewrite (lc_ws _ _ _ _ _ Hcur).
Qed.

Lemma cur_brelse s a img ws s1 i x n :
  pst_ok (b_p (l_b s)) → lcur s a img ws s1 → c_held a !! i = Some x → c_refs a !! x = Some n →
  (n = 1 → c_view a x = apply_writes ws img x) →
  wp (zoom on_b (brelse i)) (λ _ s2, lcur s (c_brelse i x n a) img ws s2) s1.
Proof.
  intros Hok Hcur Hh Hn Hclean. wp_call (lift_b (brelse i)).
  { eapply brelse_ok; [apply Hcur|done|done|]. intros H1. unfold contents.
    rewrite (lc_img _ _ _ _ _ Hcur), (lc_ws _ _ _ _ _ Hcur). auto. }
  intros [] s2 [[Hi Hp [Him Hw]] Hf].
  eapply lcur_next; [done|exact Hcur|done|done|done| |done]. rewrite Hw. apply Hcur.
Qed.

Lemma cur_bunpin s a img ws s1 i x n :
  pst_ok (b_p (l_b s)) → lcur s a img ws s1 → c_held a !! i = Some x → c_refs a !! x = Some n → 1 < n →
  wp (zoom on_b (bunpin i)) (λ _ s2,
    lcur s (Cache (c_view a) (<[x := n - 1]> (c_refs a)) (c_held a)) img ws s2) s1.
Proof.
  intros Hok Hcur Hh Hn Hlt. wp_call (lift_b (bunpin i)); [by eapply bunpin_ok; [apply Hcur|..]|].
  intros [] s2 [[Hi Hp [Him Hw]] Hf].
  eapply lcur_next; [done|exact Hcur|done|done|done| |done]. rewrite Hw. apply Hcur.
Qed.

Lemma cur_data s a img ws s1 i x :
  lcur s a img ws s1 → c_held a !! i = Some x → b_bytes i s1 = c_view a x.
Proof. intros Hcur Hh. unfold b_bytes. eapply data_view; [apply Hcur|done]. Qed.

Lemma lcur_fields s a img ws s1 :
  lcur s a img ws s1 → log_start s1 = log_start s ∧ lh s1 = lh s.
Proof.
  intros Hcur. pose proof (ls_fields _ _ (lc_step _ _ _ _ _ Hcur)) as E. unfold lfields in E.
  split; congruence.
Qed.

Lemma lrep_cur s f r img ws : lrep s f r img ws → lcur s (Cache f r ∅) img ws s.
Proof. intros [Hi Him Hw]. split; [done|done|done|apply lstep_refl]. Qed.

Lemma cur_lrep s a f r img ws s' :
  lcur s a img ws s' → a = Cache f r ∅ → lrep s' f r img ws ∧ lstep s s'.
Proof. intros [Hi Him Hw Hst] ->. by split. Qed.

Lemma lcur_ext s f g r h img ws s' :
  (∀ x, g x = f x) → lcur s (Cache f r h) img ws s' → lcur s (Cache g r h) img ws s'.
Proof. intros Hfg [Hi Him Hw Hst]. split; [by eapply binv_ext|done|done|done]. Qed.

Lemma lrep_ext s f g r img ws : (∀ x, g x = f x) → lrep s f r img ws → lrep s g r img ws.
Proof. intros Hfg [Hi Him Hw]. split; [by eapply binv_ext|done|done]. Qed.

(** ** The blocks of a transaction *)

(** A block that is not part of the log. *)
Definition home (L x : Z) : Prop := 0 ≤ x < 2 ^ 31 ∧ ¬ (L ≤ x ≤ L + LOGBLOCKS).

(** The in-memory header describes the blocks [bl]. *)
Record txn s (bl : list Z) : Prop := {
  tx_dev : log_dev s = ROOTDEV;
  tx_start : 0 ≤ log_start s ∧ log_start s + LOGBLOCKS < 2 ^ 31;
  tx_len : length (lh_block (lh s)) = Z.to_nat LOGBLOCKS;
  tx_n : lh_n (lh s) = Z.of_nat (length bl);
  tx_max : (length bl ≤ Z.to_nat LOGBLOCKS)%nat;
  tx_blocks : take (length bl) (lh_block (lh s)) = bl;
  tx_home : Forall (home (log_start s)) bl
}.

Lemma txn_step s s' bl : lstep s s' → txn s bl → txn s' bl.
Proof.
  intros [E _]. unfold lfields in E. injection E as E1 E2 E3 E4 E5 E6. intros [H1 H2 H3 H4 H5 H6 H7].
  split; rewrite ?E2, ?E5, ?E6; done.
Qed.

Lemma txn_get s bl t x : txn s bl → bl !! t = Some x → lh_get (Z.of_nat t) s = Ok x s.
Proof.
  intros Ht Hx. unfold lh_get. rewrite (bind_Ok get _ _ _ _ eq_refl), Nat2Z.id.
  assert (lh_block (lh s) !! t = Some x) as ->; [|done].
  rewrite <- (tx_blocks _ _ Ht) in Hx. rewrite lookup_take_Some in Hx. naive_solver.
Qed.

Lemma txn_block s bl t x : txn s bl → bl !! t = Some x → home (log_start s) x ∧ (t < Z.to_nat LOGBLOCKS)%nat.
Proof.
  intros Ht Hx. split.
  - pose proof (tx_home _ _ Ht) as H. rewrite Forall_lookup in H. by apply (H t).
  - apply lookup_lt_Some in Hx. pose proof (tx_max _ _ Ht). lia.
Qed.

Ltac map_cases k :=
  apply map_eq; intros k;
  repeat (first [rewrite lookup_set_ref|rewrite lookup_delete|rewrite lookup_insert|rewrite lookup_empty]);
  repeat case_decide; subst; try done; try congruence; try (exfalso; lia).

(** ** Writing one block to the log *)
Lemma log_block_ok s f r img ws bl t x n :
  lrep s f r img ws → txn s bl → bl !! t = Some x →
  r !! x = Some n → 0 < n < 2 ^ 16 → (size r < Z.to_nat NBUF)%nat →
  r !! (log_start s + Z.of_nat t + 1) = None →
  wp (log_block (Z.of_nat t)) (λ _ s',
    lrep s' (fupd f (log_start s + Z.of_nat t + 1) (f x)) r img
         (ws ++ [(log_start s + Z.of_nat t + 1, f x)]) ∧ lstep s s') s.
Proof.
  intros Hl Ht Hx Hn Hpos Hsz Hy. destruct (txn_block s bl t x Ht Hx) as [[Hxr Hxh] Htm].
  pose proof (tx_start _ _ Ht). change LOGBLOCKS with 30 in *. set (y := log_start s + Z.of_nat t + 1) in *.
  assert (x ≠ y) as Hxy by lia.
  assert (pst_ok (b_p (l_b s))) as Hok by apply (bi_cinv _ _ (lr_inv _ _ _ _ _ Hl)).
  unfold log_block. wp_step. wp_step. fold y. wp_step.
  wp_call (cur_bread s _ img ws s y); [done|by apply lrep_cur|apply Ht|lia|done| |by right|].
  { cbn [c_refs]. rewrite Hy. done. }
  intros i s1 [Hc1 _]. unfold c_bread in Hc1. cbn [c_view c_refs c_held] in Hc1. rewrite Hy in Hc1.
  wp_step. eapply wp_of_Ok.
  { apply (txn_get s1 bl); [|done]. by apply (txn_step s); [apply Hc1|]. }
  wp_step. wp_call (cur_bread s _ img ws s1 x); [done|exact Hc1|apply Ht|lia| | | |].
  { cbn. intros j. rewrite lookup_insert. case_decide; [congruence|done]. }
  { cbn. rewrite lookup_insert_ne, Hn by done. cbn. lia. }
  { left. cbn. rewrite lookup_insert_ne by done. by eexists. }
  intros j s2 [Hc2 Hj]. unfold c_bread in Hc2. cbn [c_view c_refs c_held] in Hc2, Hj.
  assert (j ≠ i) as Hji by (intros ->; by rewrite lookup_insert_eq in Hj).
  rewrite (lookup_insert_ne _ y x), Hn in Hc2 by done. cbn in Hc2.
  wp_step. wp_step. rewrite (cur_data _ _ _ _ _ j x Hc2) by (cbn; by rewrite lookup_insert_eq). cbn [c_view].
  wp_step. wp_call (cur_set_data s _ img ws s2 i y); [done|exact Hc2|cbn; by rewrite lookup_insert_ne, lookup_insert_eq|].
  cbn [c_view c_refs c_held]. intros [] s3 Hc3.
  wp_step. wp_call (cur_bwrite s _ img ws s3 i y); [done|exact Hc3|cbn; by rewrite lookup_insert_ne, lookup_insert_eq|].
  cbn [c_view]. rewrite fupd_eq. intros [] s4 Hc4.
  wp_step. wp_call (cur_brelse s _ img _ s4 j x (n + 1)); [done|exact Hc4|cbn; by rewrite lookup_insert_eq|cbn; by rewrite lookup_insert_eq|lia|].
  intros [] s5 Hc5. unfold c_brelse in Hc5. cbn [c_view c_refs c_held] in Hc5.
  wp_call (cur_brelse s _ img _ s5 i y 1); [done|exact Hc5| | | |].
  { cbn. rewrite lookup_delete_ne, lookup_insert_ne, lookup_insert_eq by done. done. }
  { cbn. rewrite lookup_set_ref, decide_False, lookup_insert_ne, lookup_insert_eq by done. done. }
  { intros _. cbn. by rewrite fupd_eq, apply_writes_snoc, fupd_eq. }
  intros [] s6 Hc6. apply (cur_lrep s _ _ _ _ _ s6 Hc6). unfold c_brelse. cbn. f_equal.
  - replace (n + 1 - 1) with n by lia. map_cases k.
  - map_cases k.
Qed.

(** ** Installing one block *)
Lemma install_block_ok s f r img ws bl t x (recovering : bool) :
  lrep s f r img ws → txn s bl → bl !! t = Some x →
  r !! x = (if recovering then None else Some 1) → (size r + 1 < Z.to_nat NBUF + if recovering then 0 else 1)%nat →
  r !! (log_start s + Z.of_nat t + 1) = None →
  f (log_start s + Z.of_nat t + 1) = apply_writes ws img (log_start s + Z.of_nat t + 1) →
  wp (install_block recovering (Z.of_nat t)) (λ _ s',
    lrep s' (fupd f x (f (log_start s + Z.of_nat t + 1))) (delete x r) img
         (ws ++ [(x, f (log_start s + Z.of_nat t + 1))]) ∧ lstep s s') s.
Proof.
  intros Hl Ht Hx Hn Hsz Hy Hcl. destruct (txn_block s bl t x Ht Hx) as [[Hxr Hxh] Htm].
  pose proof (tx_start _ _ Ht). change LOGBLOCKS with 30 in *. set (y := log_start s + Z.of_nat t + 1) in *.
  assert (x ≠ y) as Hxy by lia.
  assert (pst_ok (b_p (l_b s))) as Hok by apply (bi_cinv _ _ (lr_inv _ _ _ _ _ Hl)).
  unfold install_block. wp_step. wp_step. fold y. wp_step.
  wp_call (cur_bread s _ img ws s y); [done|by apply lrep_cur|apply Ht|lia|done| | |].
  { cbn [c_refs]. rewrite Hy. done. }
  { right. cbn. destruct recovering; lia. }
  intros i s1 [Hc1 _]. unfold c_bread in Hc1. cbn [c_view c_refs c_held] in Hc1. rewrite Hy in Hc1.
  wp_step. eapply wp_of_Ok.
  { apply (txn_get s1 bl); [|done]. by apply (txn_step s); [apply Hc1|]. }
  wp_step. wp_call (cur_bread s _ img ws s1 x); [done|exact Hc1|apply Ht|lia| | | |].
  { cbn. intros j. rewrite lookup_insert. case_decide; [congruence|done]. }
  { cbn. rewrite lookup_insert_ne, Hn by done. by destruct recovering. }
  { unfold room. cbn. rewrite lookup_insert_ne, Hn by done. destruct recovering; [right|by left].
    rewrite map_size_insert, Hy. lia. }
  intros j s2 [Hc2 Hj]. unfold c_bread in Hc2. cbn [c_view c_refs c_held] in Hc2, Hj.
  assert (j ≠ i) as Hji by (intros ->; by rewrite lookup_insert_eq in Hj).
  rewrite (lookup_insert_ne _ y x), Hn in Hc2 by done.
  wp_step. wp_step. rewrite (cur_data _ _ _ _ _ i y Hc2) by (cbn; by rewrite lookup_insert_ne, lookup_insert_eq). cbn [c_view].
  wp_step. wp_call (cur_set_data s _ img ws s2 j x); [done|exact Hc2|cbn; by rewrite lookup_insert_eq|].
  cbn [c_view c_refs c_held]. intros [] s3 Hc3.
  wp_step. wp_call (cur_bwrite s _ img ws s3 j x); [done|exact Hc3|cbn; by rewrite lookup_insert_eq|].
  cbn [c_view]. rewrite fupd_eq. intros [] s4 Hc4.
  wp_step. apply (wp_mono _ (λ _ s5, lcur s (Cache (fupd f x (f y)) (<[x := 1]> (<[y := 1]> r))
    (<[j := x]> (<[i := y]> ∅))) img (ws ++ [(x, f y)]) s5)).
  { destruct recovering; unfold when; cbn [negb].
    - wp_step. exact Hc4.
    - wp_call (cur_bunpin s _ img _ s4 j x 2); [done|exact Hc4|cbn; by rewrite lookup_insert_eq|cbn; by rewrite lookup_insert_eq|lia|].
      cbn [c_view c_refs c_held]. intros [] s5 Hc5. by rewrite insert_insert_eq in Hc5. }
  intros [] s5 Hc5. wp_step.
  wp_call (cur_brelse s _ img _ s5 i y 1); [done|exact Hc5| | | |].
  { cbn. rewrite lookup_insert_ne, lookup_insert_eq by done. done. }
  { cbn. rewrite lookup_insert_ne, lookup_insert_eq by done. done. }
  { intros _. cbn. by rewrite apply_writes_snoc, !fupd_ne by done. }
  intros [] s6 Hc6. unfold c_brelse in Hc6. cbn [c_view c_refs c_held] in Hc6.
  wp_call (cur_brelse s _ img _ s6 j x 1); [done|exact Hc6| | | |].
  { cbn. rewrite lookup_delete_ne, lookup_insert_eq by done. done. }
  { cbn. rewrite lookup_set_ref, decide_False, lookup_insert_eq by done. done. }
  { intros _. cbn. by rewrite fupd_eq, apply_writes_snoc, fupd_eq. }
  intros [] s7 Hc7. apply (cur_lrep s _ _ _ _ _ s7 Hc7). unfold c_brelse. cbn. f_equal.
  - map_cases k.
  - map_cases k.
Qed.
End ops.
