(* ===== verification/LogOps.v ===== *)
(** * Commit and recovery

    What the functions of kernel/log.c write to the disk as wholes: the log
    blocks, the header, the home blocks, the erased header. *)
From S2P Require Import Prelude Memory Riscv Spinlock Sched Sleeplock Disk Bio BioSpec BioInv BioOps Log LogSpec.

(** [seqZ 0 n] as the indices of a list. *)
Lemma seqZ_split n pre i post :
  seqZ 0 n = pre ++ i :: post → pre = seqZ 0 i ∧ 0 ≤ i < n.
Proof.
  intros H. assert (seqZ 0 n !! length pre = Some i) as Hi
    by (rewrite H; by apply list_lookup_middle).
  apply lookup_seqZ in Hi as [-> Hlt]. split; [|lia].
  apply list_eq. intros j. destruct (decide (j < length pre)%nat) as [Hj|Hj].
  - rewrite lookup_seqZ_lt by lia. rewrite <- (lookup_app_l pre (0 + Z.of_nat (length pre) :: post)) by done.
    rewrite <- H, lookup_seqZ_lt by lia. done.
  - rewrite lookup_ge_None_2, lookup_seqZ_ge by lia. done.
Qed.

(** The writes of write_log and of install_trans, for the blocks [bl] of a
    transaction, the log starting at [L] and the view [f]. *)
Definition log_writes (L : Z) (f : Z → block) (bl : list Z) : list (Z * block) :=
  imap (λ t x, (L + Z.of_nat t + 1, f x)) bl.
Definition home_writes (L : Z) (f : Z → block) (bl : list Z) : list (Z * block) :=
  imap (λ t x, (x, f (L + Z.of_nat t + 1))) bl.

(** The pinned blocks of a transaction. *)
Definition pins (bl : list Z) : gmap Z Z := list_to_map ((λ x, (x, 1)) <$> bl).

Lemma pins_fst bl : ((λ x, (x, 1)) <$> bl : list (Z * Z)).*1 = bl.
Proof. induction bl as [|x bl IH]; [done|]. cbn. by f_equal. Qed.

Lemma lookup_pins bl x : pins bl !! x = if decide (x ∈ bl) then Some 1 else None.
Proof.
  unfold pins. case_decide as Hx.
  - induction bl as [|y bl IH]; [by apply not_elem_of_nil in Hx|]. cbn.
    destruct (decide (x = y)) as [->|]; [by rewrite lookup_insert_eq|].
    rewrite lookup_insert_ne by done. apply IH. apply elem_of_cons in Hx as [|]; done.
  - apply not_elem_of_list_to_map. by rewrite pins_fst.
Qed.

Lemma size_pins bl : (size (pins bl) ≤ length bl)%nat.
Proof.
  induction bl as [|x bl IH]; cbn; [done|]. unfold pins in *. cbn.
  rewrite map_size_insert. destruct (_ !! x); cbn; lia.
Qed.

Lemma pins_delete x bl : x ∉ bl → delete x (pins (x :: bl)) = pins bl.
Proof.
  intros Hx. apply map_eq. intros k. rewrite lookup_delete, !lookup_pins.
  repeat case_decide; subst; try done; set_solver.
Qed.

Section ops.
Context {D : Type} `{!BlockDev D}.
Implicit Types (s : lst D) (f : Z → block) (r : gmap Z Z) (ws : list (Z * block)).

(** A write to a log block keeps the home blocks, and conversely. *)
Lemma log_writes_out L f bl g x : ¬ (L ≤ x ≤ L + LOGBLOCKS) → (length bl ≤ Z.to_nat LOGBLOCKS)%nat →
  apply_writes (log_writes L f bl) g x = g x.
Proof.
  intros Hh Hm. apply apply_writes_notin. unfold log_writes. intros Hin.
  apply list_elem_of_fmap in Hin as ([b d] & -> & Hb). apply elem_of_lookup_imap in Hb as (t & y & [= -> ->] & Ht).
  apply lookup_lt_Some in Ht. cbn in *. lia.
Qed.

Lemma log_writes_home L f bl g x : home L x → (length bl ≤ Z.to_nat LOGBLOCKS)%nat →
  apply_writes (log_writes L f bl) g x = g x.
Proof. intros [_ Hh]. by apply log_writes_out. Qed.

Lemma home_writes_log L f bl g x : Forall (home L) bl → L ≤ x ≤ L + LOGBLOCKS →
  apply_writes (home_writes L f bl) g x = g x.
Proof.
  intros Hh Hx. apply apply_writes_notin. unfold home_writes. intros Hin.
  apply list_elem_of_fmap in Hin as ([b d] & -> & Hb). apply elem_of_lookup_imap in Hb as (t & y & [= -> ->] & Ht).
  rewrite Forall_lookup in Hh. specialize (Hh t y Ht). destruct Hh as [_ ?]. done.
Qed.

Lemma log_writes_snoc L f bl x :
  log_writes L f (bl ++ [x]) = log_writes L f bl ++ [(L + Z.of_nat (length bl) + 1, f x)].
Proof. unfold log_writes, home_writes. by rewrite imap_snoc. Qed.

Lemma home_writes_snoc L f bl x :
  home_writes L f (bl ++ [x]) = home_writes L f bl ++ [(x, f (L + Z.of_nat (length bl) + 1))].
Proof. unfold log_writes, home_writes. by rewrite imap_snoc. Qed.

Lemma lstep_start s s' : lstep s s' → log_start s' = log_start s.
Proof. intros [E _]. unfold lfields in E. congruence. Qed.

Lemma lrep_pst s f r img ws : lrep s f r img ws → pst_ok (b_p (l_b s)).
Proof. intros [Hi _ _]. apply (bi_cinv _ _ Hi). Qed.

(** ** write_log *)
Lemma write_log_ok s f img ws bl :
  lrep s f (pins bl) img ws → txn s bl → (length bl < Z.to_nat NBUF)%nat →
  wp write_log (λ _ s',
    lrep s' (apply_writes (log_writes (log_start s) f bl) f) (pins bl) img
         (ws ++ log_writes (log_start s) f bl) ∧ lstep s s') s.
Proof.
  intros Hl Ht Hn. unfold write_log. wp_step. wp_step. rewrite (tx_n _ _ Ht).
  pose proof (lrep_pst _ _ _ _ _ Hl) as Hok.
  wp_call (wp_each_ind (seqZ 0 (Z.of_nat (length bl))) log_block (λ vis s',
    lrep s' (apply_writes (log_writes (log_start s) f (take (length vis) bl)) f) (pins bl) img
         (ws ++ log_writes (log_start s) f (take (length vis) bl)) ∧ lstep s s')).
  - split; [by rewrite app_nil_r|apply lstep_refl].
  - intros pre i post s' Hs [Hl' Hst]. apply seqZ_split in Hs as [-> Hi].
    rewrite length_app, length_seqZ. cbn [length].
    destruct (lookup_lt_is_Some_2 bl (Z.to_nat i)) as [x Hx]; [lia|].
    replace (Z.to_nat i + 1)%nat with (S (Z.to_nat i)) by lia. rewrite (take_S_r bl _ x Hx).
    rewrite length_seqZ in Hl'. rewrite log_writes_snoc, length_take, Nat.min_l by lia.
    pose proof (txn_step _ _ _ Hst Ht) as Ht'. pose proof (lstep_start _ _ Hst) as Es.
    pose proof (txn_block _ _ _ _ Ht' Hx) as [Hh Hm].
    assert (apply_writes (log_writes (log_start s) f (take (Z.to_nat i) bl)) f x = f x) as Ex.
    { rewrite <- Es. apply log_writes_home; [done|]. rewrite length_take. pose proof (tx_max _ _ Ht). lia. }
    replace i with (Z.of_nat (Z.to_nat i)) at 1 by lia.
    wp_call (log_block_ok s' _ (pins bl) img _ bl (Z.to_nat i) x 1); [exact Hl'|done|done| |lia| | |].
    + rewrite lookup_pins, decide_True; [done|]. by eapply list_elem_of_lookup_2.
    + pose proof (size_pins bl). lia.
    + rewrite lookup_pins, decide_False; [done|]. intros Hin.
      pose proof (tx_home _ _ Ht') as HF. rewrite Forall_forall in HF. destruct (HF _ Hin) as [_ Hno].
      apply Hno. lia.
    + intros [] s2 [Hl2 Hst2]. rewrite Ex, Es in Hl2. split; [|by eapply lstep_trans].
      rewrite app_assoc. eapply lrep_ext; [|exact Hl2]. intros y. apply apply_writes_snoc.
  - intros [] s' H. rewrite length_seqZ, Nat2Z.id, firstn_all in H. exact H.
Qed.

(** ** install_trans *)
Definition pinned (recovering : bool) (bl : list Z) : gmap Z Z := if recovering then ∅ else pins bl.

Lemma pinned_head recovering x bl :
  x ∉ bl → pinned recovering (x :: bl) !! x = (if recovering then None else Some 1) ∧
           delete x (pinned recovering (x :: bl)) = pinned recovering bl.
Proof.
  intros Hx. destruct recovering; cbn [pinned].
  - split; [done|apply delete_empty].
  - split; [|by apply pins_delete]. rewrite lookup_pins, decide_True; [done|set_solver].
Qed.

Lemma install_trans_ok s f img ws bl (recovering : bool) :
  lrep s f (pinned recovering bl) img ws → txn s bl → NoDup bl ∨ recovering = true →
  (length bl < Z.to_nat NBUF ∨ recovering = true)%nat →
  (∀ y, log_start s ≤ y ≤ log_start s + LOGBLOCKS → f y = apply_writes ws img y) →
  wp (install_trans recovering) (λ _ s',
    lrep s' (apply_writes (home_writes (log_start s) f bl) f) ∅ img
         (ws ++ home_writes (log_start s) f bl) ∧ lstep s s') s.
Proof.
  intros Hl Ht Hnd Hn Hcl. unfold install_trans. wp_step. wp_step. rewrite (tx_n _ _ Ht).
  pose proof (lrep_pst _ _ _ _ _ Hl) as Hok.
  wp_call (wp_each_ind (seqZ 0 (Z.of_nat (length bl))) (install_block recovering) (λ vis s',
    lrep s' (apply_writes (home_writes (log_start s) f (take (length vis) bl)) f)
         (pinned recovering (drop (length vis) bl)) img
         (ws ++ home_writes (log_start s) f (take (length vis) bl)) ∧ lstep s s')).
  - split; [by rewrite app_nil_r|apply lstep_refl].
  - intros pre i post s' Hs [Hl' Hst]. apply seqZ_split in Hs as [-> Hi].
    rewrite length_app, length_seqZ. cbn [length].
    destruct (lookup_lt_is_Some_2 bl (Z.to_nat i)) as [x Hx]; [lia|].
    replace (Z.to_nat i + 1)%nat with (S (Z.to_nat i)) by lia. rewrite (take_S_r bl _ x Hx).
    rewrite length_seqZ in Hl'. rewrite home_writes_snoc, length_take, Nat.min_l by lia.
    pose proof (txn_step _ _ _ Hst Ht) as Ht'. pose proof (lstep_start _ _ Hst) as Es.
    pose proof (txn_block _ _ _ _ Ht' Hx) as [Hh Hm].
    set (y := log_start s + Z.of_nat (Z.to_nat i) + 1).
    assert (log_start s ≤ y ≤ log_start s + LOGBLOCKS) as Hy by (unfold y; lia).
    assert (Forall (home (log_start s)) (take (Z.to_nat i) bl)) as HF
      by (apply Forall_take; apply (tx_home _ _ Ht)).
    assert (drop (Z.to_nat i) bl = x :: drop (S (Z.to_nat i)) bl) as Edr by (by apply drop_S).
    rewrite Edr in Hl'.
    assert (x ∉ drop (S (Z.to_nat i)) bl ∨ recovering = true) as Hnin.
    { destruct Hnd as [Hnd|]; [left|by right].
      rewrite <- (take_drop (Z.to_nat i) bl), Edr in Hnd. apply NoDup_app in Hnd as (_ & _ & Hnd).
      by apply NoDup_cons in Hnd as [? _]. }
    assert (pinned recovering (x :: drop (S (Z.to_nat i)) bl) !! x = (if recovering then None else Some 1) ∧
      delete x (pinned recovering (x :: drop (S (Z.to_nat i)) bl)) = pinned recovering (drop (S (Z.to_nat i)) bl)) as [Hp1 Hp2].
    { destruct Hnin as [Hnin| ->]; [by apply pinned_head|]. split; [done|apply delete_empty]. }
    replace i with (Z.of_nat (Z.to_nat i)) at 1 by lia.
    wp_call (install_block_ok s' _ _ img _ bl (Z.to_nat i) x recovering); [exact Hl'|done|done|done| | | |].
    + destruct recovering; cbn [pinned]; [rewrite map_size_empty; unfold NBUF, MAXOPBLOCKS; lia|].
      pose proof (size_pins (x :: drop (S (Z.to_nat i)) bl)) as Hsz. cbn [length] in Hsz.
      rewrite length_drop in Hsz. destruct Hn as [|]; [lia|done].
    + rewrite Es. fold y. destruct recovering; [done|]. cbn [pinned]. rewrite lookup_pins, decide_False; [done|].
      rewrite <- Edr. intros Hin. pose proof (tx_home _ _ Ht) as HF'. rewrite Forall_forall in HF'.
      apply subseteq_drop in Hin as Hin'. destruct (HF' y Hin') as [_ Hno]. done.
    + rewrite Es. fold y. rewrite (home_writes_log (log_start s)) by done. rewrite apply_writes_app.
      rewrite (home_writes_log (log_start s)) by done. by apply Hcl.
    + intros [] s2 [Hl2 Hst2]. rewrite Es, Hp2 in Hl2. fold y in Hl2.
      rewrite (home_writes_log (log_start s)) in Hl2 by done. split; [|by eapply lstep_trans].
      rewrite app_assoc. eapply lrep_ext; [|exact Hl2]. intros z. apply apply_writes_snoc.
  - intros [] s' H. rewrite length_seqZ, Nat2Z.id, firstn_all, drop_all in H.
    replace (pinned recovering []) with (∅ : gmap Z Z) in H by (by destruct recovering). exact H.
Qed.

(** ** write_head *)
Lemma write_head_ok s f r img ws bl :
  lrep s f r img ws → txn s bl → r !! log_start s = None → (size r < Z.to_nat NBUF)%nat →
  wp write_head (λ _ s',
    lrep s' (fupd f (log_start s) (put_hdr bl (f (log_start s)))) r img
         (ws ++ [(log_start s, put_hdr bl (f (log_start s)))]) ∧ lstep s s') s.
Proof.
  intros Hl Ht Hr Hn. set (L := log_start s) in *. pose proof (lrep_pst _ _ _ _ _ Hl) as Hok.
  pose proof (tx_start _ _ Ht) as HL. fold L in HL.
  unfold write_head. wp_step. wp_step. fold L. wp_step.
  wp_call (cur_bread s _ img ws s L); [done|by apply lrep_cur|apply Ht|unfold LOGBLOCKS, MAXOPBLOCKS in HL; lia|done| |by right|].
  { cbn. by rewrite Hr. }
  intros i s1 [Hc1 _]. unfold c_bread in Hc1. cbn [c_view c_refs c_held] in Hc1. rewrite Hr in Hc1.
  wp_step. wp_step. destruct (lcur_fields _ _ _ _ _ Hc1) as [_ Elh]. rewrite Elh, (tx_n _ _ Ht).
  set (d0 := put32 0 (u32 (Z.of_nat (length bl))) (f L)).
  wp_step. wp_call (cur_set_data s _ img ws s1 i L); [done|exact Hc1|cbn; by rewrite lookup_insert_eq|].
  cbn [c_view c_refs c_held]. fold d0. intros [] s2 Hc2.
  wp_step. wp_call (wp_each_ind (seqZ 0 (Z.of_nat (length bl))) (λ k,
      do v <- lh_get k; zoom on_b (set_data i (put32 (1 + k) (u32 v)))) (λ vis s',
    lcur s (Cache (fupd f L (put_blocks (take (length vis) bl) d0)) (<[L := 0 + 1]> r) (<[i := L]> ∅)) img ws s')).
  { exact Hc2. }
  { intros pre k post s' Hs Hc. apply seqZ_split in Hs as [-> Hk].
    rewrite length_app, length_seqZ in *. cbn [length].
    destruct (lookup_lt_is_Some_2 bl (Z.to_nat k)) as [x Hx]; [lia|].
    replace (Z.to_nat k + 1)%nat with (S (Z.to_nat k)) by lia. rewrite (take_S_r bl _ x Hx).
    rewrite put_blocks_snoc, length_take, Nat.min_l by lia.
    wp_step. replace k with (Z.of_nat (Z.to_nat k)) at 1 by lia.
    eapply wp_of_Ok; [apply (txn_get s' bl); [by apply (txn_step s); [apply Hc|]|done]|].
    wp_call (cur_set_data s _ img ws s' i L); [done|exact Hc|cbn; by rewrite lookup_insert_eq|].
    cbn [c_view c_refs c_held]. intros [] s3 Hc3. eapply lcur_ext; [|exact Hc3].
    intros y. unfold fupd. case_decide; [|done]. subst. rewrite decide_True by done.
    rewrite Z2Nat.id by lia. done. }
  intros [] s3 Hc3. rewrite length_seqZ, Nat2Z.id, firstn_all in Hc3.
  change (put_blocks bl d0) with (put_hdr bl (f L)) in Hc3.
  wp_step. wp_call (cur_bwrite s _ img ws s3 i L); [done|exact Hc3|cbn; by rewrite lookup_insert_eq|].
  cbn [c_view]. rewrite fupd_eq. intros [] s4 Hc4.
  wp_call (cur_brelse s _ img _ s4 i L 1); [done|exact Hc4|cbn; by rewrite lookup_insert_eq|cbn; by rewrite lookup_insert_eq| |].
  { intros _. cbn. by rewrite fupd_eq, apply_writes_snoc, fupd_eq. }
  intros [] s5 Hc5. apply (cur_lrep s _ _ _ _ _ s5 Hc5). unfold c_brelse. cbn. f_equal.
  - apply map_eq. intros k. rewrite lookup_set_ref, lookup_insert. repeat case_decide; subst; done.
  - apply map_eq. intros k. rewrite lookup_delete, lookup_insert. repeat case_decide; subst; done.
Qed.

(** ** Changing the in-memory header *)

(** What commit and recovery keep of struct log. *)
Record lkeep s s' : Prop := {
  kp_lock : log_lock s' = log_lock s;
  kp_start : log_start s' = log_start s;
  kp_out : outstanding s' = outstanding s;
  kp_com : committing s' = committing s;
  kp_dev : log_dev s' = log_dev s;
  kp_len : length (lh_block (lh s')) = length (lh_block (lh s));
  kp_pst : pst_same (b_p (l_b s)) (b_p (l_b s'))
}.

Lemma lstep_keep s s' : lstep s s' → lkeep s s'.
Proof. intros [E Hp]. unfold lfields in E. injection E as E1 E2 E3 E4 E5 E6. split; congruence || done. Qed.

Lemma lkeep_trans s1 s2 s3 : pst_ok (b_p (l_b s1)) → lkeep s1 s2 → lkeep s2 s3 → lkeep s1 s3.
Proof.
  intros Hok [H1 H2 H3 H4 H5 H6 H7] [G1 G2 G3 G4 G5 G6 G7]. split; try congruence.
  by eapply pst_same_trans.
Qed.

Lemma lkeep_lh s h : length (lh_block h) = length (lh_block (lh s)) → lkeep s (set_lh h s).
Proof. intros H. split; try done. apply pst_same_refl. Qed.

Lemma lrep_lh s h f r img ws : lrep s f r img ws → lrep (set_lh h s) f r img ws.
Proof. by intros [? ? ?]. Qed.

Lemma txn_clear s bl : txn s bl → txn (set_lh (Lh 0 (lh_block (lh s))) s) [].
Proof. intros [H1 H2 H3 H4 H5 H6 H7]. split; cbn; try done. lia. Qed.

(** ** read_head *)
Lemma read_head_ok s f r img ws :
  lrep s f r img ws → log_dev s = ROOTDEV →
  0 ≤ log_start s ∧ log_start s + LOGBLOCKS < 2 ^ 31 →
  length (lh_block (lh s)) = Z.to_nat LOGBLOCKS →
  0 ≤ hdr_n (f (log_start s)) ≤ LOGBLOCKS →
  r !! log_start s = None → (size r < Z.to_nat NBUF)%nat →
  f (log_start s) = apply_writes ws img (log_start s) →
  wp read_head (λ _ s', lrep s' f r img ws ∧ lkeep s s' ∧
    lh_n (lh s') = hdr_n (f (log_start s)) ∧
    take (Z.to_nat (hdr_n (f (log_start s)))) (lh_block (lh s')) = hdr_blocks (f (log_start s))) s.
Proof.
  intros Hl Hdev HL Hlen Hhn Hr Hn Hcl. set (L := log_start s) in *. set (d := f L) in *.
  pose proof (lrep_pst _ _ _ _ _ Hl) as Hok.
  unfold read_head. wp_step. wp_step. fold L. wp_step.
  wp_call (cur_bread s _ img ws s L); [done|by apply lrep_cur|done|unfold LOGBLOCKS, MAXOPBLOCKS in HL; lia|done| |by right|].
  { cbn. by rewrite Hr. }
  intros i s1 [Hc1 _]. unfold c_bread in Hc1. cbn [c_view c_refs c_held] in Hc1. rewrite Hr in Hc1.
  wp_step. wp_step. rewrite (cur_data _ _ _ _ _ i L Hc1) by (cbn; by rewrite lookup_insert_eq). cbn [c_view].
  fold d. fold (hdr_n d). unfold set_n at 1. wp_step. wp_step. wp_step. wp_step. cbn [set_lh lh lh_n].
  destruct (lcur_fields _ _ _ _ _ Hc1) as [_ Elh].
  wp_step. wp_call (wp_each_ind (seqZ 0 (hdr_n d)) (λ k, lh_set k (i32 (get32 (1 + k) d))) (λ vis s',
    l_b s' = l_b s1 ∧ lkeep s1 s' ∧ lh_n (lh s') = hdr_n d ∧
    take (length vis) (lh_block (lh s')) = take (length vis) (hdr_blocks d))).
  { split_and!; [done|apply lkeep_lh; done|done|done]. }
  { intros pre k post s' Hs (Hb & Hk & Hn' & Htk). apply seqZ_split in Hs as [-> Hki].
    assert (Z.of_nat (length (lh_block (lh s'))) = LOGBLOCKS) as Hlen'.
    { rewrite (kp_len _ _ Hk), Elh, Hlen. unfold LOGBLOCKS, MAXOPBLOCKS. lia. }
    unfold lh_set. wp_step. wp_step. rewrite (proj2 (Z.leb_gt _ _)) by lia. wp_step.
    rewrite length_app, length_seqZ in *. cbn [length].
    split_and!; [done| |done|].
    - destruct Hk as [K1 K2 K3 K4 K5 K6 K7]. split; try done. cbn. rewrite length_insert. done.
    - cbn [set_lh lh lh_block]. replace (Z.to_nat k + 1)%nat with (S (Z.to_nat k)) by lia.
      rewrite (take_S_r _ (Z.to_nat k) (i32 (get32 (1 + k) d))) by (apply list_lookup_insert_eq; lia).
      rewrite take_insert_ge by lia. rewrite Htk. symmetry. apply take_S_r.
      unfold hdr_blocks. rewrite list_lookup_fmap, lookup_seqZ_lt by lia. cbn. do 2 f_equal. f_equal. lia. }
  intros [] s2 (Hb2 & Hk2 & Hn2 & Htk2). rewrite length_seqZ in Htk2.
  assert (lcur s2 (Cache f (<[L := 0 + 1]> r) (<[i := L]> ∅)) img ws s2) as Hc2.
  { destruct Hc1 as [C1 C2 C3 C4]. split; try (by rewrite Hb2). apply lstep_refl. }
  pose proof (lcur_pst _ _ _ _ _ Hc2) as Hok2.
  wp_call (cur_brelse s2 _ img ws s2 i L 1); [done|exact Hc2|cbn; by rewrite lookup_insert_eq|cbn; by rewrite lookup_insert_eq| |].
  { intros _. by apply Hcl. }
  intros [] s3 Hc3. unfold c_brelse in Hc3. cbn [c_view c_refs c_held] in Hc3.
  destruct (cur_lrep s2 _ f r img ws s3 Hc3) as [Hl3 Hst3].
  { f_equal.
    - apply map_eq. intros k. rewrite lookup_set_ref, lookup_insert. repeat case_decide; subst; done.
    - apply map_eq. intros k. rewrite lookup_delete, lookup_insert. repeat case_decide; subst; done. }
  destruct (lcur_fields _ _ _ _ _ Hc3) as [_ Elh3]. rewrite Elh3.
  split_and!; [done| |done|].
  - eapply lkeep_trans; [done|apply lstep_keep, Hc1|]. eapply lkeep_trans; [apply (lcur_pst _ _ _ _ _ Hc1)|exact Hk2|].
    by apply lstep_keep.
  - rewrite Htk2. apply take_ge. unfold hdr_blocks. rewrite length_fmap, length_seqZ. lia.
Qed.

(** ** commit *)

(** The value of a log block after write_log. *)
Lemma log_writes_at L f bl g t x :
  bl !! t = Some x → apply_writes (log_writes L f bl) g (L + Z.of_nat t + 1) = f x.
Proof.
  induction bl as [|y bl IH] using rev_ind; [done|]. intros Ht.
  rewrite log_writes_snoc, apply_writes_snoc.
  destruct (decide (t = length bl)) as [->|Hne].
  - rewrite lookup_app_r, Nat.sub_diag in Ht by lia. injection Ht as ->. apply fupd_eq.
  - rewrite fupd_ne by lia. apply IH. apply lookup_lt_Some in Ht as Hlt. rewrite length_app in Hlt. cbn in Hlt.
    by rewrite lookup_app_l in Ht by lia.
Qed.

(** Everything commit writes, in order. *)
Definition commit_writes (L : Z) f (bl : list Z) : list (Z * block) :=
  log_writes L f bl ++ [(L, put_hdr bl (f L))] ++
  ((λ x, (x, f x)) <$> bl) ++ [(L, put_hdr [] (put_hdr bl (f L)))].

Lemma home_writes_direct L f bl g :
  (∀ t x, bl !! t = Some x → g (L + Z.of_nat t + 1) = f x) →
  home_writes L g bl = (λ x, (x, f x)) <$> bl.
Proof.
  intros H. unfold home_writes. apply list_eq. intros t. rewrite list_lookup_imap, list_lookup_fmap.
  destruct (bl !! t) as [x|] eqn:E; [|done]. cbn. by rewrite (H t x).
Qed.

Lemma direct_writes_in f bl g x : x ∈ bl → apply_writes ((λ x, (x, f x)) <$> bl) g x = f x.
Proof.
  induction bl as [|y bl IH] using rev_ind; intros Hx; [by apply not_elem_of_nil in Hx|].
  rewrite fmap_app. cbn. rewrite apply_writes_snoc. destruct (decide (x = y)) as [->|Hne]; [apply fupd_eq|].
  rewrite fupd_ne by done. apply IH. rewrite elem_of_app, list_elem_of_singleton in Hx. by destruct Hx.
Qed.

Lemma direct_writes_out f bl g x : x ∉ bl → apply_writes ((λ x, (x, f x)) <$> bl) g x = g x.
Proof.
  intros Hx. apply apply_writes_notin. intros Hin. apply Hx. apply list_elem_of_fmap in Hin as ([y d] & -> & Hy).
  apply list_elem_of_fmap in Hy as (z & [= -> ->] & Hz). done.
Qed.

(** After commit the disk holds the view on every block outside the log. *)
Lemma commit_contents L f bl g x :
  ¬ (L ≤ x ≤ L + LOGBLOCKS) → (length bl ≤ Z.to_nat LOGBLOCKS)%nat → (x ∉ bl → f x = g x) →
  apply_writes (commit_writes L f bl) g x = f x.
Proof.
  intros Hh Hm Hcl. unfold commit_writes. rewrite !apply_writes_app. cbn [apply_writes].
  assert (x ≠ L) as HxL by (intros ->; apply Hh; unfold LOGBLOCKS, MAXOPBLOCKS; lia).
  rewrite decide_False by done.
  destruct (decide (x ∈ bl)) as [Hx|Hx].
  - by apply direct_writes_in.
  - rewrite direct_writes_out by done. cbn. rewrite decide_False by done.
    rewrite log_writes_out by done. symmetry. auto.
Qed.

Lemma commit_ok s f img ws bl :
  lrep s f (pins bl) img ws → txn s bl → NoDup bl → bl ≠ [] → (length bl < Z.to_nat NBUF)%nat →
  (∀ y, log_start s ≤ y ≤ log_start s + LOGBLOCKS → f y = apply_writes ws img y) →
  wp commit (λ _ s', txn s' [] ∧ lkeep s s' ∧ ∃ f',
    lrep s' f' ∅ img (ws ++ commit_writes (log_start s) f bl) ∧
    (∀ y, ¬ (log_start s ≤ y ≤ log_start s + LOGBLOCKS) → f' y = f y) ∧
    (∀ y, log_start s ≤ y ≤ log_start s + LOGBLOCKS →
       f' y = apply_writes (ws ++ commit_writes (log_start s) f bl) img y)) s.
Proof.
  intros Hl Ht Hnd Hne Hn Hcl. set (L := log_start s) in *. pose proof (lrep_pst _ _ _ _ _ Hl) as Hok.
  assert (pins bl !! L = None) as HpL.
  { rewrite lookup_pins, decide_False; [done|]. intros Hin. pose proof (tx_home _ _ Ht) as HF.
    rewrite Forall_forall in HF. destruct (HF L Hin) as [_ Hno]. apply Hno. fold L. unfold LOGBLOCKS, MAXOPBLOCKS. lia. }
  unfold commit. wp_step. wp_step. rewrite (tx_n _ _ Ht).
  rewrite (proj2 (Z.ltb_lt 0 _)) by (destruct bl; [done|cbn; lia]). cbn [when].
  wp_step. wp_call (write_log_ok s f img ws bl); [done|done|done|]. fold L.
  intros [] s1 [Hl1 Hst1]. pose proof (txn_step _ _ _ Hst1 Ht) as Ht1. pose proof (lstep_start _ _ Hst1) as E1.
  pose proof (lrep_pst _ _ _ _ _ Hl1) as Hok1.
  set (f1 := apply_writes (log_writes L f bl) f) in *.
  assert (f1 L = f L) as EfL.
  { unfold f1. apply apply_writes_notin. intros Hin. apply list_elem_of_fmap in Hin as ([b d] & -> & Hb).
    apply elem_of_lookup_imap in Hb as (t & y & [= Hx _] & _). lia. }
  wp_step. wp_call (write_head_ok s1 f1 (pins bl) img _ bl); [done|done|by rewrite E1| |].
  { pose proof (size_pins bl). lia. }
  rewrite E1. fold L. rewrite EfL. set (h := put_hdr bl (f L)). intros [] s2 [Hl2 Hst2].
  pose proof (txn_step _ _ _ Hst2 Ht1) as Ht2. pose proof (lstep_start _ _ Hst2) as E2.
  pose proof (lrep_pst _ _ _ _ _ Hl2) as Hok2.
  set (f2 := fupd f1 L h) in *. rewrite E1 in E2. fold L in E2.
  assert (∀ y, L ≤ y ≤ L + LOGBLOCKS → f2 y = apply_writes ((ws ++ log_writes L f bl) ++ [(L, h)]) img y) as Hcl2.
  { intros y Hy. rewrite apply_writes_snoc. unfold f2, fupd. case_decide; [done|].
    rewrite apply_writes_app. unfold f1. apply apply_writes_ext. by apply Hcl. }
  wp_step. wp_call (install_trans_ok s2 f2 img _ bl false); [exact Hl2|done|by left|by left|by rewrite E2|].
  rewrite E2. rewrite (home_writes_direct L f bl f2).
  2: { intros t x Hx. unfold f2. rewrite fupd_ne by lia. by apply log_writes_at. }
  set (f3 := apply_writes _ f2). intros [] s3 [Hl3 Hst3].
  pose proof (txn_step _ _ _ Hst3 Ht2) as Ht3. pose proof (lstep_start _ _ Hst3) as E3. rewrite E2 in E3.
  pose proof (lrep_pst _ _ _ _ _ Hl3) as Hok3.
  unfold set_n at 1. wp_step. wp_step.
  pose proof (txn_clear _ _ Ht3) as Ht4. set (s4 := set_lh _ s3) in *.
  assert (log_start s4 = L) as E4 by done.
  assert (∀ y, L ≤ y ≤ L + LOGBLOCKS → f3 y = f2 y) as Ef3.
  { intros y Hy. unfold f3. apply direct_writes_out. intros Hin. pose proof (tx_home _ _ Ht) as HF.
    rewrite Forall_forall in HF. by destruct (HF y Hin) as [_ Hno]. }
  assert (f3 L = h) as Ef3L.
  { rewrite Ef3 by (unfold LOGBLOCKS, MAXOPBLOCKS; lia). apply fupd_eq. }
  wp_call (write_head_ok s4 f3 ∅ img _ []); [by apply lrep_lh|done|done|rewrite map_size_empty; unfold NBUF, MAXOPBLOCKS; lia|].
  rewrite E4, Ef3L. intros [] s5 [Hl5 Hst5].
  assert (((ws ++ log_writes L f bl) ++ [(L, h)]) ++ ((λ x, (x, f x)) <$> bl) ++ [(L, put_hdr [] h)]
    = ws ++ commit_writes L f bl) as Ews by (unfold commit_writes; fold h; by rewrite <- !app_assoc).
  rewrite <- app_assoc, Ews in Hl5.
  split_and!; [by eapply txn_step| |].
  { eapply lkeep_trans; [done|by apply lstep_keep|]. eapply lkeep_trans; [done|by apply lstep_keep|].
    eapply lkeep_trans; [done|by apply lstep_keep|]. eapply (lkeep_trans s3 s4); [done|by apply lkeep_lh|]. by apply lstep_keep. }
  exists (fupd f3 L (put_hdr [] h)). split_and!; [done| |].
  - intros y Hy. rewrite fupd_ne by (unfold LOGBLOCKS, MAXOPBLOCKS in Hy; lia).
    unfold f3. destruct (decide (y ∈ bl)); [by apply direct_writes_in|].
    rewrite direct_writes_out by done. unfold f2. rewrite fupd_ne by (unfold LOGBLOCKS, MAXOPBLOCKS in Hy; lia).
    unfold f1. apply apply_writes_notin. intros Hin. apply list_elem_of_fmap in Hin as ([b d] & -> & Hb).
    apply elem_of_lookup_imap in Hb as (t & z & [= -> _] & Hz). apply lookup_lt_Some in Hz.
    pose proof (tx_max _ _ Ht). cbn in Hy. lia.
  - intros y Hy. rewrite <- Ews, app_assoc, apply_writes_snoc. unfold fupd at 1 2. case_decide; [done|].
    rewrite Ef3, Hcl2 by done. rewrite (apply_writes_app _ ((λ x, (x, f x)) <$> bl)). symmetry. apply direct_writes_out. intros Hin.
    pose proof (tx_home _ _ Ht) as HF. rewrite Forall_forall in HF. by destruct (HF y Hin) as [_ Hno].
Qed.
End ops.
