(* ===== verification/Crash.v ===== *)
(** * Recovery and crash safety of kernel/log.c

    [replay L g] is the disk that recovery makes of a disk [g] whose log starts at
    block [L]. Recovery implements it, and for every prefix of the writes of a
    commit it yields the disk before the transaction or the disk after it. *)
From S2P Require Import Prelude Memory Riscv Spinlock Sched Sleeplock Disk Bio BioSpec BioInv BioOps Log LogSpec LogOps.

Definition replay (L : Z) (g : Z → block) : Z → block :=
  apply_writes (home_writes L g (hdr_blocks (g L))) g.

(** A log header that recovery can work with. *)
Record hdr_ok (L : Z) (b : block) : Prop := {
  hd_n : 0 ≤ hdr_n b ≤ LOGBLOCKS;
  hd_home : Forall (home L) (hdr_blocks b)
}.

Lemma length_hdr_blocks b : length (hdr_blocks b) = Z.to_nat (hdr_n b).
Proof. unfold hdr_blocks. by rewrite length_fmap, length_seqZ. Qed.

Lemma hdr_empty L b : hdr_n b = 0 → hdr_ok L b ∧ hdr_blocks b = [].
Proof.
  intros H. assert (hdr_blocks b = []) as E by (unfold hdr_blocks; rewrite H; done).
  split; [|done]. split; [rewrite H; done|rewrite E; constructor].
Qed.

Section recover.
Context {D : Type} `{!BlockDev D}.
Implicit Types (s : lst D) (f : Z → block) (ws : list (Z * block)).

(** A machine that has just booted: nothing cached differs from the disk. *)
Record booted s f img ws : Prop := {
  bt_rep : lrep s f ∅ img ws;
  bt_clean y : f y = apply_writes ws img y;
  bt_len : length (lh_block (lh s)) = Z.to_nat LOGBLOCKS
}.

Lemma recover_ok s f img ws :
  booted s f img ws → log_dev s = ROOTDEV →
  0 ≤ log_start s ∧ log_start s + LOGBLOCKS < 2 ^ 31 → hdr_ok (log_start s) (f (log_start s)) →
  wp recover_from_log (λ _ s', txn s' [] ∧ lkeep s s' ∧ ∃ f' ws', lrep s' f' ∅ img ws' ∧
    (∀ y, f' y = apply_writes ws' img y) ∧
    f' (log_start s) = put_hdr [] (f (log_start s)) ∧
    ∀ x, x ≠ log_start s → f' x = replay (log_start s) f x) s.
Proof.
  intros [Hl Hcl Hlen] Hdev HL [Hn Hh]. set (L := log_start s) in *. set (bl := hdr_blocks (f L)) in *.
  pose proof (lrep_pst _ _ _ _ _ Hl) as Hok.
  unfold recover_from_log. wp_step.
  wp_call (read_head_ok s f ∅ img ws); [done|done|done|done|done|done|rewrite map_size_empty; unfold NBUF, MAXOPBLOCKS; lia|by apply Hcl|].
  fold L. intros [] s1 (Hl1 & Hk1 & Hn1 & Htk1).
  assert (txn s1 bl) as Ht1.
  { split.
    - by rewrite (kp_dev _ _ Hk1).
    - by rewrite (kp_start _ _ Hk1).
    - by rewrite (kp_len _ _ Hk1).
    - unfold bl. rewrite Hn1, length_hdr_blocks. lia.
    - unfold bl. rewrite length_hdr_blocks. lia.
    - unfold bl. by rewrite length_hdr_blocks.
    - by rewrite (kp_start _ _ Hk1). }
  pose proof (kp_start _ _ Hk1) as E1. fold L in E1. pose proof (lrep_pst _ _ _ _ _ Hl1) as Hok1.
  wp_step. wp_call (install_trans_ok s1 f img ws bl true); [done|done|by right|by right|by intros; apply Hcl|].
  rewrite E1. intros [] s2 [Hl2 Hst2]. pose proof (txn_step _ _ _ Hst2 Ht1) as Ht2.
  pose proof (lstep_start _ _ Hst2) as E2. rewrite E1 in E2. pose proof (lrep_pst _ _ _ _ _ Hl2) as Hok2.
  fold bl. change (apply_writes (home_writes L f bl) f) with (replay L f) in Hl2.
  unfold set_n at 1. wp_step. wp_step. pose proof (txn_clear _ _ Ht2) as Ht3. set (s3 := set_lh _ s2) in *.
  assert (log_start s3 = L) as E3 by done.
  assert (replay L f L = f L) as ErL.
  { unfold replay. apply home_writes_log; [done|]. unfold LOGBLOCKS, MAXOPBLOCKS. lia. }
  wp_call (write_head_ok s3 (replay L f) ∅ img _ []); [by apply lrep_lh|done|done|rewrite map_size_empty; unfold NBUF, MAXOPBLOCKS; lia|].
  rewrite E3, ErL. intros [] s4 [Hl4 Hst4]. split_and!; [by eapply txn_step| |].
  { eapply lkeep_trans; [done|exact Hk1|]. eapply lkeep_trans; [done|by apply lstep_keep|].
    eapply (lkeep_trans s2 s3); [done|by apply lkeep_lh|]. by apply lstep_keep. }
  eexists _, _. split_and!; [exact Hl4| | |].
  - intros y. rewrite apply_writes_snoc. unfold fupd. case_decide; [done|].
    rewrite apply_writes_app. unfold replay. fold bl. by apply apply_writes_ext.
  - apply fupd_eq.
  - intros x Hx. by rewrite fupd_ne.
Qed.
End recover.

(** ** Crashing during a commit *)
Lemma L_not_home L x : home L x → x ≠ L.
Proof. intros [_ Hno] ->. apply Hno. unfold LOGBLOCKS, MAXOPBLOCKS. lia. Qed.

(** Replaying a disk whose header is empty changes nothing. *)
Lemma replay_empty L c x : hdr_n (c L) = 0 → replay L c x = c x.
Proof. intros H. unfold replay. destruct (hdr_empty L _ H) as [_ ->]. done. Qed.

Section crash.
Context (L : Z) (f g : Z → block) (bl : list Z).
Context (Hhome : Forall (home L) bl) (Hmax : (length bl ≤ Z.to_nat LOGBLOCKS)%nat)
  (Hf : ∀ x, x ∉ bl → f x = g x) (H0 : hdr_n (g L) = 0) (Hlen : Z.of_nat (length (g L)) = BSIZE).

Lemma L_not_in : L ∉ bl.
Proof. intros Hin. rewrite Forall_forall in Hhome. by apply (L_not_home L L (Hhome L Hin)). Qed.

Lemma hdr_written :
  hdr_n (put_hdr bl (f L)) = Z.of_nat (length bl) ∧ hdr_blocks (put_hdr bl (f L)) = bl.
Proof.
  rewrite Hf by apply L_not_in. apply hdr_put.
  - unfold fits. rewrite Hlen. unfold BSIZE. unfold LOGBLOCKS, MAXOPBLOCKS in Hmax. lia.
  - unfold LOGBLOCKS, MAXOPBLOCKS in Hmax. lia.
  - eapply Forall_impl; [exact Hhome|]. by intros x [? _].
Qed.

Lemma hdr_erased : hdr_n (put_hdr [] (put_hdr bl (f L))) = 0.
Proof.
  assert (fits bl (g L)) as Hfit by (unfold fits; rewrite Hlen; unfold BSIZE; unfold LOGBLOCKS, MAXOPBLOCKS in Hmax; lia).
  apply (hdr_put [] (put_hdr bl (f L))); [|done|constructor].
  rewrite Hf by apply L_not_in. unfold fits, put_hdr. rewrite length_put_blocks.
  - rewrite length_put32; unfold fits in Hfit; cbn; lia.
  - unfold fits in *. rewrite length_put32; lia.
Qed.

(** Before the header is written: some of the log blocks were. *)
Lemma crash_before k :
  let c := apply_writes (log_writes L f (take k bl)) g in
  hdr_ok L (c L) ∧ ∀ x, home L x → replay L c x = g x.
Proof.
  intros c. assert (c L = g L) as EL.
  { apply apply_writes_notin. intros Hin. apply list_elem_of_fmap in Hin as ([b d] & -> & Hb).
    apply elem_of_lookup_imap in Hb as (t & y & [= Hx _] & _). lia. }
  rewrite EL. split; [by apply hdr_empty|]. intros x Hx. rewrite replay_empty by (by rewrite EL).
  apply log_writes_home; [done|]. rewrite length_take. lia.
Qed.

(** After the header is written: some of the home blocks were. *)
Lemma crash_after k :
  let c := apply_writes (log_writes L f bl ++ [(L, put_hdr bl (f L))] ++ ((λ x, (x, f x)) <$> take k bl)) g in
  hdr_ok L (c L) ∧ ∀ x, home L x → replay L c x = f x.
Proof.
  intros c. destruct hdr_written as [Hn Hb].
  assert (∀ y, L ≤ y ≤ L + LOGBLOCKS → y ∉ take k bl) as Hnt.
  { intros y Hy Hin. apply subseteq_take in Hin. rewrite Forall_forall in Hhome. by destruct (Hhome y Hin) as [_ Hno]. }
  assert (c L = put_hdr bl (f L)) as EL.
  { unfold c. rewrite !apply_writes_app. cbn. rewrite direct_writes_out.
    - by rewrite decide_True.
    - apply Hnt. unfold LOGBLOCKS, MAXOPBLOCKS. lia. }
  rewrite EL. split; [split; [rewrite Hn; unfold LOGBLOCKS, MAXOPBLOCKS in *; lia|by rewrite Hb]|].
  intros x Hx. unfold replay. rewrite EL, Hb, (home_writes_direct L f bl c).
  - destruct (decide (x ∈ bl)) as [Hin|Hin]; [by apply direct_writes_in|].
    rewrite direct_writes_out by done. unfold c. rewrite !apply_writes_app. cbn.
    rewrite direct_writes_out by (intros H%subseteq_take; done).
    rewrite decide_False by (by apply L_not_home). rewrite log_writes_home by done. symmetry. by apply Hf.
  - intros t y Ht. unfold c. rewrite !apply_writes_app. cbn.
    apply lookup_lt_Some in Ht as Hlt. unfold LOGBLOCKS, MAXOPBLOCKS in *. rewrite direct_writes_out by (apply Hnt; lia).
    rewrite decide_False by lia. by apply log_writes_at.
Qed.

(** After the whole commit. *)
Lemma crash_end :
  let c := apply_writes (commit_writes L f bl) g in
  hdr_ok L (c L) ∧ ∀ x, home L x → replay L c x = f x.
Proof.
  intros c. assert (c L = put_hdr [] (put_hdr bl (f L))) as EL.
  { unfold c, commit_writes. rewrite !apply_writes_app. cbn. by rewrite decide_True. }
  rewrite EL. split; [apply hdr_empty, hdr_erased|].
  intros x Hx. rewrite replay_empty by (rewrite EL; apply hdr_erased).
  apply commit_contents; [apply Hx|done|apply Hf].
Qed.

(** Every prefix of the writes of a commit is one of the above. *)
Lemma crash_prefix ws :
  ws `prefix_of` commit_writes L f bl →
  let c := apply_writes ws g in
  hdr_ok L (c L) ∧
  ∀ x, home L x → replay L c x = if decide (length ws ≤ length bl)%nat then g x else f x.
Proof.
  intros [tl Htl]. cbn zeta.
  assert (ws = take (length ws) (commit_writes L f bl)) as Ews by (rewrite Htl; by rewrite take_app_length).
  assert (length (log_writes L f bl) = length bl) as Ell by apply length_imap.
  assert (length ws ≤ 2 * length bl + 2)%nat as Hle.
  { pose proof (f_equal length Htl) as E. unfold commit_writes in E.
    rewrite !length_app, length_fmap, Ell in E. cbn in E. lia. }
  case_decide as Hk.
  - rewrite Ews. unfold commit_writes. rewrite take_app_le by lia.
    replace (take (length ws) (log_writes L f bl)) with (log_writes L f (take (length ws) bl)); [apply crash_before|].
    unfold log_writes. apply list_eq. intros i. rewrite list_lookup_imap, !lookup_take, list_lookup_imap. by case_decide.
  - destruct (decide (length ws = 2 * length bl + 2)%nat) as [Hend|Hend].
    + assert (ws = commit_writes L f bl) as ->; [|apply crash_end].
      rewrite Ews. apply take_ge. unfold commit_writes. rewrite !length_app, length_fmap, Ell. cbn. lia.
    + rewrite Ews. unfold commit_writes.
      rewrite take_app_ge, Ell by lia. rewrite take_app_ge by (cbn; lia). cbn [length].
      rewrite take_app_le by (rewrite length_fmap; lia).
      rewrite <- fmap_take. apply crash_after.
Qed.
End crash.
