(* ===== verification/LogTx.v ===== *)
(** * begin_op, log_write and end_op

    The transaction interface of kernel/log.c: log_write records a block and pins
    it in the cache, end_op of the last operation commits. *)
From S2P Require Import Prelude Memory Riscv Spinlock Sched Sleeplock Disk Bio BioSpec BioInv BioOps Log LogSpec LogOps.

Section tx.
Context {D : Type} `{!BlockDev D}.
Implicit Types (s : lst D) (f : Z → block) (r : gmap Z Z) (ws : list (Z * block)) (a : cache).

(** ** Critical sections on log.lock *)
Abbreviation lhart s := (p_hart (b_p (l_b s))).

Lemma log_acquire s :
  hart_ok (lhart s) → lock_free (log_lock s) →
  zoom log_lk acquire s = Ok tt (over log_lk (push (lhart s), held (log_lock s) (tp (lhart s))) s).
Proof. intros Hh Hl. by apply zoom_Ok, acquire_run. Qed.

Lemma log_release s h lk :
  hart_ok h → lock_free lk → lhart s = push h → log_lock s = held lk (tp h) →
  zoom log_lk release s = Ok tt (over log_lk (sync h, lk) s).
Proof. intros Hh Hl Eh El. apply zoom_Ok. cbn. rewrite Eh, El. by apply release_run. Qed.

(** The cache does not see a change of the hart between two nested sections. *)
Lemma binv_p (b : bst D) a p :
  binv b a → pst_ok p → is_running p → cur_pid p = cur_pid (b_p b) → binv (over on_pst p b) a.
Proof.
  intros [Hc Hl Hr] Hok Hrun Hpid. split; [|done|].
  - destruct Hc as [H1 H2 H3 H4 H5 H6 H7 H8 H9]. split; try done. cbn.
    intros i b' Hi. eapply buf_ok_mono; [done|done|by apply (H4 i)].
  - destruct Hr as (l & Hl' & Hn). exists l. split; [|done]. by apply (links_ext b).
Qed.

Lemma pushed_ok p : pst_ok p → is_running p →
  pst_ok (Pst (push (p_hart p)) (procs p)) ∧ is_running (Pst (push (p_hart p)) (procs p)) ∧
  cur_pid (Pst (push (p_hart p)) (procs p)) = cur_pid p.
Proof.
  intros Hok [i [Hc Hi]]. pose proof (cur_push _ (ps_hart _ Hok)) as E. split_and!.
  - split; [apply push_ok, Hok|apply Hok|apply Hok].
  - exists i. split; [cbn; by rewrite E|done].
  - unfold cur_pid. cbn. by rewrite E.
Qed.

(** Leaving the section: the processes may have been woken meanwhile. *)
Lemma popped_same p p' :
  pst_ok p → pst_same (Pst (push (p_hart p)) (procs p)) p' → pst_same p (Pst (sync (p_hart p)) (procs p')).
Proof.
  intros Hok [_ Hp Hr]. split; [cbn; auto with hart|done|].
  intros i Hi. apply Hr. cbn. by rewrite cur_push by apply Hok.
Qed.

Lemma push_same_hart h h' : hart_ok h → hart_same (push h) h' → h' = push h.
Proof. intros Hh [->| ->]; [done|by apply sync_push]. Qed.

(** ** log_write *)
Lemma absorb_lt v l n : (absorb v l n ≤ n)%nat.
Proof.
  revert n. induction l as [|b l IH]; intros [|n]; cbn; try lia. case_match; [lia|]. specialize (IH n). lia.
Qed.

Lemma absorb_find v bl rest :
  Forall (λ b, 0 ≤ b < 2 ^ 31) bl →
  let i := absorb v (bl ++ rest) (length bl) in
  if decide (v ∈ bl) then (i < length bl)%nat ∧ bl !! i = Some v else i = length bl.
Proof.
  induction 1 as [|b bl Hb Hbl IH]; cbn [app length absorb].
  - rewrite decide_False by apply not_elem_of_nil. by destruct rest.
  - rewrite u32_small by lia. destruct (Z.eqb_spec b v) as [->|Hne].
    + rewrite decide_True by (by left). split; [lia|done].
    + cbn zeta in *. destruct (decide (v ∈ bl)) as [Hin|Hin].
      * rewrite decide_True by (by right). destruct IH as [IH1 IH2]. split; [lia|done].
      * rewrite decide_False by (apply not_elem_of_cons; done). by rewrite IH.
Qed.

(** The blocks of the transaction after log_write of block [x]. *)
Definition add_block (x : Z) (bl : list Z) : list Z := if decide (x ∈ bl) then bl else bl ++ [x].

(** Recording [v] at the index log_write computes. *)
Lemma record_block s bl x :
  txn s bl → (length bl < Z.to_nat LOGBLOCKS)%nat → home (log_start s) x →
  let i := absorb x (lh_block (lh s)) (length bl) in
  txn (set_lh (Lh (Z.of_nat (length (add_block x bl))) (<[i := x]> (lh_block (lh s)))) s) (add_block x bl) ∧
  (i = length bl ↔ x ∉ bl) ∧ (i ≤ length bl)%nat.
Proof.
  intros [H1 H2 H3 H4 H5 H6 H7] Hlt Hx i.
  assert (lh_block (lh s) = bl ++ drop (length bl) (lh_block (lh s))) as El by (by rewrite <- H6 at 1; rewrite take_drop).
  assert (Forall (λ b, 0 ≤ b < 2 ^ 31) bl) as Hr by (eapply Forall_impl; [exact H7|]; by intros ? [? _]).
  pose proof (absorb_find x bl (drop (length bl) (lh_block (lh s))) Hr) as Ha. rewrite <- El in Ha. fold i in Ha.
  pose proof (absorb_lt x (lh_block (lh s)) (length bl)) as Hle. fold i in Hle.
  unfold add_block. destruct (decide (x ∈ bl)) as [Hin|Hin].
  - destruct Ha as [Hi Hb]. split_and!; [|split; [lia|done]|done].
    assert (<[i := x]> (lh_block (lh s)) = lh_block (lh s)) as ->.
    { apply list_insert_id. rewrite El. by rewrite lookup_app_l. }
    by split.
  - split_and!; [|split; done|done]. rewrite Ha. split; cbn; try done.
    + by rewrite length_insert.
    + rewrite length_app. cbn. lia.
    + rewrite length_app. cbn. replace (length bl + 1)%nat with (S (length bl)) by lia.
      rewrite (take_S_r _ _ x) by (apply list_lookup_insert_eq; lia). by rewrite take_insert_ge, H6 by lia.
    + apply Forall_app. split; [done|]. by constructor.
Qed.

Lemma log_write_ok s a i x n bl :
  binv (l_b s) a → lock_free (log_lock s) → c_held a !! i = Some x →
  c_refs a !! x = Some n → n + 1 < 2 ^ 32 →
  txn s bl → (length bl < Z.to_nat LOGBLOCKS)%nat → home (log_start s) x → 1 ≤ outstanding s →
  wp (log_write i) (λ _ s', txn s' (add_block x bl) ∧ lkeep s s' ∧
    binv (l_b s') (Cache (c_view a) (if decide (x ∈ bl) then c_refs a else <[x := n + 1]> (c_refs a)) (c_held a)) ∧
    dsk_same (b_dsk (l_b s)) (b_dsk (l_b s'))) s.
Proof.
  intros Hb Hlk Hh Hn Hlt Ht Hbl Hx Hout. pose proof (bi_cinv _ _ Hb) as Hc.
  pose proof (ci_pst _ _ _ _ Hc) as Hok. pose proof (ci_run _ _ _ _ Hc) as Hrun.
  pose proof (ps_hart _ Hok) as Hhart. destruct (pushed_ok _ Hok Hrun) as (Pok & Prun & Ppid).
  unfold log_write. wp_step. eapply wp_of_Ok; [by apply log_acquire|].
  set (s1 := over log_lk _ s). assert (binv (l_b s1) a) as Hb1 by (by apply binv_p).
  wp_step. wp_step. change (lh s1) with (lh s). change (outstanding s1) with (outstanding s).
  rewrite (tx_n _ _ Ht), (proj2 (Z.leb_gt _ _)) by (unfold LOGBLOCKS, MAXOPBLOCKS in *; lia).
  rewrite (proj2 (Z.ltb_ge _ _)) by lia.
  destruct (held_holds _ _ _ _ Hb1 Hh) as [b Hbuf].
  rewrite (bufi_lookup _ _ _ (ho_buf _ _ _ _ _ Hbuf)), (ho_blk _ _ _ _ _ Hbuf).
  rewrite i32_small by (destruct Hx; lia). rewrite Nat2Z.id.
  destruct (record_block s bl x Ht Hbl Hx) as (Ht2 & Hi & Hile). set (k := absorb x (lh_block (lh s)) (length bl)) in *.
  assert (lh_set (Z.of_nat k) x s1 = Ok tt (set_lh (Lh (lh_n (lh s)) (<[k := x]> (lh_block (lh s)))) s1)) as Eset.
  { unfold lh_set. rewrite (bind_Ok get _ _ _ _ eq_refl). change (lh s1) with (lh s).
    rewrite (proj2 (Z.leb_gt _ _)); [by rewrite Nat2Z.id|].
    rewrite (tx_len _ _ Ht). unfold LOGBLOCKS, MAXOPBLOCKS in *. lia. }
  wp_step. eapply wp_of_Ok; [exact Eset|]. set (s2 := set_lh _ s1).
  wp_step. apply (wp_mono _ (λ _ s3,
    binv (l_b s3) (Cache (c_view a) (if decide (x ∈ bl) then c_refs a else <[x := n + 1]> (c_refs a)) (c_held a)) ∧
    pst_same (b_p (l_b s1)) (b_p (l_b s3)) ∧ dsk_same (b_dsk (l_b s)) (b_dsk (l_b s3)) ∧
    log_lock s3 = log_lock s1 ∧ log_start s3 = log_start s ∧ outstanding s3 = outstanding s ∧
    committing s3 = committing s ∧ log_dev s3 = log_dev s ∧
    lh s3 = Lh (Z.of_nat (length (add_block x bl))) (<[k := x]> (lh_block (lh s))))).
  - unfold when, add_block in *. destruct (decide (x ∈ bl)) as [Hin|Hin].
    + rewrite (proj2 (Z.eqb_neq _ _)) by (intros E; assert (k = length bl) as E' by lia; by apply Hi in E').
      wp_step. split_and!; try done; [by destruct a|apply pst_same_refl|]. cbn. by rewrite (tx_n _ _ Ht).
    + rewrite (proj2 (Z.eqb_eq _ _)) by (by rewrite (proj2 Hi Hin)).
      wp_step. wp_call (lift_b (bpin i)); [apply (bpin_ok (l_b s2) a i x n); done|].
      intros [] s3 [[Hb3 Hp3 Hd3] Hf3]. unfold lfields in Hf3. injection Hf3 as E1 E2 E3 E4 E5 E6.
      unfold set_n. wp_step. cbn. rewrite E1, E2, E3, E4, E5, E6. split_and!; try done.
      cbn. rewrite length_app. cbn. f_equal. lia.
  - intros [] s3 (Hb3 & Hp3 & Hd3 & L1 & L2 & L3 & L4 & L5 & L6).
    pose proof (push_same_hart _ _ Hhart (pm_hart _ _ Hp3)) as Eh.
    eapply wp_of_Ok; [apply (log_release s3 (lhart s) (log_lock s)); [done|done|done|by rewrite L1]|].
    assert (pst_same (b_p (l_b s)) (Pst (sync (lhart s)) (procs (b_p (l_b s3))))) as Hps by (by apply popped_same).
    split_and!.
    + destruct Ht2 as [T1 T2 T3 T4 T5 T6 T7]. split; cbn in *; rewrite ?L2, ?L5, ?L6; done.
    + split; cbn; rewrite ?L6; try done. cbn. by rewrite length_insert.
    + apply (binv_p (l_b s3)); [done|by apply (pst_same_ok (b_p (l_b s)))|by apply (is_running_same (b_p (l_b s)))|].
      rewrite (cur_pid_same (b_p (l_b s))) by done. symmetry.
      rewrite (cur_pid_same (b_p (l_b s1)) (b_p (l_b s3))) by done. done.
    + done.
Qed.

(** ** begin_op and end_op *)
Lemma begin_op_run s :
  hart_ok (lhart s) → lock_free (log_lock s) → committing s = 0 →
  lh_n (lh s) + (outstanding s + 1) * MAXOPBLOCKS ≤ LOGBLOCKS →
  begin_op s = Ok tt (Lst (over on_pst (Pst (sync (lhart s)) (procs (b_p (l_b s)))) (l_b s)) (log_lock s)
    (log_start s) (outstanding s + 1) (committing s) (log_dev s) (lh s)).
Proof.
  intros Hh Hl Hc Hn. unfold begin_op. rewrite (bind_Ok _ _ _ _ _ (log_acquire s Hh Hl)).
  erewrite bind_Ok; [|apply while_sleep_skip; unfold gets; cbn -[MAXOPBLOCKS LOGBLOCKS];
    rewrite Hc, (proj2 (Z.ltb_ge _ _)) by done; done].
  rewrite (bind_Ok get _ _ _ _ eq_refl), (bind_Ok (set_outstanding _) _ _ _ _ eq_refl).
  rewrite (log_release _ (lhart s) (log_lock s)) by done. cbn. by rewrite Hc.
Qed.

(** A full log, or one that is committing, puts the caller to sleep on it. *)
Lemma begin_op_sleeps s p q :
  pst_ok (b_p (l_b s)) → cpu_proc (cur (lhart s)) = Some p → procs (b_p (l_b s)) !! p = Some q →
  noff (cur (lhart s)) = 0 → lock_free (log_lock s) →
  committing s ≠ 0 ∨ LOGBLOCKS < lh_n (lh s) + (outstanding s + 1) * MAXOPBLOCKS →
  ∃ s', begin_op s = Halt Slept s' ∧ log_lock s' = log_lock s ∧ outstanding s' = outstanding s ∧
        p_pub (procs (b_p (l_b s')) !!! p) = with_state SLEEPING (with_chan (Some ChLog) (p_pub q)).
Proof.
  intros Hok Hc Hq Hn Hl Hfull. unfold begin_op. rewrite (bind_Ok _ _ _ _ _ (log_acquire s (ps_hart _ Hok) Hl)).
  eexists. split_and!.
  - apply bind_Halt. eapply while_sleep_halt.
    + unfold gets. cbn -[MAXOPBLOCKS LOGBLOCKS]. f_equal. destruct Hfull as [Hf|Hf].
      * by rewrite (proj2 (Z.eqb_neq _ 0) Hf).
      * by rewrite (proj2 (Z.ltb_lt _ _) Hf), orb_true_r.
    + apply zoom_Halt. by apply (sleep_run (b_p (l_b s)) ChLog (log_lock s) p q).
  - done.
  - done.
  - cbn. rewrite list_lookup_total_insert_eq; [done|by eapply lookup_lt_Some].
Qed.


(** A critical section on log.lock that ends with wakeup(&log), after the
    change [g] of the log's counters. *)
Lemma log_wake s a (g : lst D → lst D) :
  binv (l_b s) a → lock_free (log_lock s) →
  (∀ t, l_b (g t) = l_b t ∧ log_lock (g t) = log_lock t) →
  wp (zoom log_lk acquire ;; modify g ;; zoom on_procs (wakeup ChLog) ;; zoom log_lk release)
     (λ _ s', ∃ b', s' = over on_b b' (over log_lk (sync (lhart s), log_lock s)
                      (g (over log_lk (push (lhart s), held (log_lock s) (tp (lhart s))) s))) ∧
        binv b' a ∧ pst_same (b_p (l_b s)) (b_p b') ∧ b_dsk b' = b_dsk (l_b s)) s.
Proof.
  intros Hb Hlk Hg. pose proof (bi_cinv _ _ Hb) as Hc. pose proof (ci_pst _ _ _ _ Hc) as Hok.
  pose proof (ci_run _ _ _ _ Hc) as Hrun. destruct (pushed_ok _ Hok Hrun) as (Pok & Prun & Ppid).
  wp_step. eapply wp_of_Ok; [apply log_acquire; [apply Hok|done]|]. set (s1 := over log_lk _ s).
  wp_step. wp_step. wp_step. wp_step. destruct (Hg s1) as [Eb El].
  change (view on_procs (g s1)) with (b_p (l_b (g s1))). rewrite Eb.
  wp_call (wakeup_same (b_p (l_b s1))); [exact Pok|]. intros [] p' Hp'. cbn beta in Hp'.
  assert (pst_same (b_p (l_b s)) (Pst (sync (lhart s)) (procs p'))) as Hps by (by apply popped_same).
  eapply wp_of_Ok; [apply (log_release _ (lhart s) (log_lock s))|].
  { apply Hok. } { done. } { cbn. apply push_same_hart; [apply Hok|apply (pm_hart _ _ Hp')]. } { exact El. }
  exists (over on_pst (Pst (sync (lhart s)) (procs p')) (l_b s)). split_and!; [| |done|done].
  - revert Eb. generalize (g s1). intros t Eb. cbn. rewrite Eb. done.
  - apply binv_p; [done|by apply (pst_same_ok (b_p (l_b s)))|by apply (is_running_same (b_p (l_b s)))|by apply cur_pid_same].
Qed.

(** The disk writes of the last end_op. *)
Definition end_writes (L : Z) f (bl : list Z) : list (Z * block) :=
  if decide (bl = []) then [] else commit_writes L f bl.

Lemma commit_any s f img ws bl :
  lrep s f (pins bl) img ws → txn s bl → NoDup bl → (length bl < Z.to_nat NBUF)%nat →
  (∀ y, log_start s ≤ y ≤ log_start s + LOGBLOCKS → f y = apply_writes ws img y) →
  wp commit (λ _ s', txn s' [] ∧ lkeep s s' ∧ ∃ f',
    lrep s' f' ∅ img (ws ++ end_writes (log_start s) f bl) ∧
    (∀ y, ¬ (log_start s ≤ y ≤ log_start s + LOGBLOCKS) → f' y = f y) ∧
    (∀ y, log_start s ≤ y ≤ log_start s + LOGBLOCKS →
       f' y = apply_writes (ws ++ end_writes (log_start s) f bl) img y)) s.
Proof.
  intros Hl Ht Hnd Hn Hcl. unfold end_writes. case_decide as E; [|by apply commit_ok].
  subst bl. unfold commit. wp_step. wp_step. rewrite (tx_n _ _ Ht). cbn. wp_step.
  split_and!; [done|apply lstep_keep, lstep_refl|]. exists f. rewrite app_nil_r. by split_and!.
Qed.

(** Before the last one: the reservation is given back and waiters are woken. *)
Lemma end_op_more s a :
  binv (l_b s) a → lock_free (log_lock s) → outstanding s ≠ 1 → committing s = 0 →
  wp end_op (λ _ s', outstanding s' = outstanding s - 1 ∧ committing s' = 0 ∧ lh s' = lh s ∧
    binv (l_b s') a ∧ b_dsk (l_b s') = b_dsk (l_b s)) s.
Proof.
  intros Hb Hlk Hout Hcom.
  pose proof (log_wake s a (λ s, Lst (l_b s) (log_lock s) (log_start s) (outstanding s - 1) (committing s) (log_dev s) (lh s))
    Hb Hlk ltac:(done)) as W. unfold wp in W. unfold end_op, wp. unfold bind in W |- *.
  destruct (zoom log_lk acquire s) as [[] s1|] eqn:E; [|done]. unfold get, set_outstanding, modify in *.
  assert (committing s1 = 0 ∧ outstanding s1 = outstanding s) as [Ec Eo].
  { unfold zoom in E. destruct (acquire _) as [? t|]; [|done]. simplify_eq E. intros _ <-. done. }
  rewrite Ec, Eo in W |- *. change (negb (0 =? 0)) with false. cbn iota.
  rewrite (proj2 (Z.eqb_neq _ 0)) by lia.
  destruct (zoom on_procs (wakeup ChLog) _) as [[] s2|]; [|done]. cbn [ret].
  unfold ret. destruct (zoom log_lk release s2) as [[] s3|]; [|done]. cbn [when ret].
  destruct W as (b' & -> & Hb' & _ & Hd'). cbn. by split_and!.
Qed.
(** ** A transaction in progress

    The cache shows [f]; the blocks [bl] are logged and pinned, all others are as
    on the device, to which nothing has been written since the transaction began. *)
Record intx s f img ws bl : Prop := {
  it_rep : lrep s f (pins bl) img ws;
  it_txn : txn s bl;
  it_nodup : NoDup bl;
  it_lock : lock_free (log_lock s);
  it_out : 1 ≤ outstanding s;
  it_clean x : x ∉ bl → f x = apply_writes ws img x
}.

(** How the file system changes a block: read it, change it, log it, release it. *)
Definition update (x : Z) (g : block → block) : M (lst D) unit :=
  do b <- log_bread x;
  zoom on_b (set_data b g) ;;
  log_write b ;;
  zoom on_b (brelse b).

Lemma add_block_nodup x bl : NoDup bl → NoDup (add_block x bl).
Proof.
  unfold add_block. case_decide; [done|]. intros Hnd. apply NoDup_app. split_and!; [done| |apply NoDup_singleton].
  intros y Hy ->%list_elem_of_singleton. done.
Qed.

Lemma elem_of_add_block x bl y : y ∈ add_block x bl ↔ y = x ∨ y ∈ bl.
Proof.
  unfold add_block. case_decide as Hx; [|rewrite elem_of_app, list_elem_of_singleton; tauto].
  split; [auto|]. by intros [->|].
Qed.

(** The references of block [x] while update holds it. *)
Lemma update_refs i x bl r :
  r = (if decide (x ∈ bl) then <[x := default 0 (pins bl !! x) + 1]> (pins bl)
       else <[x := default 0 (pins bl !! x) + 1 + 1]> (<[x := default 0 (pins bl !! x) + 1]> (pins bl))) →
  c_brelse i x 2 (Cache (λ _, []) r (<[i := x]> ∅)) = Cache (λ _, []) (pins (add_block x bl)) ∅ ∧ r !! x = Some 2.
Proof.
  intros ->. rewrite lookup_pins. split.
  - unfold c_brelse. cbn [c_view c_refs c_held]. f_equal.
    + apply map_eq. intros k. rewrite lookup_set_ref, lookup_pins.
      destruct (decide (k = x)) as [->|Hk].
      * rewrite decide_False by done. rewrite decide_True; [done|]. apply elem_of_add_block. by left.
      * transitivity (pins bl !! k); [case_decide; by rewrite ?lookup_insert_ne by done|].
        rewrite lookup_pins. apply decide_ext. rewrite elem_of_add_block. naive_solver.
    + apply map_eq. intros k. rewrite lookup_delete, lookup_insert. repeat case_decide; subst; done.
  - case_decide; by rewrite lookup_insert_eq.
Qed.

Lemma update_ok s f img ws bl x g :
  intx s f img ws bl → (length bl < Z.to_nat LOGBLOCKS)%nat → home (log_start s) x →
  wp (update x g) (λ _ s', intx s' (fupd f x (g (f x))) img ws (add_block x bl) ∧ lkeep s s') s.
Proof.
  intros [Hl Ht Hnd Hlk Hout Hcl] Hlen Hx. pose proof (lrep_pst _ _ _ _ _ Hl) as Hok.
  assert (length bl < Z.to_nat NBUF)%nat as Hlen' by exact Hlen. pose proof (size_pins bl) as Hsz.
  assert (default 0 (pins bl !! x) + 1 = if decide (x ∈ bl) then 2 else 1) as En
    by (rewrite lookup_pins; by case_decide).
  unfold update. wp_step. wp_call (cur_bread s _ img ws s x); [done|by apply lrep_cur|apply Ht|apply Hx|done| |right; cbn; lia|].
  { cbn. rewrite En. by case_decide. }
  intros i s1 [Hc1 _]. unfold c_bread in Hc1. cbn [c_view c_refs c_held] in Hc1.
  wp_step. wp_call (cur_set_data s _ img ws s1 i x); [done|exact Hc1|cbn; by rewrite lookup_insert_eq|].
  cbn [c_view c_refs c_held]. intros [] s2 Hc2. pose proof (lc_step _ _ _ _ _ Hc2) as Hst2.
  pose proof (ls_fields _ _ Hst2) as Ef2. unfold lfields in Ef2. injection Ef2 as F1 F2 F3 F4 F5 F6.
  wp_step. wp_call (log_write_ok s2 _ i x (default 0 (pins bl !! x) + 1) bl).
  { apply Hc2. } { by rewrite F1. } { cbn. by rewrite lookup_insert_eq. } { cbn. by rewrite lookup_insert_eq. }
  { rewrite En. by case_decide. } { by apply (txn_step s). } { done. } { by rewrite F2. } { lia. }
  cbn [c_view c_refs c_held]. intros [] s3 (Ht3 & Hk3 & Hb3 & Hd3).
  destruct (update_refs i x bl _ eq_refl) as [Er1 Er2]. set (r := if decide (x ∈ bl) then _ else <[x := _]> _) in *.
  pose proof (ci_pst _ _ _ _ (bi_cinv _ _ Hb3)) as Hok3.
  assert (lcur s3 (Cache (fupd f x (g (f x))) r (<[i := x]> ∅)) img ws s3) as Hc3.
  { destruct Hd3 as [D1 D2]. split; [done|by rewrite D1, (lc_img _ _ _ _ _ Hc2)|by rewrite D2, (lc_ws _ _ _ _ _ Hc2)|apply lstep_refl]. }
  wp_call (cur_brelse s3 _ img ws s3 i x 2); [done|exact Hc3|cbn; by rewrite lookup_insert_eq|done|done|].
  intros [] s4 Hc4. destruct (cur_lrep s3 _ (fupd f x (g (f x))) (pins (add_block x bl)) img ws s4 Hc4) as [Hl4 Hst4].
  { pose proof (f_equal c_refs Er1) as E1. pose proof (f_equal c_held Er1) as E2. unfold c_brelse in *.
    cbn [c_view c_refs c_held] in *. by rewrite E1, E2. }
  pose proof (lstep_keep _ _ Hst4) as Hk4.
  assert (lkeep s s4) as Hk.
  { eapply lkeep_trans; [done|by apply lstep_keep|]. eapply lkeep_trans; [by apply (lcur_pst _ _ _ _ _ Hc2)|done|done]. }
  split; [|done]. split; [done|by apply (txn_step s3)|by apply add_block_nodup|by rewrite (kp_lock _ _ Hk)|by rewrite (kp_out _ _ Hk)|].
  intros y Hy. rewrite elem_of_add_block in Hy. rewrite fupd_ne by tauto. apply Hcl. tauto.
Qed.

(** Nothing in progress: what recovery and end_op leave. *)
Record quiet s img ws : Prop := {
  qu_rep : lrep s (apply_writes ws img) ∅ img ws;
  qu_txn : txn s [];
  qu_lock : lock_free (log_lock s);
  qu_out : outstanding s = 0;
  qu_com : committing s = 0
}.

(** The log blocks are as on the device while a transaction runs. *)
Lemma log_clean s bl f (g : Z → block) : txn s bl → (∀ x, x ∉ bl → f x = g x) →
  ∀ y, log_start s ≤ y ≤ log_start s + LOGBLOCKS → f y = g y.
Proof.
  intros Ht Hf y Hy. apply Hf. intros Hin. pose proof (tx_home _ _ Ht) as HF.
  rewrite Forall_forall in HF. by destruct (HF y Hin) as [_ Hno].
Qed.

Lemma end_contents s f img ws bl y :
  txn s bl → (∀ x, x ∉ bl → f x = apply_writes ws img x) →
  ¬ (log_start s ≤ y ≤ log_start s + LOGBLOCKS) →
  apply_writes (ws ++ end_writes (log_start s) f bl) img y = f y.
Proof.
  intros Ht Hf Hy. rewrite apply_writes_app. unfold end_writes. case_decide as E.
  - subst. cbn. symmetry. apply Hf, not_elem_of_nil.
  - apply commit_contents; [done|apply Ht|apply Hf].
Qed.

Lemma end_op_last s f img ws bl :
  intx s f img ws bl → outstanding s = 1 → committing s = 0 → (length bl < Z.to_nat NBUF)%nat →
  wp end_op (λ _ s', quiet s' img (ws ++ end_writes (log_start s) f bl) ∧ log_start s' = log_start s) s.
Proof.
  intros [Hl Ht Hnd Hlk _ Hclean] Hout Hcom Hn. pose proof (lrep_pst _ _ _ _ _ Hl) as Hok.
  pose proof (lr_inv _ _ _ _ _ Hl) as Hb. pose proof (ci_run _ _ _ _ (bi_cinv _ _ Hb)) as Hrun.
  pose proof (log_clean _ _ _ _ Ht Hclean) as Hcl.
  unfold end_op. wp_step. eapply wp_of_Ok; [apply log_acquire; [apply Hok|done]|].
  wp_step. wp_step. wp_step. unfold set_outstanding at 1. wp_step. cbn [committing over log_lk outstanding].
  rewrite Hcom, Hout. change (negb (0 =? 0)) with false. change (1 - 1 =? 0) with true. cbn iota.
  wp_step. wp_step. unfold set_committing at 1. wp_step. wp_step. wp_step.
  eapply wp_of_Ok; [by apply (log_release _ (lhart s) (log_lock s)); [apply Hok|..]|].
  set (s1 := over log_lk _ _).
  assert (lrep s1 f (pins bl) img ws) as Hl1.
  { destruct Hl as [H1 H2 H3]. split; [|done|done]. cbn.
    apply (binv_p (l_b s)); [done|by apply synced_ok|by apply is_running_synced|by apply cur_pid_synced]. }
  assert (txn s1 bl) as Ht1 by (by destruct Ht).
  cbn [when]. wp_step. wp_call (commit_any s1 f img ws bl); [done|done|done|done|done|].
  change (log_start s1) with (log_start s). intros [] s2 (Ht2 & Hk2 & f' & Hl2 & Hf2 & Hf2').
  wp_call (log_wake s2 _ (λ s, Lst (l_b s) (log_lock s) (log_start s) (outstanding s) 0 (log_dev s) (lh s)));
    [apply Hl2|rewrite (kp_lock _ _ Hk2); done|done|].
  intros [] s' (b' & -> & Hb' & Hp' & Hd'). split; [|cbn; by rewrite (kp_start _ _ Hk2)].
  split; cbn; [|by destruct Ht2|by rewrite (kp_lock _ _ Hk2)|by rewrite (kp_out _ _ Hk2)|done].
  apply (lrep_ext _ f').
  - intros y. destruct (decide (log_start s ≤ y ≤ log_start s + LOGBLOCKS)) as [Hy|Hy]; [by rewrite Hf2'|].
    rewrite Hf2 by done. by apply end_contents.
  - destruct Hl2 as [L1 L2 L3]. split; [done|cbn; by rewrite Hd'|cbn; by rewrite Hd'].
Qed.

Lemma begin_op_quiet s img ws :
  quiet s img ws →
  wp begin_op (λ _ s', intx s' (apply_writes ws img) img ws [] ∧ outstanding s' = 1 ∧ committing s' = 0 ∧
    log_start s' = log_start s) s.
Proof.
  intros [Hl Ht Hlk Ho Hc]. pose proof (lrep_pst _ _ _ _ _ Hl) as Hok. pose proof (tx_n _ _ Ht) as Hn. cbn in Hn.
  pose proof (ci_run _ _ _ _ (bi_cinv _ _ (lr_inv _ _ _ _ _ Hl))) as Hrun.
  eapply wp_of_Ok; [apply begin_op_run; [apply Hok|done|done|rewrite Hn, Ho; done]|].
  split_and!; [|cbn; lia|done|done]. split; [|by destruct Ht|constructor|done|cbn; lia|done].
  destruct Hl as [H1 H2 H3]. split; [|done|done]. cbn.
  apply (binv_p (l_b s)); [done|by apply synced_ok|by apply is_running_synced|by apply cur_pid_synced].
Qed.
End tx.
