(* ===== verification/LogProps.v ===== *)
(** * What the log promises

    Crash atomicity of commit, recovery, the reservation of log space, and the
    buffers a commit needs. *)
From S2P Require Import Prelude Memory Riscv Spinlock Sched Sleeplock Disk Bio BioSpec BioInv BioOps BioProps Log LogSpec LogOps Crash LogTx.

(** ** Recovery, interrupted any number of times *)

Lemma apply_writes_last ws f g x : x ∈ ws.*1 → apply_writes ws f x = apply_writes ws g x.
Proof.
  induction ws as [|[y d] ws IH] using rev_ind; [by intros ?%not_elem_of_nil|].
  rewrite fmap_app, elem_of_app, !apply_writes_snoc. cbn. rewrite list_elem_of_singleton.
  intros [Hx| ->]; [|by rewrite !fupd_eq]. unfold fupd. case_decide; [done|auto].
Qed.

Lemma home_writes_fst L f bl : (home_writes L f bl).*1 = bl.
Proof.
  unfold home_writes. apply list_eq. intros i. rewrite list_lookup_fmap, list_lookup_imap. by destruct (bl !! i).
Qed.

(** The writes recovery makes on a disk [g]. *)
Definition recover_writes (L : Z) (g : Z → block) : list (Z * block) :=
  home_writes L g (hdr_blocks (g L)) ++ [(L, put_hdr [] (g L))].

(** A home block after any prefix of the installation. *)
Lemma replay_again L g k x :
  hdr_ok L (g L) → home L x →
  let c := apply_writes (home_writes L g (take k (hdr_blocks (g L)))) g in
  c L = g L ∧ replay L c x = replay L g x.
Proof.
  intros [Hn Hh] Hx c. set (bl := hdr_blocks (g L)) in *.
  assert (∀ y, L ≤ y ≤ L + LOGBLOCKS → c y = g y) as Hc.
  { intros y Hy. apply home_writes_log; [by apply Forall_take|done]. }
  assert (c L = g L) as EL by (apply Hc; unfold LOGBLOCKS, MAXOPBLOCKS; lia).
  split; [done|]. unfold replay. rewrite EL. fold bl.
  assert (home_writes L c bl = home_writes L g bl) as ->.
  { unfold home_writes. apply imap_ext. intros t y Ht. rewrite Hc; [done|].
    apply lookup_lt_Some in Ht. unfold bl in Ht. rewrite length_hdr_blocks in Ht. lia. }
  destruct (decide (x ∈ bl)) as [Hin|Hin].
  - apply apply_writes_last. by rewrite home_writes_fst.
  - assert (c x = g x) as Ex.
    { apply apply_writes_notin. rewrite home_writes_fst. intros H%subseteq_take. done. }
    by rewrite !apply_writes_notin by (by rewrite home_writes_fst).
Qed.

(** Recovery may itself be interrupted by a crash at any point: after any prefix
    of its disk writes the header is still one recovery accepts, and replaying
    the log again gives every home block the same contents. *)
Theorem recovery_idempotent L g ws x :
  hdr_ok L (g L) → Z.of_nat (length (g L)) = BSIZE → home L x →
  ws `prefix_of` recover_writes L g →
  hdr_ok L (apply_writes ws g L) ∧ replay L (apply_writes ws g) x = replay L g x.
Proof.
  intros Hok Hlen Hx [tl Htl]. set (bl := hdr_blocks (g L)).
  assert (length (home_writes L g bl) = length bl) as El by apply length_imap.
  assert (ws = take (length ws) (recover_writes L g)) as Ews by (rewrite Htl; by rewrite take_app_length).
  destruct (decide (length ws ≤ length bl)%nat) as [Hk|Hk].
  - assert (ws = home_writes L g (take (length ws) bl)) as E.
    { rewrite Ews at 1. unfold recover_writes. fold bl. rewrite take_app_le by lia.
      unfold home_writes. apply list_eq. intros i. rewrite list_lookup_imap, !lookup_take, list_lookup_imap. by case_decide. }
    rewrite E. destruct (replay_again L g (length ws) x Hok Hx) as [EL Er]. fold bl in EL, Er. by rewrite EL.
  - assert (ws = recover_writes L g) as ->.
    { rewrite Ews. apply take_ge. unfold recover_writes. fold bl. rewrite length_app, El. cbn. lia. }
    unfold recover_writes. rewrite !apply_writes_app. cbn. rewrite decide_True by done.
    assert (hdr_n (put_hdr [] (g L)) = 0) as H0.
    { apply (hdr_put [] (g L)); [unfold fits; rewrite Hlen; done|done|constructor]. }
    split; [by apply hdr_empty|]. rewrite replay_empty.
    + rewrite apply_writes_app. cbn. rewrite decide_False; [done|]. intros ->. by apply (L_not_home L L).
    + rewrite apply_writes_app. cbn. by rewrite decide_True.
Qed.

Lemma recovery_idempotent_witness :
  let b := put32 1 50 (put32 0 1 zero_block) in
  let g := fupd (λ _, zero_block) 2 b in
  hdr_ok 2 (apply_writes [(50, zero_block)] g 2) ∧
  replay 2 (apply_writes [(50, zero_block)] g) 60 = replay 2 g 60.
Proof.
  apply (recovery_idempotent 2 (fupd (λ _, zero_block) 2 (put32 1 50 (put32 0 1 zero_block)))).
  - split; [vm_compute; split; discriminate|].
    assert (hdr_blocks (fupd (λ _, zero_block) 2 (put32 1 50 (put32 0 1 zero_block)) 2) = [50]) as ->
      by (vm_compute; reflexivity).
    repeat constructor; unfold LOGBLOCKS, MAXOPBLOCKS; lia.
  - vm_compute. reflexivity.
  - split; unfold LOGBLOCKS, MAXOPBLOCKS; lia.
  - exists [(2, put_hdr [] (put32 1 50 (put32 0 1 zero_block)))]. vm_compute. reflexivity.
Defined.

(** ** Crash atomicity of commit *)
Section atomic.
Context {D : Type} `{!BlockDev D}.
Implicit Types (s t : lst D) (f : Z → block) (ws : list (Z * block)).

(** A machine started on a disk with contents [g]: the buffer cache is fresh and
    struct log is not set up yet. *)
Record fresh_boot t (g : Z → block) : Prop := {
  fb_rep : lrep t g ∅ g [];
  fb_len : length (lh_block (lh t)) = Z.to_nat LOGBLOCKS
}.

(** initlog on such a machine replays the log. *)
Lemma initlog_ok t g L :
  fresh_boot t g → 0 ≤ L ∧ L + LOGBLOCKS < 2 ^ 31 → hdr_ok L (g L) →
  wp (initlog ROOTDEV L) (λ _ t', txn t' [] ∧
    ∀ x, home L x → contents (b_dsk (l_b t')) x = replay L g x) t.
Proof.
  intros [Hl Hlen] HL Hok. unfold initlog. rewrite (proj2 (Z.leb_gt _ _)) by done.
  wp_step. wp_step. unfold initlock. wp_step. wp_step. wp_step.
  rewrite i32_small by (unfold LOGBLOCKS, MAXOPBLOCKS in HL; lia).
  set (t1 := Lst _ _ _ _ _ _ _).
  assert (l_b t1 = l_b t) as Eb by (unfold t1; cbn; by destruct (l_b t) as [[? ?] ? ? ? ? ?]).
  assert (booted t1 g g []) as Hbt.
  { split; [|done|done]. destruct Hl as [H1 H2 H3]. split; by rewrite Eb. }
  wp_call (recover_ok t1 g g []); [done|done|done|done|].
  intros [] t' (Ht & _ & f' & ws' & [_ Him Hw] & Hcl & _ & Hf). split; [done|].
  intros x Hx. unfold contents. rewrite Him, Hw, <- Hcl. apply Hf. by apply L_not_home.
Qed.

(** A crash after a prefix of the writes of a commit of the blocks [bl], with
    view [f], on a disk [g]. *)
Lemma crash_recovers t L f g bl img ws W1 :
  0 ≤ L ∧ L + LOGBLOCKS < 2 ^ 31 → Forall (home L) bl → (length bl ≤ Z.to_nat LOGBLOCKS)%nat →
  g = apply_writes ws img → (∀ x, x ∉ bl → f x = g x) →
  hdr_n (g L) = 0 → Z.of_nat (length (g L)) = BSIZE →
  W1 `prefix_of` commit_writes L f bl → fresh_boot t (apply_writes (ws ++ W1) img) →
  wp (initlog ROOTDEV L) (λ _ t', ∀ x, home L x →
    contents (b_dsk (l_b t')) x = if decide (length W1 ≤ length bl)%nat then g x else f x) t.
Proof.
  intros HL HF Hmax Hg Hf H0 Hlen Hpre Hbt.
  destruct (crash_prefix L f g bl HF Hmax Hf H0 Hlen W1 Hpre) as [Hok Hr].
  assert (∀ x, apply_writes (ws ++ W1) img x = apply_writes W1 g x) as Ex by (intros; rewrite Hg; apply apply_writes_app).
  wp_call (initlog_ok t _ L); [exact Hbt|done|by rewrite Ex|].
  intros [] t' [_ Hc] x Hx. rewrite Hc, <- (Hr x Hx) by done. unfold replay. rewrite Ex.
  assert (home_writes L (apply_writes (ws ++ W1) img) (hdr_blocks (apply_writes W1 g L)) =
          home_writes L (apply_writes W1 g) (hdr_blocks (apply_writes W1 g L))) as ->.
  { unfold home_writes. apply imap_ext. intros. cbn. by rewrite Ex. }
  by apply apply_writes_ext.
Qed.

(** Commit is atomic with respect to crashes. From a state whose cache shows the
    blocks [f], whose transaction consists of the blocks [bl] (at most NBUF - 1
    of them, all outside the log) and whose other blocks are as on disk, commit()
    returns with [f] on disk in every home block; and if the machine stops after
    any prefix of the disk writes it makes, initlog() on the next boot returns
    and leaves every home block as before the transaction (when at most the log
    blocks were written) or every home block as in [f]. *)
Theorem commit_atomic s f img ws bl :
  intx s f img ws bl → bl ≠ [] → (length bl < Z.to_nat NBUF)%nat →
  hdr_n (f (log_start s)) = 0 → Z.of_nat (length (f (log_start s))) = BSIZE →
  ∃ s' W, commit s = Ok tt s' ∧ writes (b_dsk (l_b s')) = ws ++ W ∧
    (∀ x, home (log_start s) x → contents (b_dsk (l_b s')) x = f x) ∧
    ∀ W1 t, W1 `prefix_of` W → fresh_boot t (apply_writes (ws ++ W1) img) →
      wp (initlog ROOTDEV (log_start s)) (λ _ t', ∀ x, home (log_start s) x →
        contents (b_dsk (l_b t')) x =
          if decide (length W1 ≤ length bl)%nat then apply_writes ws img x else f x) t.
Proof.
  intros [Hl Ht Hnd _ _ Hf] Hne Hn H0 Hlen. pose proof (log_clean _ _ _ _ Ht Hf) as Hlog.
  assert (f (log_start s) = apply_writes ws img (log_start s)) as EL
    by (apply Hlog; unfold LOGBLOCKS, MAXOPBLOCKS; lia).
  destruct (wp_Ok _ _ _ (commit_ok s f img ws bl Hl Ht Hnd Hne Hn Hlog))
    as ([] & s' & Ec & _ & _ & f' & [_ Him Hw] & _ & _).
  exists s', (commit_writes (log_start s) f bl). split_and!; [done|done| |].
  - intros x Hx. unfold contents. rewrite Him, Hw, apply_writes_app.
    apply commit_contents; [apply Hx|apply Ht|apply Hf].
  - intros W1 t Hpre Hbt. rewrite EL in H0, Hlen.
    eapply crash_recovers; [apply Ht|apply Ht|apply Ht|done|apply Hf|done|done|done|done].
Qed.

(** ** Whole transactions *)

(** A system call that changes the blocks [us] one after the other. *)
Definition transaction (us : list (Z * (block → block))) : M (lst D) unit :=
  begin_op ;; each us (λ u, update u.1 u.2) ;; end_op.

(** What it means: the changes in order, and the blocks it logs. *)
Definition upd_view (f : Z → block) (u : Z * (block → block)) : Z → block := fupd f u.1 (u.2 (f u.1)).
Definition updates (us : list (Z * (block → block))) (f : Z → block) : Z → block := foldl upd_view f us.
Definition logged (us : list (Z * (block → block))) : list Z := foldl (λ bl u, add_block u.1 bl) [] us.

Lemma add_block_length x bl : (length bl ≤ length (add_block x bl) ≤ length bl + 1)%nat.
Proof. unfold add_block. case_decide; rewrite ?length_app; cbn; lia. Qed.

Lemma logged_mono us vs : (length (logged us) ≤ length (logged (us ++ vs)))%nat.
Proof.
  induction vs as [|v vs IH] using rev_ind; [by rewrite app_nil_r|]. unfold logged in *.
  rewrite app_assoc, foldl_app. cbn. pose proof (add_block_length v.1 (foldl (λ bl u, add_block u.1 bl) [] (us ++ vs))). lia.
Qed.

Lemma logged_snoc us u : logged (us ++ [u]) = add_block u.1 (logged us).
Proof. unfold logged. by rewrite foldl_app. Qed.

Lemma updates_snoc us u f : updates (us ++ [u]) f = upd_view (updates us f) u.
Proof. unfold updates. by rewrite foldl_app. Qed.

Lemma updates_run s f img ws us :
  intx s f img ws [] → Forall (λ u, home (log_start s) u.1) us →
  (∀ pre u post, us = pre ++ u :: post → length (logged pre) < Z.to_nat LOGBLOCKS)%nat →
  wp (each us (λ u, update u.1 u.2)) (λ _ s', intx s' (updates us f) img ws (logged us) ∧ lkeep s s') s.
Proof.
  intros Hs HF Hlen. pose proof (lrep_pst _ _ _ _ _ (it_rep _ _ _ _ _ Hs)) as Hok.
  apply (wp_each_ind us _ (λ vis s', intx s' (updates vis f) img ws (logged vis) ∧ lkeep s s')).
  - split; [done|]. apply lstep_keep, lstep_refl.
  - intros pre u post s1 Hus [Hs1 Hk1]. rewrite logged_snoc, updates_snoc.
    assert (home (log_start s1) u.1) as Hu.
    { rewrite (kp_start _ _ Hk1). rewrite Hus in HF. apply Forall_app in HF as [_ HF]. by inversion HF. }
    wp_call (update_ok s1 (updates pre f) img ws (logged pre) u.1 u.2); [done|by eapply Hlen|done|].
    intros [] s2 [Hs2 Hk2]. split; [done|]. by eapply lkeep_trans.
Qed.

(** C1: a transaction is atomic: begin_op(), any changes of blocks through
    bread/log_write/brelse that log at most MAXOPBLOCKS distinct home blocks, and
    end_op() return, with all the changes on disk and the log empty again, ready
    for the next transaction; and a crash after any prefix of the disk writes
    made on the way is repaired by initlog() to a disk with none of the changes
    or with all of them. *)
Theorem transaction_atomic s img ws us :
  quiet s img ws → hdr_n (apply_writes ws img (log_start s)) = 0 →
  Z.of_nat (length (apply_writes ws img (log_start s))) = BSIZE →
  Forall (λ u, home (log_start s) u.1) us → Z.of_nat (length (logged us)) ≤ MAXOPBLOCKS →
  ∃ s' W, transaction us s = Ok tt s' ∧ quiet s' img (ws ++ W) ∧
    (∀ x, home (log_start s) x → contents (b_dsk (l_b s')) x = updates us (apply_writes ws img) x) ∧
    ∀ W1 t, W1 `prefix_of` W → fresh_boot t (apply_writes (ws ++ W1) img) →
      wp (initlog ROOTDEV (log_start s)) (λ _ t',
        (∀ x, home (log_start s) x → contents (b_dsk (l_b t')) x = apply_writes ws img x) ∨
        (∀ x, home (log_start s) x → contents (b_dsk (l_b t')) x = updates us (apply_writes ws img) x)) t.
Proof.
  intros Hq H0 Hlen HF Hmax. set (L := log_start s) in *. set (g := apply_writes ws img) in *.
  set (f := updates us g). set (bl := logged us).
  assert (length bl < Z.to_nat NBUF)%nat as Hbl by (unfold bl, NBUF, MAXOPBLOCKS in *; lia).
  assert (∀ pre u post, us = pre ++ u :: post → length (logged pre) < Z.to_nat LOGBLOCKS)%nat as Hpre.
  { intros pre u post Hus. pose proof (logged_mono pre (u :: post)) as Hm. rewrite <- Hus in Hm. fold bl in Hm.
    change LOGBLOCKS with NBUF. lia. }
  destruct (wp_Ok _ _ _ (begin_op_quiet s img ws Hq)) as ([] & s1 & E1 & Hs1 & Ho1 & Hc1 & Hst1).
  destruct (wp_Ok _ _ _ (updates_run s1 g img ws us Hs1 ltac:(by rewrite Hst1) Hpre)) as ([] & s2 & E2 & Hs2 & Hk2).
  fold f bl in Hs2. pose proof (kp_start _ _ Hk2) as Hst2. rewrite Hst1 in Hst2. fold L in Hst2.
  destruct (wp_Ok _ _ _ (end_op_last s2 f img ws bl Hs2 ltac:(by rewrite (kp_out _ _ Hk2))
    ltac:(by rewrite (kp_com _ _ Hk2)) Hbl)) as ([] & s3 & E3 & Hq3 & Hst3). rewrite Hst2 in Hq3.
  destruct Hs2 as [_ Ht2 _ _ _ Hcl2].
  exists s3, (end_writes L f bl). split_and!; [|done| |].
  - unfold transaction. by rewrite (bind_Ok _ _ _ _ _ E1), (bind_Ok _ _ _ _ _ E2).
  - intros x Hx. destruct Hq3 as [[_ Him Hw] _ _ _ _]. unfold contents. rewrite Him, Hw, <- Hst2.
    apply (end_contents s2); [done|done|]. rewrite Hst2. apply Hx.
  - clear Hpre. intros W1 t Hpre Hbt. unfold end_writes in Hpre. case_decide as E.
    + apply prefix_nil_inv in Hpre as ->. rewrite app_nil_r in Hbt. fold g in Hbt.
      wp_call (initlog_ok t g L); [done|rewrite <- Hst2; apply Ht2|by apply hdr_empty|].
      intros [] t' [_ Hc]. left. intros x Hx. rewrite Hc by done. by apply replay_empty.
    + pose proof Ht2 as [_ T2 _ _ T5 _ T7]. rewrite Hst2 in T2, T7.
      wp_call (crash_recovers t L f g bl img ws W1 T2 T7 T5 eq_refl Hcl2 H0 Hlen Hpre Hbt).
      intros [] t' Hc. case_decide; [left|right]; done.
Qed.
End atomic.

(** ** The reservation of log space *)
Section reserve.
Context {D : Type} `{!BlockDev D}.
Implicit Types (s t : lst D) (ops : list Z).

(** The counters begin_op, log_write and end_op work with. *)
Definition counters s : Z * Z * Z := (lh_n (lh s), outstanding s, committing s).
Definition keeps {A} (c : M (lst D) A) : Prop := ∀ s a s', c s = Ok a s' → counters s' = counters s.

Lemma keeps_bind {A B} (c : M (lst D) A) (k : A → M (lst D) B) :
  keeps c → (∀ a, keeps (k a)) → keeps (bind c k).
Proof.
  intros Hc Hk s b s' E. unfold bind in E. destruct (c s) as [a s1|] eqn:E1; [|done].
  rewrite (Hk a s1 b s' E). by apply (Hc s a).
Qed.
Lemma keeps_zoom {T A} (l : lens (lst D) T) (c : M T A) :
  (∀ y s, counters (over l y s) = counters s) → keeps (zoom l c).
Proof. intros Hl s a s' E. unfold zoom in E. destruct (c _); [|done]. injection E as _ <-. apply Hl. Qed.
Lemma keeps_ret {A} (a : A) : keeps (ret a).
Proof. by intros s b s' [= _ <-]. Qed.
Lemma keeps_get : keeps get.
Proof. by intros s b s' [= _ <-]. Qed.
Lemma keeps_gets {A} (f : lst D → A) : keeps (gets f).
Proof. by intros s b s' [= _ <-]. Qed.
Lemma keeps_of_option {A} (o : option A) : keeps (of_option o).
Proof. destruct o; [apply keeps_ret|done]. Qed.
Lemma keeps_each {A} (l : list A) (f : A → M (lst D) unit) : (∀ x, keeps (f x)) → keeps (each l f).
Proof.
  intros Hf. induction l as [|x l IH]; cbn; [apply keeps_ret|]. by apply keeps_bind.
Qed.

Ltac keep := repeat first
  [ apply keeps_bind; [|intros ?] | apply keeps_ret | apply keeps_get | apply keeps_gets
  | apply keeps_of_option | apply keeps_each; intros ? | apply keeps_zoom; done ].

Lemma keeps_write_log : keeps write_log.
Proof. unfold write_log, log_block, log_bread, lh_get. keep. Qed.
Lemma keeps_write_head : keeps write_head.
Proof. unfold write_head, log_bread, lh_get. keep. Qed.
Lemma keeps_install rec : keeps (install_trans rec).
Proof. unfold install_trans, install_block, log_bread, lh_get. destruct rec; cbn [when negb]; keep. Qed.

(** A returned commit has emptied the log. *)
Lemma commit_empties s s' : 0 ≤ lh_n (lh s) → commit s = Ok tt s' → counters s' = (0, outstanding s, committing s).
Proof.
  intros Hn. unfold commit. rewrite (bind_Ok get _ _ _ _ eq_refl). unfold when. case_test.
  2: { intros [= <-]. unfold counters. f_equal. f_equal. lia. }
  unfold bind, set_n, modify. destruct (write_log s) as [[] s1|] eqn:E1; [|done].
  destruct (write_head s1) as [[] s2|] eqn:E2; [|done]. destruct (install_trans false s2) as [[] s3|] eqn:E3; [|done].
  intros E4. rewrite (keeps_write_head _ _ _ E4). unfold counters. cbn.
  pose proof (keeps_install false _ _ _ E3) as K3. pose proof (keeps_write_head _ _ _ E2) as K2.
  pose proof (keeps_write_log _ _ _ E1) as K1. unfold counters in *. congruence.
Qed.

(** The calls of the running operations, [ops] counting the log_writes each of
    them has made. An operation may make MAXOPBLOCKS of them. *)
Inductive call : lst D * list Z → lst D * list Z → Prop :=
| call_begin s s' ops : begin_op s = Ok tt s' → call (s, ops) (s', ops ++ [0])
| call_write s s' ops i k b : ops !! i = Some k → k < MAXOPBLOCKS → log_write b s = Ok tt s' →
    call (s, ops) (s', <[i := k + 1]> ops)
| call_end s s' ops i : (i < length ops)%nat → end_op s = Ok tt s' → call (s, ops) (s', delete i ops).

(** The log space still promised to the running operations. *)
Definition promised ops : Z := foldr (λ k z, MAXOPBLOCKS - k + z) 0 ops.
#[local] Arguments promised : simpl never.

Record resv (st : lst D * list Z) : Prop := {
  rv_n : 0 ≤ lh_n (lh st.1);
  rv_out : outstanding st.1 = Z.of_nat (length st.2);
  rv_com : committing st.1 = 0;
  rv_ops : Forall (λ k, 0 ≤ k ≤ MAXOPBLOCKS) st.2;
  rv_room : lh_n (lh st.1) + promised st.2 ≤ LOGBLOCKS
}.

Lemma promised_app ops ops' : promised (ops ++ ops') = promised ops + promised ops'.
Proof. unfold promised. induction ops as [|k ops IH]; cbn; [done|]. rewrite IH. lia. Qed.

Lemma promised_bounds ops :
  Forall (λ k, 0 ≤ k ≤ MAXOPBLOCKS) ops → 0 ≤ promised ops ≤ Z.of_nat (length ops) * MAXOPBLOCKS.
Proof. unfold promised. induction 1; cbn -[MAXOPBLOCKS]; lia. Qed.

Lemma promised_split ops i k : ops !! i = Some k →
  promised ops = MAXOPBLOCKS - k + promised (delete i ops) ∧
  promised (<[i := k + 1]> ops) = promised ops - 1.
Proof.
  intros Hi. apply list_elem_of_split_length in Hi as (l1 & l2 & -> & ->).
  rewrite insert_app_r_alt, Nat.sub_diag, delete_middle by lia. cbn [insert list_insert].
  rewrite !promised_app. unfold promised. cbn. lia.
Qed.

Lemma begin_op_counters s s' : begin_op s = Ok tt s' →
  committing s = 0 ∧ lh_n (lh s) + (outstanding s + 1) * MAXOPBLOCKS ≤ LOGBLOCKS ∧
  counters s' = (lh_n (lh s), outstanding s + 1, 0).
Proof.
  unfold begin_op, while_sleep, bind, get, gets, set_outstanding, modify. cbn [loop].
  destruct (zoom log_lk acquire s) as [[] s1|] eqn:E1; [|done].
  pose proof (keeps_zoom log_lk acquire ltac:(done) _ _ _ E1) as K1. unfold counters in K1.
  unfold bind, gets. destruct (_ || _) eqn:Et.
  { destruct (zoom log_slst _ _); [|done]. done. }
  apply orb_false_iff in Et as [Et1%negb_false_iff%Z.eqb_eq Et2%Z.ltb_ge]. unfold ret.
  intros E2. pose proof (keeps_zoom log_lk release ltac:(done) _ _ _ E2) as K2. unfold counters in *. cbn in K2.
  injection K1 as K1 K1' K1''. rewrite K2, <- K1, <- K1', <- K1''. split_and!; [done|done|]. by rewrite Et1.
Qed.

Lemma log_write_counters s s' b : log_write b s = Ok tt s' →
  (lh_n (lh s') = lh_n (lh s) ∨ lh_n (lh s') = lh_n (lh s) + 1) ∧
  outstanding s' = outstanding s ∧ committing s' = committing s.
Proof.
  unfold log_write. unfold bind at 1. destruct (zoom log_lk acquire s) as [[] s1|] eqn:E1; [|done].
  pose proof (keeps_zoom log_lk acquire ltac:(done) _ _ _ E1) as K1. injection K1 as K1 K1' K1''.
  rewrite (bind_Ok get _ _ _ _ eq_refl). case_test; [done|]. case_test; [done|].
  cbn zeta. unfold bind at 1. destruct (lh_set _ _ s1) as [[] s2|] eqn:E2; [|done].
  assert (counters s2 = counters s1) as K2.
  { unfold lh_set in E2. rewrite (bind_Ok get _ _ _ _ eq_refl) in E2. revert E2. case_test; [done|]. by intros [= <-]. }
  injection K2 as K2 K2' K2''. unfold when. case_test.
  - unfold bind at 1. destruct ((zoom on_b (bpin b);; _) s2) as [[] s3|] eqn:E3; [|done].
    unfold bind in E3. destruct (zoom on_b (bpin b) s2) as [[] s2'|] eqn:E3'; [|done].
    injection E3 as <-. pose proof (keeps_zoom on_b _ ltac:(done) _ _ _ E3') as K3. injection K3 as K3 K3' K3''.
    intros E4. pose proof (keeps_zoom log_lk release ltac:(done) _ _ _ E4) as K4. unfold counters in K4. cbn in K4.
    injection K4 as K4 K4' K4''. split_and!; [right|..]; congruence.
  - unfold bind, ret. intros E4. pose proof (keeps_zoom log_lk release ltac:(done) _ _ _ E4) as K4.
    injection K4 as K4 K4' K4''. split_and!; [left|..]; congruence.
Qed.

Lemma keeps_eq {A} (c : M (lst D) A) s a s' : keeps c → c s = Ok a s' →
  lh_n (lh s') = lh_n (lh s) ∧ outstanding s' = outstanding s ∧ committing s' = committing s.
Proof. intros Hk E. pose proof (Hk _ _ _ E) as K. injection K. done. Qed.

Lemma end_op_counters s s' : 0 ≤ lh_n (lh s) → end_op s = Ok tt s' →
  outstanding s' = outstanding s - 1 ∧ committing s' = 0 ∧ (lh_n (lh s') = 0 ∨ lh_n (lh s') = lh_n (lh s)).
Proof.
  intros Hn. unfold end_op. unfold bind at 1. destruct (zoom log_lk acquire s) as [[] s1|] eqn:E1; [|done].
  apply keeps_eq in E1 as (K1 & K1' & K1''); [|by apply keeps_zoom].
  rewrite (bind_Ok get _ _ _ _ eq_refl). unfold bind at 1. unfold set_outstanding at 1, modify.
  case_test; [done|]. case_test.
  - unfold set_committing at 1, modify. unfold bind at 1 2, ret at 1.
    unfold bind at 1. destruct (zoom log_lk release _) as [[] s2|] eqn:E2; [|done].
    apply keeps_eq in E2 as (K2 & K2' & K2''); [|by apply keeps_zoom]. cbn in K2, K2', K2''. cbn [when].
    unfold bind at 1. destruct (commit s2) as [[] s3|] eqn:E3; [|done].
    apply commit_empties in E3; [|lia]. injection E3 as K3 K3' K3''.
    unfold bind at 1. destruct (zoom log_lk acquire s3) as [[] s4|] eqn:E4; [|done].
    apply keeps_eq in E4 as (K4 & K4' & K4''); [|by apply keeps_zoom].
    unfold set_committing, modify, bind at 1. unfold bind. destruct (zoom on_procs _ _) as [[] s5|] eqn:E5; [|done].
    apply keeps_eq in E5 as (K5 & K5' & K5''); [|by apply keeps_zoom]. cbn in K5, K5', K5''.
    intros E6. apply keeps_eq in E6 as (K6 & K6' & K6''); [|by apply keeps_zoom].
    split_and!; [congruence|congruence|left; congruence].
  - unfold bind at 1 2. destruct (zoom on_procs _ _) as [[] s2|] eqn:E2; [|done].
    apply keeps_eq in E2 as (K2 & K2' & K2''); [|by apply keeps_zoom]. cbn in K2, K2', K2''. unfold ret at 1.
    unfold bind. destruct (zoom log_lk release s2) as [[] s3|] eqn:E3; [|done].
    apply keeps_eq in E3 as (K3 & K3' & K3''); [|by apply keeps_zoom]. cbn [when]. intros [= <-].
    split_and!; [lia|lia|right; congruence].
Qed.

Lemma resv_call st st' : resv st → call st st' → resv st'.
Proof.
  intros [Hn Ho Hc Hops Hroom] Hcall. destruct Hcall as [s s' ops E|s s' ops i k b Hi Hk E|s s' ops i Hi E]; cbn in *.
  - apply begin_op_counters in E as (_ & Hfit & E). injection E as E1 E2 E3.
    split; cbn; rewrite ?E1, ?E2, ?E3, ?Ho, ?length_app; cbn; [lia|lia|done| |].
    + apply Forall_app. split; [done|]. by repeat constructor.
    + rewrite promised_app. change (promised [0]) with MAXOPBLOCKS.
      pose proof (promised_bounds ops Hops). rewrite Ho in Hfit. lia.
  - apply log_write_counters in E as (E1 & E2 & E3). destruct (promised_split ops i k Hi) as [_ Hp].
    assert (0 ≤ k ≤ MAXOPBLOCKS) by (rewrite Forall_lookup in Hops; by apply (Hops i)).
    split; cbn; rewrite ?E2, ?E3, ?length_insert; [lia|done|done| |lia].
    apply Forall_insert; [done|lia].
  - apply end_op_counters in E as (E1 & E2 & E3); [|done].
    destruct (lookup_lt_is_Some_2 ops i Hi) as [k Hk]. destruct (promised_split ops i k Hk) as [Hp _].
    assert (0 ≤ k ≤ MAXOPBLOCKS) by (rewrite Forall_lookup in Hops; by apply (Hops i)).
    split; cbn; rewrite ?E1; [lia| |done|by apply Forall_delete|].
    + rewrite length_delete by done. lia.
    + lia.
Qed.

Lemma resv_calls st st' : resv st → rtc call st st' → resv st'.
Proof. intros Hr Hc. induction Hc; eauto using resv_call. Qed.

Lemma bpin_total (c : bst D) i : hart_ok (p_hart (b_p c)) → lock_free (bc_lock c) →
  bpin i c = Ok tt (with_p (synced (b_p c)) (with_bufs (alter (λ b, with_refcnt (u32 (b_refcnt b + 1)) b) i) c)).
Proof.
  intros Hh Hl. unfold bpin. rewrite (bind_Ok _ _ _ _ _ (bc_acquire c Hh Hl)), (bind_Ok (set_buf i _) _ _ _ _ eq_refl).
  by apply (bc_release (with_bufs _ c)).
Qed.

Lemma bind_assoc_Ok {S A B E} (c : M S A) (k : A → M S B) (h : B → M S E) x a x' :
  c x = Ok a x' → bind (bind c k) h x = bind (k a) h x'.
Proof. unfold bind. by intros ->. Qed.

(** log_write returns whenever the log has room: nothing else in it can fail. *)
Lemma log_write_returns s b :
  hart_ok (p_hart (b_p (l_b s))) → lock_free (log_lock s) → lock_free (bc_lock (l_b s)) →
  length (lh_block (lh s)) = Z.to_nat LOGBLOCKS → 0 ≤ lh_n (lh s) < LOGBLOCKS → 1 ≤ outstanding s →
  ∃ s', log_write b s = Ok tt s'.
Proof.
  intros Hh Hl Hbc Hlen Hn Ho. unfold log_write. rewrite (bind_Ok _ _ _ _ _ (log_acquire s Hh Hl)).
  rewrite (bind_Ok get _ _ _ _ eq_refl). cbn [lh outstanding over log_lk].
  rewrite (proj2 (Z.leb_gt _ _)), (proj2 (Z.ltb_ge _ _)) by lia. cbn zeta. set (s1 := Lst _ _ _ _ _ _ _).
  set (k := Z.of_nat _).
  assert (k ≤ lh_n (lh s)) as Hk.
  { unfold k. pose proof (absorb_lt (b_blockno (bufi b (l_b s1))) (lh_block (lh s)) (Z.to_nat (lh_n (lh s)))). lia. }
  set (v := i32 _). assert (lh_set k v s1 = Ok tt (set_lh (Lh (lh_n (lh s)) (<[Z.to_nat k := v]> (lh_block (lh s)))) s1)) as E.
  { unfold lh_set. rewrite (bind_Ok get _ _ _ _ eq_refl). cbn [lh s1].
    rewrite (proj2 (Z.leb_gt _ _)) by (rewrite Hlen; unfold LOGBLOCKS, MAXOPBLOCKS in *; lia). done. }
  rewrite (bind_Ok _ _ _ _ _ E). unfold when. case_test.
  - set (s2 := set_lh _ s1). rewrite (bind_assoc_Ok _ _ _ _ _ _ (zoom_Ok on_b (bpin b) s2 _ _
      (bpin_total (l_b s2) b (push_ok _ Hh) Hbc))), (bind_Ok (set_n _) _ _ _ _ eq_refl).
    eexists. apply (log_release _ (p_hart (b_p (l_b s))) (log_lock s)); [done|done|by apply sync_push|done].
  - unfold ret. unfold bind. eexists. by apply (log_release _ (p_hart (b_p (l_b s))) (log_lock s)).
Qed.

(** C2: the reservation protocol of begin_op/end_op is sufficient. However the calls
    of concurrent file system operations interleave, starting from an empty log,
    an operation that has made fewer than MAXOPBLOCKS calls of log_write can make
    another one and it returns: it cannot panic with too big a transaction, nor
    with log_write outside of trans, nor write beyond lh.block[]. *)
Theorem log_space_reserved s0 s ops i k b :
  counters s0 = (0, 0, 0) → rtc call (s0, []) (s, ops) → ops !! i = Some k → k < MAXOPBLOCKS →
  hart_ok (p_hart (b_p (l_b s))) → lock_free (log_lock s) → lock_free (bc_lock (l_b s)) →
  length (lh_block (lh s)) = Z.to_nat LOGBLOCKS →
  ∃ s', log_write b s = Ok tt s'.
Proof.
  intros H0 Hcalls Hi Hk Hh Hl Hbc Hlen. injection H0 as H1 H2 H3.
  assert (resv (s, ops)) as [Rn Ro _ Rk Rr].
  { apply (resv_calls (s0, [])); [|done]. by split; cbn; rewrite ?H1. }
  cbn in *. destruct (promised_split ops i k Hi) as [Hp _]. pose proof (lookup_lt_Some _ _ _ Hi).
  pose proof (promised_bounds (delete i ops) (Forall_delete _ _ _ Rk)).
  apply log_write_returns; try done; lia.
Qed.
End reserve.

(** ** Buffers for a full log *)
Section full.
Context {D : Type} `{!BlockDev D}.
Implicit Types (s : lst D).

(** When every buffer is pinned, each one caches a block of the transaction. *)
Lemma all_pinned (b : bst D) f bl h i x :
  binv b (Cache f (pins bl) h) → NoDup bl → length bl = Z.to_nat NBUF → bufs b !! i = Some x →
  b_refcnt x ≠ 0 ∧ b_blockno x ∈ bl.
Proof.
  intros [Hc _ _] Hnd Hlen Hi.
  assert (∀ y, y ∈ bl → ∃ j z, bufs b !! j = Some z ∧ b_refcnt z ≠ 0 ∧ b_blockno z = y) as Hsur.
  { intros y Hy. assert (pins bl !! y = Some 1) as Hp by (rewrite lookup_pins; by rewrite decide_True).
    apply (ci_refs _ _ _ _ Hc) in Hp as (j & z & Hj & E & Hn & Hz). exists j, z. split_and!; [done|lia|done]. }
  set (used := filter (λ z, b_refcnt z ≠ 0 ∧ b_blockno z ∈ bl) (bufs b)).
  assert (bl ⊆+ (b_blockno <$> used)) as Hsub.
  { apply NoDup_submseteq; [done|]. intros y Hy. destruct (Hsur y Hy) as (j & z & Hj & Hn & Hz).
    apply list_elem_of_fmap. exists z. split; [done|]. apply list_elem_of_filter. rewrite Hz.
    split_and!; [done|done|by eapply list_elem_of_lookup_2]. }
  apply submseteq_length in Hsub. rewrite length_fmap, Hlen, <- (ci_len _ _ _ _ Hc) in Hsub.
  destruct (decide (b_refcnt x ≠ 0 ∧ b_blockno x ∈ bl)) as [|Hno]; [done|]. exfalso.
  pose proof (length_filter_lt (λ z, b_refcnt z ≠ 0 ∧ b_blockno z ∈ bl) (bufs b) x
    (list_elem_of_lookup_2 _ _ _ Hi) Hno). unfold used in Hsub. lia.
Qed.

(** C17: commit() needs a buffer beside the pinned ones. NBUF equals LOGBLOCKS, so a
    transaction that fills the log with NBUF distinct blocks, which begin_op and
    log_write accept, pins the whole buffer cache and commit() panics in bget
    instead of writing the log. *)
Theorem commit_full_log_panics s f img ws bl :
  intx s f img ws bl → length bl = Z.to_nat NBUF →
  faults commit s (Panicked "bget: no buffers").
Proof.
  intros [Hl Ht Hnd _ _ _] Hlen. pose proof (lr_inv _ _ _ _ _ Hl) as Hb.
  assert (0 < Z.of_nat (length bl)) as Hpos by (rewrite Hlen; done).
  unfold commit. rewrite <- (tx_n _ _ Ht) in Hpos.
  assert (faults (bread ROOTDEV (log_start s + 0 + 1)) (l_b s) (Panicked "bget: no buffers")) as Hf.
  { apply (bio_panics_full _ _ _ Hb). intros i b Hi. destruct (all_pinned _ _ _ _ _ _ Hb Hnd Hlen Hi) as [Hr Hin].
    split; [done|]. intros E. pose proof (tx_home _ _ Ht) as HF. rewrite Forall_forall in HF.
    destruct (HF _ Hin) as [_ Hno]. apply Hno. rewrite E. unfold LOGBLOCKS, MAXOPBLOCKS. lia. }
  assert (log_bread (log_start s + 0 + 1) s = zoom on_b (bread ROOTDEV (log_start s + 0 + 1)) s) as Ebr.
  { unfold log_bread. rewrite (bind_Ok get _ _ _ _ eq_refl), (tx_dev _ _ Ht).
    rewrite u32_small, u32_small; [done| |done]. pose proof (tx_start _ _ Ht). unfold LOGBLOCKS, MAXOPBLOCKS in *. lia. }
  unfold faults in *. destruct (bread _ _ (l_b s)) as [|g b'] eqn:E; [done|]. subst g.
  rewrite (bind_Ok get _ _ _ _ eq_refl), (proj2 (Z.ltb_lt _ _) Hpos). cbn [when].
  unfold write_log. erewrite bind_Halt; [done|]. rewrite (bind_Ok get _ _ _ _ eq_refl), seqZ_cons by done. cbn [each].
  apply bind_Halt. unfold log_block. rewrite (bind_Ok get _ _ _ _ eq_refl). apply bind_Halt. rewrite Ebr.
  by apply zoom_Halt.
Qed.
End full.

(** ** Admission of operations *)
Section admission.
Context {D : Type} `{!BlockDev D}.
Implicit Types (s : lst D).

(** Begin_op() admits an operation exactly when the log is not committing and has
    room for MAXOPBLOCKS blocks for each outstanding operation and this one: then
    it counts it and returns, else the caller is SLEEPING on the log with
    log.lock released and nothing counted. *)
Theorem begin_op_admits s p q :
  pst_ok (b_p (l_b s)) → cpu_proc (cur (p_hart (b_p (l_b s)))) = Some p → procs (b_p (l_b s)) !! p = Some q →
  noff (cur (p_hart (b_p (l_b s)))) = 0 → lock_free (log_lock s) →
  if decide (committing s = 0 ∧ lh_n (lh s) + (outstanding s + 1) * MAXOPBLOCKS ≤ LOGBLOCKS)
  then ∃ s', begin_op s = Ok tt s' ∧ outstanding s' = outstanding s + 1 ∧ log_lock s' = log_lock s ∧
         lh s' = lh s ∧ procs (b_p (l_b s')) = procs (b_p (l_b s))
  else ∃ s', begin_op s = Halt Slept s' ∧ outstanding s' = outstanding s ∧ log_lock s' = log_lock s ∧
         p_pub (procs (b_p (l_b s')) !!! p) = with_state SLEEPING (with_chan (Some ChLog) (p_pub q)).
Proof.
  intros Hok Hc Hq Hn Hl. case_decide as Hd.
  - destruct Hd as [Hcom Hroom]. eexists. split; [apply begin_op_run; [apply Hok|done|done|done]|done].
  - destruct (begin_op_sleeps s p q Hok Hc Hq Hn Hl) as (s' & E & H1 & H2 & H3); [|by exists s'].
    destruct (decide (committing s = 0)); [right|by left].
    apply Z.nle_gt. intros Hle. by apply Hd.
Qed.
End admission.

(** ** A machine on which the theorems can be tried *)
Definition demo_log : lst ram_disk :=
  Lst demo_bst (Spin 0 "log" None) 2 0 0 ROOTDEV (Lh 0 (replicate (Z.to_nat LOGBLOCKS) 0)).
Definition zeros : Z → block := λ _, zero_block.

Lemma demo_rep : lrep demo_log zeros ∅ zeros [].
Proof.
  destruct demo_bst_step as [Hb _ [Him Hw]]. split; [exact Hb|exact Him|exact Hw].
Qed.

Lemma demo_quiet : quiet demo_log zeros [].
Proof.
  split; [exact demo_rep| |by split|done|done].
  split; try done; cbn; unfold LOGBLOCKS, MAXOPBLOCKS; lia.
Qed.

Lemma home_2 x : 33 ≤ x < 1000 → home 2 x.
Proof. unfold home, LOGBLOCKS, MAXOPBLOCKS. lia. Qed.

(** A transaction that fills blocks [l] with the byte 7. *)
Definition fill (l : list Z) : list (Z * (block → block)) :=
  (λ x, (x, λ _, replicate (Z.to_nat BSIZE) 7)) <$> l.

Lemma transaction_atomic_witness :
  ∃ s' W, transaction (fill [50; 40; 50]) demo_log = Ok tt s' ∧ quiet s' zeros ([] ++ W) ∧
    (∀ x, home 2 x → contents (b_dsk (l_b s')) x = updates (fill [50; 40; 50]) (apply_writes [] zeros) x) ∧
    ∀ W1 t, W1 `prefix_of` W → fresh_boot t (apply_writes ([] ++ W1) zeros) →
      wp (initlog ROOTDEV 2) (λ _ t',
        (∀ x, home 2 x → contents (b_dsk (l_b t')) x = apply_writes [] zeros x) ∨
        (∀ x, home 2 x → contents (b_dsk (l_b t')) x = updates (fill [50; 40; 50]) (apply_writes [] zeros) x)) t.
Proof.
  apply (transaction_atomic demo_log zeros [] (fill [50; 40; 50]) demo_quiet).
  - vm_compute. reflexivity.
  - vm_compute. reflexivity.
  - apply Forall_forall. intros u Hu. apply home_2. apply list_elem_of_fmap in Hu as (x & -> & Hx). cbn [fst].
    rewrite !elem_of_cons, elem_of_nil in Hx. lia.
  - vm_compute. discriminate.
Defined.

(** The machine in a transaction that has logged the blocks [l]. *)
Lemma demo_tx l : Forall (λ x, 33 ≤ x < 1000) l → NoDup l → (length l ≤ Z.to_nat LOGBLOCKS)%nat →
  ∃ s, (begin_op ;; each (fill l) (λ u, update u.1 u.2)) demo_log = Ok tt s ∧
    intx s (updates (fill l) zeros) zeros [] l ∧ log_start s = 2.
Proof.
  intros HF Hnd Hlen.
  destruct (wp_Ok _ _ _ (begin_op_quiet demo_log zeros [] demo_quiet)) as ([] & s1 & E1 & Hs1 & _ & _ & Hst).
  assert (∀ k, k `prefix_of` l → logged (fill k) = k) as Hlog.
  { intros k Hk. induction k as [|x k IH] using rev_ind; [done|]. unfold fill in *. rewrite fmap_app. cbn.
    rewrite logged_snoc. cbn. rewrite IH by (etransitivity; [|exact Hk]; by apply prefix_app_r).
    unfold add_block. rewrite decide_False; [done|]. destruct Hk as [tl ->].
    rewrite <- app_assoc in Hnd. apply NoDup_app in Hnd as (_ & Hd & _). intros Hx. apply (Hd x Hx). by left. }
  assert (Forall (λ u, home (log_start s1) u.1) (fill l)) as Hhome.
  { rewrite Hst. apply Forall_fmap. eapply Forall_impl; [exact HF|]. intros x Hx. by apply home_2. }
  assert (∀ pre u post, fill l = pre ++ u :: post → length (logged pre) < Z.to_nat LOGBLOCKS)%nat as Hpre.
  { intros pre u post Hus. assert (pre = fill (take (length pre) l)) as E.
    { unfold fill in *. by rewrite fmap_take, Hus, take_app_length. }
    apply (f_equal length) in Hus. unfold fill in Hus. rewrite length_fmap, length_app in Hus. cbn in Hus.
    rewrite E, Hlog by apply prefix_take. rewrite length_take. lia. }
  destruct (wp_Ok _ _ _ (updates_run s1 zeros zeros [] (fill l) Hs1 Hhome Hpre)) as ([] & s & E2 & Hs & Hk).
  exists s. rewrite (Hlog l) in Hs by done. split_and!; [by rewrite (bind_Ok _ _ _ _ _ E1)|done|].
  by rewrite (kp_start _ _ Hk).
Qed.

Lemma commit_atomic_witness : ∃ s, (begin_op ;; each (fill [50; 40]) (λ u, update u.1 u.2)) demo_log = Ok tt s ∧
  ∃ s' W, commit s = Ok tt s' ∧ writes (b_dsk (l_b s')) = [] ++ W ∧
    (∀ x, home (log_start s) x → contents (b_dsk (l_b s')) x = updates (fill [50; 40]) zeros x) ∧
    ∀ W1 t, W1 `prefix_of` W → fresh_boot t (apply_writes ([] ++ W1) zeros) →
      wp (initlog ROOTDEV (log_start s)) (λ _ t', ∀ x, home (log_start s) x →
        contents (b_dsk (l_b t')) x =
          if decide (length W1 ≤ 2)%nat then apply_writes [] zeros x else updates (fill [50; 40]) zeros x) t.
Proof.
  destruct (demo_tx [50; 40]) as (s & E & Hs & Hst).
  { repeat constructor; lia. } { by apply (bool_decide_unpack _). } { vm_compute. lia. }
  exists s. split; [done|].
  apply (commit_atomic s (updates (fill [50; 40]) zeros) zeros [] [50; 40] Hs); rewrite ?Hst.
  - done.
  - vm_compute. lia.
  - vm_compute. reflexivity.
  - vm_compute. reflexivity.
Defined.

(** Thirty blocks fill the log, and they are admitted. *)
Lemma commit_full_log_panics_witness :
  ∃ s, (begin_op ;; each (fill (seqZ 100 30)) (λ u, update u.1 u.2)) demo_log = Ok tt s ∧
    faults commit s (Panicked "bget: no buffers").
Proof.
  destruct (demo_tx (seqZ 100 30)) as (s & E & Hs & _).
  { apply Forall_forall. intros x Hx%elem_of_seqZ. lia. } { apply NoDup_seqZ. } { vm_compute. lia. }
  exists s. split; [done|].
  apply (commit_full_log_panics s (updates (fill (seqZ 100 30)) zeros) zeros [] (seqZ 100 30) Hs).
  reflexivity.
Defined.

Lemma log_space_reserved_witness :
  ∃ s, begin_op demo_log = Ok tt s ∧ ∃ s', log_write 0 s = Ok tt s'.
Proof.
  destruct (wp_Ok _ _ _ (begin_op_quiet demo_log zeros [] demo_quiet)) as ([] & s & E & Hs & _ & _ & _).
  exists s. split; [done|]. destruct Hs as [Hl Ht _ Hlk _ _].
  apply (log_space_reserved demo_log s [0] 0 0 0).
  - reflexivity.
  - apply rtc_once. by apply (call_begin demo_log s []).
  - reflexivity.
  - reflexivity.
  - apply (ps_hart _ (lrep_pst _ _ _ _ _ Hl)).
  - done.
  - apply (lr_inv _ _ _ _ _ Hl).
  - apply Ht.
Defined.

(** With the log committing, begin_op sleeps. *)
Lemma begin_op_admits_witness :
  ∃ s', begin_op (Lst (over on_pst demo_pst demo_bst) (Spin 0 "log" None) 2 0 1 ROOTDEV (Lh 0 (replicate 30 0)))
    = Halt Slept s' ∧ outstanding s' = 0 ∧ log_lock s' = Spin 0 "log" None ∧
    p_pub (procs (b_p (l_b s')) !!! 3%nat) = with_state SLEEPING (with_chan (Some ChLog) (p_pub demo_run)).
Proof.
  exact (begin_op_admits (Lst (over on_pst demo_pst demo_bst) (Spin 0 "log" None) 2 0 1 ROOTDEV (Lh 0 (replicate 30 0)))
    3 demo_run demo_pst_ok eq_refl eq_refl eq_refl (conj eq_refl eq_refl)).
Defined.
