(* ===== verification/FsRep.v ===== *)
(** * Blocks in a transaction

    What kernel/fs.c relies on when it changes blocks through bread, log_write
    and brelse inside begin_op/end_op: [srep s v] says that the block contents
    are [v_view v], that the blocks [v_log v] are logged, that the process holds
    the buffers [v_held v], and that everything else is as on the device,
    [v_disk v]. The lemmas are the laws of the buffer operations on this view. *)
From S2P Require Import Prelude Memory Riscv Spinlock Sched Sleeplock Disk Bio BioSpec BioInv BioOps Log LogSpec LogOps LogTx.

Record txv : Type := Txv {
  v_view : Z → block;
  v_disk : Z → block;
  v_log : list Z;
  v_held : gmap nat Z
}.

Definition held_blk (h : gmap nat Z) (x : Z) : Prop := ∃ i, h !! i = Some x.
#[export] Instance held_blk_dec h x : Decision (held_blk h x).
Proof.
  refine (cast_if (decide (map_Exists (λ _ y, y = x) h)));
    unfold held_blk, map_Exists in *; naive_solver.
Defined.

(** References: one for the log, one for the holder. *)
Definition nrefs (v : txv) (x : Z) : Z :=
  (if decide (x ∈ v_log v) then 1 else 0) + (if decide (held_blk (v_held v) x) then 1 else 0).
Definition refs_ok (v : txv) (r : gmap Z Z) : Prop :=
  ∀ x, r !! x = if decide (nrefs v x = 0) then None else Some (nrefs v x).

Lemma nrefs_range v x : 0 ≤ nrefs v x ≤ 2.
Proof. unfold nrefs. repeat case_decide; lia. Qed.

Lemma refs_default v r x : refs_ok v r → default 0 (r !! x) = nrefs v x.
Proof. intros Hr. rewrite Hr. by case_decide. Qed.

Lemma refs_size v r : refs_ok v r → (size r ≤ length (v_log v) + size (v_held v))%nat.
Proof.
  intros Hr. rewrite <- size_dom.
  assert (dom r ⊆ list_to_set (v_log v) ∪ (list_to_set ((map_to_list (v_held v)).*2) : gset Z)) as Hs.
  { intros x Hx. apply elem_of_dom in Hx as [n Hn]. rewrite Hr in Hn. unfold nrefs in Hn.
    apply elem_of_union. rewrite !elem_of_list_to_set.
    destruct (decide (x ∈ v_log v)); [by left|]. destruct (decide (held_blk (v_held v) x)) as [[i Hi]|]; [|done].
    right. apply list_elem_of_fmap. exists (i, x). split; [done|]. by apply elem_of_map_to_list. }
  apply subseteq_size in Hs. etransitivity; [exact Hs|]. rewrite size_union_alt.
  assert (size ((list_to_set ((map_to_list (v_held v)).*2) : gset Z) ∖ list_to_set (v_log v)) ≤
          size (list_to_set ((map_to_list (v_held v)).*2) : gset Z))%nat as H1 by (apply subseteq_size; set_solver).
  pose proof (size_blocks (v_log v)). pose proof (size_blocks ((map_to_list (v_held v)).*2)) as H2.
  rewrite length_fmap, length_map_to_list in H2. lia.
Qed.

Section store.
Context {D : Type} `{!BlockDev D}.
Implicit Types (s : lst D) (v : txv).

Record srep s v : Prop := {
  sr_inv : ∃ r, binv (l_b s) (Cache (v_view v) r (v_held v)) ∧ refs_ok v r;
  sr_disk x : contents (b_dsk (l_b s)) x = v_disk v x;
  sr_txn : txn s (v_log v);
  sr_nodup : NoDup (v_log v);
  sr_lock : lock_free (log_lock s);
  sr_out : 1 ≤ outstanding s;
  sr_clean x : x ∉ v_log v → ¬ held_blk (v_held v) x → v_view v x = v_disk v x
}.

(** What buffer operations leave alone, in a form that composes. *)
Definition skeep s s' : Prop := pst_ok (b_p (l_b s)) → lkeep s s' ∧ pst_ok (b_p (l_b s')).

#[export] Instance skeep_preorder : PreOrder skeep.
Proof.
  split.
  - intros s Hok. split; [apply lstep_keep, lstep_refl|done].
  - intros s1 s2 s3 H12 H23 Hok. destruct (H12 Hok) as [K1 Hok2]. destruct (H23 Hok2) as [K2 Hok3].
    split; [by eapply lkeep_trans|done].
Qed.

Lemma srep_pst s v : srep s v → pst_ok (b_p (l_b s)).
Proof. intros [(r & Hb & _) _ _ _ _ _ _]. apply (bi_cinv _ _ Hb). Qed.

Lemma lkeep_skeep s s' v : lkeep s s' → srep s' v → skeep s s'.
Proof. intros Hk Hs Hok. split; [done|by eapply srep_pst]. Qed.

(** Distinct buffers hold distinct blocks. *)
Lemma held_inj s v i j x : srep s v → v_held v !! i = Some x → v_held v !! j = Some x → i = j.
Proof.
  intros [(r & Hb & _) _ _ _ _ _ _] Hi Hj.
  destruct (held_holds _ _ _ _ Hb Hi) as [b [B1 B2 B3 _ _ _ _ _ _ _ _]].
  destruct (held_holds _ _ _ _ Hb Hj) as [b' [C1 C2 C3 _ _ _ _ _ _ _ _]].
  apply (ci_uniq _ _ _ _ (bi_cinv _ _ Hb) i j b b'); congruence.
Qed.

Lemma held_blk_insert h i x y : h !! i = None → held_blk (<[i := x]> h) y ↔ y = x ∨ held_blk h y.
Proof.
  intros Hi. unfold held_blk. split.
  - intros [j Hj]. destruct (decide (j = i)) as [->|]; [rewrite lookup_insert_eq in Hj; left; congruence|].
    rewrite lookup_insert_ne in Hj by done. eauto.
  - intros [->|[j Hj]]; [exists i; apply lookup_insert_eq|]. exists j. rewrite lookup_insert_ne; [done|congruence].
Qed.

Definition v_bread (i : nat) (x : Z) v : txv := Txv (v_view v) (v_disk v) (v_log v) (<[i := x]> (v_held v)).
Definition v_set (x : Z) (d : block) v : txv := Txv (fupd (v_view v) x d) (v_disk v) (v_log v) (v_held v).
Definition v_logged (x : Z) v : txv := Txv (v_view v) (v_disk v) (add_block x (v_log v)) (v_held v).
Definition v_brelse (i : nat) v : txv := Txv (v_view v) (v_disk v) (v_log v) (delete i (v_held v)).

Lemma lfields_txn s s' bl : lfields s' = lfields s → txn s bl → txn s' bl.
Proof.
  intros E. unfold lfields in E. injection E as E1 E2 E3 E4 E5 E6. intros [H1 H2 H3 H4 H5 H6 H7].
  split; rewrite ?E2, ?E5, ?E6; done.
Qed.

Lemma st_bread s v x :
  srep s v → 0 ≤ x < 2 ^ 31 → ¬ held_blk (v_held v) x →
  (length (v_log v) + size (v_held v) < Z.to_nat NBUF)%nat →
  wp (zoom on_b (bread ROOTDEV x)) (λ i s', srep s' (v_bread i x v) ∧ v_held v !! i = None ∧ skeep s s') s.
Proof.
  intros Hs Hx Hnh Hroom. pose proof Hs as [(r & Hb & Hr) Hd Ht Hnd Hlk Hout Hcl].
  pose proof (refs_size v r Hr) as Hsz.
  wp_call (lift_b (bread ROOTDEV x)).
  { apply (bread_ok (l_b s) _ x Hb); [done| | |right; cbn; lia].
    - intros j Hj. apply Hnh. by exists j.
    - cbn. rewrite (refs_default v r x Hr). pose proof (nrefs_range v x). lia. }
  intros i s' [[[Hb' Hp' [Him Hw]] Hi] Hf]. cbn in Hi.
  assert (srep s' (v_bread i x v)) as Hs'.
  { split; cbn; [| |by eapply lfields_txn| |by injection Hf as -> _|by injection Hf as _ _ -> _|].
    - eexists. split; [exact Hb'|]. intros y. cbn. unfold nrefs. cbn.
      rewrite (refs_default v r x Hr). destruct (decide (y = x)) as [->|Hy].
      + rewrite lookup_insert_eq. unfold nrefs. rewrite (decide_False (P := held_blk (v_held v) x)) by done.
        rewrite (decide_True (P := held_blk (<[i:=x]> (v_held v)) x)) by (apply held_blk_insert; auto).
        case_decide; rewrite decide_False by lia; f_equal; lia.
      + rewrite lookup_insert_ne by done. rewrite Hr. unfold nrefs.
        assert (held_blk (<[i:=x]> (v_held v)) y ↔ held_blk (v_held v) y) as E by (rewrite held_blk_insert by done; naive_solver).
        by rewrite (decide_ext _ _ _ _ E).
    - intros y. rewrite <- Hd. unfold contents. by rewrite Him, Hw.
    - done.
    - intros y Hy Hny. apply Hcl; [done|]. intros Hh. apply Hny. apply held_blk_insert; auto. }
  split_and!; [done|done|]. eapply lkeep_skeep; [|exact Hs']. apply lstep_keep. by split.
Qed.

Lemma st_data s v i x : srep s v → v_held v !! i = Some x → b_bytes i s = v_view v x.
Proof. intros [(r & Hb & _) _ _ _ _ _ _] Hi. unfold b_bytes. by rewrite (data_view _ _ _ _ Hb Hi). Qed.

Lemma st_set s v i x g :
  srep s v → v_held v !! i = Some x →
  wp (zoom on_b (set_data i g)) (λ _ s', srep s' (v_set x (g (v_view v x)) v) ∧ skeep s s') s.
Proof.
  intros Hs Hi. pose proof Hs as [(r & Hb & Hr) Hd Ht Hnd Hlk Hout Hcl].
  wp_call (lift_b (set_data i g)); [by apply (set_data_ok (l_b s) _ i x g Hb)|].
  intros [] s' [[Hb' Hp' [Him Hw]] Hf].
  assert (srep s' (v_set x (g (v_view v x)) v)) as Hs'.
  { split; cbn; [by exists r| |by eapply lfields_txn|done|by injection Hf as -> _|by injection Hf as _ _ -> _|].
    - intros y. rewrite <- Hd. unfold contents. by rewrite Him, Hw.
    - intros y Hy Hny. rewrite fupd_ne; [by apply Hcl|]. intros ->. apply Hny. by exists i. }
  split; [done|]. eapply lkeep_skeep; [|exact Hs']. apply lstep_keep. by split.
Qed.

Lemma st_log s v i x :
  srep s v → v_held v !! i = Some x → (length (v_log v) < Z.to_nat LOGBLOCKS)%nat → home (log_start s) x →
  wp (log_write i) (λ _ s', srep s' (v_logged x v) ∧ skeep s s') s.
Proof.
  intros Hs Hi Hlen Hx. pose proof Hs as [(r & Hb & Hr) Hd Ht Hnd Hlk Hout Hcl].
  assert (held_blk (v_held v) x) as Hh by (by exists i).
  assert (r !! x = Some (nrefs v x)) as Hrx.
  { rewrite Hr, decide_False; [done|]. unfold nrefs. rewrite (decide_True (P := held_blk _ _)) by done. case_decide; lia. }
  wp_call (log_write_ok s _ i x (nrefs v x) (v_log v) Hb Hlk); [done|done|pose proof (nrefs_range v x); lia|done|done|done|done|].
  cbn [c_view c_refs c_held]. intros [] s' (Ht' & Hk & Hb' & [Him Hw]).
  assert (srep s' (v_logged x v)) as Hs'.
  { split; cbn; [| |done|by apply add_block_nodup|by rewrite (kp_lock _ _ Hk)|by rewrite (kp_out _ _ Hk)|].
    - eexists. split; [exact Hb'|]. intros y. unfold nrefs. cbn.
      destruct (decide (y = x)) as [->|Hy].
      + rewrite (decide_True (P := x ∈ add_block _ _)) by (apply elem_of_add_block; auto).
        rewrite (decide_True (P := held_blk _ _)) by done. rewrite (decide_False (P := 1 + 1 = 0)) by lia.
        destruct (decide (x ∈ v_log v)) as [Hin|Hin]; [|by rewrite lookup_insert_eq].
        rewrite Hrx. unfold nrefs. by rewrite !decide_True.
      + assert (y ∈ add_block x (v_log v) ↔ y ∈ v_log v) as E by (rewrite elem_of_add_block; naive_solver).
        rewrite (decide_ext _ _ _ _ E). transitivity (r !! y); [case_decide; by rewrite ?lookup_insert_ne by done|].
        by rewrite Hr.
    - intros y. rewrite <- Hd. unfold contents. by rewrite Him, Hw.
    - intros y Hy Hny. rewrite elem_of_add_block in Hy. apply Hcl; tauto. }
  split; [done|]. by eapply lkeep_skeep.
Qed.

Lemma held_blk_delete s v i x y :
  srep s v → v_held v !! i = Some x → held_blk (delete i (v_held v)) y ↔ y ≠ x ∧ held_blk (v_held v) y.
Proof.
  intros Hs Hi. unfold held_blk. split.
  - intros [j Hj]. rewrite lookup_delete_Some in Hj. destruct Hj as [Hne Hj]. split; [|eauto].
    intros ->. apply Hne. by apply (held_inj s v i j x).
  - intros [Hne [j Hj]]. exists j. rewrite lookup_delete_ne; [done|]. intros ->. congruence.
Qed.

Lemma st_brelse s v i x :
  srep s v → v_held v !! i = Some x → x ∈ v_log v ∨ v_view v x = v_disk v x →
  wp (zoom on_b (brelse i)) (λ _ s', srep s' (v_brelse i v) ∧ skeep s s') s.
Proof.
  intros Hs Hi Hok. pose proof Hs as [(r & Hb & Hr) Hd Ht Hnd Hlk Hout Hcl].
  assert (held_blk (v_held v) x) as Hh by (by exists i).
  assert (r !! x = Some (nrefs v x)) as Hrx.
  { rewrite Hr, decide_False; [done|]. unfold nrefs. rewrite (decide_True (P := held_blk _ _)) by done. case_decide; lia. }
  wp_call (lift_b (brelse i)).
  { apply (brelse_ok (l_b s) _ i x (nrefs v x) Hb Hi Hrx). intros H1. cbn. rewrite Hd.
    destruct Hok as [Hin|]; [|done]. exfalso. unfold nrefs in H1.
    rewrite !decide_True in H1 by done. lia. }
  intros [] s' [[Hb' Hp' [Him Hw]] Hf].
  assert (srep s' (v_brelse i v)) as Hs'.
  { split; cbn; [| |by eapply lfields_txn|done|by injection Hf as -> _|by injection Hf as _ _ -> _|].
    - eexists. split; [exact Hb'|]. intros y. cbn. unfold nrefs. cbn.
      rewrite lookup_set_ref, (decide_ext _ _ _ _ (held_blk_delete s v i x y Hs Hi)).
      destruct (decide (y = x)) as [->|Hy].
      + rewrite (decide_False (P := x ≠ x ∧ _)) by naive_solver. unfold nrefs.
        rewrite (decide_True (P := held_blk _ _)) by done. case_decide; repeat case_decide; try done; f_equal; lia.
      + rewrite Hr. unfold nrefs. assert (y ≠ x ∧ held_blk (v_held v) y ↔ held_blk (v_held v) y) as E by naive_solver.
        by rewrite (decide_ext _ _ _ _ E).
    - intros y. rewrite <- Hd. unfold contents. by rewrite Him, Hw.
    - intros y Hy Hny. rewrite held_blk_delete in Hny by done. destruct (decide (y = x)) as [->|].
      + by destruct Hok.
      + apply Hcl; tauto. }
  split; [done|]. eapply lkeep_skeep; [|exact Hs']. apply lstep_keep. by split.
Qed.

(** A transaction with no buffer held is [intx]. *)
Lemma intx_srep s f img ws bl :
  intx s f img ws bl → srep s (Txv f (apply_writes ws img) bl ∅).
Proof.
  intros [[Hb Him Hw] Ht Hnd Hlk Hout Hcl]. split; cbn; try done.
  - exists (pins bl). split; [done|]. intros x. unfold nrefs. cbn. rewrite lookup_pins.
    rewrite (decide_False (P := held_blk ∅ x)) by (by intros [? ?]). by repeat case_decide.
  - intros x. unfold contents. by rewrite Him, Hw.
  - intros x Hx _. by apply Hcl.
Qed.

Lemma srep_intx s f img g bl :
  srep s (Txv f g bl ∅) → image (b_dsk (l_b s)) = img → intx s f img (writes (b_dsk (l_b s))) bl.
Proof.
  intros [(r & Hb & Hr) Hd Ht Hnd Hlk Hout Hcl] Him. split; try done.
  - assert (r = pins bl) as ->; [|by split].
    apply map_eq. intros x. rewrite Hr, lookup_pins. unfold nrefs. cbn.
    rewrite (decide_False (P := held_blk ∅ x)) by (by intros [? ?]). by repeat case_decide.
  - intros x Hx. cbn in Hcl, Hd. rewrite Hcl by (done || by intros [? ?]). rewrite <- (Hd x). unfold contents. by rewrite Him.
Qed.
End store.
