(* ===== verification/Fs.v ===== *)
(** * kernel/fs.c: blocks and inodes

    The block allocator, the inode table and the contents of inodes, over the
    log and the buffer cache, with the struct layouts of kernel/fs.h and
    kernel/file.h. A pointer to an in-memory inode is an index of
    [itable.inode]; the null pointer is [None] where the code can return it.

    [b->data] lives in the buffers of the cache. When the code passes a pointer
    into it to either_copyout or either_copyin, the bytes are put in memory at
    the buffer's address [buf_addr i] for the copy, and read back after it. The
    printf diagnostics are not modelled. *)
From S2P Require Import Prelude Memory KString Riscv Spinlock Kalloc Vm Sched Sleeplock Disk Bio Log.

(** ** fs.h, stat.h *)
Definition ROOTINO : Z := 1.
Definition FSMAGIC : Z := 0x10203040.
Definition NDIRECT : Z := 12.
Definition NINDIRECT : Z := BSIZE `div` 4.
Definition MAXFILE : Z := NDIRECT + NINDIRECT.
Definition sizeof_dinode : Z := 64.
Definition IPB : Z := BSIZE `div` sizeof_dinode.
Definition BPB : Z := BSIZE * 8.
Definition DIRSIZ : Z := 14.
Definition sizeof_dirent : Z := 16.
Definition T_DIR : Z := 1.
Definition T_FILE : Z := 2.
Definition T_DEVICE : Z := 3.

Record superblock : Type := Sb {
  sb_magic : Z; sb_size : Z; sb_nblocks : Z; sb_ninodes : Z;
  sb_nlog : Z; sb_logstart : Z; sb_inodestart : Z; sb_bmapstart : Z
}.
Definition IBLOCK (i : Z) (sb : superblock) : Z := u32 (i `div` IPB + sb_inodestart sb).
Definition BBLOCK (b : Z) (sb : superblock) : Z := u32 (b `div` BPB + sb_bmapstart sb).

(** The fields struct dinode and struct inode share. *)
Record dinode : Type := Dinode {
  d_type : Z; d_major : Z; d_minor : Z; d_nlink : Z; d_size : Z; d_addrs : list Z
}.
Definition dinode0 : dinode := Dinode 0 0 0 0 0 (replicate 13 0).

(** struct inode *)
Record inode : Type := Inode {
  i_dev : Z; i_inum : Z; i_ref : Z; i_lock : sleeplock; i_valid : Z; i_d : dinode
}.
Definition inode0 : inode := Inode 0 0 0 (Slk 0 (Spin 0 "" None) "" 0) 0 dinode0.
#[export] Instance inode_inhabited : Inhabited inode := populate inode0.

(** ** The dinodes of a block: dinode [k] of b->data as an array of struct dinode *)
Definition get16 (o : Z) (b : block) : Z := le_val (take 2 (drop (Z.to_nat o) b)).
Definition splice (o : Z) (l b : block) : block :=
  take (Z.to_nat o) b ++ l ++ drop (Z.to_nat o + length l) b.

Definition get_dinode (k : Z) (b : block) : dinode :=
  let o := sizeof_dinode * k in
  Dinode (i16 (get16 o b)) (i16 (get16 (o + 2) b)) (i16 (get16 (o + 4) b)) (i16 (get16 (o + 6) b))
    (get32 (16 * k + 2) b) ((λ j, get32 (16 * k + 3 + j) b) <$> seqZ 0 (NDIRECT + 1)).
(** The bytes of a dinode. *)
Definition enc_dinode (d : dinode) : list Z :=
  le_bytes 2 (u16 (d_type d)) ++ le_bytes 2 (u16 (d_major d)) ++ le_bytes 2 (u16 (d_minor d)) ++
  le_bytes 2 (u16 (d_nlink d)) ++ le_bytes 4 (d_size d) ++ mjoin (le_bytes 4 <$> d_addrs d).
Definition put_dinode (k : Z) (d : dinode) (b : block) : block := splice (sizeof_dinode * k) (enc_dinode d) b.

(** ** State *)
Record kmem : Type := Kmem { km_lock : spinlock; km_free : Z; km_mem : mem }.
Record fst (D : Type) : Type := Fst {
  f_l : lst D;
  f_km : kmem;
  f_sb : superblock;
  it_lock : spinlock;
  inodes : list inode
}.
Arguments Fst {D}.
Arguments f_l {D}.
Arguments f_km {D}.
Arguments f_sb {D}.
Arguments it_lock {D}.
Arguments inodes {D}.

Section fs.
Context {D : Type} `{!BlockDev D}.
(** [end], and the address of bcache.buf[i].data. *)
Context (end_ : Z) (buf_addr : nat → Z).
Implicit Types s : fst D.

Definition f_p s : pst := b_p (l_b (f_l s)).
Definition on_l : lens (fst D) (lst D) :=
  Lens f_l (λ l s, Fst l (f_km s) (f_sb s) (it_lock s) (inodes s)).
Definition on_cache : lens (fst D) (bst D) :=
  Lens (λ s, l_b (f_l s)) (λ b s, over on_l (over on_b b (f_l s)) s).
Definition with_fp (p : pst) s : fst D := over on_l (over on_procs p (f_l s)) s.
Definition on_fp : lens (fst D) pst := Lens f_p with_fp.
Definition on_it : lens (fst D) lockst :=
  Lens (λ s, (p_hart (f_p s), it_lock s))
       (λ t s, let s' := with_fp (Pst t.1 (procs (f_p s))) s in
               Fst (f_l s') (f_km s') (f_sb s') t.2 (inodes s')).
Definition with_inodes (f : list inode → list inode) s : fst D :=
  Fst (f_l s) (f_km s) (f_sb s) (it_lock s) (f (inodes s)).
Definition on_mem : lens (fst D) mem :=
  Lens (λ s, km_mem (f_km s))
       (λ m s, Fst (f_l s) (Kmem (km_lock (f_km s)) (km_free (f_km s)) m) (f_sb s) (it_lock s) (inodes s)).
(** The allocator, memory and the processes' address spaces, for copyout and copyin. *)
Definition on_vst : lens (fst D) vst :=
  Lens (λ s, Vst (Kst (p_hart (f_p s)) (km_lock (f_km s)) (km_free (f_km s)) (km_mem (f_km s)))
                 ((λ p, Uproc (p_size (p_priv p)) (p_pgtbl (p_priv p))) <$> procs (f_p s)))
       (λ v s, let k := v_k v in
               let s' := with_fp (Pst (k_hart k) (procs (f_p s))) s in
               Fst (f_l s') (Kmem (k_lock k) (freelist k) (k_mem k)) (f_sb s') (it_lock s') (inodes s')).

Definition ino (i : nat) s : inode := inodes s !!! i.
Definition set_ino (i : nat) (f : inode → inode) : M (fst D) unit := modify (with_inodes (alter f i)).
Definition on_ilock (i : nat) : lens (fst D) slpst :=
  Lens (λ s, (f_p s, i_lock (ino i s)))
       (λ t s, with_inodes (alter (λ n, Inode (i_dev n) (i_inum n) (i_ref n) t.2 (i_valid n) (i_d n)) i)
                 (with_fp t.1 s)).

(** Assignments to fields of an inode. *)
Definition with_ref (r : Z) (n : inode) : inode :=
  Inode (i_dev n) (i_inum n) r (i_lock n) (i_valid n) (i_d n).
Definition with_ivalid (v : Z) (n : inode) : inode :=
  Inode (i_dev n) (i_inum n) (i_ref n) (i_lock n) v (i_d n).
Definition with_d (f : dinode → dinode) (n : inode) : inode :=
  Inode (i_dev n) (i_inum n) (i_ref n) (i_lock n) (i_valid n) (f (i_d n)).
Definition with_type (t : Z) (d : dinode) : dinode :=
  Dinode t (d_major d) (d_minor d) (d_nlink d) (d_size d) (d_addrs d).
Definition with_nlink (k : Z) (d : dinode) : dinode :=
  Dinode (d_type d) (d_major d) (d_minor d) k (d_size d) (d_addrs d).
Definition with_size (z : Z) (d : dinode) : dinode :=
  Dinode (d_type d) (d_major d) (d_minor d) (d_nlink d) z (d_addrs d).
Definition with_addr (k a : Z) (d : dinode) : dinode :=
  Dinode (d_type d) (d_major d) (d_minor d) (d_nlink d) (d_size d) (<[Z.to_nat k := a]> (d_addrs d)).
Definition addr_of (n : inode) (k : Z) : Z := d_addrs (i_d n) !!! Z.to_nat k.

(** Buffer operations. *)
Definition fbread (dev x : Z) : M (fst D) nat := zoom on_cache (bread (u32 dev) (u32 x)).
Definition fbrelse (b : nat) : M (fst D) unit := zoom on_cache (brelse b).
Definition fdata (b : nat) : M (fst D) block := gets (λ s, b_bytes b (f_l s)).
Definition fset (b : nat) (g : block → block) : M (fst D) unit := zoom on_cache (set_data b g).
Definition flog_write (b : nat) : M (fst D) unit := zoom on_l (log_write b).

(** ** Super block *)
Definition readsb (dev : Z) : M (fst D) unit :=
  do bp <- fbread dev 1;
  do d <- fdata bp;
  modify (λ s, Fst (f_l s) (f_km s)
    (Sb (get32 0 d) (get32 1 d) (get32 2 d) (get32 3 d) (get32 4 d) (get32 5 d) (get32 6 d) (get32 7 d))
    (it_lock s) (inodes s)) ;;
  fbrelse bp.

(** ** Blocks *)
Definition bzero (dev bno : Z) : M (fst D) unit :=
  do bp <- fbread dev bno;
  fset bp (λ _, replicate (Z.to_nat BSIZE) 0) ;;
  flog_write bp ;;
  fbrelse bp.

(** [bp->data[bi/8] & (1 << (bi % 8))] *)
Definition bit_set (bi : Z) (d : block) : bool :=
  negb (Z.land (d !!! Z.to_nat (bi `div` 8)) (Z.shiftl 1 (bi `mod` 8)) =? 0).
Definition set_bit (bi : Z) (d : block) : block :=
  alter (λ v, u8 (Z.lor v (Z.shiftl 1 (bi `mod` 8)))) (Z.to_nat (bi `div` 8)) d.
Definition clear_bit (bi : Z) (d : block) : block :=
  alter (λ v, u8 (Z.land v (Z.lnot (Z.shiftl 1 (bi `mod` 8))))) (Z.to_nat (bi `div` 8)) d.

(** One bitmap block of balloc: the search, and the allocation if it finds a free
    block. The block numbers fit an int (sb.size below 2^31). *)
Definition balloc_group (dev b : Z) : M (fst D) (option Z) :=
  do s <- get;
  let sz := sb_size (f_sb s) in
  do bp <- fbread dev (BBLOCK b (f_sb s));
  do d <- fdata bp;
  match List.find (λ bi, negb (bit_set bi d)) (seqZ 0 (Z.min BPB (sz - b))) with
  | Some bi =>
      fset bp (set_bit bi) ;;
      flog_write bp ;;
      fbrelse bp ;;
      bzero dev (b + bi) ;;
      ret (Some (b + bi))
  | None => fbrelse bp ;; ret None
  end.

(** [for(b = 0; b < sb.size; b += BPB)] *)
Definition groups (sz : Z) : list Z := (λ k, k * BPB) <$> seqZ 0 ((sz + BPB - 1) `div` BPB).

Definition balloc (dev : Z) : M (fst D) Z :=
  do s <- get;
  do r <- first (groups (sb_size (f_sb s))) (balloc_group dev);
  ret (default 0 r).

Definition bfree (dev b : Z) : M (fst D) unit :=
  do s <- get;
  do bp <- fbread dev (BBLOCK b (f_sb s));
  do d <- fdata bp;
  let bi := b `mod` BPB in
  if negb (bit_set bi d) then panic "freeing free block"
  else
    fset bp (clear_bit bi) ;;
    flog_write bp ;;
    fbrelse bp.

(** ** The inode table *)
Definition islots : list nat := seq 0 (Z.to_nat NINODE).

Definition iinit : M (fst D) unit :=
  zoom on_it (initlock "itable") ;;
  each islots (λ i, zoom (on_ilock i) (initsleeplock "inode")).

Definition iget (dev inum : Z) : M (fst D) nat :=
  zoom on_it acquire ;;
  do s <- get;
  match List.find (λ i, (0 <? i_ref (ino i s)) && (i_dev (ino i s) =? dev) && (i_inum (ino i s) =? inum)) islots with
  | Some i =>
      set_ino i (λ n, with_ref (i_ref n + 1) n) ;;
      zoom on_it release ;;
      ret i
  | None =>
      match List.find (λ i, i_ref (ino i s) =? 0) islots with
      | None => panic "iget: no inodes"
      | Some i =>
          set_ino i (λ n, Inode dev inum 1 (i_lock n) 0 (i_d n)) ;;
          zoom on_it release ;;
          ret i
      end
  end.

Definition ialloc (dev type : Z) : M (fst D) (option nat) :=
  do s <- get;
  first (seqZ 1 (sb_ninodes (f_sb s) - 1)) (λ inum,
    do s <- get;
    do bp <- fbread dev (IBLOCK inum (f_sb s));
    do d <- fdata bp;
    if d_type (get_dinode (inum `mod` IPB) d) =? 0 then
      fset bp (put_dinode (inum `mod` IPB) (with_type type dinode0)) ;;
      flog_write bp ;;
      fbrelse bp ;;
      do i <- iget dev inum;
      ret (Some i)
    else fbrelse bp ;; ret None).

Definition iupdate (ip : nat) : M (fst D) unit :=
  do s <- get;
  let n := ino ip s in
  do bp <- fbread (i_dev n) (IBLOCK (i_inum n) (f_sb s));
  fset bp (put_dinode (i_inum n `mod` IPB) (i_d n)) ;;
  flog_write bp ;;
  fbrelse bp.

Definition idup (ip : nat) : M (fst D) nat :=
  zoom on_it acquire ;;
  set_ino ip (λ n, with_ref (i_ref n + 1) n) ;;
  zoom on_it release ;;
  ret ip.

Definition ilock (ip : option nat) : M (fst D) unit :=
  match ip with
  | None => panic "ilock"
  | Some i =>
      do s <- get;
      if i_ref (ino i s) <? 1 then panic "ilock"
      else
        zoom (on_ilock i) (acquiresleep (ChInodeLock i)) ;;
        do s <- get;
        let n := ino i s in
        when (i_valid n =? 0)
          (do bp <- fbread (i_dev n) (IBLOCK (i_inum n) (f_sb s));
           do d <- fdata bp;
           set_ino i (with_d (λ _, get_dinode (i_inum n `mod` IPB) d)) ;;
           fbrelse bp ;;
           set_ino i (with_ivalid 1) ;;
           do s <- get;
           if d_type (i_d (ino i s)) =? 0 then panic "ilock: no type" else ret tt)
  end.

Definition iunlock (ip : option nat) : M (fst D) unit :=
  match ip with
  | None => panic "iunlock"
  | Some i =>
      do h <- zoom (on_ilock i) holdingsleep;
      do s <- get;
      if negb h || (i_ref (ino i s) <? 1) then panic "iunlock"
      else zoom (on_ilock i) (releasesleep (ChInodeLock i))
  end.

(** ** Inode contents *)

(** The slot [k] of ip->addrs, allocated if it is 0. *)
Definition bmap_slot (ip : nat) (k : Z) : M (fst D) Z :=
  do s <- get;
  let addr := addr_of (ino ip s) k in
  if addr =? 0 then
    do addr <- balloc (i_dev (ino ip s));
    if addr =? 0 then ret 0
    else set_ino ip (with_d (with_addr k addr)) ;; ret addr
  else ret addr.

Definition bmap (ip : nat) (bn : Z) : M (fst D) Z :=
  if bn <? NDIRECT then bmap_slot ip bn
  else
    let bn := bn - NDIRECT in
    if bn <? NINDIRECT then
      do addr <- bmap_slot ip NDIRECT;
      if addr =? 0 then ret 0
      else
        do s <- get;
        let dev := i_dev (ino ip s) in
        do bp <- fbread dev addr;
        do a <- fdata bp;
        do addr <- (if get32 bn a =? 0 then
                      do addr <- balloc dev;
                      when (negb (addr =? 0)) (fset bp (put32 bn addr) ;; flog_write bp) ;;
                      ret addr
                    else ret (get32 bn a));
        fbrelse bp ;;
        ret addr
    else panic "bmap: out of range".

Definition itrunc (ip : nat) : M (fst D) unit :=
  each (seqZ 0 NDIRECT) (λ i,
    do s <- get;
    when (negb (addr_of (ino ip s) i =? 0))
      (bfree (i_dev (ino ip s)) (addr_of (ino ip s) i) ;;
       set_ino ip (with_d (with_addr i 0)))) ;;
  do s <- get;
  let dev := i_dev (ino ip s) in
  let ind := addr_of (ino ip s) NDIRECT in
  when (negb (ind =? 0))
    (do bp <- fbread dev ind;
     do a <- fdata bp;
     each (seqZ 0 NINDIRECT) (λ j, when (negb (get32 j a =? 0)) (bfree dev (get32 j a))) ;;
     fbrelse bp ;;
     bfree dev ind ;;
     set_ino ip (with_d (with_addr NDIRECT 0))) ;;
  set_ino ip (with_d (with_size 0)) ;;
  iupdate ip.

Definition iput (ip : nat) : M (fst D) unit :=
  zoom on_it acquire ;;
  do s <- get;
  let n := ino ip s in
  when ((i_ref n =? 1) && negb (i_valid n =? 0) && (d_nlink (i_d n) =? 0))
    (zoom (on_ilock ip) (acquiresleep (ChInodeLock ip)) ;;
     zoom on_it release ;;
     itrunc ip ;;
     set_ino ip (with_d (with_type 0)) ;;
     iupdate ip ;;
     set_ino ip (with_ivalid 0) ;;
     zoom (on_ilock ip) (releasesleep (ChInodeLock ip)) ;;
     zoom on_it acquire) ;;
  set_ino ip (λ n, with_ref (i_ref n - 1) n) ;;
  zoom on_it release.

Definition iunlockput (ip : nat) : M (fst D) unit := iunlock (Some ip) ;; iput ip.

Definition ireclaim (dev : Z) : M (fst D) unit :=
  do s <- get;
  each (seqZ 1 (sb_ninodes (f_sb s) - 1)) (λ inum,
    do s <- get;
    do bp <- fbread dev (IBLOCK inum (f_sb s));
    do d <- fdata bp;
    let dip := get_dinode (inum `mod` IPB) d in
    do ip <- (if negb (d_type dip =? 0) && (d_nlink dip =? 0)
              then do i <- iget dev inum; ret (Some i) else ret None);
    fbrelse bp ;;
    match ip with
    | Some i =>
        zoom on_l begin_op ;;
        ilock (Some i) ;;
        iunlock (Some i) ;;
        iput i ;;
        zoom on_l end_op
    | None => ret tt
    end).

Definition fsinit (dev : Z) : M (fst D) unit :=
  readsb dev ;;
  do s <- get;
  if negb (sb_magic (f_sb s) =? FSMAGIC) then panic "invalid file system"
  else
    zoom on_l (initlog dev (sb_logstart (f_sb s))) ;;
    ireclaim dev.

(** struct stat *)
Record stat : Type := Stat { st_dev : Z; st_ino : Z; st_type : Z; st_nlink : Z; st_size : Z }.
Definition stati (ip : nat) : M (fst D) stat :=
  gets (λ s, let n := ino ip s in
             Stat (i32 (i_dev n)) (i_inum n) (d_type (i_d n)) (d_nlink (i_d n)) (d_size (i_d n))).

(** ** Reading and writing *)

(** proc.c: either_copyout(user_dst, dst, src, len), either_copyin(dst, user_src, src, len) *)
Definition my_pagetable : M (fst D) Z :=
  do p <- zoom on_fp me; gets (λ s, p_pgtbl (p_priv (procs (f_p s) !!! p))).
Definition either_copyout (user_dst dst src len : Z) : M (fst D) Z :=
  if negb (user_dst =? 0) then do pt <- my_pagetable; zoom on_vst (copyout end_ pt dst src len)
  else zoom on_mem (memmove dst src len) ;; ret 0.
Definition either_copyin (dst user_src src len : Z) : M (fst D) Z :=
  if negb (user_src =? 0) then do pt <- my_pagetable; zoom on_vst (copyin end_ pt dst src len)
  else zoom on_mem (memmove dst src len) ;; ret 0.

(** Copies between memory and b->data + o. *)
Definition mirror (bp : nat) : M (fst D) unit :=
  do d <- fdata bp; zoom on_mem (modify (λ m, wrs m (buf_addr bp) d)).
Definition copyout_buf (user_dst dst : Z) (bp : nat) (o len : Z) : M (fst D) Z :=
  mirror bp ;; either_copyout user_dst dst (buf_addr bp + o) len.
Definition copyin_buf (bp : nat) (o user_src src len : Z) : M (fst D) Z :=
  mirror bp ;;
  do r <- either_copyin (buf_addr bp + o) user_src src len;
  do m <- gets (λ s, km_mem (f_km s));
  fset bp (λ _, rds m (buf_addr bp) (Z.to_nat BSIZE)) ;;
  ret r.

(** Each iteration but the last reaches a block boundary, so n/BSIZE + 2
    iterations are enough; one more tests the condition. *)
Definition rw_fuel (n : Z) : nat := Z.to_nat (n `div` BSIZE) + 3.

Definition readi (ip : nat) (user_dst dst off n : Z) : M (fst D) Z :=
  do s <- get;
  let size := d_size (i_d (ino ip s)) in
  if (size <? off) || (u32 (off + n) <? off) then ret 0
  else
    let n := if size <? u32 (off + n) then u32 (size - off) else n in
    loop (rw_fuel n)
      (λ '(tot, off, dst),
         if negb (tot <? n) then ret (inr (i32 tot))
         else
           do addr <- bmap ip (off `div` BSIZE);
           if addr =? 0 then ret (inr (i32 tot))
           else
             do s <- get;
             do bp <- fbread (i_dev (ino ip s)) addr;
             let m := Z.min (n - tot) (BSIZE - off `mod` BSIZE) in
             do r <- copyout_buf user_dst dst bp (off `mod` BSIZE) m;
             fbrelse bp ;;
             if r =? -1 then ret (inr (-1))
             else ret (inl (tot + m, u32 (off + m), u64 (dst + m))))
      (0, off, dst).

(** The loop of writei returns [tot] and [off]. *)
Definition writei_loop (ip : nat) (user_src src off n : Z) : M (fst D) (Z * Z) :=
  loop (rw_fuel n)
    (λ '(tot, off, src),
       if negb (tot <? n) then ret (inr (tot, off))
       else
         do addr <- bmap ip (off `div` BSIZE);
         if addr =? 0 then ret (inr (tot, off))
         else
           do s <- get;
           do bp <- fbread (i_dev (ino ip s)) addr;
           let m := Z.min (n - tot) (BSIZE - off `mod` BSIZE) in
           do r <- copyin_buf bp (off `mod` BSIZE) user_src src m;
           if r =? -1 then fbrelse bp ;; ret (inr (tot, off))
           else
             flog_write bp ;;
             fbrelse bp ;;
             ret (inl (tot + m, u32 (off + m), u64 (src + m))))
    (0, off, src).

Definition writei (ip : nat) (user_src src off n : Z) : M (fst D) Z :=
  do s <- get;
  let size := d_size (i_d (ino ip s)) in
  if (size <? off) || (u32 (off + n) <? off) then ret (-1)
  else if MAXFILE * BSIZE <? u32 (off + n) then ret (-1)
  else
    do r <- writei_loop ip user_src src off n;
    do s <- get;
    when (d_size (i_d (ino ip s)) <? r.2) (set_ino ip (with_d (with_size r.2))) ;;
    iupdate ip ;;
    ret (i32 r.1).
End fs.
