(* ===== verification/Virtio.v ===== *)
(** * kernel/virtio_disk.c: the disk driver

    disk.desc, disk.avail and disk.used are pages shared with the device; their
    contents are the fields of [vdisk], their addresses [vd_pages]. A [struct buf *]
    is an index of the buffer cache; [vi_bdisk] holds the b->disk fields. The
    addresses of disk.ops, disk.info and of the buffers' data are arguments, as is
    b->blockno. *)
From S2P Require Import Prelude Memory KString Riscv Spinlock Mmio Kalloc Vm Sched Sleeplock Disk Bio Log Fs.

(** ** virtio.h *)
Definition VIRTIO_MMIO_MAGIC_VALUE : Z := 0x000.
Definition VIRTIO_MMIO_VERSION : Z := 0x004.
Definition VIRTIO_MMIO_DEVICE_ID : Z := 0x008.
Definition VIRTIO_MMIO_VENDOR_ID : Z := 0x00c.
Definition VIRTIO_MMIO_DEVICE_FEATURES : Z := 0x010.
Definition VIRTIO_MMIO_DRIVER_FEATURES : Z := 0x020.
Definition VIRTIO_MMIO_QUEUE_SEL : Z := 0x030.
Definition VIRTIO_MMIO_QUEUE_NUM_MAX : Z := 0x034.
Definition VIRTIO_MMIO_QUEUE_NUM : Z := 0x038.
Definition VIRTIO_MMIO_QUEUE_READY : Z := 0x044.
Definition VIRTIO_MMIO_QUEUE_NOTIFY : Z := 0x050.
Definition VIRTIO_MMIO_INTERRUPT_STATUS : Z := 0x060.
Definition VIRTIO_MMIO_INTERRUPT_ACK : Z := 0x064.
Definition VIRTIO_MMIO_STATUS : Z := 0x070.
Definition VIRTIO_MMIO_QUEUE_DESC_LOW : Z := 0x080.
Definition VIRTIO_MMIO_QUEUE_DESC_HIGH : Z := 0x084.
Definition VIRTIO_MMIO_DRIVER_DESC_LOW : Z := 0x090.
Definition VIRTIO_MMIO_DRIVER_DESC_HIGH : Z := 0x094.
Definition VIRTIO_MMIO_DEVICE_DESC_LOW : Z := 0x0a0.
Definition VIRTIO_MMIO_DEVICE_DESC_HIGH : Z := 0x0a4.
Definition VIRTIO_CONFIG_S_ACKNOWLEDGE : Z := 1.
Definition VIRTIO_CONFIG_S_DRIVER : Z := 2.
Definition VIRTIO_CONFIG_S_DRIVER_OK : Z := 4.
Definition VIRTIO_CONFIG_S_FEATURES_OK : Z := 8.
Definition VIRTIO_BLK_F_RO : Z := 5.
Definition VIRTIO_BLK_F_SCSI : Z := 7.
Definition VIRTIO_BLK_F_CONFIG_WCE : Z := 11.
Definition VIRTIO_BLK_F_MQ : Z := 12.
Definition VIRTIO_F_ANY_LAYOUT : Z := 27.
Definition VIRTIO_RING_F_INDIRECT_DESC : Z := 28.
Definition VIRTIO_RING_F_EVENT_IDX : Z := 29.
Definition NUM : Z := 8.
Definition VRING_DESC_F_NEXT : Z := 1.
Definition VRING_DESC_F_WRITE : Z := 2.
Definition VIRTIO_BLK_T_IN : Z := 0.
Definition VIRTIO_BLK_T_OUT : Z := 1.

Record virtq_desc : Type := Desc { dd_addr : Z; dd_len : Z; dd_flags : Z; dd_next : Z }.
Definition desc0 : virtq_desc := Desc 0 0 0 0.
#[export] Instance desc_inhabited : Inhabited virtq_desc := populate desc0.
Record virtio_blk_req : Type := Req { rq_type : Z; rq_reserved : Z; rq_sector : Z }.
#[export] Instance req_inhabited : Inhabited virtio_blk_req := populate (Req 0 0 0).
Record vinfo : Type := Vinfo { in_b : option nat; in_status : Z }.
#[export] Instance vinfo_inhabited : Inhabited vinfo := populate (Vinfo None 0).

Record vdisk : Type := Vdisk {
  vd_pages : Z * Z * Z;        (* disk.desc, disk.avail, disk.used *)
  vd_desc : list virtq_desc;
  vd_avail_idx : Z;
  vd_avail : list Z;
  vd_uidx : Z;                 (* disk.used->idx *)
  vd_used : list Z;            (* disk.used->ring[].id *)
  vd_free : list Z;
  vd_used_idx : Z;             (* disk.used_idx *)
  vd_info : list vinfo;
  vd_ops : list virtio_blk_req;
  vd_lock : spinlock
}.

Record vio : Type := Vio {
  vi_p : pst;
  vi_km : kmem;
  vi_d : vdisk;
  vi_bdisk : list Z;
  vi_reg : mmio
}.

Section virtio.
Context (ops_addr info_addr : Z) (buf_addr : nat → Z) (blockno : nat → Z).
Implicit Types s : vio.

Definition on_vd : lens vio vdisk := Lens vi_d (λ d s, Vio (vi_p s) (vi_km s) d (vi_bdisk s) (vi_reg s)).
Definition on_vip : lens vio pst := Lens vi_p (λ p s, Vio p (vi_km s) (vi_d s) (vi_bdisk s) (vi_reg s)).
Definition on_vreg : lens vio mmio := Lens vi_reg (λ r s, Vio (vi_p s) (vi_km s) (vi_d s) (vi_bdisk s) r).
Definition on_vk : lens vio kst :=
  Lens (λ s, Kst (p_hart (vi_p s)) (km_lock (vi_km s)) (km_free (vi_km s)) (km_mem (vi_km s)))
       (λ k s, Vio (Pst (k_hart k) (procs (vi_p s))) (Kmem (k_lock k) (freelist k) (k_mem k)) (vi_d s) (vi_bdisk s) (vi_reg s)).
Definition with_vlock (l : spinlock) (d : vdisk) : vdisk :=
  Vdisk (vd_pages d) (vd_desc d) (vd_avail_idx d) (vd_avail d) (vd_uidx d) (vd_used d) (vd_free d) (vd_used_idx d)
    (vd_info d) (vd_ops d) l.
Definition on_vlk : lens vio lockst :=
  Lens (λ s, (p_hart (vi_p s), vd_lock (vi_d s)))
       (λ t s, Vio (Pst t.1 (procs (vi_p s))) (vi_km s) (with_vlock t.2 (vi_d s)) (vi_bdisk s) (vi_reg s)).
Definition on_vslst : lens vio slst :=
  Lens (λ s, (vi_p s, vd_lock (vi_d s)))
       (λ t s, Vio t.1 (vi_km s) (with_vlock t.2 (vi_d s)) (vi_bdisk s) (vi_reg s)).

(** Assignments to the fields of disk. *)
Definition set_pages (p : Z * Z * Z) : M vdisk unit := modify (λ d,
  Vdisk p (vd_desc d) (vd_avail_idx d) (vd_avail d) (vd_uidx d) (vd_used d) (vd_free d) (vd_used_idx d) (vd_info d) (vd_ops d) (vd_lock d)).
Definition set_desc (i : nat) (f : virtq_desc → virtq_desc) : M vdisk unit := modify (λ d,
  Vdisk (vd_pages d) (alter f i (vd_desc d)) (vd_avail_idx d) (vd_avail d) (vd_uidx d) (vd_used d) (vd_free d) (vd_used_idx d) (vd_info d) (vd_ops d) (vd_lock d)).
Definition set_free (i : nat) (v : Z) : M vdisk unit := modify (λ d,
  Vdisk (vd_pages d) (vd_desc d) (vd_avail_idx d) (vd_avail d) (vd_uidx d) (vd_used d) (<[i := v]> (vd_free d)) (vd_used_idx d) (vd_info d) (vd_ops d) (vd_lock d)).
Definition set_info (i : nat) (f : vinfo → vinfo) : M vdisk unit := modify (λ d,
  Vdisk (vd_pages d) (vd_desc d) (vd_avail_idx d) (vd_avail d) (vd_uidx d) (vd_used d) (vd_free d) (vd_used_idx d) (alter f i (vd_info d)) (vd_ops d) (vd_lock d)).
Definition set_op (i : nat) (r : virtio_blk_req) : M vdisk unit := modify (λ d,
  Vdisk (vd_pages d) (vd_desc d) (vd_avail_idx d) (vd_avail d) (vd_uidx d) (vd_used d) (vd_free d) (vd_used_idx d) (vd_info d) (<[i := r]> (vd_ops d)) (vd_lock d)).
Definition push_avail (i : Z) : M vdisk unit := modify (λ d,
  Vdisk (vd_pages d) (vd_desc d) (vd_avail_idx d) (<[Z.to_nat (vd_avail_idx d `mod` NUM) := i]> (vd_avail d)) (vd_uidx d) (vd_used d) (vd_free d) (vd_used_idx d) (vd_info d) (vd_ops d) (vd_lock d)).
Definition inc_avail : M vdisk unit := modify (λ d,
  Vdisk (vd_pages d) (vd_desc d) (u16 (vd_avail_idx d + 1)) (vd_avail d) (vd_uidx d) (vd_used d) (vd_free d) (vd_used_idx d) (vd_info d) (vd_ops d) (vd_lock d)).
Definition inc_used : M vdisk unit := modify (λ d,
  Vdisk (vd_pages d) (vd_desc d) (vd_avail_idx d) (vd_avail d) (vd_uidx d) (vd_used d) (vd_free d) (u16 (vd_used_idx d + 1)) (vd_info d) (vd_ops d) (vd_lock d)).
Definition set_bdisk (b : nat) (v : Z) : M vio unit :=
  modify (λ s, Vio (vi_p s) (vi_km s) (vi_d s) (<[b := v]> (vi_bdisk s)) (vi_reg s)).

Definition dslots : list nat := seq 0 (Z.to_nat NUM).

(** ** Initialisation *)
Definition rreg (r : Z) : M vio Z := do v <- zoom on_vreg (mmio_read (VIRTIO0 + r)); ret (u32 v).
Definition wreg (r v : Z) : M vio unit := zoom on_vreg (mmio_write (VIRTIO0 + r) (u32 v)).

(** [*R(r) != v ||] the rest of the condition. *)
Definition differs (r v : Z) (k : M vio bool) : M vio bool :=
  do x <- rreg r; if negb (x =? v) then ret true else k.
Definition drop_feature (f b : Z) : Z := Z.land f (Z.lnot (Z.shiftl 1 b)).

Definition virtio_disk_init : M vio unit :=
  zoom on_vlk (initlock "virtio_disk") ;;
  do bad <- differs VIRTIO_MMIO_MAGIC_VALUE 0x74726976
              (differs VIRTIO_MMIO_VERSION 2
                (differs VIRTIO_MMIO_DEVICE_ID 2
                  (differs VIRTIO_MMIO_VENDOR_ID 0x554d4551 (ret false))));
  if bad : bool then panic "could not find virtio disk"
  else
    wreg VIRTIO_MMIO_STATUS 0 ;;
    let status := VIRTIO_CONFIG_S_ACKNOWLEDGE in
    wreg VIRTIO_MMIO_STATUS status ;;
    let status := Z.lor status VIRTIO_CONFIG_S_DRIVER in
    wreg VIRTIO_MMIO_STATUS status ;;
    do features <- rreg VIRTIO_MMIO_DEVICE_FEATURES;
    let features := drop_feature features VIRTIO_BLK_F_RO in
    let features := drop_feature features VIRTIO_BLK_F_SCSI in
    let features := drop_feature features VIRTIO_BLK_F_CONFIG_WCE in
    let features := drop_feature features VIRTIO_BLK_F_MQ in
    let features := drop_feature features VIRTIO_F_ANY_LAYOUT in
    let features := drop_feature features VIRTIO_RING_F_EVENT_IDX in
    let features := drop_feature features VIRTIO_RING_F_INDIRECT_DESC in
    wreg VIRTIO_MMIO_DRIVER_FEATURES features ;;
    let status := Z.lor status VIRTIO_CONFIG_S_FEATURES_OK in
    wreg VIRTIO_MMIO_STATUS status ;;
    do status <- rreg VIRTIO_MMIO_STATUS;
    if negb (has status VIRTIO_CONFIG_S_FEATURES_OK) then panic "virtio disk FEATURES_OK unset"
    else
      wreg VIRTIO_MMIO_QUEUE_SEL 0 ;;
      do rdy <- rreg VIRTIO_MMIO_QUEUE_READY;
      if negb (rdy =? 0) then panic "virtio disk should not be ready"
      else
        do max <- rreg VIRTIO_MMIO_QUEUE_NUM_MAX;
        if max =? 0 then panic "virtio disk has no queue 0"
        else if max <? NUM then panic "virtio disk max queue too short"
        else
          do desc <- zoom on_vk kalloc;
          do avail <- zoom on_vk kalloc;
          do used <- zoom on_vk kalloc;
          zoom on_vd (set_pages (desc, avail, used)) ;;
          if (desc =? 0) || (avail =? 0) || (used =? 0) then panic "virtio disk kalloc"
          else
            zoom on_vk (zoom kmem_mem (memset desc 0 PGSIZE)) ;;
            zoom on_vk (zoom kmem_mem (memset avail 0 PGSIZE)) ;;
            zoom on_vk (zoom kmem_mem (memset used 0 PGSIZE)) ;;
            zoom on_vd (modify (λ d, Vdisk (vd_pages d) (replicate (Z.to_nat NUM) desc0) 0 (replicate (Z.to_nat NUM) 0)
                                       0 (replicate (Z.to_nat NUM) 0) (vd_free d) (vd_used_idx d) (vd_info d) (vd_ops d) (vd_lock d))) ;;
            wreg VIRTIO_MMIO_QUEUE_NUM NUM ;;
            wreg VIRTIO_MMIO_QUEUE_DESC_LOW desc ;;
            wreg VIRTIO_MMIO_QUEUE_DESC_HIGH (Z.shiftr desc 32) ;;
            wreg VIRTIO_MMIO_DRIVER_DESC_LOW avail ;;
            wreg VIRTIO_MMIO_DRIVER_DESC_HIGH (Z.shiftr avail 32) ;;
            wreg VIRTIO_MMIO_DEVICE_DESC_LOW used ;;
            wreg VIRTIO_MMIO_DEVICE_DESC_HIGH (Z.shiftr used 32) ;;
            wreg VIRTIO_MMIO_QUEUE_READY 0x1 ;;
            each dslots (λ i, zoom on_vd (set_free i 1)) ;;
            let status := Z.lor status VIRTIO_CONFIG_S_DRIVER_OK in
            wreg VIRTIO_MMIO_STATUS status.

(** ** Descriptors *)
Definition alloc_desc : M vio (option nat) :=
  do s <- get;
  match List.find (λ i, negb (vd_free (vi_d s) !!! i =? 0)) dslots with
  | Some i => zoom on_vd (set_free i 0) ;; ret (Some i)
  | None => ret None
  end.

Definition free_desc (i : nat) : M vio unit :=
  if (Z.to_nat NUM <=? i)%nat then panic "free_desc 1"
  else
    do s <- get;
    if negb (vd_free (vi_d s) !!! i =? 0) then panic "free_desc 2"
    else
      zoom on_vd (set_desc i (λ _, desc0)) ;;
      zoom on_vd (set_free i 1) ;;
      zoom on_vip (wakeup ChDiskFree).

(** A chain has at most NUM descriptors: each is marked free once. *)
Definition free_chain (i : nat) : M vio unit :=
  loop (S (Z.to_nat NUM)) (λ i,
    do s <- get;
    let flag := dd_flags (vd_desc (vi_d s) !!! i) in
    let nxt := dd_next (vd_desc (vi_d s) !!! i) in
    free_desc i ;;
    ret (if has flag VRING_DESC_F_NEXT then inl (Z.to_nat nxt) else inr tt)) i.

(** The three indices, None for -1. *)
Definition alloc3_desc : M vio (option (nat * nat * nat)) :=
  do r0 <- alloc_desc;
  match r0 with
  | None => ret None
  | Some i0 =>
      do r1 <- alloc_desc;
      match r1 with
      | None => free_desc i0 ;; ret None
      | Some i1 =>
          do r2 <- alloc_desc;
          match r2 with
          | None => free_desc i0 ;; free_desc i1 ;; ret None
          | Some i2 => ret (Some (i0, i1, i2))
          end
      end
  end.

(** ** Requests *)

(** The three descriptors of a request and the entry of the avail ring. *)
Definition format_request (b : nat) (write : bool) (i0 i1 i2 : nat) : M vio unit :=
  let sector := u32 (blockno b * (BSIZE `div` 512)) in
  zoom on_vd (set_op i0 (Req (if write then VIRTIO_BLK_T_OUT else VIRTIO_BLK_T_IN) 0 sector)) ;;
  zoom on_vd (set_desc i0 (λ _, Desc (ops_addr + 16 * Z.of_nat i0) 16 VRING_DESC_F_NEXT (Z.of_nat i1))) ;;
  zoom on_vd (set_desc i1 (λ _, Desc (buf_addr b) BSIZE
    (Z.lor (if write then 0 else VRING_DESC_F_WRITE) VRING_DESC_F_NEXT) (Z.of_nat i2))) ;;
  zoom on_vd (set_info i0 (λ n, Vinfo (in_b n) 0xff)) ;;
  zoom on_vd (set_desc i2 (λ _, Desc (info_addr + 16 * Z.of_nat i0 + 8) 1 VRING_DESC_F_WRITE 0)) ;;
  set_bdisk b 1 ;;
  zoom on_vd (set_info i0 (λ n, Vinfo (Some b) (in_status n))) ;;
  zoom on_vd (push_avail (Z.of_nat i0)) ;;
  zoom on_vd inc_avail ;;
  wreg VIRTIO_MMIO_QUEUE_NOTIFY 0.

(** virtio_disk_rw up to its wait for the interrupt; a call of sleep leaves the
    thread, so that the loop runs at most once more: fuel 2. *)
Definition virtio_submit (b : nat) (write : bool) : M vio nat :=
  zoom on_vlk acquire ;;
  do idx <- loop 2 (λ _,
    do r <- alloc3_desc;
    match r with
    | Some idx => ret (inr idx)
    | None => zoom on_vslst (sleep ChDiskFree) ;; ret (inl tt)
    end) tt;
  let '(i0, i1, i2) := idx in
  format_request b write i0 i1 i2 ;;
  ret i0.

(** virtio_disk_rw after the wait. *)
Definition virtio_finish (i0 : nat) : M vio unit :=
  zoom on_vd (set_info i0 (λ n, Vinfo None (in_status n))) ;;
  free_chain i0 ;;
  zoom on_vlk release.

(** while(b->disk == 1) sleep(b, &disk.vdisk_lock), and what follows it. *)
Definition virtio_wait (b i0 : nat) : M vio unit :=
  while_sleep (gets (λ s, vi_bdisk s !!! b =? 1)) (zoom on_vslst (sleep (ChBuf b))) ;;
  virtio_finish i0.

Definition virtio_disk_rw (b : nat) (write : bool) : M vio unit :=
  do i0 <- virtio_submit b write;
  virtio_wait b i0.

(** virtio_disk_rw of process [p] from where its sleep on [b] is back from sched:
    the rest of sleep, then the test of the loop again. *)
Definition virtio_resume (p b i0 : nat) : M vio unit :=
  zoom on_vslst (sleep_resume p) ;;
  virtio_wait b i0.

(** One completion per entry of the used ring that has not been looked at. *)
Definition virtio_disk_intr : M vio unit :=
  zoom on_vlk acquire ;;
  do st <- rreg VIRTIO_MMIO_INTERRUPT_STATUS;
  wreg VIRTIO_MMIO_INTERRUPT_ACK (Z.land st 0x3) ;;
  loop (Z.to_nat (2 ^ 16)) (λ _,
    do s <- get;
    let d := vi_d s in
    if vd_used_idx d =? vd_uidx d then ret (inr tt)
    else
      let id := Z.to_nat (vd_used d !!! Z.to_nat (vd_used_idx d `mod` NUM)) in
      if negb (in_status (vd_info d !!! id) =? 0) then panic "virtio_disk_intr status"
      else
        do b <- of_option (in_b (vd_info d !!! id));
        set_bdisk b 0 ;;
        zoom on_vip (wakeup (ChBuf b)) ;;
        zoom on_vd inc_used ;;
        ret (inl tt)) tt ;;
  zoom on_vlk release.
End virtio.
