(* ===== verification/VirtioProps.v ===== *)
(** * The disk driver's requests (kernel/virtio_disk.c)

    The descriptors of the driver are free or belong to one request each; a request
    goes from virtio_disk_rw to the device, comes back through virtio_disk_intr and
    gives its descriptors back when virtio_disk_rw is resumed. The device's side is
    [device], what section 2.7 (split virtqueues) and section 5.2 (block device) of the
    virtio specification say a device does with the memory it shares with the driver:
    it works from that memory alone. *)
From S2P Require Import Prelude Memory KString Riscv Spinlock Mmio Kalloc Vm Sched Sleeplock Disk Bio Log Fs Virtio.

(** ** The free descriptors *)
Definition is_free (l : list Z) (i : nat) : Prop := l !!! i ≠ 0.
#[export] Instance is_free_dec l i : Decision (is_free l i).
Proof. unfold is_free. apply _. Defined.
Definition free_descs (l : list Z) : list nat := filter (is_free l) dslots.

Record vd_ok (d : vdisk) : Prop := {
  vo_desc : length (vd_desc d) = 8%nat;
  vo_avail : length (vd_avail d) = 8%nat;
  vo_used : length (vd_used d) = 8%nat;
  vo_free : length (vd_free d) = 8%nat;
  vo_info : length (vd_info d) = 8%nat;
  vo_ops : length (vd_ops d) = 8%nat;
  vo_bit : Forall (λ v, v = 0 ∨ v = 1) (vd_free d)
}.

Lemma find_filter l k : List.find (λ i, negb (l !!! i =? 0)) k = head (filter (is_free l) k).
Proof.
  induction k as [|i k IH]; cbn [List.find]; [done|]. rewrite filter_cons. unfold is_free at 1.
  destruct (Z.eqb_spec (l !!! i) 0); cbn [negb]; [rewrite decide_False by (intros H; by apply H); apply IH|by rewrite decide_True].
Qed.

Lemma free_descs_NoDup l : NoDup (free_descs l).
Proof. apply NoDup_filter, NoDup_seq. Qed.

Lemma elem_of_free_descs l i : i ∈ free_descs l ↔ (i < 8)%nat ∧ l !!! i ≠ 0.
Proof. unfold free_descs. rewrite list_elem_of_filter. unfold dslots. rewrite elem_of_seq. change (Z.to_nat NUM) with 8%nat. unfold is_free. split; intros [? ?]; split; done || lia. Qed.

(** Taking the first free descriptor leaves the others. *)
Lemma free_descs_take l i k : length l = 8%nat → free_descs l = i :: k → free_descs (<[i := 0]> l) = k.
Proof.
  intros Hl E. pose proof (free_descs_NoDup l) as Hn. rewrite E in Hn. apply NoDup_cons in Hn as [Hi Hn].
  assert (i < 8)%nat as Hi8 by (apply (elem_of_free_descs l); rewrite E; by left).
  transitivity (filter (λ j, j ≠ i) (free_descs l)).
  - unfold free_descs. rewrite list_filter_filter. apply list_filter_iff. intros j. unfold is_free.
    destruct (decide (j = i)) as [->|Hne].
    + rewrite list_lookup_total_insert_eq by lia. tauto.
    + rewrite list_lookup_total_insert_ne by done. tauto.
  - rewrite E, filter_cons, decide_False by tauto. clear - Hi.
    induction k as [|j k IH]; [done|]. rewrite filter_cons, decide_True by (intros ->; apply Hi; by left).
    f_equal. apply IH. intros Hin. apply Hi. by right.
Qed.

Section virtio.
Context (ops_addr info_addr : Z) (buf_addr : nat → Z) (blockno : nat → Z).
Implicit Types (s : vio) (d : vdisk).

Definition with_free (l : list Z) d : vdisk :=
  Vdisk (vd_pages d) (vd_desc d) (vd_avail_idx d) (vd_avail d) (vd_uidx d) (vd_used d) l (vd_used_idx d) (vd_info d) (vd_ops d) (vd_lock d).
Definition with_desc (l : list virtq_desc) d : vdisk :=
  Vdisk (vd_pages d) l (vd_avail_idx d) (vd_avail d) (vd_uidx d) (vd_used d) (vd_free d) (vd_used_idx d) (vd_info d) (vd_ops d) (vd_lock d).

Lemma alloc_desc_run s : alloc_desc s =
  match free_descs (vd_free (vi_d s)) with
  | [] => Ok None s
  | i :: _ => Ok (Some i) (over on_vd (with_free (<[i := 0]> (vd_free (vi_d s))) (vi_d s)) s)
  end.
Proof.
  unfold alloc_desc, bind, get. rewrite find_filter. fold (free_descs (vd_free (vi_d s))). by destruct (free_descs _).
Qed.

(** The driver's part of the state and the wakeups that accompany a free. *)
Record freed s (l : list Z) (dl : list virtq_desc) s' : Prop := {
  fr_d : vi_d s' = with_desc dl (with_free l (vi_d s));
  fr_hart : p_hart (vi_p s') = sync (p_hart (vi_p s));
  fr_same : pst_same (vi_p s) (vi_p s');
  fr_rest : vi_bdisk s' = vi_bdisk s ∧ vi_km s' = vi_km s ∧ vi_reg s' = vi_reg s
}.

Lemma free_desc_run s i : pst_ok (vi_p s) → vd_ok (vi_d s) → (i < 8)%nat → vd_free (vi_d s) !!! i = 0 →
  wp (free_desc i) (λ _ s', freed s (<[i := 1]> (vd_free (vi_d s))) (<[i := desc0]> (vd_desc (vi_d s))) s') s.
Proof.
  intros Hp Hd Hi Hf. unfold free_desc, set_desc, set_free. change (Z.to_nat NUM) with 8%nat. rewrite (proj2 (Nat.leb_gt 8 i)) by done.
  wp_step. wp_step. rewrite Hf. cbn [Z.eqb negb]. wp_step. wp_step. wp_step. wp_step. wp_step. wp_step. wp_step.
  eapply wp_mono; [apply wp_and; [by apply wakeup_run|by apply wakeup_same]|]. intros [] p [[H1 _] H2].
  split; cbn; [|done|done|done].
  assert (alter (λ _, desc0) i (vd_desc (vi_d s)) = <[i := desc0]> (vd_desc (vi_d s))) as ->; [|done].
  destruct (lookup_lt_is_Some_2 (vd_desc (vi_d s)) i) as [x Hx]; [by rewrite vo_desc|]. by apply (list_alter_at _ _ _ x).
Qed.

Lemma with_free_ok l d : vd_ok d → length l = 8%nat → Forall (λ v, v = 0 ∨ v = 1) l → vd_ok (with_free l d).
Proof. intros []. by split. Qed.
Lemma with_desc_ok l d : vd_ok d → length l = 8%nat → vd_ok (with_desc l d).
Proof. intros []. by split. Qed.

Lemma take_ok i d : vd_ok d → vd_ok (with_free (<[i := 0]> (vd_free d)) d).
Proof. intros H. apply with_free_ok; [done|rewrite length_insert; apply H|]. apply Forall_insert; [apply H|by left]. Qed.

Lemma freed_ok s l dl s' : vd_ok (vi_d s) → length l = 8%nat → Forall (λ v, v = 0 ∨ v = 1) l → length dl = 8%nat →
  freed s l dl s' → vd_ok (vi_d s').
Proof. intros Hd Hl Hb Hdl [-> _ _ _]. apply with_desc_ok; [by apply with_free_ok|done]. Qed.

Lemma free_bit d i : vd_ok d → i ∈ free_descs (vd_free d) → vd_free d !! i = Some 1 ∧ (i < 8)%nat.
Proof.
  intros Hd [Hi Hne]%elem_of_free_descs. destruct (lookup_lt_is_Some_2 (vd_free d) i) as [v Hv]; [by rewrite vo_free|].
  rewrite (list_lookup_total_correct _ _ _ Hv) in Hne. destruct (proj1 (Forall_lookup _ _) (vo_bit _ Hd) i v Hv) as [->| ->]; [done|by split].
Qed.

(** What a failed alloc3_desc leaves: the same descriptors are free. *)
Record untaken s s' : Prop := {
  un_d : ∃ dl, vi_d s' = with_desc dl (vi_d s) ∧ length dl = 8%nat ∧ (∀ i, vd_free (vi_d s) !!! i = 0 → dl !! i = vd_desc (vi_d s) !! i);
  un_hart : p_hart (vi_p s') = p_hart (vi_p s) ∨ p_hart (vi_p s') = sync (p_hart (vi_p s));
  un_same : pst_same (vi_p s) (vi_p s');
  un_rest : vi_bdisk s' = vi_bdisk s ∧ vi_km s' = vi_km s ∧ vi_reg s' = vi_reg s
}.

Lemma alloc3_ok s : pst_ok (vi_p s) → vd_ok (vi_d s) →
  wp alloc3_desc (λ r s', match r with
    | Some (i0, i1, i2) => ∃ k, free_descs (vd_free (vi_d s)) = i0 :: i1 :: i2 :: k ∧
        s' = over on_vd (with_free (<[i2 := 0]> (<[i1 := 0]> (<[i0 := 0]> (vd_free (vi_d s))))) (vi_d s)) s
    | None => (length (free_descs (vd_free (vi_d s))) < 3)%nat ∧ untaken s s'
    end) s.
Proof.
  intros Hp Hd. set (F := vd_free (vi_d s)). assert (length F = 8%nat) as HF by apply Hd. unfold alloc3_desc.
  wp_step. unfold wp at 1. rewrite alloc_desc_run. fold F. destruct (free_descs F) as [|a k1] eqn:E1; cbn iota beta.
  { wp_step. split; [cbn; lia|]. split; [|by left|apply pst_same_refl|done].
    exists (vd_desc (vi_d s)). split_and!; [by destruct (vi_d s)|apply Hd|done]. }
  pose proof (free_descs_take F a k1 HF E1) as E1'.
  assert (F !! a = Some 1 ∧ (a < 8)%nat) as [Ha Ha8] by (apply free_bit; [done|fold F; rewrite E1; by left]).
  set (s1 := over on_vd _ s). assert (vd_ok (vi_d s1)) as Hd1 by (by apply take_ok).
  wp_step. unfold wp at 1. rewrite alloc_desc_run. change (vd_free (vi_d s1)) with (<[a := 0]> F). rewrite E1'.
  destruct k1 as [|b k2]; cbn iota beta.
  { wp_step. eapply wp_mono; [apply (free_desc_run s1 a Hp Hd1 Ha8)|].
    { change (vd_free (vi_d s1)) with (<[a := 0]> F). apply list_lookup_total_insert_eq. lia. }
    intros [] s2 [R1 R2 R3 (R4 & R5 & R6)]. wp_step. split; [cbn; lia|].
    change (vd_free (vi_d s1)) with (<[a := 0]> F) in R1. rewrite list_insert_insert_eq, (list_insert_id F a 1 Ha) in R1.
    split; [|by right|done|done]. eexists. split; [rewrite R1; by destruct (vi_d s)|]. split; [cbn; rewrite length_insert; apply Hd|].
    intros i Hi. cbn. apply list_lookup_insert_ne. intros ->. fold F in Hi. rewrite (list_lookup_total_correct _ _ _ Ha) in Hi. done. }
  pose proof (free_descs_take (<[a := 0]> F) b k2 ltac:(by rewrite length_insert) E1') as E2'.
  assert ((<[a := 0]> F) !! b = Some 1 ∧ (b < 8)%nat) as [Hb Hb8] by (apply (free_bit (vi_d s1)); [done|cbn; rewrite E1'; by left]).
  assert (a ≠ b) as Hab by (intros ->; rewrite list_lookup_insert_eq in Hb by lia; done).
  set (s2 := over on_vd _ s1). assert (vd_ok (vi_d s2)) as Hd2 by (by apply (take_ok b (vi_d s1))).
  wp_step. unfold wp at 1. rewrite alloc_desc_run. change (vd_free (vi_d s2)) with (<[b := 0]> (<[a := 0]> F)). rewrite E2'.
  destruct k2 as [|c k3]; cbn iota beta.
  2: { wp_step. exists k3. split; [done|]. by destruct s. }
  wp_step. eapply wp_mono; [apply (free_desc_run s2 a Hp Hd2 Ha8)|].
  { change (vd_free (vi_d s2)) with (<[b := 0]> (<[a := 0]> F)). rewrite list_lookup_total_insert_ne by done. apply list_lookup_total_insert_eq. lia. }
  intros [] s3 R. assert (vd_ok (vi_d s3)) as Hd3.
  { eapply freed_ok; [exact Hd2| | | |exact R]; rewrite ?length_insert; [apply Hd2| |apply Hd2]. apply Forall_insert; [apply Hd2|by right]. }
  destruct R as [R1 R2 R3 (R4 & R5 & R6)]. wp_step.
  change (vd_free (vi_d s2)) with (<[b := 0]> (<[a := 0]> F)) in R1.
  rewrite (list_insert_insert_ne _ a b) in R1 by done. rewrite list_insert_insert_eq, (list_insert_id F a 1 Ha) in R1.
  assert (pst_ok (vi_p s3)) as Hp3 by (by eapply pst_same_ok; [exact Hp|]).
  eapply wp_mono; [apply (free_desc_run s3 b Hp3 Hd3 Hb8)|].
  { rewrite R1. cbn. apply list_lookup_total_insert_eq. lia. }
  intros [] s4 [Q1 Q2 Q3 (Q4 & Q5 & Q6)]. wp_step. split; [cbn; lia|].
  rewrite R1 in Q1. cbn in Q1. rewrite list_lookup_insert_ne in Hb by done.
  rewrite list_insert_insert_eq, (list_insert_id F b 1 Hb) in Q1.
  split.
  - exists (<[b := desc0]> (<[a := desc0]> (vd_desc (vi_d s)))). split; [rewrite Q1; reflexivity|]. split; [cbn; rewrite !length_insert; apply Hd|].
    intros i Hi. fold F in Hi. rewrite !list_lookup_insert_ne; [done|intros ->..];
      [rewrite (list_lookup_total_correct _ _ _ Ha) in Hi|rewrite (list_lookup_total_correct _ _ _ Hb) in Hi]; done.
  - right. rewrite Q2, R2. change (p_hart (vi_p s2)) with (p_hart (vi_p s)). apply sync_sync, Hp.
  - by eapply (pst_same_trans _ (vi_p s3)).
  - split_and!; [by rewrite Q4, R4|by rewrite Q5, R5|by rewrite Q6, R6].
Qed.

(** ** Submitting *)
(** disk after the request for [b] has been put on the avail ring. *)
Definition queued (b : nat) (write : bool) (i0 i1 i2 : nat) d : vdisk :=
  Vdisk (vd_pages d)
    (<[i2 := Desc (info_addr + 16 * Z.of_nat i0 + 8) 1 VRING_DESC_F_WRITE 0]>
      (<[i1 := Desc (buf_addr b) BSIZE (Z.lor (if write then 0 else VRING_DESC_F_WRITE) VRING_DESC_F_NEXT) (Z.of_nat i2)]>
        (<[i0 := Desc (ops_addr + 16 * Z.of_nat i0) 16 VRING_DESC_F_NEXT (Z.of_nat i1)]> (vd_desc d))))
    (u16 (vd_avail_idx d + 1)) (<[Z.to_nat (vd_avail_idx d `mod` NUM) := Z.of_nat i0]> (vd_avail d))
    (vd_uidx d) (vd_used d) (<[i2 := 0]> (<[i1 := 0]> (<[i0 := 0]> (vd_free d)))) (vd_used_idx d)
    (<[i0 := Vinfo (Some b) 0xff]> (vd_info d))
    (<[i0 := Req (if write then VIRTIO_BLK_T_OUT else VIRTIO_BLK_T_IN) 0 (u32 (blockno b * (BSIZE `div` 512)))]> (vd_ops d))
    (vd_lock d).

Lemma alter_at {A} `{!Inhabited A} (f : A → A) (l : list A) i : (i < length l)%nat → alter f i l = <[i := f (l !!! i)]> l.
Proof. intros Hi. destruct (lookup_lt_is_Some_2 l i Hi) as [x Hx]. rewrite (list_alter_at _ _ _ x Hx). by rewrite (list_lookup_total_correct _ _ _ Hx). Qed.

Lemma format_run s b w i0 i1 i2 : vd_ok (vi_d s) → (i0 < 8)%nat → (i1 < 8)%nat → (i2 < 8)%nat →
  format_request ops_addr info_addr buf_addr blockno b w i0 i1 i2
    (over on_vd (with_free (<[i2 := 0]> (<[i1 := 0]> (<[i0 := 0]> (vd_free (vi_d s))))) (vi_d s)) s) =
  Ok tt (Vio (vi_p s) (vi_km s) (queued b w i0 i1 i2 (vi_d s)) (<[b := 1]> (vi_bdisk s))
           (Mmio (mm_in (vi_reg s)) (mm_out (vi_reg s) ++ [(VIRTIO0 + VIRTIO_MMIO_QUEUE_NOTIFY, 0)]))).
Proof.
  intros [L1 L2 L3 L4 L5 L6 _] H0 H1 H2. destruct s as [p km [pg ds ai av ui us fr ux inf op lk] bd [ri ro]]. cbn in L1, L2, L3, L4, L5, L6.
  unfold format_request. do 9 (erewrite bind_Ok; [|cbn; reflexivity]). 
  rewrite !alter_at by (rewrite ?length_alter, ?length_insert; lia).
  rewrite list_lookup_total_insert_eq, list_insert_insert_eq by lia. reflexivity.
Qed.

Record vio_ok s : Prop := {
  vs_p : pst_ok (vi_p s);
  vs_d : vd_ok (vi_d s);
  vs_lock : lock_free (vd_lock (vi_d s))
}.

(** The process [q] in slot [p], as sleep(ch, ...) leaves it when it switches away. *)
Definition dozing (h : hart) (q : proc) (ch : chan) : proc :=
  Proc (held (p_lock q) (tp h)) (with_state SLEEPING (with_chan (Some ch) (p_pub q))) (p_parent q) (p_priv q).

(** disk.vdisk_lock taken. *)
Definition locked s : vio :=
  let h := p_hart (vi_p s) in
  over on_vlk (push h, held (vd_lock (vi_d s)) (tp h)) s.

Lemma locked_ok s : vio_ok s → pst_ok (vi_p (locked s)) ∧ vd_ok (vi_d (locked s)) ∧ zoom on_vlk acquire s = Ok tt (locked s).
Proof.
  intros [Hp Hd Hl]. split_and!.
  - split; [apply push_ok, Hp|apply Hp|apply Hp].
  - by destruct Hd.
  - by apply zoom_acquire; [|apply Hp|].
Qed.

Lemma doze_run s' h l lk p q ch :
  pst_ok (Pst h l) → cpu_proc (cur h) = Some p → l !! p = Some q → noff (cur h) = 0 → lock_free lk →
  vi_p s' = Pst (push h) l → vd_lock (vi_d s') = held lk (tp h) →
  zoom on_vslst (sleep ch) s' =
    Halt Slept (Vio (Pst (push h) (<[p := dozing h q ch]> l)) (vi_km s') (with_vlock lk (vi_d s')) (vi_bdisk s') (vi_reg s')).
Proof.
  intros Hp Hc Hq Hn Hl Ep Ed. pose proof (sleep_run (Pst h l) ch lk p q Hp Hc Hq Hl Hn) as E. cbn [p_hart procs] in E.
  assert (view on_vslst s' = (Pst (push h) l, held lk (tp h))) as Ev by (cbn; by rewrite Ep, Ed).
  rewrite <- Ev in E. by rewrite (zoom_Halt _ _ _ _ _ E).
Qed.

(** The state in which virtio_disk_rw has queued its request and holds the lock. *)
Definition submitted b w i0 i1 i2 s : vio :=
  Vio (vi_p (locked s)) (vi_km s) (queued b w i0 i1 i2 (vi_d (locked s))) (<[b := 1]> (vi_bdisk s))
    (Mmio (mm_in (vi_reg s)) (mm_out (vi_reg s) ++ [(VIRTIO0 + VIRTIO_MMIO_QUEUE_NOTIFY, 0)])).

Lemma submit_run s b w i0 i1 i2 k : vio_ok s → free_descs (vd_free (vi_d s)) = i0 :: i1 :: i2 :: k →
  virtio_submit ops_addr info_addr buf_addr blockno b w s = Ok i0 (submitted b w i0 i1 i2 s).
Proof.
  intros Hok Efl. destruct (locked_ok s Hok) as (Hp1 & Hd1 & E1).
  destruct (wp_Ok _ _ _ (alloc3_ok (locked s) Hp1 Hd1)) as (r & s2 & E2 & Hr).
  change (vd_free (vi_d (locked s))) with (vd_free (vi_d s)) in Hr. rewrite Efl in Hr.
  destruct r as [[[j0 j1] j2]|]; [|cbn in Hr; lia]. destruct Hr as (k' & [= <- <- <- <-] & ->).
  assert (∀ i, i ∈ i0 :: i1 :: i2 :: k → (i < 8)%nat) as H8 by (intros i Hi; apply (elem_of_free_descs (vd_free (vi_d s))); by rewrite Efl).
  unfold virtio_submit. rewrite (bind_Ok _ _ _ _ _ E1).
  erewrite bind_Ok; [|apply loop_leave; rewrite (bind_Ok _ _ _ _ _ E2); reflexivity]. cbn beta iota.
  erewrite bind_Ok; [|apply (format_run (locked s)); [done|apply H8..]; rewrite ?elem_of_cons; tauto]. reflexivity.
Qed.

Lemma queues_run s p q b w :
  vio_ok s → cpu_proc (cur (p_hart (vi_p s))) = Some p → procs (vi_p s) !! p = Some q →
  noff (cur (p_hart (vi_p s))) = 0 → (b < length (vi_bdisk s))%nat →
  let h := p_hart (vi_p s) in let fl := free_descs (vd_free (vi_d s)) in
  ((3 ≤ length fl)%nat → ∃ i0 i1 i2 k, fl = i0 :: i1 :: i2 :: k ∧
     virtio_disk_rw ops_addr info_addr buf_addr blockno b w s =
     Halt Slept (Vio (Pst (push h) (<[p := dozing h q (ChBuf b)]> (procs (vi_p s)))) (vi_km s)
       (queued b w i0 i1 i2 (vi_d s)) (<[b := 1]> (vi_bdisk s))
       (Mmio (mm_in (vi_reg s)) (mm_out (vi_reg s) ++ [(VIRTIO0 + VIRTIO_MMIO_QUEUE_NOTIFY, 0)])))) ∧
  ((length fl < 3)%nat → ∃ s' dl, virtio_disk_rw ops_addr info_addr buf_addr blockno b w s = Halt Slept s' ∧
     vi_d s' = with_desc dl (vi_d s) ∧ (∀ i, vd_free (vi_d s) !!! i = 0 → dl !! i = vd_desc (vi_d s) !! i) ∧
     vi_bdisk s' = vi_bdisk s ∧ vi_reg s' = vi_reg s ∧ procs (vi_p s') !! p = Some (dozing h q ChDiskFree)).
Proof.
  intros Hok Hc Hq Hn Hb h fl. destruct (locked_ok s Hok) as (Hp1 & Hd1 & E1).
  destruct (wp_Ok _ _ _ (alloc3_ok (locked s) Hp1 Hd1)) as (r & s2 & E2 & Hr).
  change (vd_free (vi_d (locked s))) with (vd_free (vi_d s)) in Hr. fold fl in Hr.
  unfold virtio_disk_rw, virtio_wait. destruct r as [[[i0 i1] i2]|].
  - destruct Hr as (k & Efl & _). split; [|rewrite Efl; cbn; lia]. intros _. exists i0, i1, i2, k. split; [done|].
    rewrite (bind_Ok _ _ _ _ _ (submit_run s b w i0 i1 i2 k Hok Efl)).
    erewrite bind_Halt; [reflexivity|]. eapply while_sleep_halt.
    + unfold gets. cbn. rewrite list_lookup_total_insert_eq by done. reflexivity.
    + rewrite (doze_run _ h (procs (vi_p s)) (vd_lock (vi_d s)) p q); [reflexivity|destruct (vs_p _ Hok); by split|done|done|done|apply Hok|done|done].
  - destruct Hr as [Hlt Hun]. split; [lia|]. intros _. unfold virtio_submit. destruct Hun as [(dl & Ed & _ & Hdl) Hh Hs (Hbd & Hkm & Hrg)].
    assert (hart_ok h) as Hhok by apply Hok.
    assert (p_hart (vi_p s2) = push h) as Eh by (destruct Hh as [->| ->]; [done|by apply sync_push]).
    destruct (pst_same_ok _ _ Hp1 Hs) as [_ Hlen Hlk].
    assert (procs (vi_p s2) !! p = Some q) as Hq2.
    { rewrite (pm_run _ _ Hs); [done|]. cbn. by rewrite cur_push. }
    eexists _, dl. split.
    { erewrite bind_Halt; [reflexivity|]. rewrite (bind_Ok _ _ _ _ _ E1). erewrite bind_Halt; [reflexivity|].
      apply loop_Halt. rewrite (bind_Ok _ _ _ _ _ E2). cbn beta iota. erewrite bind_Halt; [reflexivity|].
      apply (doze_run _ h (procs (vi_p s2)) (vd_lock (vi_d s)) p q); [by split|done|done|done|apply Hok| |by rewrite Ed].
      rewrite <- Eh. by destruct (vi_p s2). }
    cbn [vi_d vi_bdisk vi_reg vi_p procs]. split_and!; [rewrite Ed; reflexivity|exact Hdl|done|done|].
    apply list_lookup_insert_eq. by eapply lookup_lt_Some.
Qed.

(** Virtio_disk_rw with three descriptors free takes the first three, links them
    into one chain (request header, the buffer's data, status byte) that the device
    reads or writes as the direction says, records the buffer, puts the head on the
    avail ring, notifies the device and sleeps on the buffer with the lock released;
    nothing else of the driver's state changes. With fewer than three free it gives back
    what it had taken, so that the same descriptors are free, touches no other
    request's descriptors and sleeps on the free array. *)
Theorem virtio_disk_rw_queues s p q b w :
  vio_ok s → cpu_proc (cur (p_hart (vi_p s))) = Some p → procs (vi_p s) !! p = Some q →
  noff (cur (p_hart (vi_p s))) = 0 → (b < length (vi_bdisk s))%nat →
  let h := p_hart (vi_p s) in let fl := free_descs (vd_free (vi_d s)) in
  ((3 ≤ length fl)%nat → ∃ i0 i1 i2 k, fl = i0 :: i1 :: i2 :: k ∧
     virtio_disk_rw ops_addr info_addr buf_addr blockno b w s =
     Halt Slept (Vio (Pst (push h) (<[p := dozing h q (ChBuf b)]> (procs (vi_p s)))) (vi_km s)
       (queued b w i0 i1 i2 (vi_d s)) (<[b := 1]> (vi_bdisk s))
       (Mmio (mm_in (vi_reg s)) (mm_out (vi_reg s) ++ [(VIRTIO0 + VIRTIO_MMIO_QUEUE_NOTIFY, 0)])))) ∧
  ((length fl < 3)%nat → ∃ s' dl, virtio_disk_rw ops_addr info_addr buf_addr blockno b w s = Halt Slept s' ∧
     vi_d s' = with_desc dl (vi_d s) ∧ (∀ i, vd_free (vi_d s) !!! i = 0 → dl !! i = vd_desc (vi_d s) !! i) ∧
     vi_bdisk s' = vi_bdisk s ∧ vi_reg s' = vi_reg s ∧ procs (vi_p s') !! p = Some (dozing h q ChDiskFree)).
Proof. apply queues_run. Qed.

End virtio.

(** ** Completions *)
Section completions.
Implicit Types (s : vio) (d : vdisk).

(** The requests on the used ring that virtio_disk_intr has not looked at. *)
Definition done_ids d : list nat :=
  (λ i, Z.to_nat (vd_used d !!! Z.to_nat (u16 (vd_used_idx d + i) `mod` NUM))) <$> seqZ 0 (u16 (vd_uidx d - vd_used_idx d)).

(** The device has completed them, for the buffers [bs]. *)
Record completed d (bs : list nat) : Prop := {
  cp_idx : 0 ≤ vd_used_idx d < 2 ^ 16 ∧ 0 ≤ vd_uidx d < 2 ^ 16;
  cp_ids : Forall2 (λ id b, vd_info d !!! id = Vinfo (Some b) 0) (done_ids d) bs
}.

Definition with_uidx (x : Z) d : vdisk :=
  Vdisk (vd_pages d) (vd_desc d) (vd_avail_idx d) (vd_avail d) (vd_uidx d) (vd_used d) (vd_free d) x (vd_info d) (vd_ops d) (vd_lock d).
Definition settle (l : list Z) (bs : list nat) : list Z := fold_left (λ l b, <[b := 0]> l) bs l.

Lemma settle_lookup bs l b : settle l bs !! b = if decide (b ∈ bs) then (λ _, 0) <$> l !! b else l !! b.
Proof.
  revert l. induction bs as [|c bs IH]; intros l; [by rewrite decide_False by (apply not_elem_of_nil)|].
  change (settle l (c :: bs)) with (settle (<[c := 0]> l) bs). rewrite IH. destruct (decide (b = c)) as [->|Hne].
  - rewrite (decide_True (P := c ∈ c :: bs)) by (by left). destruct (decide (c < length l)%nat) as [Hlt|Hge].
    + rewrite list_lookup_insert_eq by done. destruct (lookup_lt_is_Some_2 l c Hlt) as [x ->]. by case_decide.
    + rewrite list_insert_ge, (lookup_ge_None_2 l c) by lia. by case_decide.
  - rewrite list_lookup_insert_ne by done. rewrite (decide_ext (b ∈ bs) (b ∈ c :: bs)); [done|]. rewrite elem_of_cons. tauto.
Qed.

(** A process asleep on one of the buffers becomes runnable, any other is left alone. *)
Definition waits_on (bs : list nat) (q : proc) : bool :=
  bool_decide (p_state (p_pub q) = SLEEPING) && existsb (λ b, bool_decide (p_chan (p_pub q) = Some (ChBuf b))) bs.
Definition roused (bs : list nat) (q : proc) : proc :=
  if waits_on bs q then Proc (p_lock q) (with_state RUNNABLE (p_pub q)) (p_parent q) (p_priv q) else q.

Lemma roused_snoc bs b q : wake_proc (ChBuf b) (roused bs q) = roused (bs ++ [b]) q.
Proof.
  unfold roused, waits_on, wake_proc. rewrite existsb_app. cbn [existsb]. rewrite orb_false_r.
  destruct (bool_decide (p_state (p_pub q) = SLEEPING)) eqn:Es; cbn [andb].
  - destruct (existsb _ bs) eqn:Ex; cbn [orb].
    + unfold wake. cbn. done.
    + unfold wake. rewrite Es. cbn [andb]. destruct (bool_decide (_ = Some _)); by destruct q.
  - unfold wake. rewrite Es. by destruct q.
Qed.

(** [procs] after the completions of [bs], [m] being the process the CPU was running. *)
Definition rouse_at (bs : list nat) (m : option nat) (j : nat) (q : proc) : proc :=
  if bool_decide (m = Some j) then q else roused bs q.

Lemma rouse_snoc bs b m (l : list proc) :
  imap (wake_at (ChBuf b) m) (imap (rouse_at bs m) l) = imap (rouse_at (bs ++ [b]) m) l.
Proof.
  apply list_eq. intros j. rewrite !list_lookup_imap. destruct (l !! j) as [q|]; [|done]. cbn. f_equal.
  unfold wake_at, rouse_at. case_bool_decide; [done|]. apply roused_snoc.
Qed.

Lemma rouse_nil m (l : list proc) : imap (rouse_at [] m) l = l.
Proof.
  apply list_eq. intros j. rewrite list_lookup_imap. destruct (l !! j) as [q|]; [|done]. cbn. f_equal.
  unfold rouse_at, roused, waits_on. cbn. by rewrite andb_false_r, Tauto.if_same.
Qed.

(** The interrupt handler after [k] completions. *)
Record handled s (bs : list nat) (reg : mmio) (k : nat) s' : Prop := {
  hd_d : vi_d s' = with_uidx (u16 (vd_used_idx (vi_d s) + Z.of_nat k)) (vi_d s);
  hd_bdisk : vi_bdisk s' = settle (vi_bdisk s) (take k bs);
  hd_hart : p_hart (vi_p s') = p_hart (vi_p s);
  hd_procs : procs (vi_p s') = imap (rouse_at (take k bs) (cpu_proc (cur (p_hart (vi_p s))))) (procs (vi_p s));
  hd_rest : vi_km s' = vi_km s ∧ vi_reg s' = reg
}.

Lemma roused_lock bs q : p_lock (roused bs q) = p_lock q.
Proof. unfold roused. by case_match. Qed.

Lemma handled_pst s bs reg k s' : pst_ok (vi_p s) → handled s bs reg k s' → pst_ok (vi_p s').
Proof.
  intros [H1 H2 H3] [_ _ Hh Hp _]. split; [by rewrite Hh|by rewrite Hp, length_imap|].
  rewrite Hp. apply Forall_lookup. intros j q'. rewrite list_lookup_imap. destruct (procs (vi_p s) !! j) as [q|] eqn:E; [|done].
  cbn. intros [= <-]. unfold rouse_at. pose proof (proj1 (Forall_lookup _ _) H3 j q E).
  case_bool_decide; [done|]. by rewrite roused_lock.
Qed.

Lemma intr_loop_ok s bs reg s1 : pst_ok (vi_p s) → sync (p_hart (vi_p s)) = p_hart (vi_p s) → completed (vi_d s) bs →
  handled s bs reg 0 s1 →
  wp (loop (Z.to_nat (2 ^ 16)) (λ _,
    do s <- get;
    let d := vi_d s in
    if vd_used_idx d =? vd_uidx d then ret (inr tt)
    else
      let id := Z.to_nat (vd_used d !!! Z.to_nat (vd_used_idx d `mod` NUM)) in
      if negb (in_status (vd_info d !!! id) =? 0) then panic "virtio_disk_intr status"
      else
        do b <- of_option (in_b (vd_info d !!! id));
        set_bdisk b 0 ;;
        zoom on_vip (wakeup (ChBuf b)) ;;
        zoom on_vd inc_used ;;
        ret (inl tt)) tt) (λ _ s', handled s bs reg (length bs) s' ∧ vd_used_idx (vi_d s') = vd_uidx (vi_d s)) s1.
Proof.
  intros Hp Hsync [[Hu1 Hu2] Hids] H1. set (d := vi_d s) in *. set (n := u16 (vd_uidx d - vd_used_idx d)) in *.
  assert (Z.of_nat (length bs) = n) as Hn.
  { apply Forall2_length in Hids. unfold done_ids in Hids. rewrite length_fmap, length_seqZ in Hids. fold n in Hids.
    pose proof (u16_range (vd_uidx d - vd_used_idx d)). unfold n in *. lia. }
  assert (∀ j, 0 ≤ j ≤ n → u16 (vd_uidx d - u16 (vd_used_idx d + j)) = n - j) as Hleft by (unfold n, u16; intros; dlia).
  assert (∀ j, u16 (u16 (vd_used_idx d + Z.of_nat j) + 1) = u16 (vd_used_idx d + Z.of_nat (S j))) as Hnext.
  { intros j. unfold u16. rewrite Zplus_mod_idemp_l. f_equal. lia. }
  apply (wp_loop (λ _ s', ∃ k, (k ≤ length bs)%nat ∧ handled s bs reg k s') (λ _ s', Z.to_nat (u16 (vd_uidx d - vd_used_idx (vi_d s'))))).
  - intros [] s' (k & Hk & Hh). pose proof (handled_pst _ _ _ _ _ Hp Hh) as Hp'. destruct Hh as [Hd Hb Hhart Hpr [Hkm Hrg]].
    wp_step. wp_step. rewrite Hd. fold d. cbn [vd_used_idx vd_uidx with_uidx vd_used vd_info].
    destruct (Z.eqb_spec (u16 (vd_used_idx d + Z.of_nat k)) (vd_uidx d)) as [E|E].
    { wp_step. assert (k = length bs) as -> by (unfold n, u16 in *; dlia). split; [by split|]. by rewrite Hd. }
    assert (k < length bs)%nat as Hlt by (unfold n, u16 in *; dlia).
    destruct (lookup_lt_is_Some_2 bs k Hlt) as [b Eb].
    assert (done_ids d !! k = Some (Z.to_nat (vd_used d !!! Z.to_nat (u16 (vd_used_idx d + Z.of_nat k) `mod` NUM)))) as Ei.
    { unfold done_ids. rewrite list_lookup_fmap, lookup_seqZ_lt by (fold n; lia). done. }
    rewrite (Forall2_lookup_lr _ _ _ _ _ _ Hids Ei Eb). cbn [in_status in_b Z.eqb negb of_option].
    wp_step. wp_step. wp_step. unfold set_bdisk. wp_step. wp_step. wp_step.
    eapply wp_mono; [by apply wakeup_run|]. intros [] p [P1 P2]. cbn [vi_p view over on_vip] in P1, P2. rewrite Hhart in P1, P2. rewrite Hsync in P1. wp_step. wp_step. unfold inc_used. wp_step.
    wp_step. split.
    + exists (S k). split; [lia|].
      split; rewrite ?(take_S_r _ _ _ Eb); cbn [vi_d vi_bdisk vi_p vi_km vi_reg over on_vd on_vip].
      * rewrite Hd. fold d. unfold with_uidx. cbn. f_equal. apply Hnext.
      * rewrite Hb. unfold settle. by rewrite fold_left_app.
      * done.
      * by rewrite P2, Hpr, rouse_snoc.
      * done.
    + cbn [vi_d over on_vd vd_used_idx]. rewrite Hd. fold d. cbn [vd_used_idx with_uidx view over on_vd on_vip vi_d]. rewrite Hnext, !Hleft by lia. lia.
  - exists 0%nat. split; [lia|done].
  - destruct H1 as [-> _ _ _ _]. pose proof (u16_range (vd_uidx d - vd_used_idx (with_uidx (u16 (vd_used_idx (vi_d s) + Z.of_nat 0)) (vi_d s)))). lia.
Qed.

Lemma intr_ok s bs v l : vio_ok s → completed (vi_d s) bs → mm_in (vi_reg s) = v :: l →
  wp virtio_disk_intr (λ _ s', vi_d s' = with_uidx (vd_uidx (vi_d s)) (vi_d s) ∧
    vi_bdisk s' = settle (vi_bdisk s) bs ∧
    vi_p s' = Pst (sync (p_hart (vi_p s))) (imap (rouse_at bs (cpu_proc (cur (p_hart (vi_p s))))) (procs (vi_p s))) ∧
    vi_reg s' = Mmio l (mm_out (vi_reg s) ++ [(VIRTIO0 + VIRTIO_MMIO_INTERRUPT_ACK, u32 (Z.land (u32 v) 0x3))])) s.
Proof.
  intros Hok [Hidx Hids] Hv. destruct (locked_ok s Hok) as (Hp1 & Hd1 & E1). set (h := p_hart (vi_p s)).
  assert (hart_ok h) as Hh by apply Hok.
  unfold virtio_disk_intr. wp_step. eapply wp_of_Ok; [exact E1|]. unfold rreg, wreg, mmio_write. wp_step. wp_step. wp_step.
  eapply wp_of_Ok; [by unfold mmio_read; cbn; rewrite Hv|]. wp_step. wp_step. wp_step. wp_step.
  match goal with |- wp _ _ ?t => set (s1 := t) end. wp_step.
  wp_call (intr_loop_ok (locked s) bs (vi_reg s1) s1); [done|cbn; by apply sync_push|by split| |].
  { split; cbn; [|done|done|by rewrite rouse_nil|done].
    assert (u16 (vd_used_idx (vi_d s) + Z.of_nat 0) = vd_used_idx (vi_d s)) as -> by (unfold u16; dlia). done. }
  intros [] s2 [[Hd Hb Hhart Hpr [Hkm Hrg]] Hux]. rewrite firstn_all in Hb, Hpr. rewrite Hd in Hux. cbn in Hux.
  eapply wp_of_Ok.
  { apply (zoom_release on_vlk _ h (vd_lock (vi_d s))); [|done|apply Hok]. cbn. by rewrite Hhart, Hd. }
  cbn [vi_d vi_bdisk vi_p vi_reg over on_vlk Datatypes.fst Datatypes.snd]. split_and!.
  - rewrite Hd. unfold with_uidx, with_vlock. cbn. by rewrite Hux.
  - done.
  - rewrite Hpr. cbn. by rewrite cur_push.
  - by rewrite Hrg.
Qed.

(** Virtio_disk_intr handles every completion the device has put on the used ring
    since the last interrupt, across the wrap-around of its 16-bit index: for each it
    clears disk of the request's buffer and makes the processes that sleep on that buffer
    runnable; it touches no other buffer and no other process, acknowledges the
    interrupt, ends with its index at the device's, and releases the lock. A
    completion with a status other than 0 makes it panic. *)
Theorem virtio_disk_intr_completes s bs v l : vio_ok s → completed (vi_d s) bs → mm_in (vi_reg s) = v :: l →
  wp virtio_disk_intr (λ _ s', vio_ok s' ∧ vi_d s' = with_uidx (vd_uidx (vi_d s)) (vi_d s) ∧
    (∀ b, vi_bdisk s' !! b = if decide (b ∈ bs) then (λ _, 0) <$> vi_bdisk s !! b else vi_bdisk s !! b) ∧
    (∀ j q, procs (vi_p s) !! j = Some q → cpu_proc (cur (p_hart (vi_p s))) ≠ Some j →
       procs (vi_p s') !! j = Some (if waits_on bs q
         then Proc (p_lock q) (with_state RUNNABLE (p_pub q)) (p_parent q) (p_priv q) else q)) ∧
    mm_out (vi_reg s') = mm_out (vi_reg s) ++ [(VIRTIO0 + VIRTIO_MMIO_INTERRUPT_ACK, u32 (Z.land (u32 v) 0x3))]) s.
Proof.
  intros Hok Hc Hv. eapply wp_mono; [by apply (intr_ok s bs v l)|]. intros [] s' (Hd & Hb & Hp & Hr). split_and!.
  - destruct Hok as [[H1 H2 H3] H4 H5]. split; rewrite ?Hd, ?Hp; [|by destruct H4|done].
    split; [by apply sync_ok|cbn; by rewrite length_imap|]. apply Forall_lookup. intros j q'. cbn. rewrite list_lookup_imap.
    destruct (procs (vi_p s) !! j) as [q|] eqn:E; [|done]. cbn. intros [= <-]. unfold rouse_at.
    pose proof (proj1 (Forall_lookup _ _) H3 j q E). case_bool_decide; [done|]. by rewrite roused_lock.
  - done.
  - intros b. by rewrite Hb, settle_lookup.
  - intros j q Hq Hm. rewrite Hp. cbn. rewrite list_lookup_imap, Hq. cbn. unfold rouse_at. by rewrite bool_decide_eq_false_2.
  - by rewrite Hr.
Qed.

(** ** Giving the descriptors back *)
(** The chain of a request whose head is [i0]. *)
Record chain d (i0 i1 i2 : nat) : Prop := {
  cn_lt : (i0 < 8)%nat ∧ (i1 < 8)%nat ∧ (i2 < 8)%nat;
  cn_ne : i0 ≠ i1 ∧ i0 ≠ i2 ∧ i1 ≠ i2;
  cn_busy : vd_free d !!! i0 = 0 ∧ vd_free d !!! i1 = 0 ∧ vd_free d !!! i2 = 0;
  cn_0 : has (dd_flags (vd_desc d !!! i0)) VRING_DESC_F_NEXT = true ∧ Z.to_nat (dd_next (vd_desc d !!! i0)) = i1;
  cn_1 : has (dd_flags (vd_desc d !!! i1)) VRING_DESC_F_NEXT = true ∧ Z.to_nat (dd_next (vd_desc d !!! i1)) = i2;
  cn_2 : has (dd_flags (vd_desc d !!! i2)) VRING_DESC_F_NEXT = false
}.

(** One iteration of free_chain. *)
Definition free_link (i : nat) : M vio (nat + unit) :=
  do s <- get;
  let flag := dd_flags (vd_desc (vi_d s) !!! i) in
  let nxt := dd_next (vd_desc (vi_d s) !!! i) in
  free_desc i ;;
  ret (if has flag VRING_DESC_F_NEXT then inl (Z.to_nat nxt) else inr tt).

Lemma free_link_ok n i s (Q : unit → vio → Prop) : pst_ok (vi_p s) → vd_ok (vi_d s) → (i < 8)%nat → vd_free (vi_d s) !!! i = 0 →
  (∀ s', freed s (<[i := 1]> (vd_free (vi_d s))) (<[i := desc0]> (vd_desc (vi_d s))) s' → vd_ok (vi_d s') → pst_ok (vi_p s') →
     if has (dd_flags (vd_desc (vi_d s) !!! i)) VRING_DESC_F_NEXT
     then wp (loop n free_link (Z.to_nat (dd_next (vd_desc (vi_d s) !!! i)))) Q s'
     else Q tt s') →
  wp (loop (S n) free_link i) Q s.
Proof.
  intros Hp Hd Hi Hf Hk. cbn [loop]. unfold free_link at 1. wp_step. wp_step. wp_step. wp_step.
  wp_call (free_desc_run s i Hp Hd Hi Hf). intros [] s' R. wp_step.
  assert (vd_ok (vi_d s')) as Hd'.
  { eapply freed_ok; [exact Hd| | | |exact R]; rewrite ?length_insert; [apply Hd| |apply Hd]. apply Forall_insert; [apply Hd|by right]. }
  specialize (Hk s' R Hd' (pst_same_ok _ _ Hp (fr_same _ _ _ _ R))). by destruct (has _ _).
Qed.

Lemma free_chain_ok s i0 i1 i2 : pst_ok (vi_p s) → sync (p_hart (vi_p s)) = p_hart (vi_p s) → vd_ok (vi_d s) → chain (vi_d s) i0 i1 i2 →
  wp (free_chain i0) (λ _ s', ∃ dl, length dl = 8%nat ∧
    vi_d s' = with_desc dl (with_free (<[i2 := 1]> (<[i1 := 1]> (<[i0 := 1]> (vd_free (vi_d s))))) (vi_d s)) ∧
    (∀ i, i ≠ i0 → i ≠ i1 → i ≠ i2 → dl !! i = vd_desc (vi_d s) !! i) ∧
    p_hart (vi_p s') = p_hart (vi_p s) ∧ pst_same (vi_p s) (vi_p s') ∧
    vi_bdisk s' = vi_bdisk s ∧ vi_reg s' = vi_reg s) s.
Proof.
  intros Hp Hsync Hd [(L0 & L1 & L2) (N01 & N02 & N12) (B0 & B1 & B2) (F0 & X0) (F1 & X1) F2].
  change (free_chain i0) with (loop 9 free_link i0).
  apply free_link_ok; [done|done|done|done|]. intros s1 [A1 A2 A3 (A4 & A5 & A6)] Hd1 Hp1. rewrite F0, X0.
  apply free_link_ok; [done|done|done| |].
  { rewrite A1. cbn. by rewrite list_lookup_total_insert_ne. }
  intros s2 [C1 C2 C3 (C4 & C5 & C6)] Hd2 Hp2. rewrite A1 in C1 |- *. cbn [vd_desc vd_free with_desc with_free] in C1 |- *.
  rewrite (list_lookup_total_insert_ne _ i0 i1) by done. rewrite F1, X1.
  apply free_link_ok; [done|done|done| |].
  { rewrite C1. cbn. by rewrite !list_lookup_total_insert_ne. }
  intros s3 [E1 E2 E3 (E4 & E5 & E6)] _ _. rewrite C1 in E1 |- *. cbn [vd_desc vd_free with_desc with_free] in E1 |- *.
  rewrite !list_lookup_total_insert_ne by done. rewrite F2.
  exists (<[i2 := desc0]> (<[i1 := desc0]> (<[i0 := desc0]> (vd_desc (vi_d s))))).
  split; [rewrite !length_insert; apply Hd|]. split; [rewrite E1; reflexivity|]. split_and!.
  - intros i H0 H1 H2. by rewrite !list_lookup_insert_ne.
  - by rewrite E2, C2, A2, !Hsync.
  - eapply pst_same_trans; [done| |exact E3]. by eapply pst_same_trans.
  - by rewrite E4, C4.
  - by rewrite E6, C6.
Qed.

(** The loop of virtio_disk_rw, entered with the lock when the interrupt has come. *)
Lemma wait_ok s b i0 i1 i2 : vio_ok s → chain (vi_d s) i0 i1 i2 → vi_bdisk s !!! b ≠ 1 →
  wp (virtio_wait b i0) (λ _ s', vio_ok s' ∧ vd_free (vi_d s') = <[i2 := 1]> (<[i1 := 1]> (<[i0 := 1]> (vd_free (vi_d s)))) ∧
    vi_bdisk s' = vi_bdisk s ∧ vd_used_idx (vi_d s') = vd_used_idx (vi_d s) ∧ vd_uidx (vi_d s') = vd_uidx (vi_d s)) (locked s).
Proof.
  intros Hok Hc Hb. destruct (locked_ok s Hok) as (Hp1 & Hd1 & E1). set (h := p_hart (vi_p s)).
  assert (hart_ok h) as Hh by apply Hok. unfold virtio_wait, virtio_finish.
  wp_step. eapply wp_of_Ok.
  { eapply while_sleep_skip. unfold gets. change (vi_bdisk (locked s)) with (vi_bdisk s). by rewrite (proj2 (Z.eqb_neq _ 1)) by done. }
  wp_step. unfold set_info. wp_step. wp_step. match goal with |- wp _ _ ?t => set (s1 := t) end.
  assert (vd_ok (vi_d s1)) as Hd2 by (destruct Hd1; split; try done; cbn; by rewrite length_alter).
  assert (chain (vi_d s1) i0 i1 i2) as Hc1 by (by destruct Hc).
  wp_step. wp_call (free_chain_ok s1 i0 i1 i2 Hp1); [cbn; by apply sync_push|done|done|].
  intros [] s2 (dl & Hl & Ed & _ & Eh & Hs & Hbd & _). eapply wp_of_Ok.
  { apply (zoom_release on_vlk _ h (vd_lock (vi_d s))); [|done|apply Hok]. cbn. by rewrite Eh, Ed. }
  cbn [vi_d vi_bdisk over on_vlk Datatypes.fst Datatypes.snd]. rewrite Ed. split_and!; [|done|done|done|done].
  destruct (pst_same_ok _ _ Hp1 Hs) as [_ P2 P3]. split; cbn [vi_d vi_p].
  - split; [by apply sync_ok|done|done].
  - destruct Hd2 as [D1 D2 D3 D4 D5 D6 D7]. split; try done; cbn; rewrite ?length_insert; [done|].
    repeat (apply Forall_insert; [|by right]). done.
  - apply Hok.
Qed.

(** The scheduler has switched to process [p]: its CPU holds p->lock. *)
Definition dispatched (p : nat) s : vio :=
  let h := p_hart (vi_p s) in
  over on_vip (Pst (push h) (alter (λ q, Proc (held (p_lock q) (tp h)) (p_pub q) (p_parent q) (p_priv q)) p (procs (vi_p s)))) s.

(** sleep leaves p->chan 0 and takes disk.vdisk_lock again. *)
Definition woken (p : nat) (q : proc) s : vio :=
  over on_vip (Pst (sync (p_hart (vi_p s))) (<[p := Proc (p_lock q) (with_chan None (p_pub q)) (p_parent q) (p_priv q)]> (procs (vi_p s)))) s.

Lemma woken_ok p q s : vio_ok s → procs (vi_p s) !! p = Some q → vio_ok (woken p q s).
Proof.
  intros [[H1 H2 H3] H4 H5] Hq. split; [|exact H4|exact H5]. split; cbn; [by apply sync_ok|by rewrite length_insert|].
  apply Forall_insert; [done|]. exact (proj1 (Forall_lookup _ _) H3 p q Hq).
Qed.

Lemma sleep_resume_run p q s : vio_ok s → procs (vi_p s) !! p = Some q →
  zoom on_vslst (sleep_resume p) (dispatched p s) = Ok tt (locked (woken p q s)).
Proof.
  intros Hok Hq. pose proof (lookup_lt_Some _ _ _ Hq) as Hl. set (h := p_hart (vi_p s)).
  assert (hart_ok h) as Hh by apply Hok.
  assert (lock_free (p_lock q)) as Hlk by (by apply (proj1 (Forall_lookup _ _) (ps_locks _ (vs_p _ Hok)) p)).
  assert (sleep_resume p (view on_vslst (dispatched p s)) = Ok tt (view on_vslst (locked (woken p q s)))) as E.
  { cbn. rewrite (list_alter_at _ _ _ q Hq). unfold sleep_resume.
    erewrite bind_Ok; [|by apply zoom_Ok, set_pub_at]. erewrite bind_Ok; [|by apply zoom_Ok, slot_release].
    rewrite (zoom_acquire _ _ (sync h) (vd_lock (vi_d s))); [reflexivity|reflexivity|by apply sync_ok|apply Hok]. }
  by rewrite (zoom_Ok _ _ _ _ _ E).
Qed.

Lemma resume_ok p q s b i0 i1 i2 : vio_ok s → procs (vi_p s) !! p = Some q → chain (vi_d s) i0 i1 i2 → vi_bdisk s !!! b ≠ 1 →
  wp (virtio_resume p b i0) (λ _ s', vio_ok s' ∧ vd_free (vi_d s') = <[i2 := 1]> (<[i1 := 1]> (<[i0 := 1]> (vd_free (vi_d s)))) ∧
    vi_bdisk s' = vi_bdisk s ∧ vd_used_idx (vi_d s') = vd_used_idx (vi_d s) ∧ vd_uidx (vi_d s') = vd_uidx (vi_d s)) (dispatched p s).
Proof.
  intros Hok Hq Hc Hb. unfold virtio_resume. wp_step. eapply wp_of_Ok; [by apply sleep_resume_run|].
  by apply (wait_ok (woken p q s) b i0 i1 i2); [apply woken_ok|..].
Qed.

End completions.

(** ** The device *)

(** One transfer between the disk and memory: direction, first sector, address of
    the data and number of bytes. *)
Record transfer : Type := Xfer { x_write : bool; x_sector : Z; x_addr : Z; x_len : Z }.

(** A device that has completed the request with head [head], whose status byte is the
    one of disk.info[slot]: the status is 0 and the used ring has the head. *)
Definition serve (head slot : nat) (d : vdisk) : vdisk :=
  Vdisk (vd_pages d) (vd_desc d) (vd_avail_idx d) (vd_avail d) (u16 (vd_uidx d + 1))
    (<[Z.to_nat (vd_uidx d `mod` NUM) := Z.of_nat head]> (vd_used d)) (vd_free d) (vd_used_idx d)
    (alter (λ n, Vinfo (in_b n) 0) slot (vd_info d)) (vd_ops d) (vd_lock d).

Section request.
Context (ops_addr info_addr : Z) (buf_addr : nat → Z) (blockno : nat → Z).
Implicit Types (s : vio) (d : vdisk).
Abbreviation queued := (queued ops_addr info_addr buf_addr blockno).

(** The element that [a] points to, in an array of NUM elements of 16 bytes at [base]. *)
Definition element (base a : Z) : option nat :=
  if (0 <=? a - base) && (a - base <? 16 * NUM) && ((a - base) `mod` 16 =? 0) then Some (Z.to_nat ((a - base) `div` 16)) else None.

(** The three descriptors of a block request: a header the device reads, the data, and
    a status byte the device writes. *)
Definition well_formed (d0 d1 d2 : virtq_desc) : bool :=
  has (dd_flags d0) VRING_DESC_F_NEXT && negb (has (dd_flags d0) VRING_DESC_F_WRITE) && (dd_len d0 =? 16) &&
  has (dd_flags d1) VRING_DESC_F_NEXT &&
  negb (has (dd_flags d2) VRING_DESC_F_NEXT) && has (dd_flags d2) VRING_DESC_F_WRITE && (dd_len d2 =? 1).

(** The device has taken the entries of the avail ring before number [seen]; it takes
    the next one, if avail->idx says that there is one. The header says whether the disk
    is written; the data descriptor must agree. *)
Definition device_take (seen : Z) d : option (transfer * vdisk) :=
  if seen =? vd_avail_idx d then None
  else
    let head := Z.to_nat (vd_avail d !!! Z.to_nat (seen `mod` NUM)) in
    let d0 := vd_desc d !!! head in
    let d1 := vd_desc d !!! Z.to_nat (dd_next d0) in
    let d2 := vd_desc d !!! Z.to_nat (dd_next d1) in
    if negb (well_formed d0 d1 d2) then None
    else
      match element ops_addr (dd_addr d0), element (info_addr + 8) (dd_addr d2) with
      | Some k, Some slot =>
          let r := vd_ops d !!! k in
          let w := rq_type r =? VIRTIO_BLK_T_OUT in
          if (w || (rq_type r =? VIRTIO_BLK_T_IN)) && Bool.eqb w (negb (has (dd_flags d1) VRING_DESC_F_WRITE))
          then Some (Xfer w (rq_sector r) (dd_addr d1) (dd_len d1), serve head slot d)
          else None
      | _, _ => None
      end.

(** The device looks at queue 0 when the driver has written its number to
    QUEUE_NOTIFY, here after the first [n] writes to its registers. *)
Definition notified (n : nat) (r : mmio) : bool :=
  bool_decide ((VIRTIO0 + VIRTIO_MMIO_QUEUE_NOTIFY, 0) ∈ drop n (mm_out r)).
Definition device (seen : Z) (n : nat) s : option (transfer * vdisk) :=
  if notified n (vi_reg s) then device_take seen (vi_d s) else None.

Lemma element_at base i : (i < 8)%nat → element base (base + 16 * Z.of_nat i) = Some i.
Proof.
  intros Hi. unfold element. replace (base + 16 * Z.of_nat i - base) with (16 * Z.of_nat i) by lia. change NUM with 8.
  rewrite (proj2 (Z.leb_le _ _)), (proj2 (Z.ltb_lt _ _)) by lia. rewrite Z.mul_comm, Z.mod_mul, Z.div_mul by lia. cbn. f_equal. lia.
Qed.

Lemma serve_completed b w i0 i1 i2 d : vd_ok d → (i0 < 8)%nat → vd_used_idx d = vd_uidx d → 0 ≤ vd_uidx d < 2 ^ 16 →
  completed (serve i0 i0 (queued b w i0 i1 i2 d)) [b].
Proof.
  intros Hd Hi Hu Hr. split; [cbn; rewrite Hu; split; [done|apply u16_range]|].
  unfold done_ids. cbn. rewrite Hu. replace (u16 (u16 (vd_uidx d + 1) - vd_uidx d)) with 1 by (unfold u16; dlia).
  cbn. constructor; [|constructor]. rewrite Z.add_0_r, u16_small by done.
  rewrite list_lookup_total_insert_eq, Nat2Z.id.
  2: { rewrite (vo_used _ Hd). pose proof (Z.mod_pos_bound (vd_uidx d) NUM ltac:(done)). change NUM with 8 in *. lia. }
  rewrite alter_at, list_lookup_total_insert_eq by (rewrite ?length_insert, (vo_info _ Hd); done).
  by rewrite list_lookup_total_insert_eq by (by rewrite (vo_info _ Hd)).
Qed.

Lemma queued_chain b w i0 i1 i2 k d : vd_ok d → free_descs (vd_free d) = i0 :: i1 :: i2 :: k →
  chain (queued b w i0 i1 i2 d) i0 i1 i2.
Proof.
  intros Hd E. pose proof (free_descs_NoDup (vd_free d)) as Hn. rewrite E in Hn.
  apply NoDup_cons in Hn as [N0 Hn]. apply NoDup_cons in Hn as [N1 _]. rewrite 2!elem_of_cons in N0. rewrite elem_of_cons in N1.
  assert (∀ i, i ∈ i0 :: i1 :: i2 :: k → (i < 8)%nat) as H8 by (intros i Hi; apply (elem_of_free_descs (vd_free d)); by rewrite E).
  assert ((i0 < 8)%nat ∧ (i1 < 8)%nat ∧ (i2 < 8)%nat) as (L0 & L1 & L2) by (split_and!; apply H8; rewrite !elem_of_cons; tauto).
  pose proof (vo_desc _ Hd). pose proof (vo_free _ Hd).
  split; [done|split_and!; tauto|..]; cbn [vd_free vd_desc queued].
  - split_and!; repeat (rewrite list_lookup_total_insert_ne by (intros ->; tauto)); by rewrite list_lookup_total_insert_eq by (rewrite ?length_insert; lia).
  - repeat (rewrite list_lookup_total_insert_ne by (intros ->; tauto)). rewrite list_lookup_total_insert_eq by (rewrite ?length_insert; lia).
    cbn. split; [done|]. lia.
  - rewrite list_lookup_total_insert_ne by (intros ->; tauto). rewrite list_lookup_total_insert_eq by (rewrite ?length_insert; lia).
    split; [by destruct w|]. cbn. lia.
  - by rewrite list_lookup_total_insert_eq by (rewrite ?length_insert; lia).
Qed.

(** The device finds the request that was queued. *)
Lemma device_queued b w i0 i1 i2 k d : vd_ok d → free_descs (vd_free d) = i0 :: i1 :: i2 :: k → 0 ≤ vd_avail_idx d < 2 ^ 16 →
  device_take (vd_avail_idx d) (queued b w i0 i1 i2 d) =
    Some (Xfer w (u32 (blockno b * (BSIZE `div` 512))) (buf_addr b) BSIZE, serve i0 i0 (queued b w i0 i1 i2 d)).
Proof.
  intros Hd E Ha. destruct (queued_chain b w i0 i1 i2 k d Hd E) as [(L0 & L1 & L2) (N01 & N02 & N12) _ _ _ _].
  pose proof (Z.mod_pos_bound (vd_avail_idx d) NUM ltac:(done)) as Hm. change NUM with 8 in Hm.
  unfold device_take. cbn [vd_avail_idx vd_avail vd_desc vd_ops queued].
  rewrite (proj2 (Z.eqb_neq _ _)) by (unfold u16; dlia).
  rewrite list_lookup_total_insert_eq, Nat2Z.id by (rewrite (vo_avail _ Hd); change NUM with 8; lia).
  assert (∀ x y z, <[i2 := z]> (<[i1 := y]> (<[i0 := x]> (vd_desc d))) !!! i0 = x) as E0.
  { intros. rewrite !list_lookup_total_insert_ne by done. apply list_lookup_total_insert_eq. by rewrite (vo_desc _ Hd). }
  assert (∀ x y z, <[i2 := z]> (<[i1 := y]> (<[i0 := x]> (vd_desc d))) !!! i1 = y) as E1.
  { intros. rewrite list_lookup_total_insert_ne by done. apply list_lookup_total_insert_eq. by rewrite length_insert, (vo_desc _ Hd). }
  assert (∀ x y z, <[i2 := z]> (<[i1 := y]> (<[i0 := x]> (vd_desc d))) !!! i2 = z) as E2.
  { intros. apply list_lookup_total_insert_eq. by rewrite !length_insert, (vo_desc _ Hd). }
  rewrite E0. cbn [dd_next]. rewrite Nat2Z.id, E1. cbn [dd_next]. rewrite Nat2Z.id, E2. cbn [dd_addr dd_len dd_flags].
  rewrite element_at by done. replace (info_addr + 16 * Z.of_nat i0 + 8) with (info_addr + 8 + 16 * Z.of_nat i0) by lia.
  rewrite element_at by done. rewrite list_lookup_total_insert_eq by (by rewrite (vo_ops _ Hd)). by destruct w.
Qed.

(** Giving back the first three free descriptors restores the free array. *)
Lemma free_restored i0 i1 i2 k d : vd_ok d → free_descs (vd_free d) = i0 :: i1 :: i2 :: k →
  <[i2 := 1]> (<[i1 := 1]> (<[i0 := 1]> (<[i2 := 0]> (<[i1 := 0]> (<[i0 := 0]> (vd_free d)))))) = vd_free d.
Proof.
  intros Hd Efl. assert (∀ i, i ∈ i0 :: i1 :: i2 :: k → i ∈ free_descs (vd_free d)) as Hin by (by rewrite Efl).
  apply list_eq. intros i. destruct (decide (i ∈ [i0; i1; i2])) as [Hi|Hi].
  - assert (vd_free d !! i = Some 1 ∧ (i < 8)%nat) as [Ei Li].
    { apply free_bit; [done|]. apply Hin. rewrite !elem_of_cons in *. rewrite elem_of_nil in Hi. tauto. }
    rewrite Ei. pose proof (vo_free _ Hd). rewrite !elem_of_cons, elem_of_nil in Hi.
    rewrite !list_lookup_insert. repeat case_decide; rewrite ?length_insert in *; try done; try lia; naive_solver lia.
  - rewrite !elem_of_cons in Hi. by rewrite !list_lookup_insert_ne by (intros ->; tauto).
Qed.

(** C30: A request completes. virtio_disk_rw with three descriptors free returns from
    virtio_submit with the head [i0] of its chain and then sleeps on the buffer, with
    disk.vdisk_lock free. A device that has taken everything queued before, and looks
    at the queue because of the driver's write to QUEUE_NOTIFY, finds on the avail
    ring a transfer of the buffer's BSIZE bytes to or from the block's sectors. Once it
    has completed it, the interrupt handler makes the sleeping process runnable; when that
    process runs again, virtio_disk_rw returns with the buffer no longer owned by
    the disk and the free array as it was before the request, ready for the next
    one. Between these steps other code may run, as long as it leaves the driver's
    data and this process's state alone. *)
Theorem request_completes s p q b w :
  vio_ok s → cpu_proc (cur (p_hart (vi_p s))) = Some p → procs (vi_p s) !! p = Some q →
  noff (cur (p_hart (vi_p s))) = 0 → (b < length (vi_bdisk s))%nat →
  (3 ≤ length (free_descs (vd_free (vi_d s))))%nat → vd_used_idx (vi_d s) = vd_uidx (vi_d s) →
  0 ≤ vd_uidx (vi_d s) < 2 ^ 16 → 0 ≤ vd_avail_idx (vi_d s) < 2 ^ 16 →
  ∃ i0 s0 s1 r1 d2, virtio_submit ops_addr info_addr buf_addr blockno b w s = Ok i0 s0 ∧
    virtio_disk_rw ops_addr info_addr buf_addr blockno b w s = Halt Slept s1 ∧
    procs (vi_p s1) !! p = Some r1 ∧ p_state (p_pub r1) = SLEEPING ∧ p_chan (p_pub r1) = Some (ChBuf b) ∧
    lock_free (vd_lock (vi_d s1)) ∧
    device (vd_avail_idx (vi_d s)) (length (mm_out (vi_reg s))) s1 =
      Some (Xfer w (u32 (blockno b * (BSIZE `div` 512))) (buf_addr b) BSIZE, d2) ∧
  ∀ s2 r2 v l, vio_ok s2 → vi_d s2 = d2 → vi_bdisk s2 = vi_bdisk s1 → mm_in (vi_reg s2) = v :: l →
    procs (vi_p s2) !! p = Some r2 → p_pub r2 = p_pub r1 → cpu_proc (cur (p_hart (vi_p s2))) ≠ Some p →
  ∃ s3 r3, virtio_disk_intr s2 = Ok tt s3 ∧ procs (vi_p s3) !! p = Some r3 ∧ p_state (p_pub r3) = RUNNABLE ∧
  ∀ s4 r4, vio_ok s4 → vi_d s4 = vi_d s3 → vi_bdisk s4 = vi_bdisk s3 → procs (vi_p s4) !! p = Some r4 →
  ∃ s5, virtio_resume p b i0 (dispatched p s4) = Ok tt s5 ∧ vio_ok s5 ∧ vi_bdisk s5 !! b = Some 0 ∧
    vd_free (vi_d s5) = vd_free (vi_d s) ∧ vd_used_idx (vi_d s5) = vd_uidx (vi_d s5).
Proof.
  intros Hok Hc Hq Hn Hb H3 Hu Hur Har. pose proof (vs_d _ Hok) as Hd. pose proof (lookup_lt_Some _ _ _ Hq) as Hpl.
  destruct (proj1 (queues_run ops_addr info_addr buf_addr blockno s p q b w Hok Hc Hq Hn Hb) H3) as (i0 & i1 & i2 & k & Efl & E).
  destruct (queued_chain b w i0 i1 i2 k (vi_d s) Hd Efl) as [(L0 & _ & _) _ _ _ _ _].
  exists i0. eexists _, _, _, _. split; [by apply (submit_run _ _ _ _ _ _ _ i0 i1 i2 k)|].
  split; [exact E|]. split; [by apply list_lookup_insert_eq|]. split; [done|]. split; [done|]. split; [apply Hok|]. split.
  { unfold device, notified. cbn [vi_reg mm_out]. rewrite drop_app_length, bool_decide_eq_true_2 by (by left). by apply (device_queued b w i0 i1 i2 k). }
  cbn [vi_bdisk dozing p_pub]. intros s2 r2 v l Hok2 Hd2 Hb2 Hv Hr2 Hpub Hrun.
  pose proof (serve_completed b w i0 i1 i2 _ Hd L0 Hu Hur) as Hcp. rewrite <- Hd2 in Hcp.
  destruct (wp_Ok _ _ _ (intr_ok s2 [b] v l Hok2 Hcp Hv)) as ([] & s3 & E3 & D3 & B3 & P3 & _).
  eexists s3, _. split; [exact E3|]. rewrite P3. cbn [procs]. rewrite list_lookup_imap, Hr2. split; [reflexivity|]. split.
  { unfold rouse_at, roused, waits_on. rewrite bool_decide_eq_false_2, Hpub by done. cbn. by rewrite !bool_decide_eq_true_2. }
  intros s4 r4 Hok4 D4 B4 Hr4. rewrite Hd2 in D3. rewrite Hb2 in B3.
  assert (chain (vi_d s4) i0 i1 i2) as Hch by (rewrite D4, D3; by destruct (queued_chain b w i0 i1 i2 k (vi_d s) Hd Efl)).
  assert (vi_bdisk s4 !! b = Some 0) as Hb4.
  { rewrite B4, B3, settle_lookup, decide_True by (by left). by rewrite list_lookup_insert_eq. }
  destruct (wp_Ok _ _ _ (resume_ok p r4 s4 b i0 i1 i2 Hok4 Hr4 Hch ltac:(by rewrite (list_lookup_total_correct _ _ _ Hb4)))) as ([] & s5 & E5 & Hok5 & F5 & B5 & U5 & V5).
  exists s5. split; [exact E5|]. split_and!; [done|by rewrite B5|..].
  - rewrite F5, D4, D3. by apply (free_restored i0 i1 i2 k).
  - by rewrite U5, V5, D4, D3.
Qed.
End request.

(** ** A driver on which the theorems can be tried

    All descriptors free, the 16-bit indices about to wrap. *)
Definition demo_vd : vdisk :=
  Vdisk (0x87000000, 0x87001000, 0x87002000) (replicate 8 desc0) 65535 (replicate 8 0) 65535 (replicate 8 0) (replicate 8 1) 65535
    (replicate 8 (Vinfo None 0)) (replicate 8 (Req 0 0 0)) (Spin 0 "virtio_disk" None).
Definition demo_vio (d : vdisk) : vio :=
  Vio demo_pst (Kmem (Spin 0 "kmem" None) 0 ∅) d (replicate 30 0) (Mmio [1] []).

Lemma demo_vd_ok : vd_ok demo_vd.
Proof. split; try done. apply Forall_replicate. by right. Qed.

Lemma demo_vio_ok : vio_ok (demo_vio demo_vd).
Proof. split; [apply demo_pst_ok|apply demo_vd_ok|by split]. Qed.

Lemma virtio_disk_rw_queues_witness :
  virtio_disk_rw 0x80010000 0x80011000 (λ b, 0x80020000 + 1024 * Z.of_nat b) (λ _, 7) 4 true (demo_vio demo_vd) =
    Halt Slept (Vio (Pst (push demo_hart) (<[3%nat := dozing demo_hart demo_run (ChBuf 4)]> demo_procs))
      (Kmem (Spin 0 "kmem" None) 0 ∅)
      (queued 0x80010000 0x80011000 (λ b, 0x80020000 + 1024 * Z.of_nat b) (λ _, 7) 4 true 0 1 2 demo_vd)
      (<[4%nat := 1]> (replicate 30 0)) (Mmio [1] [(VIRTIO0 + VIRTIO_MMIO_QUEUE_NOTIFY, 0)])).
Proof.
  destruct (proj1 (virtio_disk_rw_queues 0x80010000 0x80011000 (λ b, 0x80020000 + 1024 * Z.of_nat b) (λ _, 7)
    (demo_vio demo_vd) 3 demo_run 4 true demo_vio_ok eq_refl eq_refl eq_refl ltac:(cbn; lia)) ltac:(vm_compute; lia))
    as (i0 & i1 & i2 & k & E & H).
  assert (free_descs (vd_free demo_vd) = [0; 1; 2; 3; 4; 5; 6; 7]%nat) as E' by (vm_compute; reflexivity).
  change (vi_d (demo_vio demo_vd)) with demo_vd in E. rewrite E' in E. injection E as <- <- <- <-. exact H.
Defined.

Lemma virtio_disk_intr_completes_witness :
  wp virtio_disk_intr (λ _ s', vi_bdisk s' !! 4%nat = Some 0 ∧ vd_used_idx (vi_d s') = 0)
    (demo_vio (serve 0 0 (queued 0 0 (λ _, 0) (λ _, 7) 4 true 0 1 2 demo_vd))).
Proof.
  assert (completed (serve 0 0 (queued 0 0 (λ _, 0) (λ _, 7) 4 true 0 1 2 demo_vd)) [4%nat]) as Hc
    by (apply serve_completed; [apply demo_vd_ok|lia|done|done]).
  eapply wp_mono; [apply (virtio_disk_intr_completes _ [4%nat] 1 []); [|exact Hc|done]|].
  - split; [apply demo_pst_ok| |by split]. split; try done. cbn. repeat constructor; by (left + right).
  - intros [] s' (_ & Hd & Hb & _). split; [by rewrite Hb|]. rewrite Hd. reflexivity.
Defined.

(** The whole life of a read of block 7 into buffer 4, whose device is told of
    sectors 14 and 15. *)
Lemma request_completes_witness :
  ∃ i0 s1 r1 d2, virtio_disk_rw 0x80010000 0x80011000 (λ b, 0x80020000 + 1024 * Z.of_nat b) (λ _, 7) 4 false (demo_vio demo_vd) = Halt Slept s1 ∧
    device 0x80010000 0x80011000 65535 0 s1 = Some (Xfer false 14 0x80021000 1024, d2) ∧ procs (vi_p s1) !! 3%nat = Some r1 ∧
    p_chan (p_pub r1) = Some (ChBuf 4) ∧
  ∀ s2 r2 v l, vio_ok s2 → vi_d s2 = d2 → vi_bdisk s2 = vi_bdisk s1 → mm_in (vi_reg s2) = v :: l →
    procs (vi_p s2) !! 3%nat = Some r2 → p_pub r2 = p_pub r1 → cpu_proc (cur (p_hart (vi_p s2))) ≠ Some 3%nat →
  ∃ s3 r3, virtio_disk_intr s2 = Ok tt s3 ∧ procs (vi_p s3) !! 3%nat = Some r3 ∧ p_state (p_pub r3) = RUNNABLE ∧
  ∀ s4 r4, vio_ok s4 → vi_d s4 = vi_d s3 → vi_bdisk s4 = vi_bdisk s3 → procs (vi_p s4) !! 3%nat = Some r4 →
  ∃ s5, virtio_resume 3 4 i0 (dispatched 3 s4) = Ok tt s5 ∧ vd_free (vi_d s5) = replicate 8 1.
Proof.
  destruct (request_completes 0x80010000 0x80011000 (λ b, 0x80020000 + 1024 * Z.of_nat b) (λ _, 7) (demo_vio demo_vd) 3 demo_run 4 false
    demo_vio_ok eq_refl eq_refl eq_refl ltac:(cbn; lia) ltac:(vm_compute; lia) eq_refl ltac:(cbn; lia) ltac:(cbn; lia))
    as (i0 & s0 & s1 & r1 & d2 & _ & E & Hr & _ & Hch & _ & Hdev & H).
  exists i0, s1, r1, d2. split; [exact E|]. split; [exact Hdev|]. split; [exact Hr|]. split; [exact Hch|].
  intros s2 r2 v l H1 H2 H3 H4 H5 H6 H7. destruct (H s2 r2 v l H1 H2 H3 H4 H5 H6 H7) as (s3 & r3 & E3 & Hr3 & Hs3 & H').
  exists s3, r3. split; [exact E3|]. split; [exact Hr3|]. split; [exact Hs3|].
  intros s4 r4 K1 K2 K3 K4. destruct (H' s4 r4 K1 K2 K3 K4) as (s5 & E5 & _ & _ & F & _). exists s5. split; [exact E5|exact F].
Defined.
