(* ===== verification/Console.v ===== *)
(** * kernel/console.c and kernel/printf.c: console output

    Strings and formats are the lists of their characters without the NUL. The
    arguments of printf are a list of tagged values: va_arg with another type than
    the one passed is undefined, the outcome [Wild]. [loc] is the address of the
    local variable [c] of consolewrite. *)
From S2P Require Import Prelude Memory KString Riscv Spinlock Mmio Kalloc Vm Sched Sleeplock Disk Bio Log Fs.

(** What devsw's function pointers may hold here. *)
Inductive devfn : Type := Fn_consolewrite.
Definition CONSOLE : nat := 1.

Record con (D : Type) : Type := Con {
  co_f : fst D;
  cons_lock : spinlock;
  pr_lock : spinlock;
  co_uart : mmio;
  panicking : Z;
  panicked : Z;
  devsw : list (option devfn * option devfn)   (* read, write *)
}.
Arguments Con {D}.
Arguments co_f {D}.
Arguments cons_lock {D}.
Arguments pr_lock {D}.
Arguments co_uart {D}.
Arguments panicking {D}.
Arguments panicked {D}.
Arguments devsw {D}.

Inductive va : Type := VInt (v : Z) | VPtr (v : Z) | VStr (s : option (list Z)).

Definition chr_minus : Z := 45.
Definition chr_percent : Z := 37.
Definition chr_esc : Z := 27.

(** [digits[d]] *)
Definition digit (d : Z) : Z := if d <? 10 then 48 + d else 87 + d.

(** The contents of printint's buf: least significant digit first. *)
Fixpoint int_digits (fuel : nat) (x base : Z) : list Z :=
  match fuel with
  | O => []
  | S n => digit (x `mod` base) :: (if x `div` base =? 0 then [] else int_digits n (x `div` base) base)
  end.

Section console.
Context {D : Type} `{!BlockDev D}.
Context (end_ loc : Z).
Implicit Types s : con D.

Definition on_cf : lens (con D) (fst D) :=
  Lens co_f (λ f s, Con f (cons_lock s) (pr_lock s) (co_uart s) (panicking s) (panicked s) (devsw s)).
Definition on_uart : lens (con D) mmio :=
  Lens co_uart (λ u s, Con (co_f s) (cons_lock s) (pr_lock s) u (panicking s) (panicked s) (devsw s)).
Definition c_hart s : hart := p_hart (f_p (co_f s)).
Definition with_chart (h : hart) s : con D := over on_cf (with_fp (Pst h (procs (f_p (co_f s)))) (co_f s)) s.
Definition on_cons : lens (con D) lockst :=
  Lens (λ s, (c_hart s, cons_lock s))
       (λ t s, let s' := with_chart t.1 s in
               Con (co_f s') t.2 (pr_lock s) (co_uart s) (panicking s) (panicked s) (devsw s)).
Definition on_pr : lens (con D) lockst :=
  Lens (λ s, (c_hart s, pr_lock s))
       (λ t s, let s' := with_chart t.1 s in
               Con (co_f s') (cons_lock s) t.2 (co_uart s) (panicking s) (panicked s) (devsw s)).

(** ** console.c *)
Definition consolewrite (user_src src n : Z) : M (con D) Z :=
  zoom on_cons acquire ;;
  do i <- loop (S (Z.to_nat n)) (λ i,
    if negb (i <? n) then ret (inr i)
    else
      do r <- zoom on_cf (either_copyin end_ loc user_src (u64 (src + i)) 1);
      if r =? -1 then ret (inr i)
      else
        do c <- gets (λ s, rd (km_mem (f_km (co_f s))) loc);
        zoom on_uart (uartputc c) ;;
        ret (inl (i + 1))) 0;
  zoom on_cons release ;;
  ret i.

Definition consoleputc (c : Z) : M (con D) unit :=
  zoom on_cons acquire ;;
  zoom on_uart (uartputc c) ;;
  zoom on_cons release.

Definition consoleputuint (n : Z) : M (con D) unit :=
  if n =? 0 then consoleputc 48
  else each (reverse (int_digits 10 n 10)) consoleputc.

Definition consoleputs (l : list Z) : M (con D) unit := each l consoleputc.

Definition consoleinit : M (con D) unit :=
  zoom on_uart uartinit ;;
  modify (λ s, Con (co_f s) (cons_lock s) (pr_lock s) (co_uart s) (panicking s) (panicked s)
                 (<[CONSOLE := (None, Some Fn_consolewrite)]> (devsw s))).

(** "\033[2J\033[3J\033[H", "\033[" and "\033[2K" *)
Definition str_clear : list Z := [27; 91; 50; 74; 27; 91; 51; 74; 27; 91; 72].
Definition str_csi : list Z := [27; 91].
Definition str_line : list Z := [27; 91; 50; 75].

Definition clear_screen : M (con D) unit :=
  zoom on_cons acquire ;;
  consoleputs str_clear ;;
  zoom on_cons release.

Definition goto_xy (x y : Z) : M (con D) unit :=
  zoom on_cons acquire ;;
  consoleputs str_csi ;;
  consoleputuint (u32 y) ;;
  consoleputc 59 ;;
  consoleputuint (u32 x) ;;
  consoleputc 72 ;;
  zoom on_cons release.

Definition clear_line : M (con D) unit :=
  zoom on_cons acquire ;;
  consoleputs str_line ;;
  zoom on_cons release.

(** ** printf.c *)

(** The digits are stored in [char buf[20]]: one more is out of the array. *)
Definition printint (val base sign : Z) : M (con D) unit :=
  let neg := negb (sign =? 0) && (val <? 0) in
  when neg (consoleputc chr_minus) ;;
  let buf := int_digits 64 (u64 (if neg then - val else val)) base in
  if (20 <? Z.of_nat (length buf)) then halt Wild
  else each (reverse buf) consoleputc.

(** "(null)" *)
Definition str_null : list Z := [40; 110; 117; 108; 108; 41].

(** One conversion after '%': what is left of the arguments. *)
Definition convert (c : Z) (ap : list va) : M (con D) (list va) :=
  if c =? 100 then
    match ap with VInt v :: ap' => printint v 10 1 ;; ret ap' | _ => halt Wild end
  else if c =? 120 then
    match ap with VInt v :: ap' => printint v 16 0 ;; ret ap' | _ => halt Wild end
  else if c =? 112 then
    match ap with
    | VPtr v :: ap' => consoleputc 48 ;; consoleputc 120 ;; printint v 16 0 ;; ret ap'
    | _ => halt Wild
    end
  else if c =? 115 then
    match ap with VStr o :: ap' => each (default str_null o) consoleputc ;; ret ap' | _ => halt Wild end
  else if c =? 99 then
    match ap with VInt v :: ap' => consoleputc v ;; ret ap' | _ => halt Wild end
  else if c =? chr_percent then consoleputc chr_percent ;; ret ap
  else consoleputc chr_percent ;; consoleputc c ;; ret ap.

Fixpoint vprintf (fmt : list Z) (ap : list va) : M (con D) unit :=
  match fmt with
  | [] => ret tt
  | c :: fmt' =>
      if negb (c =? chr_percent) then consoleputc c ;; vprintf fmt' ap
      else
        match fmt' with
        | [] => ret tt
        | c :: fmt'' => do ap <- convert c ap; vprintf fmt'' ap
        end
  end.

Definition printf (fmt : list Z) (ap : list va) : M (con D) unit :=
  do s <- get;
  when (panicking s =? 0) (zoom on_pr acquire) ;;
  vprintf fmt ap ;;
  do s <- get;
  when (panicking s =? 0) (zoom on_pr release).

(** "\033[0m" *)
Definition str_reset : list Z := [27; 91; 48; 109].
Definition printf_color (color : Z) (fmt : list Z) (ap : list va) : M (con D) unit :=
  do s <- get;
  when (panicking s =? 0) (zoom on_pr acquire) ;;
  consoleputc chr_esc ;;
  consoleputc 91 ;;
  printint color 10 0 ;;
  consoleputc 109 ;;
  vprintf fmt ap ;;
  each str_reset consoleputc ;;
  do s <- get;
  when (panicking s =? 0) (zoom on_pr release).

(** "kernel panic: %s\n"; [msg] names the string [l]. *)
Definition str_panic : list Z := [107; 101; 114; 110; 101; 108; 32; 112; 97; 110; 105; 99; 58; 32; 37; 115; 10].
Definition kpanic (msg : string) (l : list Z) : M (con D) unit :=
  modify (λ s, Con (co_f s) (cons_lock s) (pr_lock s) (co_uart s) (panicking s) 1 (devsw s)) ;;
  printf str_panic [VStr (Some l)] ;;
  halt (Panicked msg).

Definition printfinit : M (con D) unit := zoom on_pr (initlock "pr").
End console.
