(* ===== verification/ConsoleProps.v ===== *)
(** * Console output: what is sent

    printint prints the number it is given; consoleputc and printf under their
    locks. *)
From S2P Require Import Prelude Memory KString Riscv Spinlock Mmio Kalloc Vm Sched Sleeplock Disk Bio Log Fs Console.

(** ** Numerals *)
Definition digit_val (c : Z) : Z := if c <? 58 then c - 48 else c - 87.
Fixpoint lsd_val (base : Z) (l : list Z) : Z :=
  match l with [] => 0 | c :: l => digit_val c + base * lsd_val base l end.
(** The value of a numeral, most significant digit first. *)
Definition numeral_val (base : Z) (l : list Z) : Z := lsd_val base (reverse l).

Lemma digit_val_digit d : 0 ≤ d < 16 → digit_val (digit d) = d.
Proof. intros Hd. unfold digit_val, digit. repeat case_test; lia. Qed.

Lemma digit_zero d : 0 ≤ d < 16 → digit d = 48 → d = 0.
Proof. intros Hd. unfold digit. case_test; lia. Qed.

Lemma int_digits_val fuel x base :
  2 ≤ base ≤ 16 → 0 ≤ x < base ^ Z.of_nat fuel → lsd_val base (int_digits fuel x base) = x.
Proof.
  intros Hb. revert x. induction fuel as [|n IH]; intros x Hx; cbn [int_digits lsd_val].
  - cbn in Hx. lia.
  - pose proof (Z.mod_pos_bound x base ltac:(lia)) as Hm. rewrite digit_val_digit by lia.
    rewrite Nat2Z.inj_succ, Z.pow_succ_r in Hx by lia. pose proof (Z.div_mod x base ltac:(lia)).
    assert (0 ≤ x `div` base < base ^ Z.of_nat n) as Hd.
    { split; [apply Z.div_pos; lia|]. apply Z.div_lt_upper_bound; lia. }
    destruct (Z.eqb_spec (x `div` base) 0) as [E|E]; cbn [lsd_val]; [lia|]. rewrite IH by done. lia.
Qed.

Lemma int_digits_len fuel k x base :
  2 ≤ base → (1 ≤ k)%nat → 0 ≤ x < base ^ Z.of_nat k → (length (int_digits fuel x base) ≤ k)%nat.
Proof.
  intros Hb. revert x k. induction fuel as [|n IH]; intros x k Hk Hx; cbn [int_digits length]; [lia|].
  destruct (Z.eqb_spec (x `div` base) 0) as [E|E]; cbn [length]; [lia|]. destruct k as [|k]; [lia|].
  rewrite Nat2Z.inj_succ, Z.pow_succ_r in Hx by lia.
  assert (0 ≤ x `div` base < base ^ Z.of_nat k) as Hd.
  { split; [apply Z.div_pos; lia|]. apply Z.div_lt_upper_bound; lia. }
  destruct k as [|k]; [cbn in Hd; lia|]. specialize (IH (x `div` base) (S k) ltac:(lia) Hd). lia.
Qed.

(** The most significant digit is not 0, but for the number 0 itself. *)
Lemma int_digits_last fuel x base :
  2 ≤ base ≤ 16 → 0 ≤ x < base ^ Z.of_nat fuel → (0 < fuel)%nat → 
  ∃ l c, int_digits fuel x base = l ++ [c] ∧ (c = 48 → l = [] ∧ x = 0).
Proof.
  intros Hb. revert x. induction fuel as [|n IH]; intros x Hx Hf; [lia|]. cbn [int_digits].
  pose proof (Z.mod_pos_bound x base ltac:(lia)) as Hm. pose proof (Z.div_mod x base ltac:(lia)).
  destruct (Z.eqb_spec (x `div` base) 0) as [E|E].
  - exists [], (digit (x `mod` base)). split; [done|]. intros Hz%digit_zero; [|lia]. split; [done|]. lia.
  - rewrite Nat2Z.inj_succ, Z.pow_succ_r in Hx by lia.
    assert (0 ≤ x `div` base < base ^ Z.of_nat n) as Hd.
    { split; [apply Z.div_pos; lia|]. apply Z.div_lt_upper_bound; lia. }
    destruct n as [|n]; [cbn in Hd; lia|]. destruct (IH _ Hd ltac:(lia)) as (l & c & -> & Hc).
    exists (digit (x `mod` base) :: l), c. split; [done|]. intros Hz. exfalso. apply Hc in Hz. lia.
Qed.

Section console.
Context {D : Type} `{!BlockDev D}.
Context (end_ loc : Z).
Implicit Types s : con D.

(** The device is idle at every read, and will answer [n] of them. *)
Definition ready (n : nat) (u : mmio) : Prop :=
  (n ≤ length (mm_in u))%nat ∧ Forall (λ v, Z.land (u8 v) LSR_TX_IDLE ≠ 0) (mm_in u).

Record con_ok s : Prop := {
  cn_hart : hart_ok (c_hart s);
  cn_lock : lock_free (cons_lock s)
}.

(** [cs] has been sent and nothing else has changed. *)
Record sent s (cs : list Z) s' : Prop := {
  se_out : mm_out (co_uart s') = mm_out (co_uart s) ++ ((λ c, (UART0, u8 c)) <$> cs);
  se_in : mm_in (co_uart s') = drop (length cs) (mm_in (co_uart s));
  se_ok : con_ok s';
  se_hart : hart_same (c_hart s) (c_hart s');
  se_procs : procs (f_p (co_f s')) = procs (f_p (co_f s));
  se_km : f_km (co_f s') = f_km (co_f s);
  se_pr : pr_lock s' = pr_lock s ∧ panicking s' = panicking s ∧ devsw s' = devsw s ∧ cons_lock s' = cons_lock s
}.

Lemma sent_nil s : con_ok s → sent s [] s.
Proof. intros H. split; try done; [by rewrite app_nil_r|auto with hart]. Qed.

Lemma sent_app s c1 s1 c2 s2 : con_ok s → sent s c1 s1 → sent s1 c2 s2 → sent s (c1 ++ c2) s2.
Proof.
  intros Hok [A1 A2 A3 A4 A5 A6 (? & ? & ? & ?)] [B1 B2 B3 B4 B5 B6 (? & ? & ? & ?)]. split.
  - by rewrite B1, A1, fmap_app, app_assoc.
  - by rewrite B2, A2, drop_drop, length_app.
  - done.
  - eapply hart_same_trans; [apply Hok|done|done].
  - congruence.
  - congruence.
  - split_and!; congruence.
Qed.

Lemma ready_drop n k u l : ready (n + k) u → mm_in l = drop n (mm_in u) → ready k l.
Proof. intros [H1 H2] E. split; rewrite E; [rewrite length_drop; lia|by apply Forall_drop]. Qed.

Lemma consoleputc_ok c s :
  con_ok s → ready 1 (co_uart s) → wp (consoleputc c) (λ _ s', sent s [c] s') s.
Proof.
  intros [Hh Hl] [H1 H2]. destruct (mm_in (co_uart s)) as [|v l] eqn:Ein; [cbn in H1; lia|].
  apply Forall_cons in H2 as [Hv _].
  unfold consoleputc. wp_step. eapply wp_of_Ok; [by apply (zoom_acquire on_cons s (c_hart s) (cons_lock s))|].
  wp_step. eapply wp_of_Ok.
  { apply zoom_Ok. cbn. rewrite uartputc_run, Ein. cbn [idles]. rewrite (proj2 (Z.eqb_neq _ 0)) by done. reflexivity. }
  eapply wp_of_Ok; [by apply (zoom_release on_cons _ (c_hart s) (cons_lock s))|].
  split; cbn; try done.
  - by rewrite Ein.
  - split; [by apply sync_ok|done].
  - auto with hart.
Qed.

Lemma putcs_ok cs s :
  con_ok s → ready (length cs) (co_uart s) → wp (each cs consoleputc) (λ _ s', sent s cs s') s.
Proof.
  revert s. induction cs as [|c cs IH]; intros s Hok Hr; cbn [each].
  - wp_step. by apply sent_nil.
  - wp_step. wp_call (consoleputc_ok c s Hok).
    { destruct Hr as [? ?]. split; [cbn in *; lia|done]. }
    intros [] s1 H1. wp_call IH; [apply H1|by apply (ready_drop 1 _ (co_uart s)); [exact Hr|apply H1]|].
    intros [] s2 H2. by apply (sent_app s [c] s1 cs).
Qed.

Lemma printint_ok val base sign s :
  10 ≤ base ≤ 16 → - 2 ^ 63 ≤ val < 2 ^ 64 → con_ok s → ready 21 (co_uart s) →
  let neg := negb (sign =? 0) && (val <? 0) in
  wp (printint val base sign) (λ _ s', ∃ cs, sent s ((if neg then [chr_minus] else []) ++ cs) s' ∧
    numeral_val base cs = (if neg then - val else u64 val) ∧ (1 ≤ length cs ≤ 20)%nat ∧
    (head cs = Some 48 → cs = [48] ∧ val = 0)) s.
Proof.
  intros Hb Hv Hok Hr neg. set (x := u64 (if neg then - val else val)).
  assert (0 ≤ x < 2 ^ 64) as Hx by apply u64_range.
  assert (x = if neg then - val else u64 val) as Ex.
  { unfold x, neg. destruct (_ && _) eqn:E; [|done]. apply andb_true_iff in E as [_ E%Z.ltb_lt]. apply u64_small. lia. }
  assert (∀ k, (20 ≤ k)%nat → 0 ≤ x < base ^ Z.of_nat k) as Hpow.
  { intros k Hk. split; [lia|]. eapply Z.lt_le_trans; [apply Hx|]. transitivity (10 ^ Z.of_nat 20); [by vm_compute|].
    transitivity (10 ^ Z.of_nat k); [apply Z.pow_le_mono_r; lia|apply Z.pow_le_mono_l; lia]. }
  assert (2 ≤ base ≤ 16) as Hb' by lia. clear Hb.
  unfold printint. fold neg. fold x. remember 64%nat as n eqn:En. assert (20 ≤ n)%nat as H20 by lia. clear En.
  pose proof (int_digits_val n x base Hb' (Hpow n H20)) as Hval.
  pose proof (int_digits_len n 20 x base ltac:(lia) ltac:(lia) (Hpow 20%nat ltac:(lia))) as Hlen.
  destruct (int_digits_last n x base Hb' (Hpow n H20) ltac:(lia)) as (l & c & El & Hc).
  set (buf := int_digits n x base) in *.
  assert (wp (when neg (consoleputc chr_minus)) (λ _ s1, sent s (if neg then [chr_minus] else []) s1) s) as Hm.
  { destruct neg; cbn [when]; [|wp_step; by apply sent_nil]. apply consoleputc_ok; [done|]. destruct Hr; split; [lia|done]. }
  wp_step. wp_call Hm. intros [] s1 H1. rewrite (proj2 (Z.ltb_ge 20 _)) by lia.
  assert (ready (length (reverse buf)) (co_uart s1)) as Hr1.
  { destruct Hr as [R1 R2]. split; rewrite (se_in _ _ _ H1); [|by apply Forall_drop].
    rewrite length_drop, length_reverse. destruct neg; cbn [length]; lia. }
  wp_call (putcs_ok (reverse buf) s1 (se_ok _ _ _ H1) Hr1). intros [] s2 H2.
  exists (reverse buf). split_and!.
  - by eapply sent_app.
  - unfold numeral_val. by rewrite reverse_involutive, Hval.
  - rewrite length_reverse, El, length_app. cbn. lia.
  - rewrite length_reverse. lia.
  - rewrite El, reverse_app. cbn. intros [= ->]. destruct (Hc eq_refl) as [-> Ez]. split; [done|].
    rewrite Ez in Ex. destruct neg; [lia|]. unfold u64 in Ex. dlia.
Qed.

(** Printint prints the number: with [sign] set a minus sign for a negative
    value, then the digits, most significant first and without leading zeros, of its
    absolute value, and otherwise those of the value as an unsigned 64-bit number.
    The digits always fit in the 20 bytes of [buf]. *)
Theorem printint_prints val base sign s :
  10 ≤ base ≤ 16 → - 2 ^ 63 ≤ val < 2 ^ 63 → con_ok s → ready 21 (co_uart s) →
  let neg := negb (sign =? 0) && (val <? 0) in
  wp (printint val base sign) (λ _ s', ∃ cs, sent s ((if neg then [chr_minus] else []) ++ cs) s' ∧
    numeral_val base cs = (if neg then - val else u64 val) ∧ (1 ≤ length cs ≤ 20)%nat ∧
    (head cs = Some 48 → cs = [48] ∧ val = 0)) s.
Proof. intros Hb Hv. apply printint_ok; lia. Qed.

(** ** Formats: how much is printed

    An upper bound on the number of characters, None when an argument does not have the
    type its conversion expects. *)
Definition va_ok (v : va) : Prop := match v with VInt z => - 2 ^ 63 ≤ z < 2 ^ 63 | VPtr z => 0 ≤ z < 2 ^ 64 | VStr _ => True end.
Fixpoint fits (fmt : list Z) (ap : list va) : option nat :=
  match fmt with
  | [] => Some 0%nat
  | c :: fmt' =>
      if negb (c =? chr_percent) then S <$> fits fmt' ap
      else
        match fmt' with
        | [] => Some 0%nat
        | c :: fmt'' =>
            if (c =? 100) || (c =? 120) then match ap with VInt _ :: ap => Nat.add 21 <$> fits fmt'' ap | _ => None end
            else if c =? 112 then match ap with VPtr _ :: ap => Nat.add 23 <$> fits fmt'' ap | _ => None end
            else if c =? 115 then match ap with VStr o :: ap => Nat.add (length (default str_null o)) <$> fits fmt'' ap | _ => None end
            else if c =? 99 then match ap with VInt _ :: ap => S <$> fits fmt'' ap | _ => None end
            else Nat.add 2 <$> fits fmt'' ap
        end
  end.

(** At most [n] characters were sent. *)
Definition sent_upto s (n : nat) s' : Prop := ∃ cs, (length cs ≤ n)%nat ∧ sent s cs s'.

Lemma ready_mono n k u : ready n u → (k ≤ n)%nat → ready k u.
Proof. intros [? ?] ?. split; [lia|done]. Qed.

Lemma upto_ready s n s' k : ready (n + k) (co_uart s) → sent_upto s n s' → ready k (co_uart s').
Proof. intros Hr (cs & Hn & H). eapply (ready_drop (length cs)); [|apply H]. eapply ready_mono; [exact Hr|lia]. Qed.

Lemma upto_ok s n s' : sent_upto s n s' → con_ok s'.
Proof. intros (cs & _ & H). apply H. Qed.

Lemma upto_app s n s1 k s2 : con_ok s → sent_upto s n s1 → sent_upto s1 k s2 → sent_upto s (n + k) s2.
Proof. intros Hok (c1 & ? & H1) (c2 & ? & H2). exists (c1 ++ c2). split; [rewrite length_app; lia|by eapply sent_app]. Qed.

Lemma upto_bind {A} (c : M (con D) A) (k : A → M (con D) unit) n m s :
  con_ok s → ready (n + m) (co_uart s) → wp c (λ _ s', sent_upto s n s') s →
  (∀ a s', con_ok s' → ready m (co_uart s') → c s = Ok a s' → wp (k a) (λ _ s'', sent_upto s' m s'') s') →
  wp (bind c k) (λ _ s', sent_upto s (n + m) s') s.
Proof.
  intros Hok Hr Hc Hk. destruct (wp_Ok _ _ _ Hc) as (a & s1 & E & H1). wp_step. eapply wp_of_Ok; [exact E|].
  wp_call (Hk a s1 (upto_ok _ _ _ H1) (upto_ready _ _ _ _ Hr H1) E). intros [] s2 H2. by eapply upto_app.
Qed.

Lemma putcs_upto cs n s : con_ok s → ready n (co_uart s) → (length cs ≤ n)%nat → wp (each cs consoleputc) (λ _ s', sent_upto s n s') s.
Proof. intros Hok Hr Hn. wp_call (putcs_ok cs s Hok (ready_mono _ _ _ Hr Hn)). intros [] s' H. by exists cs. Qed.

Lemma putc_upto c n s : con_ok s → ready n (co_uart s) → (1 ≤ n)%nat → wp (consoleputc c) (λ _ s', sent_upto s n s') s.
Proof. intros Hok Hr Hn. wp_call (consoleputc_ok c s Hok (ready_mono _ _ _ Hr Hn)). intros [] s' H. exists [c]. done. Qed.

Lemma printint_upto val base sign s : 10 ≤ base ≤ 16 → - 2 ^ 63 ≤ val < 2 ^ 64 → con_ok s → ready 21 (co_uart s) →
  wp (printint val base sign) (λ _ s', sent_upto s 21 s') s.
Proof.
  intros Hb Hv Hok Hr. wp_call (printint_ok val base sign s Hb Hv Hok Hr). intros [] s' (cs & H & _ & Hl & _).
  eexists. split; [|exact H]. rewrite length_app. case_match; cbn; lia.
Qed.

(** A conversion with arguments of the right types prints within its bound. *)
Lemma vprintf_runs fmt ap n s : fits fmt ap = Some n → Forall va_ok ap → con_ok s → ready n (co_uart s) →
  wp (vprintf fmt ap) (λ _ s', sent_upto s n s') s.
Proof.
  revert ap n s. induction fmt as [fmt IH] using (induction_ltof1 _ (@length Z)). unfold ltof in IH. intros ap n s Hf Hv Hok Hr.
  assert (∀ s, con_ok s → sent_upto s 0 s) as Hnil by (intros s0 H; exists []; split; [done|by apply sent_nil]).
  destruct fmt as [|c fmt']; cbn [fits vprintf] in *; [injection Hf as <-; wp_step; auto|].
  destruct (c =? chr_percent); cbn [negb] in *.
  2: { apply fmap_Some in Hf as (k & Hf & ->). apply (upto_bind _ _ 1 k); [done|done|by apply putc_upto; [|eapply ready_mono; [exact Hr|lia]|]|].
       intros [] s1 Hok1 Hr1 _. apply (IH fmt'); [cbn; lia|done|done|done|done]. }
  destruct fmt' as [|d fmt'']; [injection Hf as <-; wp_step; auto|].
  assert (∀ ap' k s1, Forall va_ok ap' → fits fmt'' ap' = Some k → con_ok s1 → ready k (co_uart s1) → wp (vprintf fmt'' ap') (λ _ s', sent_upto s1 k s') s1) as Hrest
    by (intros; apply (IH fmt''); [cbn; lia|done..]).
  assert (∀ (c1 : M (con D) (list va)) ap' m k, Forall va_ok ap' → fits fmt'' ap' = Some k → n = (m + k)%nat →
    wp c1 (λ r s', r = ap' ∧ sent_upto s m s') s → wp (do ap0 <- c1; vprintf fmt'' ap0) (λ _ s', sent_upto s n s') s) as Hstep.
  { intros c1 ap' m k Hap Hk -> Hc1. apply (upto_bind _ _ m k); [done|done|wp_call Hc1; by intros r s1 []|].
    intros r s1 Hok1 Hr1 E. unfold wp in Hc1. rewrite E in Hc1. destruct Hc1 as [-> _]. by apply Hrest. }
  assert (∀ k, (k ≤ n)%nat → ready k (co_uart s)) as Hrk by (intros k Hk; by eapply ready_mono).
  unfold convert. revert Hf. destruct (d =? 100); [|destruct (d =? 120); [|destruct (d =? 112); [|destruct (d =? 115); [|destruct (d =? 99)]]]]; cbn [orb]; intros Hf.
  1-5: destruct ap as [|[v|v|o] ap']; try done; apply fmap_Some in Hf as (k & Hf & En); apply Forall_cons in Hv as [Hv1 Hv]; cbn in Hv1.
  6: apply fmap_Some in Hf as (k & Hf & En).
  - apply (Hstep _ ap' 21%nat k Hv Hf En). wp_step. wp_call (printint_upto v 10 1 s); [lia|lia|done|apply Hrk; lia|]. intros [] s1 H1. by wp_step.
  - apply (Hstep _ ap' 21%nat k Hv Hf En). wp_step. wp_call (printint_upto v 16 0 s); [lia|lia|done|apply Hrk; lia|]. intros [] s1 H1. by wp_step.
  - apply (Hstep _ ap' 23%nat k Hv Hf En). assert (wp (each [48; 120] consoleputc) (λ _ s', sent_upto s 2 s') s) as H0 by (apply putcs_upto; [done|apply Hrk; lia|done]).
    cbn [each] in H0. destruct (wp_Ok _ _ _ H0) as ([] & s1 & E & H1). wp_step. unfold wp, bind, ret in E |- *.
    destruct (consoleputc 48 s) as [[] sa|]; [|done]. destruct (consoleputc 120 sa) as [[] sb|]; [|done]. injection E as ->.
    pose proof (printint_upto v 16 0 s1 ltac:(lia) ltac:(lia) (upto_ok _ _ _ H1) (upto_ready _ 2 _ 21 (Hrk 23%nat ltac:(lia)) H1)) as H2. unfold wp in H2.
    destruct (printint v 16 0 s1) as [[] s2|]; [|done]. split; [done|]. by apply (upto_app s 2 s1 21).
  - apply (Hstep _ ap' _ k Hv Hf En). wp_step. wp_call (putcs_upto (default str_null o) (length (default str_null o)) s Hok); [apply Hrk; lia|done|]. intros [] s1 H1. by wp_step.
  - apply (Hstep _ ap' 1%nat k Hv Hf En). wp_step. wp_call (putc_upto v 1 s Hok (Hrk 1%nat ltac:(lia)) (Nat.le_refl _)). intros [] s1 H1. by wp_step.
  - apply (Hstep _ ap 2%nat k Hv Hf En). destruct (d =? chr_percent); wp_step; [wp_call (putc_upto chr_percent 2 s Hok (Hrk 2%nat ltac:(lia)) ltac:(lia)); intros [] s1 H1; by wp_step|].
    wp_call (putc_upto chr_percent 1 s Hok (Hrk 1%nat ltac:(lia)) (Nat.le_refl _)). intros [] s1 H1. wp_step.
    wp_call (putc_upto d 1 s1 (upto_ok _ _ _ H1) (upto_ready _ 1 _ 1 (Hrk 2%nat ltac:(lia)) H1) (Nat.le_refl _)). intros [] s2 H2. wp_step. split; [done|]. by apply (upto_app s 1 s1 1).
Qed.

(** Printing under pr.lock. *)
Definition with_pr s : con D := over on_pr (push (c_hart s), held (pr_lock s) (tp (c_hart s))) s.

Lemma pr_enter s : con_ok s → lock_free (pr_lock s) → panicking s = 0 →
  when (panicking s =? 0) (zoom on_pr acquire) s = Ok tt (with_pr s) ∧ con_ok (with_pr s).
Proof.
  intros [H1 H2] Hl Hp. rewrite Hp. split; [by apply (zoom_acquire on_pr s (c_hart s) (pr_lock s))|]. split; [by apply push_ok|done].
Qed.

Lemma pr_leave s n s2 : con_ok s → lock_free (pr_lock s) → panicking s = 0 → sent_upto (with_pr s) n s2 →
  wp (do s <- get; when (panicking s =? 0) (zoom on_pr release)) (λ _ s', sent_upto s n s') s2.
Proof.
  intros [H1 H2] Hl Hp (cs & Hn & [A1 A2 [A3 A3'] A4 A5 A6 (A7 & A8 & A9 & A10)]). wp_step. wp_step. rewrite A8. change (panicking (with_pr s)) with (panicking s). rewrite Hp. cbn [Z.eqb when].
  assert (c_hart s2 = push (c_hart s)) as Eh by (destruct A4 as [E|E]; rewrite E; [done|]; by apply sync_push).
  eapply wp_of_Ok; [apply (zoom_release on_pr s2 (c_hart s) (pr_lock s)); [by unfold on_pr; cbn; rewrite Eh, A7|done|done]|].
  exists cs. split; [done|]. split; cbn in *; try done; [split; [by apply sync_ok|by rewrite A10]|auto with hart].
Qed.

Lemma printf_runs fmt ap n s : fits fmt ap = Some n → Forall va_ok ap → con_ok s → lock_free (pr_lock s) → panicking s = 0 →
  ready n (co_uart s) → wp (printf fmt ap) (λ _ s', sent_upto s n s') s.
Proof.
  intros Hf Hv Hok Hl Hp Hr. unfold printf. wp_step. wp_step. wp_step. destruct (pr_enter s Hok Hl Hp) as [E Hok1].
  eapply wp_of_Ok; [exact E|]. wp_step. wp_call (vprintf_runs fmt ap n (with_pr s) Hf Hv Hok1 Hr). intros [] s2 H2. by apply pr_leave.
Qed.

Lemma printf_color_runs color fmt n s : fits fmt [] = Some n → - 2 ^ 63 ≤ color < 2 ^ 63 → con_ok s → lock_free (pr_lock s) → panicking s = 0 →
  ready (n + 28) (co_uart s) → wp (printf_color color fmt []) (λ _ s', sent_upto s (n + 28) s') s.
Proof.
  intros Hf Hc Hok Hl Hp Hr. unfold printf_color. wp_step. wp_step. wp_step. destruct (pr_enter s Hok Hl Hp) as [E Hok1].
  eapply wp_of_Ok; [exact E|]. assert (ready (n + 28) (co_uart (with_pr s))) as Hr1 by exact Hr. set (s1 := with_pr s) in *.
  assert (∀ a s' k, sent_upto s1 a s' → (a + k ≤ n + 28)%nat → ready k (co_uart s')) as Hk by (intros a s' k H Hk; apply (upto_ready s1 a s' k); [by eapply ready_mono|done]).
  wp_step. wp_call (putc_upto chr_esc 1 s1 Hok1 (ready_mono _ 1%nat _ Hr1 ltac:(lia)) (Nat.le_refl _)). intros [] s2 H2.
  wp_step. wp_call (putc_upto 91 1 s2 (upto_ok _ _ _ H2) (Hk _ _ 1%nat H2 ltac:(lia)) (Nat.le_refl _)). intros [] s3 H3.
  pose proof (upto_app _ _ _ _ _ Hok1 H2 H3) as H13. wp_step.
  wp_call (printint_upto color 10 0 s3 ltac:(lia) ltac:(lia) (upto_ok _ _ _ H3) (Hk _ _ 21%nat H13 ltac:(lia))). intros [] s4 H4.
  pose proof (upto_app _ _ _ _ _ Hok1 H13 H4) as H14. wp_step.
  wp_call (putc_upto 109 1 s4 (upto_ok _ _ _ H4) (Hk _ _ 1%nat H14 ltac:(lia)) (Nat.le_refl _)). intros [] s5 H5.
  pose proof (upto_app _ _ _ _ _ Hok1 H14 H5) as H15. wp_step.
  wp_call (vprintf_runs fmt [] n s5 Hf (Forall_nil_2 _) (upto_ok _ _ _ H5) (Hk _ _ n H15 ltac:(lia))). intros [] s6 H6.
  pose proof (upto_app _ _ _ _ _ Hok1 H15 H6) as H16. wp_step.
  wp_call (putcs_upto str_reset 4 s6 (upto_ok _ _ _ H6) (Hk _ _ 4%nat H16 ltac:(lia)) (Nat.le_refl _)). intros [] s7 H7.
  pose proof (upto_app _ _ _ _ _ Hok1 H16 H7) as H17. replace (n + 28)%nat with (2 + 21 + 1 + n + 4)%nat by lia. by apply pr_leave.
Qed.

(** C29: clear_screen, goto_xy and clear_line take cons_lock and then print with
    consoleputc, which takes it again: they panic on every call. A panic() raised
    while this CPU prints, holding pr.lock, panics once more in its own printf,
    since it sets [panicked] and not [panicking]. *)
Theorem console_relocks s x y msg l :
  hart_ok (c_hart s) → lock_free (cons_lock s) →
  faults clear_screen s (Panicked "acquire") ∧
  faults (goto_xy x y) s (Panicked "acquire") ∧
  faults clear_line s (Panicked "acquire") ∧
  (panicking s = 0 → locked (pr_lock s) ≠ 0 → lk_cpu (pr_lock s) = Some (tp (c_hart s)) →
   faults (kpanic msg l) s (Panicked "acquire")).
Proof.
  intros Hh Hl. pose proof (zoom_acquire on_cons s (c_hart s) (cons_lock s) eq_refl Hh Hl) as Ea.
  set (s1 := over on_cons (push (c_hart s), held (cons_lock s) (tp (c_hart s))) s) in *.
  assert (∀ c A (k : unit → M (con D) A), faults (bind (consoleputc c) k) s1 (Panicked "acquire")) as Hput.
  { intros c A k. pose proof (acquire_twice (push (c_hart s)) (held (cons_lock s) (tp (c_hart s))) (push_ok _ Hh) ltac:(done) eq_refl) as Hf.
    unfold faults in *. unfold consoleputc, zoom, bind. cbn. destruct (acquire _) as [|f t]; [done|exact Hf]. }
  split_and!.
  - unfold faults, clear_screen. rewrite (bind_Ok _ _ _ _ _ Ea). unfold consoleputs, str_clear. cbn [each].
    pose proof (Hput 27 unit (λ _, each [91; 50; 74; 27; 91; 51; 74; 27; 91; 72] consoleputc)) as Hf. unfold faults in Hf.
    unfold bind at 1. destruct (bind (consoleputc 27) _ s1); [done|exact Hf].
  - unfold faults, goto_xy. rewrite (bind_Ok _ _ _ _ _ Ea). unfold consoleputs, str_csi. cbn [each].
    pose proof (Hput 27 unit (λ _, each [91] consoleputc)) as Hf. unfold faults in Hf.
    unfold bind at 1. destruct (bind (consoleputc 27) _ s1); [done|exact Hf].
  - unfold faults, clear_line. rewrite (bind_Ok _ _ _ _ _ Ea). unfold consoleputs, str_line. cbn [each].
    pose proof (Hput 27 unit (λ _, each [91; 50; 75] consoleputc)) as Hf. unfold faults in Hf.
    unfold bind at 1. destruct (bind (consoleputc 27) _ s1); [done|exact Hf].
  - intros Hp Hlk Hcpu. pose proof (acquire_twice (c_hart s) (pr_lock s) Hh Hlk Hcpu) as Hf.
    unfold faults in *. unfold kpanic, printf, when, bind, modify, get, zoom. cbn. rewrite Hp. cbn.
    unfold c_hart in *. cbn [co_f]. destruct (acquire (p_hart (f_p (co_f s)), pr_lock s)) as [|f t]; [done|exact Hf].
Qed.
End console.

(** A console whose transmitter is idle. *)
Definition demo_con (pr : spinlock) : con ram_disk :=
  Con (Fst (Lst (Bst demo_pst (Spin 0 "" None) [] None None (RamDisk ∅ [])) (Spin 0 "log" None) 2 0 0 ROOTDEV (Lh 0 []))
         (Kmem (Spin 0 "kmem" None) 0 ∅) (Sb 0 0 0 0 0 0 0 0) (Spin 0 "itable" None) [])
      (Spin 0 "cons" None) pr (Mmio (replicate 30 32) []) 0 0 (replicate 10 (None, None)).

Lemma printint_prints_witness :
  wp (printint (- 2 ^ 63) 10 1) (λ _ s', ∃ cs, sent (demo_con (Spin 0 "pr" None)) ([chr_minus] ++ cs) s' ∧
    numeral_val 10 cs = 2 ^ 63 ∧ (1 ≤ length cs ≤ 20)%nat ∧ (head cs = Some 48 → cs = [48] ∧ - 2 ^ 63 = 0)) (demo_con (Spin 0 "pr" None)).
Proof.
  apply (printint_prints (- 2 ^ 63) 10 1 (demo_con (Spin 0 "pr" None))).
  - lia.
  - lia.
  - split; [apply demo_hart_ok|by split].
  - split; [cbn; lia|]. apply Forall_replicate. by vm_compute.
Defined.

Lemma console_relocks_witness :
  faults clear_screen (demo_con (Spin 1 "pr" (Some 0))) (Panicked "acquire") ∧
  faults (kpanic "x" [120]) (demo_con (Spin 1 "pr" (Some 0))) (Panicked "acquire").
Proof.
  destruct (console_relocks (demo_con (Spin 1 "pr" (Some 0))) 0 0 "x" [120] demo_hart_ok (conj eq_refl eq_refl)) as (H1 & _ & _ & H2).
  split; [exact H1|]. by apply H2.
Defined.
