(* ===== verification/FsBlocks.v ===== *)
(** * The block allocator of kernel/fs.c

    The laws of FsRep lifted to the file system's state, the bits of the free
    map, and what balloc and bfree do to them. *)
From S2P Require Import Prelude Memory KString Riscv Spinlock Kalloc Vm Sched Sleeplock Disk Bio BioSpec BioInv BioOps Log LogSpec LogOps LogTx FsRep Fs.

(** ** Bits *)
Lemma bit_set_testbit bi d :
  bit_set bi d = Z.testbit (d !!! Z.to_nat (bi `div` 8)) (bi `mod` 8).
Proof.
  unfold bit_set. set (v := d !!! _). set (k := bi `mod` 8).
  assert (0 ≤ k) as Hk by (unfold k; dlia).
  rewrite Z.shiftl_1_l. destruct (Z.testbit v k) eqn:E.
  - apply negb_true_iff, Z.eqb_neq. intros H0. apply (f_equal (λ z, Z.testbit z k)) in H0.
    rewrite Z.land_spec, E, Z.pow2_bits_true, Z.bits_0 in H0 by done. done.
  - apply negb_false_iff, Z.eqb_eq. apply Z.bits_inj'. intros n Hn. rewrite Z.land_spec, Z.bits_0.
    destruct (decide (n = k)) as [->|Hne]; [by rewrite E|].
    rewrite Z.pow2_bits_false by done. apply andb_false_r.
Qed.

Lemma u8_testbit v k : 0 ≤ k < 8 → Z.testbit (u8 v) k = Z.testbit v k.
Proof. intros Hk. unfold u8. change 256 with (2 ^ 8). apply Z.mod_pow2_bits_low. lia. Qed.

Lemma length_set_bit bi d : length (set_bit bi d) = length d.
Proof. apply length_alter. Qed.
Lemma length_clear_bit bi d : length (clear_bit bi d) = length d.
Proof. apply length_alter. Qed.

(** A change of byte [bi / 8] of a block, seen as a change of bits. *)
Lemma bit_alter (g : Z → Z) bi bj d :
  0 ≤ bi → 0 ≤ bj → (Z.to_nat (bi `div` 8) < length d)%nat →
  bit_set bj (alter g (Z.to_nat (bi `div` 8)) d) =
    if decide (bj `div` 8 = bi `div` 8) then Z.testbit (g (d !!! Z.to_nat (bi `div` 8))) (bj `mod` 8) else bit_set bj d.
Proof.
  intros Hi Hj Hlen. rewrite !bit_set_testbit. case_decide as E.
  - by rewrite E, list_lookup_total_alter_eq.
  - rewrite list_lookup_total_alter_ne; [done|]. intros E'. apply E. dlia.
Qed.

Lemma bit_set_bit bi bj d :
  0 ≤ bi → 0 ≤ bj → (Z.to_nat (bi `div` 8) < length d)%nat →
  bit_set bj (set_bit bi d) = bool_decide (bj = bi) || bit_set bj d.
Proof.
  intros Hi Hj Hlen. unfold set_bit. rewrite bit_alter by done. case_decide as E.
  - rewrite u8_testbit, Z.lor_spec, Z.shiftl_1_l by dlia. rewrite bit_set_testbit, E.
    case_bool_decide as Hb.
    + subst. rewrite Z.pow2_bits_true by dlia. apply orb_true_r.
    + rewrite Z.pow2_bits_false, orb_false_r by dlia. done.
  - by rewrite bool_decide_false by (intros ->; done).
Qed.

Lemma bit_clear_bit bi bj d :
  0 ≤ bi → 0 ≤ bj → (Z.to_nat (bi `div` 8) < length d)%nat →
  bit_set bj (clear_bit bi d) = negb (bool_decide (bj = bi)) && bit_set bj d.
Proof.
  intros Hi Hj Hlen. unfold clear_bit. rewrite bit_alter by done. case_decide as E.
  - rewrite u8_testbit, Z.land_spec, Z.lnot_spec, Z.shiftl_1_l by dlia. rewrite bit_set_testbit, E.
    case_bool_decide as Hb.
    + subst. rewrite Z.pow2_bits_true by dlia. apply andb_false_r.
    + rewrite Z.pow2_bits_false by dlia. rewrite andb_true_r. done.
  - by rewrite bool_decide_false by (intros ->; done).
Qed.

(** ** The free map *)

(** Block [b] is marked in use on the disk [f]. *)
Definition blk_used (sb : superblock) (f : Z → block) (b : Z) : bool :=
  bit_set (b `mod` BPB) (f (BBLOCK b sb)).

(** The bitmap is outside the log. *)
Record fs_layout (L : Z) (sb : superblock) : Prop := {
  lo_size : 0 < sb_size sb < 2 ^ 31;
  lo_bmap : 0 ≤ sb_bmapstart sb < 2 ^ 31;
  lo_home b : 0 ≤ b < sb_size sb → home L (sb_bmapstart sb + b `div` BPB)
}.

(** Blocks have BSIZE bytes; what the free map calls free is neither in the log
    nor in the free map itself. *)
Record blocks_ok (L : Z) (sb : superblock) (f : Z → block) : Prop := {
  bk_len x : Z.of_nat (length (f x)) = BSIZE;
  bk_free b : 0 ≤ b < sb_size sb → blk_used sb f b = false →
    home L b ∧ ∀ c, 0 ≤ c < sb_size sb → BBLOCK c sb ≠ b
}.

Lemma BBLOCK_eq L sb b : fs_layout L sb → 0 ≤ b < sb_size sb → BBLOCK b sb = sb_bmapstart sb + b `div` BPB.
Proof.
  intros [_ _ Hh] Hb. destruct (Hh b Hb) as [Hr _]. unfold BBLOCK. rewrite u32_small by lia. lia.
Qed.

Lemma BBLOCK_home L sb b : fs_layout L sb → 0 ≤ b < sb_size sb → home L (BBLOCK b sb).
Proof. intros Hl Hb. rewrite (BBLOCK_eq L) by done. by apply Hl. Qed.

(** Two blocks with the same bitmap block and the same bit are the same. *)
Lemma bit_of_inj L sb b c :
  fs_layout L sb → 0 ≤ b < sb_size sb → 0 ≤ c < sb_size sb →
  BBLOCK b sb = BBLOCK c sb → b `mod` BPB = c `mod` BPB → b = c.
Proof.
  intros Hl Hb Hc HB Hm. rewrite !(BBLOCK_eq L) in HB by done.
  rewrite (Z.div_mod b BPB), (Z.div_mod c BPB) by done. rewrite Hm. f_equal. f_equal. lia.
Qed.

Lemma bit_index b : 0 ≤ b `mod` BPB < BPB.
Proof. apply Z.mod_pos_bound. done. Qed.

Lemma bit_byte (d : block) b : Z.of_nat (length d) = BSIZE → (Z.to_nat ((b `mod` BPB) `div` 8) < length d)%nat.
Proof. intros Hd. pose proof (bit_index b). unfold BPB in *. unfold BSIZE in *. dlia. Qed.

(** The effect of marking and of clearing one block. *)
Lemma used_mark L sb f b c :
  fs_layout L sb → blocks_ok L sb f → 0 ≤ b < sb_size sb → 0 ≤ c < sb_size sb →
  blk_used sb (fupd f (BBLOCK b sb) (set_bit (b `mod` BPB) (f (BBLOCK b sb)))) c =
    bool_decide (c = b) || blk_used sb f c.
Proof.
  intros Hl Hk Hb Hc. unfold blk_used. unfold fupd. case_decide as E.
  - pose proof (bit_index b). pose proof (bit_index c).
    rewrite bit_set_bit; [|lia|lia|apply bit_byte, Hk]. rewrite <- E. f_equal.
    apply bool_decide_ext. split; [|by intros ->]. intros Hm. by apply (bit_of_inj L sb).
  - by rewrite bool_decide_false by (intros ->; done).
Qed.

Lemma used_clear L sb f b c :
  fs_layout L sb → (∀ x, Z.of_nat (length (f x)) = BSIZE) → 0 ≤ b < sb_size sb → 0 ≤ c < sb_size sb →
  blk_used sb (fupd f (BBLOCK b sb) (clear_bit (b `mod` BPB) (f (BBLOCK b sb)))) c =
    negb (bool_decide (c = b)) && blk_used sb f c.
Proof.
  intros Hl Hk Hb Hc. unfold blk_used. unfold fupd. case_decide as E.
  - pose proof (bit_index b). pose proof (bit_index c).
    rewrite bit_clear_bit; [|lia|lia|apply bit_byte, Hk]. rewrite <- E. f_equal. f_equal.
    apply bool_decide_ext. split; [|by intros ->]. intros Hm. by apply (bit_of_inj L sb).
  - by rewrite bool_decide_false by (intros ->; done).
Qed.

Lemma wp_ret3 {S} (a b c : M S unit) Q s : wp (a ;; b ;; c ;; ret tt) Q s → wp (a ;; b ;; c) Q s.
Proof.
  unfold wp, bind, ret. destruct (a s) as [? s1|]; [|done]. destruct (b s1) as [? s2|]; [|done].
  by destruct (c s2) as [[] ?|].
Qed.

Lemma add_block_le x bl : (length (add_block x bl) ≤ length bl + 1)%nat.
Proof. unfold add_block. case_decide; rewrite ?length_app; cbn; lia. Qed.

(** ** Buffer operations on the file system's state *)
Section ops.
Context {D : Type} `{!BlockDev D}.
Implicit Types (s : fst D) (v : txv).

Definition frep s v : Prop := srep (f_l s) v.
Record fkeep s s' : Prop := {
  fk_l : skeep (f_l s) (f_l s');
  fk_km : f_km s' = f_km s;
  fk_sb : f_sb s' = f_sb s;
  fk_it : it_lock s' = it_lock s;
  fk_ino : inodes s' = inodes s
}.
#[export] Instance fkeep_preorder : PreOrder fkeep.
Proof.
  split.
  - intros s. by split.
  - intros s1 s2 s3 [A1 A2 A3 A4 A5] [B1 B2 B3 B4 B5]. split; [by etransitivity|congruence..].
Qed.

Lemma fkeep_start s s' : fkeep s s' → (∃ v, frep s v) → log_start (f_l s') = log_start (f_l s).
Proof.
  intros [Hk _ _ _ _] [v Hv]. destruct (Hk (srep_pst _ _ Hv)) as [K _]. apply (kp_start _ _ K).
Qed.

Lemma lift_l {A} (c : M (lst D) A) (Q : A → lst D → Prop) s :
  wp c (λ a l, Q a l ∧ skeep (f_l s) l) (f_l s) → wp (zoom on_l c) (λ a s', Q a (f_l s') ∧ fkeep s s') s.
Proof. intros H. apply wp_zoom. eapply wp_mono; [exact H|]. intros a l [Hq Hk]. by split. Qed.

Lemma lift_c {A} (c : M (bst D) A) (Q : A → lst D → Prop) s :
  wp (zoom on_b c) (λ a l, Q a l ∧ skeep (f_l s) l) (f_l s) → wp (zoom on_cache c) (λ a s', Q a (f_l s') ∧ fkeep s s') s.
Proof.
  intros H. unfold wp, zoom in *. cbn in *. destruct (c (l_b (f_l s))) as [a b|]; [|done].
  destruct H as [Hq Hk]. split; [done|]. by split.
Qed.

Lemma fs_bread s v dev x :
  frep s v → u32 dev = ROOTDEV → 0 ≤ x < 2 ^ 31 → ¬ held_blk (v_held v) x →
  (length (v_log v) + size (v_held v) < Z.to_nat NBUF)%nat →
  wp (fbread dev x) (λ i s', frep s' (v_bread i x v) ∧ v_held v !! i = None ∧ fkeep s s') s.
Proof.
  intros Hs Hdev Hx Hh Hn. unfold fbread. rewrite Hdev, u32_small by lia.
  wp_call (lift_c (bread ROOTDEV x) (λ i l, srep l (v_bread i x v) ∧ v_held v !! i = None)).
  - wp_call (st_bread (f_l s) v x); [done|done|done|done|]. intros i l (H1 & H2 & H3). done.
  - intros i s' [[H1 H2] H3]. done.
Qed.

Lemma fs_data s v i x : frep s v → v_held v !! i = Some x → wp (fdata i) (λ d s', d = v_view v x ∧ s' = s) s.
Proof. intros Hs Hi. unfold fdata. wp_step. by rewrite (st_data _ _ _ _ Hs Hi). Qed.

Lemma fs_set s v i x g :
  frep s v → v_held v !! i = Some x →
  wp (fset i g) (λ _ s', frep s' (v_set x (g (v_view v x)) v) ∧ fkeep s s') s.
Proof.
  intros Hs Hi. unfold fset. apply (lift_c (set_data i g) (λ _ l, srep l (v_set x (g (v_view v x)) v))).
  by apply st_set.
Qed.

Lemma fs_log s v i x :
  frep s v → v_held v !! i = Some x → (length (v_log v) < Z.to_nat LOGBLOCKS)%nat → home (log_start (f_l s)) x →
  wp (flog_write i) (λ _ s', frep s' (v_logged x v) ∧ fkeep s s') s.
Proof.
  intros Hs Hi Hn Hx. unfold flog_write. apply (lift_l (log_write i) (λ _ l, srep l (v_logged x v))).
  by apply st_log.
Qed.

Lemma fs_brelse s v i x :
  frep s v → v_held v !! i = Some x → x ∈ v_log v ∨ v_view v x = v_disk v x →
  wp (fbrelse i) (λ _ s', frep s' (v_brelse i v) ∧ fkeep s s') s.
Proof.
  intros Hs Hi Hx. unfold fbrelse. apply (lift_c (brelse i) (λ _ l, srep l (v_brelse i v))).
  by apply (st_brelse _ _ _ x).
Qed.

(** A block that is neither held nor modified can be read and released. *)
Lemma clean_or_logged s v x : frep s v → ¬ held_blk (v_held v) x → x ∈ v_log v ∨ v_view v x = v_disk v x.
Proof. intros Hs Hh. destruct (decide (x ∈ v_log v)); [by left|right]. by apply (sr_clean _ _ Hs). Qed.

(** The view with block [x] replaced, in the log. *)
Definition v_put (x : Z) (d : block) v : txv :=
  Txv (fupd (v_view v) x d) (v_disk v) (add_block x (v_log v)) (v_held v).

Lemma v_put_released i x d v : v_held v !! i = None →
  v_brelse i (v_logged x (v_set x d (v_bread i x v))) = v_put x d v.
Proof.
  intros Hi. unfold v_brelse, v_logged, v_set, v_bread, v_put. cbn. f_equal. by apply delete_insert_id.
Qed.

Lemma v_bread_released i x v : v_held v !! i = None → v_brelse i (v_bread i x v) = v.
Proof.
  intros Hi. unfold v_brelse, v_bread. destruct v. cbn in *. f_equal. by apply delete_insert_id.
Qed.

(** Replacing the contents of one block: the tail of the C functions that have
    read the block into buffer [i]. *)
Lemma fs_put_tail s v i x g {A} (k : M (fst D) A) Q :
  frep s (v_bread i x v) → v_held v !! i = None → (length (v_log v) < Z.to_nat LOGBLOCKS)%nat →
  home (log_start (f_l s)) x →
  (∀ s', frep s' (v_put x (g (v_view v x)) v) → fkeep s s' → wp k Q s') →
  wp (fset i g ;; flog_write i ;; fbrelse i ;; k) Q s.
Proof.
  intros Hs Hi Hn Hx Hk. assert (v_held (v_bread i x v) !! i = Some x) as Hh by (cbn; apply lookup_insert_eq).
  wp_step. wp_call (fs_set s _ i x g); [done|done|]. intros [] s1 [Hs1 Hk1].
  wp_step. wp_call (fs_log s1 _ i x); [exact Hs1|exact Hh|done| |].
  { by rewrite (fkeep_start s s1) by eauto. }
  intros [] s2 [Hs2 Hk2]. wp_step. wp_call (fs_brelse s2 _ i x); [exact Hs2|exact Hh|left; apply elem_of_add_block; auto|].
  intros [] s3 [Hs3 Hk3]. rewrite v_put_released in Hs3 by done. apply Hk; [done|].
  transitivity s1; [done|]. by transitivity s2.
Qed.

Lemma bzero_ok s v dev x :
  frep s v → u32 dev = ROOTDEV → home (log_start (f_l s)) x → ¬ held_blk (v_held v) x →
  (length (v_log v) + size (v_held v) < Z.to_nat NBUF)%nat →
  wp (bzero dev x) (λ _ s', frep s' (v_put x zero_block v) ∧ fkeep s s') s.
Proof.
  intros Hs Hdev Hx Hh Hn. unfold bzero. wp_step.
  wp_call (fs_bread s v dev x); [done|done|apply Hx|done|done|]. intros i s1 (Hs1 & Hi & Hk1).
  apply wp_ret3. apply (fs_put_tail s1 v i x); [done|done|change LOGBLOCKS with NBUF; lia| |].
  { by rewrite (fkeep_start s s1) by eauto. }
  intros s' Hs' Hk'. wp_step. split; [done|]. by transitivity s1.
Qed.

(** ** balloc *)

(** The disk after block [b] has been allocated. *)
Definition v_alloc (sb : superblock) (b : Z) v : txv :=
  v_put b zero_block (v_put (BBLOCK b sb) (set_bit (b `mod` BPB) (v_view v (BBLOCK b sb))) v).

(** No bitmap block and no free block is held. *)
Record alloc_pre s v : Prop := {
  ap_rep : frep s v;
  ap_layout : fs_layout (log_start (f_l s)) (f_sb s);
  ap_blocks : blocks_ok (log_start (f_l s)) (f_sb s) (v_view v);
  ap_bmap b : 0 ≤ b < sb_size (f_sb s) → ¬ held_blk (v_held v) (BBLOCK b (f_sb s));
  ap_free b : 0 ≤ b < sb_size (f_sb s) → blk_used (f_sb s) (v_view v) b = false → ¬ held_blk (v_held v) b;
  ap_room : (length (v_log v) + size (v_held v) + 1 < Z.to_nat NBUF)%nat
}.

Lemma alloc_pre_keep s s' v : alloc_pre s v → frep s' v → fkeep s s' → alloc_pre s' v.
Proof.
  intros [H1 H2 H3 H4 H5 H6] Hs' Hk. pose proof (fkeep_start s s' Hk ltac:(eauto)) as EL.
  pose proof (fk_sb _ _ Hk) as Esb. split; rewrite ?EL, ?Esb; done.
Qed.

(** The search in one bitmap block. *)
Lemma group_find sb f b0 :
  0 ≤ b0 → b0 `mod` BPB = 0 → b0 < sb_size sb →
  match List.find (λ bi, negb (bit_set bi (f (BBLOCK b0 sb)))) (seqZ 0 (Z.min BPB (sb_size sb - b0))) with
  | Some bi => 0 ≤ bi < BPB ∧ b0 + bi < sb_size sb ∧ (b0 + bi) `mod` BPB = bi ∧
               BBLOCK (b0 + bi) sb = BBLOCK b0 sb ∧ blk_used sb f (b0 + bi) = false
  | None => ∀ b, b0 ≤ b < Z.min (b0 + BPB) (sb_size sb) → blk_used sb f b = true
  end.
Proof.
  intros H0 Hm Hlt.
  assert (∀ bi, 0 ≤ bi < BPB → (b0 + bi) `mod` BPB = bi ∧ (b0 + bi) `div` BPB = b0 `div` BPB) as Hsp.
  { intros bi Hbi. unfold BPB, BSIZE in *. split; dlia. }
  destruct (List.find _ _) as [bi|] eqn:E.
  - apply List.find_some in E as [Hin Ht]. apply list_elem_of_In, elem_of_seqZ in Hin.
    destruct (Hsp bi) as [E1 E2]; [lia|]. apply negb_true_iff in Ht.
    assert (BBLOCK (b0 + bi) sb = BBLOCK b0 sb) as E3 by (unfold BBLOCK; by rewrite E2).
    split_and!; [lia|lia|lia|done|done|]. unfold blk_used. by rewrite E1, E3.
  - intros b Hb. pose proof (List.find_none _ _ E (b - b0)) as Hn. destruct (Hsp (b - b0)) as [E1 E2]; [lia|].
    replace (b0 + (b - b0)) with b in E1, E2 by lia.
    assert (negb (bit_set (b - b0) (f (BBLOCK b0 sb))) = false) as Hn' by (apply Hn, list_elem_of_In, elem_of_seqZ; lia).
    apply negb_false_iff in Hn'. unfold blk_used. rewrite E1. unfold BBLOCK in *. by rewrite E2.
Qed.

Lemma balloc_group_ok s v b0 :
  alloc_pre s v → 0 ≤ b0 → b0 `mod` BPB = 0 → b0 < sb_size (f_sb s) →
  wp (balloc_group ROOTDEV b0) (λ r s', fkeep s s' ∧
    match r with
    | Some b => 0 ≤ b < sb_size (f_sb s) ∧ blk_used (f_sb s) (v_view v) b = false ∧ frep s' (v_alloc (f_sb s) b v)
    | None => frep s' v ∧ ∀ b, b0 ≤ b < Z.min (b0 + BPB) (sb_size (f_sb s)) → blk_used (f_sb s) (v_view v) b = true
    end) s.
Proof.
  intros [Hs Hl Hk Hbm Hfr Hroom] H0 Hm Hlt. set (sb := f_sb s) in *. set (x := BBLOCK b0 sb).
  pose proof (BBLOCK_home _ sb b0 Hl ltac:(lia)) as Hx. fold x in Hx.
  unfold balloc_group. wp_step. wp_step. fold sb x.
  wp_step. wp_call (fs_bread s v ROOTDEV x); [done|done|apply Hx|by apply Hbm|lia|]. intros i s1 (Hs1 & Hi & Hk1).
  wp_step. wp_call (fs_data s1 _ i x); [exact Hs1|cbn; apply lookup_insert_eq|]. intros d s1' [-> ->]. cbn [v_view v_bread].
  pose proof (group_find sb (v_view v) b0 H0 Hm Hlt) as Hfind. fold x in Hfind.
  destruct (List.find _ _) as [bi|].
  - destruct Hfind as (Hbi & Hb & Emod & Ebb & Hfree). set (b := b0 + bi) in *.
    destruct (bk_free _ _ _ Hk b ltac:(lia) Hfree) as [Hhome Hnb].
    apply (fs_put_tail s1 v i x); [done|done|change LOGBLOCKS with NBUF; lia|by rewrite (fkeep_start s s1) by eauto|].
    intros s2 Hs2 Hk2. assert (fkeep s s2) as Hk02 by (by transitivity s1).
    wp_step. wp_call (bzero_ok s2 _ ROOTDEV b); [exact Hs2|done|by rewrite (fkeep_start s s2) by eauto|cbn; apply Hfr; [lia|done]| |].
    { cbn. pose proof (add_block_le x (v_log v)). lia. }
    intros [] s3 [Hs3 Hk3]. wp_step. split_and!; [by transitivity s2|lia|lia|done|].
    unfold v_alloc. rewrite Ebb, Emod. exact Hs3.
  - wp_step. wp_call (fs_brelse s1 _ i x); [exact Hs1|cbn; apply lookup_insert_eq|cbn; apply (clean_or_logged s); [done|by apply Hbm]|].
    intros [] s2 [Hs2 Hk2]. rewrite v_bread_released in Hs2 by done. wp_step.
    split_and!; [by transitivity s1|done|done].
Qed.

Lemma elem_of_groups sz b0 : b0 ∈ groups sz → 0 ≤ b0 ∧ b0 `mod` BPB = 0 ∧ b0 < sz.
Proof.
  unfold groups. intros (k & -> & Hk)%list_elem_of_fmap. apply elem_of_seqZ in Hk. unfold BPB, BSIZE in *. dlia.
Qed.

Lemma groups_cover sz b : 0 ≤ b < sz → b `div` BPB * BPB ∈ groups sz ∧ b `div` BPB * BPB ≤ b < b `div` BPB * BPB + BPB.
Proof.
  intros Hb. split; [|unfold BPB, BSIZE in *; dlia]. unfold groups. apply list_elem_of_fmap.
  exists (b `div` BPB). split; [done|]. apply elem_of_seqZ. unfold BPB, BSIZE in *. dlia.
Qed.

(** balloc finds a block that was free, marks and zeroes it; or every block is in
    use and nothing changes. *)
Lemma balloc_ok s v :
  alloc_pre s v →
  wp (balloc ROOTDEV) (λ r s', fkeep s s' ∧
    (r = 0 ∧ frep s' v ∧ (∀ b, 0 ≤ b < sb_size (f_sb s) → blk_used (f_sb s) (v_view v) b = true) ∨
     0 ≤ r < sb_size (f_sb s) ∧ blk_used (f_sb s) (v_view v) r = false ∧ frep s' (v_alloc (f_sb s) r v))) s.
Proof.
  intros Hp. set (sb := f_sb s) in *. unfold balloc. wp_step. wp_step. fold sb. wp_step.
  apply (wp_first _ _ (λ vis s', frep s' v ∧ fkeep s s' ∧
    ∀ b0 b, b0 ∈ vis → b0 ≤ b < Z.min (b0 + BPB) (sb_size sb) → blk_used sb (v_view v) b = true)).
  - split_and!; [apply Hp|done|by intros b0 b ?%not_elem_of_nil].
  - intros pre b0 post s' Hg (Hs' & Hk' & Hused).
    destruct (elem_of_groups (sb_size sb) b0) as (G1 & G2 & G3); [rewrite Hg; set_solver|].
    wp_call (balloc_group_ok s' v b0); [by apply (alloc_pre_keep s)|done|done|by rewrite (fk_sb _ _ Hk')|].
    rewrite (fk_sb _ _ Hk'). fold sb. intros [b|] s2 [Hk2 H].
    + wp_step. split; [by transitivity s'|]. by right.
    + destruct H as [Hs2 Hu]. split_and!; [done|by transitivity s'|].
      intros c0 c [Hc|Hc%list_elem_of_singleton]%elem_of_app; [by apply Hused|by subst; apply Hu].
  - intros s' (Hs' & Hk' & Hused). wp_step. split; [done|]. left. split_and!; [done|done|].
    intros b Hb. destruct (groups_cover (sb_size sb) b Hb) as [Hin Hr]. apply (Hused _ b Hin). lia.
Qed.
End ops.
