(* ===== verification/FsData.v ===== *)
(** * Inode contents: bmap, readi and writei

    The bytes of a file as a function of the disk and the inode, and what readi
    and writei of kernel/fs.c do on a file whose blocks are allocated, with the
    other side of the copy in kernel memory. *)
From S2P Require Import Prelude Memory KString Riscv Spinlock Kalloc Vm Sched Sleeplock Disk Bio BioSpec BioInv BioOps Log LogSpec LogOps LogTx FsRep Fs FsBlocks.

(** The disk block that holds block [bn] of the file. *)
Definition fblk (f : Z → block) (d : dinode) (bn : Z) : Z :=
  if bn <? NDIRECT then d_addrs d !!! Z.to_nat bn
  else get32 (bn - NDIRECT) (f (d_addrs d !!! Z.to_nat NDIRECT)).

Definition file_byte (f : Z → block) (d : dinode) (o : Z) : Z :=
  f (fblk f d (o `div` BSIZE)) !!! Z.to_nat (o `mod` BSIZE).

(** The first [nb] blocks of the file are allocated, outside the log, distinct,
    and distinct from the indirect block. *)
Record file_ok (L : Z) (f : Z → block) (d : dinode) (nb : Z) : Prop := {
  fo_max : nb ≤ MAXFILE;
  fo_map bn : 0 ≤ bn < nb → fblk f d bn ≠ 0 ∧ home L (fblk f d bn);
  fo_inj bn bm : 0 ≤ bn < nb → 0 ≤ bm < nb → fblk f d bn = fblk f d bm → bn = bm;
  fo_ind : NDIRECT < nb → d_addrs d !!! Z.to_nat NDIRECT ≠ 0 ∧ home L (d_addrs d !!! Z.to_nat NDIRECT);
  fo_sep bn : 0 ≤ bn < nb → NDIRECT < nb → fblk f d bn ≠ d_addrs d !!! Z.to_nat NDIRECT
}.

Section data.
Context {D : Type} `{!BlockDev D}.
Context (end_ : Z) (buf_addr : nat → Z).
Implicit Types (s : fst D) (v : txv).

(** Everything but the disk view and the memory is kept. *)
Record mkeep s s' : Prop := {
  mk_l : skeep (f_l s) (f_l s');
  mk_sb : f_sb s' = f_sb s;
  mk_it : it_lock s' = it_lock s;
  mk_ino : inodes s' = inodes s
}.
#[export] Instance mkeep_preorder : PreOrder mkeep.
Proof.
  split.
  - intros s. by split.
  - intros s1 s2 s3 [A1 A3 A4 A5] [B1 B3 B4 B5]. split; [by etransitivity|congruence..].
Qed.
Lemma fkeep_mkeep s s' : fkeep s s' → mkeep s s'.
Proof. by intros [? ? ? ? ?]. Qed.
Lemma mkeep_start s s' v : mkeep s s' → frep s v → log_start (f_l s') = log_start (f_l s).
Proof. intros [Hk _ _ _] Hv. destruct (Hk (srep_pst _ _ Hv)) as [K _]. apply (kp_start _ _ K). Qed.

Abbreviation fmem s := (km_mem (f_km s)).

(** bmap of a block that is allocated changes nothing. *)
Lemma bmap_hit s v ip bn nb :
  frep s v → i_dev (ino ip s) = ROOTDEV → file_ok (log_start (f_l s)) (v_view v) (i_d (ino ip s)) nb →
  0 ≤ bn < nb → v_held v = ∅ → (length (v_log v) < Z.to_nat NBUF)%nat →
  wp (bmap ip bn) (λ r s', r = fblk (v_view v) (i_d (ino ip s)) bn ∧ frep s' v ∧ fkeep s s') s.
Proof.
  intros Hs Hdev [Hmax Hmap _ Hind _] Hbn Hh Hroom. set (d := i_d (ino ip s)) in *.
  destruct (Hmap bn Hbn) as [Hne _]. unfold bmap. unfold fblk in *.
  assert (∀ x, ¬ held_blk (v_held v) x) as Hnh by (intros x [i Hi]; by rewrite Hh in Hi).
  destruct (Z.ltb_spec bn NDIRECT) as [Hlt|Hge].
  - unfold bmap_slot. wp_step. wp_step. unfold addr_of. fold d.
    rewrite (proj2 (Z.eqb_neq _ 0)) by done. by wp_step.
  - rewrite (proj2 (Z.ltb_lt _ _)) by (unfold MAXFILE in Hmax; lia).
    destruct Hind as [Hi0 Hih]; [lia|]. set (x := d_addrs d !!! Z.to_nat NDIRECT) in *.
    unfold bmap_slot. wp_step. wp_step. wp_step. unfold addr_of. fold d x.
    rewrite (proj2 (Z.eqb_neq x 0)) by done. wp_step. rewrite (proj2 (Z.eqb_neq x 0)) by done.
    wp_step. wp_step. rewrite Hdev. wp_step.
    wp_call (fs_bread s v ROOTDEV x); [done|done|apply Hih|done|rewrite Hh, map_size_empty; lia|].
    intros i s1 (Hs1 & Hi & Hk1). wp_step.
    wp_call (fs_data s1 _ i x); [exact Hs1|cbn; apply lookup_insert_eq|]. intros a s1' [-> ->]. cbn [v_view v_bread].
    rewrite (proj2 (Z.eqb_neq (get32 _ _) 0)) by done. wp_step. wp_step.
    wp_step. wp_call (fs_brelse s1 _ i x); [exact Hs1|cbn; apply lookup_insert_eq|cbn; by apply (clean_or_logged s)|].
    intros [] s2 [Hs2 Hk2]. rewrite v_bread_released in Hs2 by done. wp_step.
    split_and!; [done|done|by transitivity s1].
Qed.

(** ** Copies of buffers *)
Definition in_bufs (a : Z) : Prop := ∃ i, buf_addr i ≤ a < buf_addr i + BSIZE.

Lemma with_mem_keep s m : mkeep s (over on_mem m s).
Proof. by split. Qed.

Lemma copyout_kernel s v i x dst o len :
  frep s v → v_held v !! i = Some x → Z.of_nat (length (v_view v x)) = BSIZE →
  0 ≤ o → 0 ≤ len → o + len ≤ BSIZE →
  wp (copyout_buf end_ buf_addr 0 dst i o len) (λ r s', r = 0 ∧ frep s' v ∧ mkeep s s' ∧
    ∀ a, rd (fmem s') a =
      if decide (dst ≤ a < dst + len) then u8 (v_view v x !!! Z.to_nat (o + (a - dst)))
      else if decide (buf_addr i ≤ a < buf_addr i + BSIZE) then u8 (v_view v x !!! Z.to_nat (a - buf_addr i))
      else rd (fmem s) a) s.
Proof.
  intros Hs Hi Hlen Ho Hl Hol. unfold copyout_buf, mirror. wp_step. wp_step.
  wp_call (fs_data s v i x); [done|done|]. intros d s1 [-> ->]. wp_step. wp_step. cbn [view on_mem].
  unfold either_copyout. cbn [Z.eqb negb]. wp_step. wp_step.
  wp_call memmove_rd; [done|]. intros _ m' [_ Hm]. wp_step. split_and!; [done|done|by split|].
  cbn [over on_mem f_km km_mem] in *. intros a. rewrite Hm. case_decide.
  - cbn. rewrite rd_wrs, decide_True by lia. do 2 f_equal. lia.
  - cbn. rewrite rd_wrs, Hlen. done.
Qed.

Lemma copyin_kernel s v i x src o len :
  frep s v → v_held v !! i = Some x → byte_list (v_view v x) → Z.of_nat (length (v_view v x)) = BSIZE →
  0 ≤ o → 0 ≤ len → o + len ≤ BSIZE →
  (∀ j, 0 ≤ j < len → ¬ (buf_addr i ≤ src + j < buf_addr i + BSIZE)) →
  wp (copyin_buf end_ buf_addr i o 0 src len) (λ r s', r = 0 ∧
    frep s' (v_set x (splice o (rds (fmem s) src (Z.to_nat len)) (v_view v x)) v) ∧ mkeep s s' ∧
    ∀ a, ¬ (buf_addr i ≤ a < buf_addr i + BSIZE) → rd (fmem s') a = rd (fmem s) a) s.
Proof.
  intros Hs Hi Hby Hlen Ho Hl Hol Hdis. unfold copyin_buf, mirror. wp_step. wp_step.
  wp_call (fs_data s v i x); [done|done|]. intros d s1 [-> ->]. wp_step. wp_step. cbn [view on_mem].
  unfold either_copyin. cbn [Z.eqb negb]. wp_step. wp_step. wp_step.
  wp_call memmove_rd; [done|]. intros _ m' [_ Hm]. wp_step. wp_step. wp_step.
  cbn [over on_mem f_km km_mem view] in *.
  assert (rds m' (buf_addr i) (Z.to_nat BSIZE) = splice o (rds (fmem s) src (Z.to_nat len)) (v_view v x)) as Ed.
  { apply list_eq. intros k. rewrite lookup_rds. unfold splice. rewrite length_rds.
    case_decide as Hk.
    2: { symmetry. apply lookup_ge_None. rewrite !length_app, length_take, length_rds, length_drop. lia. }
    rewrite Hm. case_decide as Hr.
    - rewrite lookup_app_r by (rewrite length_take; lia). rewrite length_take.
      rewrite lookup_app_l by (rewrite length_rds; lia). rewrite lookup_rds, decide_True by lia. f_equal.
      rewrite rd_wrs_out; [f_equal; lia|]. rewrite Hlen.
      replace (src + (buf_addr i + Z.of_nat k - (buf_addr i + o))) with (src + (Z.of_nat k - o)) by lia. apply Hdis. lia.
    - rewrite rd_wrs, decide_True by lia. replace (Z.to_nat (buf_addr i + Z.of_nat k - buf_addr i)) with k by lia.
      destruct (lookup_lt_is_Some_2 (v_view v x) k ltac:(lia)) as [b Hb].
      rewrite (list_lookup_total_correct _ _ _ Hb), u8_small by (unfold byte_list in Hby; rewrite Forall_lookup in Hby; by apply (Hby k)).
      destruct (decide (Z.of_nat k < o)).
      + rewrite lookup_app_l by (rewrite length_take; lia). by rewrite lookup_take_lt by lia.
      + rewrite lookup_app_r by (rewrite length_take; lia). rewrite lookup_app_r by (rewrite length_rds, length_take; lia).
        rewrite length_take, length_rds, lookup_drop. rewrite <- Hb. f_equal. lia. }
  wp_step. wp_call (fs_set _ v i x (λ _, rds m' (buf_addr i) (Z.to_nat BSIZE))); [exact Hs|done|].
  intros [] s3 [Hs3 Hk3]. wp_step. rewrite Ed in Hs3. split_and!; [done|done| |].
  - etransitivity; [|by apply fkeep_mkeep]. by split.
  - intros a Ha. rewrite (fk_km _ _ Hk3). cbn. rewrite Hm. rewrite decide_False by lia.
    rewrite rd_wrs_out; [done|]. by rewrite Hlen.
Qed.

(** ** The loops of readi and writei *)

(** The iterations left: [left] bytes from file offset [off]. *)
Definition rw_left (left off : Z) : nat :=
  Z.to_nat (if 0 <? left then (left + off `mod` BSIZE + BSIZE - 1) `div` BSIZE else 0).

Lemma rw_left_fuel n off : (rw_left n off < rw_fuel n)%nat.
Proof. unfold rw_left, rw_fuel, BSIZE. case_test; dlia. Qed.

Lemma rw_left_dec left off :
  0 < left → let m := Z.min left (BSIZE - off `mod` BSIZE) in
  0 < m ∧ (rw_left (left - m) (off + m) < rw_left left off)%nat ∧
  (∀ j, 0 ≤ j < m → (off + j) `div` BSIZE = off `div` BSIZE ∧ (off + j) `mod` BSIZE = off `mod` BSIZE + j).
Proof.
  intros Hl m. assert (0 < m) as Hm by (unfold m, BSIZE; dlia). split_and!; [done| |].
  - unfold rw_left. rewrite (proj2 (Z.ltb_lt 0 left)) by done. destruct (Z.ltb_spec 0 (left - m)) as [H|H].
    + assert (m = BSIZE - off `mod` BSIZE) as Em by (unfold m in *; lia).
      assert ((off + m) `mod` BSIZE = 0) as Eo by (rewrite Em; unfold BSIZE; dlia).
      rewrite Eo. rewrite Em. unfold BSIZE in *. dlia.
    + unfold BSIZE in *. dlia.
  - intros j Hj. unfold m, BSIZE in *. split; dlia.
Qed.

Definition nblocks (d : dinode) : Z := (d_size d + BSIZE - 1) `div` BSIZE.

Lemma block_in_file d o : 0 ≤ o < d_size d → 0 ≤ o `div` BSIZE < nblocks d.
Proof. unfold nblocks, BSIZE. dlia. Qed.

(** What readi needs of the inode. *)
Record readable s v ip : Prop := {
  ra_rep : frep s v;
  ra_dev : i_dev (ino ip s) = ROOTDEV;
  ra_file : file_ok (log_start (f_l s)) (v_view v) (i_d (ino ip s)) (nblocks (i_d (ino ip s)));
  ra_len x : Z.of_nat (length (v_view v x)) = BSIZE;
  ra_held : v_held v = ∅;
  ra_room : (length (v_log v) < Z.to_nat NBUF)%nat
}.

Lemma readable_keep s s' v ip : readable s v ip → frep s' v → mkeep s s' → readable s' v ip.
Proof.
  intros [H1 H2 H3 H4 H5 H6] Hs' Hk. pose proof (mkeep_start s s' v Hk H1) as EL.
  assert (ino ip s' = ino ip s) as Ei by (unfold ino; by rewrite (mk_ino _ _ Hk)).
  split; rewrite ?Ei, ?EL; done.
Qed.

(** One iteration: [m] bytes of the block at [off] to [dst]. *)
Lemma read_chunk s v ip dst off m {A} (e : M (fst D) A) (k : Z → M (fst D) A) Q :
  readable s v ip → let d := i_d (ino ip s) in
  0 ≤ off → 0 < m ≤ BSIZE - off `mod` BSIZE → off + m ≤ d_size d →
  (∀ s', frep s' v → mkeep s s' →
    (∀ a, dst ≤ a < dst + m → rd (fmem s') a = u8 (file_byte (v_view v) d (off + (a - dst)))) →
    (∀ a, ¬ (dst ≤ a < dst + m) → ¬ in_bufs a → rd (fmem s') a = rd (fmem s) a) → wp (k 0) Q s') →
  wp (do addr <- bmap ip (off `div` BSIZE);
      if addr =? 0 then e
      else
        do s <- get;
        do bp <- fbread (i_dev (ino ip s)) addr;
        do r <- copyout_buf end_ buf_addr 0 dst bp (off `mod` BSIZE) m;
        fbrelse bp ;; k r) Q s.
Proof.
  intros Hra d Hoff Hmb Hsz Hk. pose proof Hra as [Hs Hdev Hf Hlen Hh Hroom]. fold d in Hf.
  assert (0 ≤ off `div` BSIZE < nblocks d) as Hbn by (apply block_in_file; lia).
  destruct (fo_map _ _ _ _ Hf _ Hbn) as [Hne Hhome]. set (x := fblk (v_view v) d (off `div` BSIZE)) in *.
  wp_step. wp_call (bmap_hit s v ip (off `div` BSIZE) (nblocks d)); [done|done|done|done|done|done|].
  fold d x. intros r s1 (-> & Hs1 & Hk1). rewrite (proj2 (Z.eqb_neq x 0)) by done.
  assert (ino ip s1 = ino ip s) as Ei by (unfold ino; by rewrite (fk_ino _ _ Hk1)).
  wp_step. wp_step. rewrite Ei, Hdev. wp_step.
  wp_call (fs_bread s1 v ROOTDEV x); [done|done|apply Hhome|intros [i Hi]; by rewrite Hh in Hi|rewrite Hh, map_size_empty; lia|].
  intros i s2 (Hs2 & Hi & Hk2). wp_step.
  assert (0 ≤ off `mod` BSIZE < BSIZE) as Hmod by (apply Z.mod_pos_bound; done).
  wp_call (copyout_kernel s2 _ i x); [exact Hs2|cbn; apply lookup_insert_eq|apply Hlen|lia|lia|lia|].
  cbn [v_view v_bread]. intros r s3 (-> & Hs3 & Hk3 & Hmem). wp_step.
  wp_call (fs_brelse s3 _ i x); [exact Hs3|cbn; apply lookup_insert_eq| |].
  { cbn. apply (clean_or_logged s1); [done|]. intros [j Hj]. by rewrite Hh in Hj. }
  intros [] s4 [Hs4 Hk4]. rewrite v_bread_released in Hs4 by done. apply Hk; [done| | |].
  - transitivity s1; [by apply fkeep_mkeep|]. transitivity s2; [by apply fkeep_mkeep|].
    transitivity s3; [done|by apply fkeep_mkeep].
  - intros a Ha. rewrite (fk_km _ _ Hk4), Hmem, decide_True by done. do 2 f_equal.
    unfold file_byte. assert ((off + (a - dst)) `div` BSIZE = off `div` BSIZE ∧ (off + (a - dst)) `mod` BSIZE = off `mod` BSIZE + (a - dst)) as [E1 E2].
    { unfold BSIZE in *. split; dlia. }
    rewrite E1, E2. done.
  - intros a Ha Hb. rewrite (fk_km _ _ Hk4), Hmem, !decide_False; [|intros H; apply Hb; by exists i|done].
    by rewrite (fk_km _ _ Hk2), (fk_km _ _ Hk1).
Qed.

Lemma readi_ok s v ip dst off n :
  readable s v ip → let d := i_d (ino ip s) in
  d_size d ≤ MAXFILE * BSIZE → 0 ≤ off ≤ d_size d → 0 ≤ n → off + n < 2 ^ 32 → 0 ≤ dst → dst + n < 2 ^ 64 →
  (∀ a, dst ≤ a < dst + n → ¬ in_bufs a) →
  let k := Z.min n (d_size d - off) in
  wp (readi end_ buf_addr ip 0 dst off n) (λ r s', r = k ∧ frep s' v ∧ mkeep s s' ∧
    (∀ a, dst ≤ a < dst + k → rd (fmem s') a = u8 (file_byte (v_view v) d (off + (a - dst)))) ∧
    (∀ a, ¬ (dst ≤ a < dst + k) → ¬ in_bufs a → rd (fmem s') a = rd (fmem s) a)) s.
Proof.
  intros Hra d Hsz Hoff Hn Hov Hdst Hdn Hdis k. unfold readi. wp_step. wp_step. fold d.
  assert (MAXFILE * BSIZE < 2 ^ 31) as Hmf by done.
  rewrite (u32_small (off + n)) by lia. rewrite (proj2 (Z.ltb_ge (d_size d) off)), (proj2 (Z.ltb_ge (off + n) off)) by lia.
  cbn [orb]. assert ((if d_size d <? off + n then u32 (d_size d - off) else n) = k) as ->.
  { unfold k. destruct (Z.ltb_spec (d_size d) (off + n)); [rewrite u32_small by lia|]; lia. }
  apply (wp_loop (λ '(tot, o, a) s', 0 ≤ tot ≤ k ∧ o = off + tot ∧ a = dst + tot ∧ frep s' v ∧ mkeep s s' ∧
      (∀ a, dst ≤ a < dst + tot → rd (fmem s') a = u8 (file_byte (v_view v) d (off + (a - dst)))) ∧
      (∀ a, ¬ (dst ≤ a < dst + tot) → ¬ in_bufs a → rd (fmem s') a = rd (fmem s) a))
    (λ '(tot, o, a) _, rw_left (k - tot) o)).
  - intros [[tot o] a0] s' (Ht & -> & -> & Hs' & Hk' & Hin & Hout).
    assert (ino ip s' = ino ip s) as Ei by (unfold ino; by rewrite (mk_ino _ _ Hk')).
    destruct (Z.ltb_spec tot k) as [Hlt|Hge]; cbn [negb].
    2: { wp_step. replace k with tot by lia. rewrite i32_small by (unfold k in *; lia). by split_and!. }
    destruct (rw_left_dec (k - tot) (off + tot) ltac:(lia)) as (Hm & Hdec & _).
    set (m := Z.min (k - tot) (BSIZE - (off + tot) `mod` BSIZE)) in *.
    apply (read_chunk s' v ip (dst + tot) (off + tot) m _ (λ r, if r =? -1 then ret (inr (-1))
      else ret (inl (tot + m, u32 (off + tot + m), u64 (dst + tot + m))))).
    { by apply (readable_keep s). } { lia. } { lia. } { rewrite Ei. fold d. unfold m, k in *. lia. }
    rewrite Ei. fold d. intros s2 Hs2 Hk2 Hin2 Hout2. cbn [Z.eqb]. wp_step.
    assert (m ≤ k - tot) as Hmk by (unfold m; lia). assert (k ≤ n ∧ k ≤ d_size d - off) as Hkn by (unfold k; lia).
    rewrite u32_small, u64_small by lia. split; [split_and!; [lia|lia|lia|lia|done|by transitivity s'| |]|].
    + intros a Ha. destruct (decide (a < dst + tot)).
      * rewrite Hout2; [apply Hin; lia|lia|]. apply Hdis. lia.
      * rewrite Hin2 by lia. do 2 f_equal. lia.
    + intros a Ha Hb. rewrite Hout2 by (done || lia). apply Hout; [lia|done].
    + replace (k - (tot + m)) with (k - tot - m) by lia. done.
  - split_and!; [lia|unfold k; lia|lia|lia|apply Hra|done|intros; lia|done].
  - rewrite Z.sub_0_r. apply rw_left_fuel.
Qed.
End data.
