(* ===== verification/FsInode.v ===== *)
(** * On-disk inodes: the codec of struct dinode, and writing files

    get_dinode and put_dinode of Fs are inverse on each slot of an inode block
    and independent between slots; writei and iupdate of kernel/fs.c. *)
From S2P Require Import Prelude Memory KString Riscv Spinlock Kalloc Vm Sched Sleeplock Disk Bio BioSpec BioInv BioOps Log LogSpec LogOps LogTx FsRep Fs FsBlocks FsData.

(** The C types of the fields. *)
Record dinode_ok (d : dinode) : Prop := {
  do_type : - 2 ^ 15 ≤ d_type d < 2 ^ 15;
  do_major : - 2 ^ 15 ≤ d_major d < 2 ^ 15;
  do_minor : - 2 ^ 15 ≤ d_minor d < 2 ^ 15;
  do_nlink : - 2 ^ 15 ≤ d_nlink d < 2 ^ 15;
  do_size : 0 ≤ d_size d < 2 ^ 32;
  do_addrs : Forall (λ a, 0 ≤ a < 2 ^ 32) (d_addrs d);
  do_len : length (d_addrs d) = 13%nat
}.

Definition slot (k : Z) (b : block) : list Z := take 64 (drop (Z.to_nat (64 * k)) b).

Lemma sub_take_drop (b : list Z) o c n :
  (c + n ≤ 64)%nat → take n (drop (o + c) b) = take n (drop c (take 64 (drop o b))).
Proof.
  intros H. rewrite <- drop_drop. apply list_eq. intros i.
  destruct (decide (i < n)%nat).
  - rewrite !lookup_take_lt, !lookup_drop, lookup_take_lt, lookup_drop by lia. done.
  - by rewrite !lookup_take_ge by lia.
Qed.

Lemma get16_slot k c b : 0 ≤ k → 0 ≤ c → c + 2 ≤ 64 → get16 (64 * k + c) b = get16 c (slot k b).
Proof.
  intros Hk Hc H. unfold get16, slot. f_equal.
  replace (Z.to_nat (64 * k + c)) with (Z.to_nat (64 * k) + Z.to_nat c)%nat by lia. apply sub_take_drop. lia.
Qed.

Lemma get32_slot k j b : 0 ≤ k → 0 ≤ j < 16 → get32 (16 * k + j) b = get32 j (slot k b).
Proof.
  intros Hk Hj. unfold get32, slot. f_equal.
  replace (Z.to_nat (4 * (16 * k + j))) with (Z.to_nat (64 * k) + Z.to_nat (4 * j))%nat by lia. apply sub_take_drop. lia.
Qed.

(** A dinode is read from its slot only. *)
Lemma get_dinode_slot k b : 0 ≤ k → get_dinode k b = get_dinode 0 (slot k b).
Proof.
  intros Hk. unfold get_dinode, sizeof_dinode.
  pose proof (get16_slot k 0 b Hk ltac:(lia) ltac:(lia)) as E0. rewrite Z.add_0_r in E0.
  rewrite E0, (get16_slot k 2), (get16_slot k 4), (get16_slot k 6), (get32_slot k 2) by lia.
  assert ((λ j, get32 (16 * k + 3 + j) b) <$> seqZ 0 (NDIRECT + 1) = (λ j, get32 (3 + j) (slot k b)) <$> seqZ 0 (NDIRECT + 1)) as ->; [|done].
  apply list_fmap_ext. intros i j [-> Hj]%lookup_seqZ. rewrite <- Z.add_assoc.
  apply get32_slot; [done|]. unfold NDIRECT in Hj. lia.
Qed.

Lemma length_enc d : length (d_addrs d) = 13%nat → length (enc_dinode d) = 64%nat.
Proof.
  intros H. unfold enc_dinode. rewrite !length_app, !length_le_bytes.
  assert (∀ l : list Z, length (mjoin (le_bytes 4 <$> l)) = 4 * length l)%nat as E.
  { induction l as [|a l IH]; [done|]. rewrite fmap_cons.
    change (mjoin (le_bytes 4 a :: (le_bytes 4 <$> l))) with (le_bytes 4 a ++ mjoin (le_bytes 4 <$> l)).
    rewrite length_app, length_le_bytes, IH. cbn [length]. lia. }
  rewrite E, H. done.
Qed.

Definition w2 (v : Z) : Z := le_val (le_bytes 2 v).
Definition w4 (v : Z) : Z := le_val (le_bytes 4 v).
Lemma w2_i16 v : - 2 ^ 15 ≤ v < 2 ^ 15 → i16 (w2 (u16 v)) = v.
Proof. unfold w2, i16, u16, u8. cbn [le_bytes le_val]. unfold u8. intros. case_match; dlia. Qed.
Lemma w4_u32 v : 0 ≤ v < 2 ^ 32 → w4 v = v.
Proof. intros. apply (le_val_bytes 4). done. Qed.

Lemma dec_enc d : dinode_ok d → get_dinode 0 (enc_dinode d) = d.
Proof.
  intros [H1 H2 H3 H4 H5 H6 H7]. destruct d as [t ma mi nl sz ad]. cbn in *.
  destruct ad as [|a0 ad]; [done|]. destruct ad as [|a1 ad]; [done|]. destruct ad as [|a2 ad]; [done|]. destruct ad as [|a3 ad]; [done|]. destruct ad as [|a4 ad]; [done|]. destruct ad as [|a5 ad]; [done|]. destruct ad as [|a6 ad]; [done|]. destruct ad as [|a7 ad]; [done|]. destruct ad as [|a8 ad]; [done|]. destruct ad as [|a9 ad]; [done|]. destruct ad as [|a10 ad]; [done|]. destruct ad as [|a11 ad]; [done|]. destruct ad as [|a12 ad]; [done|]. destruct ad; [|done].
  repeat (apply Forall_cons in H6 as [? H6]).
  change (Dinode (i16 (w2 (u16 t))) (i16 (w2 (u16 ma))) (i16 (w2 (u16 mi))) (i16 (w2 (u16 nl))) (w4 sz)
    [w4 a0; w4 a1; w4 a2; w4 a3; w4 a4; w4 a5; w4 a6; w4 a7; w4 a8; w4 a9; w4 a10; w4 a11; w4 a12] =
    Dinode t ma mi nl sz [a0; a1; a2; a3; a4; a5; a6; a7; a8; a9; a10; a11; a12]).
  rewrite !w2_i16, !w4_u32 by done. done.
Qed.

(** ** Slots of a block *)
Lemma slot_splice_eq k l b :
  0 ≤ k → length l = 64%nat → 64 * k + 64 ≤ Z.of_nat (length b) → slot k (splice (64 * k) l b) = l.
Proof.
  intros Hk Hl Hb. unfold slot, splice.
  rewrite drop_app_length' by (rewrite length_take; lia). by rewrite take_app_length' by done.
Qed.

Lemma slot_splice_ne k j l b :
  0 ≤ k → 0 ≤ j → j ≠ k → length l = 64%nat → 64 * k + 64 ≤ Z.of_nat (length b) →
  slot j (splice (64 * k) l b) = slot j b.
Proof.
  intros Hk Hj Hne Hl Hb. unfold slot, splice. apply list_eq. intros i.
  destruct (decide (i < 64)%nat) as [Hi|Hi]; [|by rewrite !lookup_take_ge by lia].
  rewrite !lookup_take_lt, !lookup_drop by lia. destruct (decide (j < k)).
  - rewrite lookup_app_l by (rewrite length_take; lia). by rewrite lookup_take_lt by lia.
  - rewrite lookup_app_r by (rewrite length_take; lia). rewrite lookup_app_r by (rewrite length_take, Hl; lia).
    rewrite length_take, Hl, lookup_drop. f_equal. lia.
Qed.

Lemma length_splice o l b : 0 ≤ o → o + Z.of_nat (length l) ≤ Z.of_nat (length b) → length (splice o l b) = length b.
Proof. intros Ho H. unfold splice. rewrite !length_app, length_take, length_drop. lia. Qed.

Lemma get_put_dinode k d b :
  0 ≤ k < IPB → Z.of_nat (length b) = BSIZE → dinode_ok d → get_dinode k (put_dinode k d b) = d.
Proof.
  intros Hk Hb Hd. rewrite get_dinode_slot by lia. unfold put_dinode, sizeof_dinode.
  rewrite slot_splice_eq; [by apply dec_enc|lia|apply length_enc, Hd|]. change IPB with 16 in *. unfold BSIZE in *. lia.
Qed.

Lemma get_put_dinode_ne k j d b :
  0 ≤ k < IPB → 0 ≤ j < IPB → j ≠ k → Z.of_nat (length b) = BSIZE → dinode_ok d →
  get_dinode j (put_dinode k d b) = get_dinode j b.
Proof.
  intros Hk Hj Hne Hb Hd. rewrite (get_dinode_slot j), (get_dinode_slot j b) by lia. unfold put_dinode, sizeof_dinode.
  rewrite slot_splice_ne; [done|lia|lia|done|apply length_enc, Hd|]. change IPB with 16 in *. unfold BSIZE in *. lia.
Qed.

Lemma length_put_dinode k d b :
  0 ≤ k < IPB → Z.of_nat (length b) = BSIZE → dinode_ok d → length (put_dinode k d b) = length b.
Proof.
  intros Hk Hb Hd. apply length_splice; [unfold sizeof_dinode; lia|]. rewrite length_enc by apply Hd.
  change IPB with 16 in *. unfold sizeof_dinode. unfold BSIZE in *. lia.
Qed.

(** ** Changing a file's bytes *)
Lemma splice_lookup o l b p :
  0 ≤ o → o + Z.of_nat (length l) ≤ Z.of_nat (length b) → 0 ≤ p →
  splice o l b !!! Z.to_nat p =
    if decide (o ≤ p < o + Z.of_nat (length l)) then l !!! Z.to_nat (p - o) else b !!! Z.to_nat p.
Proof.
  intros Ho Hl Hp. unfold splice. rewrite !list_lookup_total_alt. case_decide.
  - rewrite lookup_app_r by (rewrite length_take; lia). rewrite lookup_app_l by (rewrite length_take; lia).
    rewrite length_take. do 2 f_equal. lia.
  - destruct (decide (p < o)).
    + rewrite lookup_app_l by (rewrite length_take; lia). by rewrite lookup_take_lt by lia.
    + rewrite lookup_app_r by (rewrite length_take; lia). rewrite lookup_app_r by (rewrite length_take; lia).
      rewrite length_take, lookup_drop. do 2 f_equal. lia.
Qed.

Lemma file_put L f d nb bn o l :
  file_ok L f d nb → 0 ≤ bn < nb → 0 ≤ o → o + Z.of_nat (length l) ≤ BSIZE →
  Z.of_nat (length (f (fblk f d bn))) = BSIZE →
  let f' := fupd f (fblk f d bn) (splice o l (f (fblk f d bn))) in
  file_ok L f' d nb ∧ (∀ bm, 0 ≤ bm < nb → fblk f' d bm = fblk f d bm) ∧
  ∀ p, 0 ≤ p < nb * BSIZE → file_byte f' d p =
    if decide (p `div` BSIZE = bn ∧ o ≤ p `mod` BSIZE < o + Z.of_nat (length l))
    then l !!! Z.to_nat (p `mod` BSIZE - o) else file_byte f d p.
Proof.
  intros [F1 F2 F3 F4 F5] Hbn Ho Hl Hlen f'. set (x := fblk f d bn) in *.
  assert (∀ bm, 0 ≤ bm < nb → fblk f' d bm = fblk f d bm) as Hsame.
  { intros bm Hbm. unfold fblk. destruct (Z.ltb_spec bm NDIRECT); [done|].
    unfold f'. rewrite fupd_ne; [done|]. apply not_eq_sym. apply F5; lia. }
  split_and!; [|done|].
  - split; [done| | |done|].
    + intros bm Hbm. rewrite Hsame by done. by apply F2.
    + intros bm bk Hbm Hbk. rewrite !Hsame by done. by apply F3.
    + intros bm Hbm Hnb. rewrite Hsame by done. by apply F5.
  - intros p Hp. assert (0 ≤ p `div` BSIZE < nb) as Hq by (unfold BSIZE in *; dlia).
    assert (0 ≤ p `mod` BSIZE < BSIZE) as Hr by (apply Z.mod_pos_bound; done).
    unfold file_byte. rewrite Hsame by done. unfold f', fupd. destruct (decide (fblk f d (p `div` BSIZE) = x)) as [E|E].
    + assert (p `div` BSIZE = bn) as Ebn by (by apply F3). rewrite E, splice_lookup by lia. clear E.
      repeat case_decide; try done; tauto.
    + rewrite decide_False; [done|]. intros [E' _]. apply E. by rewrite E'.
Qed.

Section write.
Context {D : Type} `{!BlockDev D}.
Context (end_ : Z) (buf_addr : nat → Z).
Implicit Types (s : fst D) (v : txv).
Abbreviation fmem s := (km_mem (f_km s)).

Lemma iupdate_ok s v ip :
  frep s v → let n := ino ip s in let x := IBLOCK (i_inum n) (f_sb s) in
  i_dev n = ROOTDEV → home (log_start (f_l s)) x → ¬ held_blk (v_held v) x →
  (length (v_log v) + size (v_held v) < Z.to_nat NBUF)%nat →
  wp (iupdate ip) (λ _ s',
    frep s' (v_put x (put_dinode (i_inum n `mod` IPB) (i_d n) (v_view v x)) v) ∧ fkeep s s') s.
Proof.
  intros Hs n x Hdev Hx Hh Hroom. unfold iupdate. wp_step. wp_step. fold n x. rewrite Hdev. wp_step.
  wp_call (fs_bread s v ROOTDEV x); [done|done|apply Hx|done|done|]. intros i s1 (Hs1 & Hi & Hk1).
  apply wp_ret3. apply (fs_put_tail s1 v i x); [done|done|change LOGBLOCKS with NBUF; lia|by rewrite (fkeep_start s s1) by eauto|].
  intros s' Hs' Hk'. wp_step. split; [done|]. by transitivity s1.
Qed.

(** What writei needs of the inode to write below block [nb]. *)
Record writable s v ip nb : Prop := {
  wa_rep : frep s v;
  wa_dev : i_dev (ino ip s) = ROOTDEV;
  wa_file : file_ok (log_start (f_l s)) (v_view v) (i_d (ino ip s)) nb;
  wa_len x : Z.of_nat (length (v_view v x)) = BSIZE;
  wa_byte x : byte_list (v_view v x);
  wa_held : v_held v = ∅
}.

Lemma byte_list_splice o l b : byte_list l → byte_list b → byte_list (splice o l b).
Proof. intros Hl Hb. unfold splice, byte_list in *. rewrite !Forall_app. split_and!; [by apply Forall_take|done|by apply Forall_drop]. Qed.

(** One iteration: [m] bytes from [src] to the block at [off]. *)
Lemma write_chunk s v ip nb src off m {A} (e : M (fst D) A) (k1 : nat → M (fst D) A) (k : M (fst D) A) Q :
  writable s v ip nb → let d := i_d (ino ip s) in
  0 ≤ off → 0 < m ≤ BSIZE - off `mod` BSIZE → off `div` BSIZE < nb →
  (length (v_log v) < Z.to_nat LOGBLOCKS)%nat →
  (∀ a, src ≤ a < src + m → ¬ in_bufs buf_addr a) →
  let x := fblk (v_view v) d (off `div` BSIZE) in
  (∀ s', frep s' (v_put x (splice (off `mod` BSIZE) (rds (fmem s) src (Z.to_nat m)) (v_view v x)) v) → mkeep s s' →
    (∀ a, ¬ in_bufs buf_addr a → rd (fmem s') a = rd (fmem s) a) → wp k Q s') →
  wp (do addr <- bmap ip (off `div` BSIZE);
      if addr =? 0 then e
      else
        do s <- get;
        do bp <- fbread (i_dev (ino ip s)) addr;
        do r <- copyin_buf end_ buf_addr bp (off `mod` BSIZE) 0 src m;
        if r =? -1 then k1 bp
        else flog_write bp ;; fbrelse bp ;; k) Q s.
Proof.
  intros [Hs Hdev Hf Hlen Hby Hh] d Hoff Hm Hbn Hroom Hdis x Hk.
  assert (∀ y, ¬ held_blk (v_held v) y) as Hnh by (intros y [i Hi]; by rewrite Hh in Hi).
  assert (0 ≤ off `div` BSIZE < nb) as Hbn' by (unfold BSIZE in *; dlia).
  destruct (fo_map _ _ _ _ Hf _ Hbn') as [Hne Hhome]. fold d x in Hne, Hhome.
  wp_step. wp_call (bmap_hit s v ip (off `div` BSIZE) nb); [done|done|done|done|done|done|].
  fold d x. intros r s1 (-> & Hs1 & Hk1). rewrite (proj2 (Z.eqb_neq x 0)) by done.
  assert (ino ip s1 = ino ip s) as Ei by (unfold ino; by rewrite (fk_ino _ _ Hk1)).
  wp_step. wp_step. rewrite Ei, Hdev. wp_step.
  wp_call (fs_bread s1 v ROOTDEV x); [done|done|apply Hhome|done|rewrite Hh, map_size_empty; change NBUF with LOGBLOCKS; lia|].
  intros i s2 (Hs2 & Hi & Hk2). wp_step.
  assert (0 ≤ off `mod` BSIZE < BSIZE) as Hmod by (apply Z.mod_pos_bound; done).
  assert (v_held (v_bread i x v) !! i = Some x) as Hhi by (cbn; apply lookup_insert_eq).
  wp_call (copyin_kernel end_ buf_addr s2 _ i x); [exact Hs2|exact Hhi|apply Hby|apply Hlen|lia|lia|lia| |].
  { intros j Hj Hin. apply (Hdis (src + j)); [lia|by exists i]. }
  cbn [v_view v_bread]. intros r s3 (-> & Hs3 & Hk3 & Hmem). cbn [Z.eqb].
  assert (mkeep s s3) as Hk03.
  { transitivity s1; [by apply fkeep_mkeep|]. transitivity s2; [by apply fkeep_mkeep|done]. }
  wp_step. wp_call (fs_log s3 _ i x); [exact Hs3|exact Hhi|done|by rewrite (mkeep_start s s3 v)|].
  intros [] s4 [Hs4 Hk4]. wp_step.
  wp_call (fs_brelse s4 _ i x); [exact Hs4|exact Hhi|left; apply elem_of_add_block; by left|].
  intros [] s5 [Hs5 Hk5]. rewrite v_put_released in Hs5 by done.
  assert (fmem s2 = fmem s) as Em by (by rewrite (fk_km _ _ Hk2), (fk_km _ _ Hk1)). rewrite Em in *.
  apply Hk; [done| |].
  - transitivity s3; [done|]. transitivity s4; by apply fkeep_mkeep.
  - intros a Ha. rewrite (fk_km _ _ Hk5), (fk_km _ _ Hk4). rewrite Hmem by (intros H; apply Ha; by exists i). done.
Qed.

(** The view after [tot] bytes have been written from [src] at [off]. *)
Record written s v ip nb src off tot v' : Prop := {
  wn_bytes p : 0 ≤ p < nb * BSIZE → file_byte (v_view v') (i_d (ino ip s)) p =
    if decide (off ≤ p < off + tot) then rd (fmem s) (src + (p - off)) else file_byte (v_view v) (i_d (ino ip s)) p;
  wn_fblk bm : 0 ≤ bm < nb → fblk (v_view v') (i_d (ino ip s)) bm = fblk (v_view v) (i_d (ino ip s)) bm;
  wn_other x : (∀ bm, 0 ≤ bm < nb → fblk (v_view v) (i_d (ino ip s)) bm ≠ x) → v_view v' x = v_view v x;
  wn_disk : v_disk v' = v_disk v
}.

Lemma written_step s v ip nb src off tot v' m :
  file_ok (log_start (f_l s)) (v_view v') (i_d (ino ip s)) nb →
  (∀ y, Z.of_nat (length (v_view v' y)) = BSIZE) → (∀ y, byte_list (v_view v' y)) →
  written s v ip nb src off tot v' →
  0 ≤ off → 0 ≤ tot → 0 < m ≤ BSIZE - (off + tot) `mod` BSIZE → off + tot + m ≤ nb * BSIZE →
  let d := i_d (ino ip s) in let x := fblk (v_view v') d ((off + tot) `div` BSIZE) in
  let v2 := v_put x (splice ((off + tot) `mod` BSIZE) (rds (fmem s) (src + tot) (Z.to_nat m)) (v_view v' x)) v' in
  written s v ip nb src off (tot + m) v2 ∧ file_ok (log_start (f_l s)) (v_view v2) d nb ∧
  (∀ y, Z.of_nat (length (v_view v2 y)) = BSIZE) ∧ (∀ y, byte_list (v_view v2 y)).
Proof.
  intros Hf Hlen Hby [Wb Wf Wo Wd] Hoff Htot Hm Hle d x v2. set (q := off + tot) in *.
  assert (0 ≤ q `div` BSIZE < nb ∧ 0 ≤ q `mod` BSIZE < BSIZE) as [Hbn Hmod] by (unfold BSIZE in *; dlia).
  set (l := rds (fmem s) (src + tot) (Z.to_nat m)) in *.
  assert (Z.of_nat (length l) = m) as El by (unfold l; rewrite length_rds; lia).
  destruct (file_put _ _ _ nb (q `div` BSIZE) (q `mod` BSIZE) l Hf Hbn ltac:(lia) ltac:(lia) (Hlen _)) as (Hf2 & Hfb & Hbytes).
  fold d x in Hf2, Hfb, Hbytes. cbn [v_view v2 v_put].
  split_and!; [split| | |]; cbn [v_view v2 v_put v_disk].
  - intros p Hp. fold d. rewrite Hbytes by done. rewrite Wb by done. rewrite El.
    assert (p `div` BSIZE = q `div` BSIZE ∧ q `mod` BSIZE ≤ p `mod` BSIZE < q `mod` BSIZE + m ↔ q ≤ p < q + m) as Hiff.
    { unfold BSIZE in *. dlia. }
    destruct (decide (q ≤ p < q + m)) as [Hin|Hin].
    + rewrite decide_True by (by apply Hiff). rewrite decide_True by lia.
      assert (p `mod` BSIZE - q `mod` BSIZE = p - q) as Ep by (apply Hiff in Hin as [E _]; unfold BSIZE in *; dlia).
      rewrite Ep. unfold l. rewrite list_lookup_total_alt, lookup_rds, decide_True by lia. cbn. f_equal. lia.
    + rewrite decide_False by (by rewrite Hiff). fold d. repeat case_decide; try done; lia.
  - intros bm Hbm. fold d. rewrite Hfb by done. by apply Wf.
  - intros y Hy. rewrite fupd_ne; [by apply Wo|]. intros ->. apply (Hy (q `div` BSIZE) Hbn). fold d. unfold x. by rewrite Wf.
  - done.
  - done.
  - intros y. unfold fupd. case_decide; [|apply Hlen]. rewrite length_splice; [apply Hlen|lia|]. rewrite Hlen. lia.
  - intros y. unfold fupd. case_decide; [|apply Hby]. apply byte_list_splice; [apply rds_byte_list|apply Hby].
Qed.

Lemma writei_loop_ok s v ip nb src off n :
  writable s v ip nb → 0 ≤ off → 0 ≤ n → off + n ≤ nb * BSIZE → nb ≤ MAXFILE →
  0 ≤ src → src + n < 2 ^ 64 → (∀ a, src ≤ a < src + n → ¬ in_bufs buf_addr a) →
  (length (v_log v) + rw_left n off ≤ Z.to_nat LOGBLOCKS)%nat →
  wp (writei_loop end_ buf_addr ip 0 src off n) (λ r s', r = (n, off + n) ∧ mkeep s s' ∧
    (∀ a, ¬ in_bufs buf_addr a → rd (fmem s') a = rd (fmem s) a) ∧
    ∃ v', frep s' v' ∧ v_held v' = ∅ ∧ written s v ip nb src off n v' ∧
      file_ok (log_start (f_l s)) (v_view v') (i_d (ino ip s)) nb ∧
      (∀ y, Z.of_nat (length (v_view v' y)) = BSIZE) ∧ (∀ y, byte_list (v_view v' y)) ∧
      (length (v_log v') ≤ length (v_log v) + rw_left n off)%nat) s.
Proof.
  intros Hwa Hoff Hn Hle Hnb Hsrc Hsn Hdis Hroom. unfold writei_loop. set (d := i_d (ino ip s)).
  assert (off + n < 2 ^ 31) as Hmf by (unfold BSIZE in *; change MAXFILE with 268 in *; lia).
  apply (wp_loop (λ '(tot, o, a) s', 0 ≤ tot ≤ n ∧ o = off + tot ∧ a = src + tot ∧ mkeep s s' ∧
      (∀ a, ¬ in_bufs buf_addr a → rd (fmem s') a = rd (fmem s) a) ∧
      ∃ v', frep s' v' ∧ v_held v' = ∅ ∧ written s v ip nb src off tot v' ∧
        file_ok (log_start (f_l s)) (v_view v') d nb ∧
        (∀ y, Z.of_nat (length (v_view v' y)) = BSIZE) ∧ (∀ y, byte_list (v_view v' y)) ∧
        (length (v_log v') + rw_left (n - tot) o ≤ length (v_log v) + rw_left n off)%nat)
    (λ '(tot, o, a) _, rw_left (n - tot) o)).
  - intros [[tot o] a0] s' (Ht & -> & -> & Hk' & Hm' & v' & Hs' & Hh' & Hw' & Hf' & Hl' & Hb' & Hlog').
    pose proof (mkeep_start s s' v Hk' (wa_rep _ _ _ _ Hwa)) as EL.
    assert (ino ip s' = ino ip s) as Ei by (unfold ino; by rewrite (mk_ino _ _ Hk')).
    destruct (Z.ltb_spec tot n) as [Hlt|Hge]; cbn [negb].
    2: { assert (tot = n) as -> by lia. wp_step. split_and!; [done|done|done|]. exists v'. split_and!; try done.
         rewrite Z.sub_diag in Hlog'. change (rw_left 0 (off + n)) with 0%nat in Hlog'. lia. }
    destruct (rw_left_dec (n - tot) (off + tot) ltac:(lia)) as (Hm & Hdec & _).
    set (m := Z.min (n - tot) (BSIZE - (off + tot) `mod` BSIZE)) in *.
    assert (m ≤ n - tot) as Hmn by (unfold m; lia).
    assert (writable s' v' ip nb) as Hwa' by (split; rewrite ?Ei, ?EL; try done; apply Hwa).
    apply (write_chunk s' v' ip nb (src + tot) (off + tot) m).
    { done. } { lia. } { unfold m in *. lia. } { apply Z.div_lt_upper_bound; [done|]. unfold BSIZE in *. lia. } { lia. } { intros a Ha. apply Hdis. lia. }
    intros s2 Hs2 Hk2 Hm2. wp_step. rewrite u32_small, u64_small by lia.
    rewrite Ei in Hs2. fold d in Hs2.
    assert (rds (fmem s') (src + tot) (Z.to_nat m) = rds (fmem s) (src + tot) (Z.to_nat m)) as Er.
    { apply rds_ext. intros i Hi. apply Hm', Hdis. lia. }
    rewrite Er in Hs2.
    destruct (written_step s v ip nb src off tot v' m Hf' Hl' Hb' Hw' Hoff ltac:(lia) ltac:(unfold m in *; lia) ltac:(lia))
      as (Hw2 & Hf2 & Hl2 & Hb2).
    split; [|by replace (n - (tot + m)) with (n - tot - m) by lia].
    split_and!; [lia|lia|lia|lia|by transitivity s'| |].
    + intros a Ha. rewrite Hm2 by done. by apply Hm'.
    + eexists. split_and!; [exact Hs2|done|exact Hw2|exact Hf2|exact Hl2|exact Hb2|].
      cbn [v_log v_put]. pose proof (add_block_le (fblk (v_view v') d ((off + tot) `div` BSIZE)) (v_log v')).
      replace (n - (tot + m)) with (n - tot - m) by lia. lia.
  - destruct Hwa as [W1 W2 W3 W4 W5 W6]. split_and!; [lia|lia|lia|lia|done|done|]. exists v. split_and!; try done.
    + split; try done. intros p Hp. by rewrite decide_False by lia.
    + rewrite Z.sub_0_r. lia.
  - rewrite Z.sub_0_r. apply rw_left_fuel.
Qed.
End write.
