(* ===== verification/FsProps.v ===== *)
(** * Correctness of the block allocator, of inodes and of file contents

    The theorems on kernel/fs.c inside a transaction: balloc and bfree, the
    on-disk inode, writei and readi of allocated blocks. *)
From S2P Require Import Prelude Memory KString Riscv Spinlock Kalloc Vm Sched Sleeplock Disk Bio BioSpec BioInv BioOps Log LogSpec LogOps LogTx FsRep Fs FsBlocks FsData FsInode BioProps LogProps.

(** ** Blocks outside a file *)
Definition outside (f : Z → block) (d : dinode) (nb x : Z) : Prop :=
  (∀ bm, 0 ≤ bm < nb → fblk f d bm ≠ x) ∧ (NDIRECT < nb → d_addrs d !!! Z.to_nat NDIRECT ≠ x).

Lemma outside_put L f d nb x b :
  file_ok L f d nb → outside f d nb x →
  file_ok L (fupd f x b) d nb ∧ (∀ bm, 0 ≤ bm < nb → fblk (fupd f x b) d bm = fblk f d bm) ∧
  ∀ p, 0 ≤ p < nb * BSIZE → file_byte (fupd f x b) d p = file_byte f d p.
Proof.
  intros [F1 F2 F3 F4 F5] [O1 O2].
  assert (∀ bm, 0 ≤ bm < nb → fblk (fupd f x b) d bm = fblk f d bm) as Hsame.
  { intros bm Hbm. unfold fblk. destruct (Z.ltb_spec bm NDIRECT); [done|]. rewrite fupd_ne; [done|]. apply O2. lia. }
  split_and!; [|done|].
  - split; [done| | |done|].
    + intros bm Hbm. rewrite Hsame by done. by apply F2.
    + intros bm bk Hbm Hbk. rewrite !Hsame by done. by apply F3.
    + intros bm Hbm Hnb. rewrite Hsame by done. by apply F5.
  - intros p Hp. assert (0 ≤ p `div` BSIZE < nb) as Hq by (unfold BSIZE in *; dlia).
    unfold file_byte. rewrite Hsame by done. rewrite fupd_ne; [done|]. by apply O1.
Qed.

Lemma outside_ext L f f' d nb x : file_ok L f d nb →
  (∀ bm, 0 ≤ bm < nb → fblk f' d bm = fblk f d bm) → outside f d nb x → outside f' d nb x.
Proof. intros Hf E [O1 O2]. split; [|done]. intros bm Hbm. rewrite E by done. by apply O1. Qed.

Lemma file_ok_with_size L f d nb z : file_ok L f d nb → file_ok L f (with_size z d) nb.
Proof. by intros [? ? ? ? ?]. Qed.

Lemma file_ok_mono L f d nb nb' : nb' ≤ nb → file_ok L f d nb → file_ok L f d nb'.
Proof.
  intros H [F1 F2 F3 F4 F5]. split; [lia| | | |].
  - intros bn Hbn. apply F2. lia.
  - intros bn bm Hbn Hbm. apply F3; lia.
  - intros Hn. apply F4. lia.
  - intros bn Hbn Hn. apply F5; lia.
Qed.

Section props.
Context {D : Type} `{!BlockDev D}.
Context (end_ : Z) (buf_addr : nat → Z).
Implicit Types (s : fst D) (v : txv).
Abbreviation fmem s := (km_mem (f_km s)).

(** The inode of a file written at [off], [n] bytes. *)
Definition grown (d : dinode) (z : Z) : dinode := with_size (Z.max (d_size d) z) d.

(** What holds after writei, with the transaction's view [v']. *)
Record wrote s v ip nb src off n s' v' : Prop := {
  wr_rep : frep s' v';
  wr_held : v_held v' = ∅;
  wr_sb : f_sb s' = f_sb s;
  wr_start : log_start (f_l s') = log_start (f_l s);
  wr_ino : ino ip s' = with_d (λ d, grown d (off + n)) (ino ip s);
  wr_ino_ne j : j ≠ ip → ino j s' = ino j s;
  wr_slots : length (inodes s') = length (inodes s);
  wr_it : it_lock s' = it_lock s;
  wr_mem a : ¬ in_bufs buf_addr a → rd (fmem s') a = rd (fmem s) a;
  wr_file : file_ok (log_start (f_l s)) (v_view v') (i_d (ino ip s)) nb;
  wr_bytes p : 0 ≤ p < nb * BSIZE → file_byte (v_view v') (i_d (ino ip s)) p =
    if decide (off ≤ p < off + n) then rd (fmem s) (src + (p - off)) else file_byte (v_view v) (i_d (ino ip s)) p;
  wr_inode : get_dinode (i_inum (ino ip s) `mod` IPB) (v_view v' (IBLOCK (i_inum (ino ip s)) (f_sb s))) =
    grown (i_d (ino ip s)) (off + n);
  wr_other x : x ≠ IBLOCK (i_inum (ino ip s)) (f_sb s) →
    (∀ bm, 0 ≤ bm < nb → fblk (v_view v) (i_d (ino ip s)) bm ≠ x) → v_view v' x = v_view v x;
  wr_len x : Z.of_nat (length (v_view v' x)) = BSIZE;
  wr_log : (length (v_log v') ≤ length (v_log v) + rw_left n off + 1)%nat
}.

(** What writei needs: the inode, its block and room in the transaction. *)
Record write_pre s v ip nb src off n : Prop := {
  wp_able : writable s v ip nb;
  wp_slot : (ip < length (inodes s))%nat;
  wp_dinode : dinode_ok (i_d (ino ip s));
  wp_off : 0 ≤ off ≤ d_size (i_d (ino ip s));
  wp_n : 0 ≤ n;
  wp_in : off + n ≤ nb * BSIZE;
  wp_src : 0 ≤ src ∧ src + n < 2 ^ 64;
  wp_dis a : src ≤ a < src + n → ¬ in_bufs buf_addr a;
  wp_ihome : home (log_start (f_l s)) (IBLOCK (i_inum (ino ip s)) (f_sb s));
  wp_iout : outside (v_view v) (i_d (ino ip s)) nb (IBLOCK (i_inum (ino ip s)) (f_sb s));
  wp_room : (length (v_log v) + rw_left n off < Z.to_nat LOGBLOCKS)%nat
}.

Lemma grown_ok d z : dinode_ok d → 0 ≤ z < 2 ^ 32 → dinode_ok (grown d z).
Proof. intros [? ? ? ? ? ? ?] Hz. split; cbn; try done. lia. Qed.

Lemma set_ino_upd ip g s : (ip < length (inodes s))%nat →
  ino ip (with_inodes (alter g ip) s) = g (ino ip s) ∧ ∀ j, j ≠ ip → ino j (with_inodes (alter g ip) s) = ino j s.
Proof.
  intros H. destruct (lookup_lt_is_Some_2 _ _ H) as [n Hn]. unfold ino. split.
  - rewrite !list_lookup_total_alt. cbn [inodes with_inodes]. by rewrite list_lookup_alter, decide_True, Hn.
  - intros j Hj. rewrite !list_lookup_total_alt. cbn [inodes with_inodes]. by rewrite list_lookup_alter, decide_False by done.
Qed.

(** The size field after the loop. *)
Lemma set_size ip z s (k : M (fst D) Z) Q :
  (ip < length (inodes s))%nat →
  (∀ s', f_l s' = f_l s → f_sb s' = f_sb s → f_km s' = f_km s → ino ip s' = with_d (λ d, grown d z) (ino ip s) →
     (∀ j, j ≠ ip → ino j s' = ino j s) → length (inodes s') = length (inodes s) → it_lock s' = it_lock s → wp k Q s') →
  wp (when (d_size (i_d (ino ip s)) <? z) (set_ino ip (with_d (with_size z))) ;; k) Q s.
Proof.
  intros Hip Hk. wp_step. destruct (Z.ltb_spec (d_size (i_d (ino ip s))) z) as [H|H]; cbn [when].
  - destruct (set_ino_upd ip (with_d (with_size z)) s Hip) as [E1 E2].
    unfold set_ino. wp_step. apply Hk; try done; [|cbn; by rewrite length_alter]. rewrite E1. unfold with_d, grown. by rewrite Z.max_r by lia.
  - wp_step. apply Hk; try done. unfold with_d, grown. rewrite Z.max_l by lia. by destruct (ino ip s) as [? ? ? ? ? []].
Qed.

(** writei of [n] bytes into allocated blocks writes exactly those bytes, sets the
    size to the larger of the old one and the end of the write, and puts the inode
    on its block. *)
Lemma writei_run s v ip nb src off n :
  write_pre s v ip nb src off n →
  wp (writei end_ buf_addr ip 0 src off n) (λ r s', r = n ∧ ∃ v', wrote s v ip nb src off n s' v') s.
Proof.
  intros [Hwa Hip Hd Hoff Hn Hin [Hs0 Hs1] Hdis Hih Hio Hroom]. set (d := i_d (ino ip s)) in *.
  pose proof (fo_max _ _ _ _ (wa_file _ _ _ _ Hwa)) as Hnb.
  assert (off + n ≤ MAXFILE * BSIZE ∧ off + n < 2 ^ 31) as [Hmf Hmf']
    by (unfold BSIZE in *; change MAXFILE with 268 in *; lia).
  unfold writei. wp_step. wp_step. fold d. rewrite (u32_small (off + n)) by lia.
  rewrite (proj2 (Z.ltb_ge (d_size d) off)), (proj2 (Z.ltb_ge (off + n) off)), (proj2 (Z.ltb_ge (MAXFILE * BSIZE) _)) by lia.
  cbn [orb]. wp_step. wp_call (writei_loop_ok end_ buf_addr s v ip nb src off n); try done; [lia|lia|].
  intros r s1 (-> & Hk1 & Hm1 & v1 & Hr1 & Hh1 & [Wb Wf Wo Wd] & Hf1 & Hl1 & Hb1 & Hlog1). fold d in Hf1, Wb, Wf, Wo. cbn [Datatypes.fst snd].
  assert (∀ j, ino j s1 = ino j s) as Ei by (intros j; unfold ino; by rewrite (mk_ino _ _ Hk1)).
  pose proof (mkeep_start s s1 v Hk1 (wa_rep _ _ _ _ Hwa)) as EL.
  wp_step. wp_step. apply (set_size ip (off + n)); [by rewrite (mk_ino _ _ Hk1)|].
  intros s2 L2 B2 K2 I2 J2 N2 T2. rewrite Ei in I2. wp_step.
  assert (frep s2 v1) as Hr2 by (unfold frep; by rewrite L2).
  assert (i_inum (ino ip s2) = i_inum (ino ip s)) as En by (by rewrite I2).
  assert (f_sb s2 = f_sb s) as Eb by (by rewrite B2, (mk_sb _ _ Hk1)).
  set (x := IBLOCK (i_inum (ino ip s)) (f_sb s)) in *.
  wp_call (iupdate_ok s2 v1 ip); [done|by rewrite I2; apply Hwa|by rewrite En, Eb, L2, EL
    |rewrite Hh1; intros [i Hi]; done|rewrite Hh1, map_size_empty; change NBUF with LOGBLOCKS; lia|].
  rewrite En, Eb. fold x. intros [] s3 [Hr3 Hk3]. wp_step. rewrite i32_small by lia. split; [done|].
  pose proof (outside_ext _ _ _ _ _ _ (wa_file _ _ _ _ Hwa) Wf Hio) as Hox.
  rewrite I2 in Hr3. cbn [i_d with_d] in Hr3. fold d in Hr3.
  destruct (outside_put _ _ _ _ x (put_dinode (i_inum (ino ip s) `mod` IPB) (grown d (off + n)) (v_view v1 x)) Hf1 Hox) as (Hf3 & _ & Hbytes).
  assert (dinode_ok (grown d (off + n))) as Hg by (apply grown_ok; [done|lia]).
  assert (0 ≤ i_inum (ino ip s) `mod` IPB < IPB) as Hmod by (apply Z.mod_pos_bound; done).
  assert (∀ j, ino j s3 = ino j s2) as Ej by (intros j; unfold ino; by rewrite (fk_ino _ _ Hk3)).
  eexists. split; [exact Hr3|..]; cbn [v_view v_put v_held v_log v_disk]; fold d; fold x.
  - done.
  - by rewrite (fk_sb _ _ Hk3).
  - rewrite (fkeep_start s2 s3 Hk3) by eauto. by rewrite L2.
  - by rewrite Ej.
  - intros j Hj. by rewrite Ej, J2, Ei.
  - by rewrite (fk_ino _ _ Hk3), N2, (mk_ino _ _ Hk1).
  - by rewrite (fk_it _ _ Hk3), T2, (mk_it _ _ Hk1).
  - intros a Ha. rewrite (fk_km _ _ Hk3), K2. by apply Hm1.
  - exact Hf3.
  - intros p Hp. rewrite Hbytes by done. by apply Wb.
  - rewrite fupd_eq. by apply get_put_dinode.
  - intros y Hy Hyf. rewrite fupd_ne by done. by apply Wo.
  - intros y. unfold fupd. case_decide; [|apply Hl1]. by rewrite length_put_dinode.
  - pose proof (add_block_le x (v_log v1)). lia.
Qed.
End props.

(** ** Allocation and release of blocks *)

(** Marking block [r] and zeroing it changes the free map at [r] only. *)
Lemma alloc_used L sb v r c :
  fs_layout L sb → blocks_ok L sb (v_view v) → 0 ≤ r < sb_size sb → blk_used sb (v_view v) r = false →
  0 ≤ c < sb_size sb → blk_used sb (v_view (v_alloc sb r v)) c = bool_decide (c = r) || blk_used sb (v_view v) c.
Proof.
  intros Hl Hk Hr Hf Hc. rewrite <- (used_mark L) by done. unfold blk_used, v_alloc. cbn [v_view v_put].
  rewrite (fupd_ne _ r); [done|]. by apply (bk_free _ _ _ Hk).
Qed.

Lemma alloc_blocks_ok L sb v r :
  fs_layout L sb → blocks_ok L sb (v_view v) → 0 ≤ r < sb_size sb → blk_used sb (v_view v) r = false →
  blocks_ok L sb (v_view (v_alloc sb r v)).
Proof.
  intros Hl Hk Hr Hf. split.
  - intros x. unfold v_alloc. cbn [v_view v_put]. unfold fupd at 1. case_decide; [done|].
    unfold fupd. case_decide; [rewrite length_set_bit|]; apply Hk.
  - intros b Hb. rewrite (alloc_used L) by done. intros [_ E]%orb_false_iff. by apply (bk_free _ _ _ Hk).
Qed.

Section alloc.
Context {D : Type} `{!BlockDev D}.
Implicit Types (s : fst D) (v : txv).

Lemma bfree_ok s v b :
  frep s v → fs_layout (log_start (f_l s)) (f_sb s) → 0 ≤ b < sb_size (f_sb s) →
  ¬ held_blk (v_held v) (BBLOCK b (f_sb s)) → (length (v_log v) + size (v_held v) < Z.to_nat NBUF)%nat →
  if blk_used (f_sb s) (v_view v) b
  then wp (bfree ROOTDEV b) (λ _ s', fkeep s s' ∧
         frep s' (v_put (BBLOCK b (f_sb s)) (clear_bit (b `mod` BPB) (v_view v (BBLOCK b (f_sb s)))) v)) s
  else faults (bfree ROOTDEV b) s (Panicked "freeing free block").
Proof.
  intros Hs Hl Hb Hh Hroom. set (x := BBLOCK b (f_sb s)) in *.
  assert (home (log_start (f_l s)) x) as Hx by (by apply (BBLOCK_home _ _ _ Hl)).
  destruct (wp_Ok _ _ _ (fs_bread s v ROOTDEV x Hs eq_refl ltac:(apply Hx) Hh Hroom)) as (i & s1 & E1 & Hs1 & Hi & Hk1).
  assert (v_held (v_bread i x v) !! i = Some x) as Hhi by (cbn; apply lookup_insert_eq).
  destruct (wp_Ok _ _ _ (fs_data s1 _ i x Hs1 Hhi)) as (d & s1' & E2 & -> & ->). cbn [v_view v_bread] in E2.
  unfold bfree, blk_used. fold x. destruct (bit_set _ _) eqn:Eb.
  - wp_step. wp_step. fold x. wp_step. eapply wp_of_Ok; [exact E1|]. wp_step. eapply wp_of_Ok; [exact E2|]. rewrite Eb. cbn [negb].
    apply wp_ret3. apply (fs_put_tail s1 v i x); [done|done|change LOGBLOCKS with NBUF; lia|by rewrite (fkeep_start s s1) by eauto|].
    intros s2 Hs2 Hk2. wp_step. split; [by transitivity s1|done].
  - unfold faults. rewrite (bind_Ok _ _ _ _ _ (eq_refl : get s = Ok s s)). fold x.
    rewrite (bind_Ok _ _ _ _ _ E1), (bind_Ok _ _ _ _ _ E2), Eb. done.
Qed.

(** C18: balloc returns a block that the bitmap had as free, marks that block and
    no other, and zeroes it, leaving every other block of the disk as it was;
    when no block is free it returns 0 and changes nothing. *)
Theorem balloc_allocates s v :
  alloc_pre s v →
  wp (balloc ROOTDEV) (λ r s', ∃ v', frep s' v' ∧ v_held v' = v_held v ∧
    (r = 0 ∧ v' = v ∧ (∀ b, 0 ≤ b < sb_size (f_sb s) → blk_used (f_sb s) (v_view v) b = true) ∨
     0 ≤ r < sb_size (f_sb s) ∧ blk_used (f_sb s) (v_view v) r = false ∧ v_view v' r = zero_block ∧
     (∀ c, 0 ≤ c < sb_size (f_sb s) →
        blk_used (f_sb s) (v_view v') c = bool_decide (c = r) || blk_used (f_sb s) (v_view v) c) ∧
     ∀ x, x ≠ r → x ≠ BBLOCK r (f_sb s) → v_view v' x = v_view v x)) s.
Proof.
  intros Hp. eapply wp_mono; [by apply balloc_ok|]. intros r s' [_ [(-> & Hs' & Hu)|(Hr & Hf & Hs')]].
  - exists v. split_and!; [done|done|]. by left.
  - exists (v_alloc (f_sb s) r v). split_and!; [done|done|]. right. split_and!; [lia|lia|done| | |].
    + unfold v_alloc. cbn [v_view v_put]. apply fupd_eq.
    + intros c Hc. apply (alloc_used (log_start (f_l s))); [apply Hp|apply Hp|done|done|done].
    + intros x H1 H2. unfold v_alloc. cbn [v_view v_put]. by rewrite !fupd_ne.
Qed.

(** Bfree of a block in use clears its bit and no other one; bfree of a free
    block panics. *)
Theorem bfree_releases s v b :
  frep s v → fs_layout (log_start (f_l s)) (f_sb s) → (∀ x, Z.of_nat (length (v_view v x)) = BSIZE) →
  0 ≤ b < sb_size (f_sb s) → ¬ held_blk (v_held v) (BBLOCK b (f_sb s)) →
  (length (v_log v) + size (v_held v) < Z.to_nat NBUF)%nat →
  if blk_used (f_sb s) (v_view v) b
  then wp (bfree ROOTDEV b) (λ _ s', ∃ v', frep s' v' ∧ v_held v' = v_held v ∧
         (∀ c, 0 ≤ c < sb_size (f_sb s) →
            blk_used (f_sb s) (v_view v') c = negb (bool_decide (c = b)) && blk_used (f_sb s) (v_view v) c) ∧
         ∀ x, x ≠ BBLOCK b (f_sb s) → v_view v' x = v_view v x) s
  else faults (bfree ROOTDEV b) s (Panicked "freeing free block").
Proof.
  intros Hs Hl Hlen Hb Hh Hroom. pose proof (bfree_ok s v b Hs Hl Hb Hh Hroom) as H.
  destruct (blk_used _ _ b); [|done]. eapply wp_mono; [exact H|]. intros [] s' [_ Hs'].
  eexists. split_and!; [exact Hs'|done| |].
  - intros c Hc. by apply (used_clear (log_start (f_l s))).
  - intros x Hx. cbn [v_view v_put]. by rewrite fupd_ne.
Qed.

(** Allocating a block and freeing it again gives back the free map there was. *)
Theorem balloc_bfree s v :
  alloc_pre s v → blk_used (f_sb s) (v_view v) 0 = true →
  (length (v_log v) + size (v_held v) + 2 < Z.to_nat NBUF)%nat →
  wp (do b <- balloc ROOTDEV; (if b =? 0 then ret tt else bfree ROOTDEV b) ;; ret b) (λ _ s', ∃ v', frep s' v' ∧
    ∀ c, 0 ≤ c < sb_size (f_sb s) → blk_used (f_sb s) (v_view v') c = blk_used (f_sb s) (v_view v) c) s.
Proof.
  intros Hp H0 Hroom. pose proof Hp as [Hs Hl Hk Hbm Hfree Hr1].
  wp_step. wp_call (balloc_ok s v Hp). intros r s1 [Hk1 [(-> & Hs1 & Hu)|(Hr & Hf & Hs1)]].
  { cbn [Z.eqb]. wp_step. wp_step. wp_step. eauto. }
  assert (r ≠ 0) as Hne by (intros ->; congruence). rewrite (proj2 (Z.eqb_neq r 0)) by done.
  assert (f_sb s1 = f_sb s) as Eb by apply Hk1.
  assert (log_start (f_l s1) = log_start (f_l s)) as EL by (apply fkeep_start; eauto).
  pose proof (alloc_used _ _ _ _ r Hl Hk Hr Hf Hr) as Hur. rewrite bool_decide_true in Hur by done. cbn [orb] in Hur.
  pose proof (add_block_le (BBLOCK r (f_sb s)) (v_log v)).
  pose proof (add_block_le r (add_block (BBLOCK r (f_sb s)) (v_log v))).
  pose proof (bfree_ok s1 (v_alloc (f_sb s) r v) r Hs1) as Hbf. rewrite Eb, EL, Hur in Hbf.
  wp_step. wp_call Hbf; [done|done|by apply Hbm|cbn; lia|]. intros [] s2 [_ Hs2]. wp_step.
  eexists. split; [exact Hs2|]. intros c Hc. cbn [v_view v_put]. fold (v_view (v_alloc (f_sb s) r v)).
  rewrite (used_clear (log_start (f_l s))); [|done|apply (alloc_blocks_ok _ _ _ _ Hl Hk Hr Hf)|done|done].
  rewrite (alloc_used _ _ _ _ c Hl Hk Hr Hf Hc). case_bool_decide; [subst; by rewrite Hf|done].
Qed.
End alloc.

(** ** Contents of files *)
Section contents.
Context {D : Type} `{!BlockDev D}.
Context (end_ : Z) (buf_addr : nat → Z).
Implicit Types (s : fst D) (v : txv).
Abbreviation fmem s := (km_mem (f_km s)).

(** C19: writei into blocks the file has writes exactly the given bytes at the given
    offset: every other byte of the file, every other block of the disk and every
    other inode keep their value, the size grows to the end of the write and the
    inode's block holds the new inode. *)
Theorem writei_writes s v ip nb src off n :
  write_pre buf_addr s v ip nb src off n →
  wp (writei end_ buf_addr ip 0 src off n) (λ r s', r = n ∧ ∃ v', wrote buf_addr s v ip nb src off n s' v') s.
Proof. apply writei_run. Qed.

(** C20: the range checks of writei and readi are right for all 32-bit arguments, with
    the sum wrapping around: a write that starts past the end or would end past the
    largest file returns -1, a read that starts past the end or wraps returns 0, and
    neither changes anything. *)
Theorem file_range_checks s ip user a off n :
  0 ≤ off < 2 ^ 32 → 0 ≤ n < 2 ^ 32 → let size := d_size (i_d (ino ip s)) in
  (size < off ∨ MAXFILE * BSIZE < off + n → writei end_ buf_addr ip user a off n s = Ok (-1) s) ∧
  (size < off ∨ 2 ^ 32 ≤ off + n → readi end_ buf_addr ip user a off n s = Ok 0 s).
Proof.
  intros Hoff Hn size. assert (MAXFILE * BSIZE < 2 ^ 31) as Hmf by done.
  assert (2 ^ 32 ≤ off + n → u32 (off + n) < off) as Hw by (unfold u32; intros; dlia).
  assert (off + n < 2 ^ 32 → u32 (off + n) = off + n) as Hs by (intros; apply u32_small; lia).
  split; intros H; unfold writei, readi; rewrite (bind_Ok _ _ _ _ _ (eq_refl : get s = Ok s s)); fold size;
    destruct (Z.ltb_spec size off); try done; destruct (Z.ltb_spec (u32 (off + n)) off); try done; cbn [orb];
    destruct H as [H|H]; try lia; destruct (decide (2 ^ 32 ≤ off + n)); try lia.
  rewrite Hs, (proj2 (Z.ltb_lt (MAXFILE * BSIZE) _)) by lia. done.
Qed.

Lemma wrote_readable s v ip nb src off n s' v' :
  write_pre buf_addr s v ip nb src off n → wrote buf_addr s v ip nb src off n s' v' →
  d_size (i_d (ino ip s)) ≤ nb * BSIZE → (length (v_log v) + rw_left n off + 1 < Z.to_nat NBUF)%nat →
  readable s' v' ip.
Proof.
  intros Hp Hw Hsz Hroom. pose proof (wr_ino _ _ _ _ _ _ _ _ _ _ Hw) as Ei.
  assert (i_d (ino ip s') = grown (i_d (ino ip s)) (off + n)) as Ed by (by rewrite Ei).
  split; rewrite ?Ed.
  - apply Hw.
  - rewrite Ei. apply (wp_able _ _ _ _ _ _ _ _ Hp).
  - rewrite (wr_start _ _ _ _ _ _ _ _ _ _ Hw). eapply file_ok_mono; [|apply file_ok_with_size, Hw].
    pose proof (wp_in _ _ _ _ _ _ _ _ Hp). unfold nblocks, grown. cbn [d_size with_size]. unfold BSIZE in *. dlia.
  - apply Hw.
  - apply Hw.
  - pose proof (wr_log _ _ _ _ _ _ _ _ _ _ Hw). lia.
Qed.

(** C21: what writei has written at an offset, readi at that offset gives back. *)
Theorem writei_readi s v ip nb src off n dst :
  write_pre buf_addr s v ip nb src off n → d_size (i_d (ino ip s)) ≤ nb * BSIZE →
  (length (v_log v) + rw_left n off + 1 < Z.to_nat NBUF)%nat →
  0 ≤ dst → dst + n < 2 ^ 64 → (∀ a, dst ≤ a < dst + n → ¬ in_bufs buf_addr a) →
  wp (do r <- writei end_ buf_addr ip 0 src off n; do q <- readi end_ buf_addr ip 0 dst off n; ret (r, q))
     (λ p s', p = (n, n) ∧ ∀ i, 0 ≤ i < n → rd (fmem s') (dst + i) = rd (fmem s) (src + i)) s.
Proof.
  intros Hp Hsz Hroom Hd0 Hd1 Hdis. wp_step. wp_call (writei_run end_ buf_addr s v ip nb src off n Hp).
  intros r s1 (-> & v1 & Hw). pose proof (wrote_readable _ _ _ _ _ _ _ _ _ Hp Hw Hsz Hroom) as Hra.
  assert (i_d (ino ip s1) = grown (i_d (ino ip s)) (off + n)) as Ed by (by rewrite (wr_ino _ _ _ _ _ _ _ _ _ _ Hw)).
  pose proof (fo_max _ _ _ _ (wr_file _ _ _ _ _ _ _ _ _ _ Hw)) as Hnb. destruct Hp as [_ _ _ Hoff Hn Hin _ _ _ _ _].
  assert (nb * BSIZE ≤ MAXFILE * BSIZE) as Hmf by (unfold BSIZE in *; lia).
  assert (MAXFILE * BSIZE < 2 ^ 31) as Hmf' by done.
  assert (d_size (i_d (ino ip s1)) = Z.max (d_size (i_d (ino ip s))) (off + n)) as Es by (by rewrite Ed).
  wp_step. wp_call (readi_ok end_ buf_addr s1 v1 ip dst off n Hra); try done; try lia.
  intros q s2 (-> & _ & _ & Hrd & _). wp_step. rewrite Es in *. rewrite Z.min_l in * by lia. split; [done|].
  intros i Hi. rewrite Hrd by lia. rewrite Ed. change (file_byte (v_view v1) (grown ?d ?z) ?o) with (file_byte (v_view v1) d o).
  rewrite (wr_bytes _ _ _ _ _ _ _ _ _ _ Hw), decide_True by lia. rewrite u8_small by apply rd_range. f_equal. lia.
Qed.

(** Iupdate puts the inode in its slot of its block, where it reads back as it is
    in memory, and leaves the other slots of that block and all other blocks alone. *)
Theorem iupdate_persists s v ip :
  frep s v → (∀ x, Z.of_nat (length (v_view v x)) = BSIZE) → let n := ino ip s in let x := IBLOCK (i_inum n) (f_sb s) in
  i_dev n = ROOTDEV → dinode_ok (i_d n) → home (log_start (f_l s)) x → ¬ held_blk (v_held v) x →
  (length (v_log v) + size (v_held v) < Z.to_nat NBUF)%nat →
  wp (iupdate ip) (λ _ s', ∃ v', frep s' v' ∧ inodes s' = inodes s ∧
    get_dinode (i_inum n `mod` IPB) (v_view v' x) = i_d n ∧
    (∀ j, 0 ≤ j < IPB → j ≠ i_inum n `mod` IPB → get_dinode j (v_view v' x) = get_dinode j (v_view v x)) ∧
    ∀ y, y ≠ x → v_view v' y = v_view v y) s.
Proof.
  intros Hs Hlen n x Hdev Hd Hx Hh Hroom. eapply wp_mono; [by apply (iupdate_ok s v ip)|]. fold n x.
  intros [] s' [Hs' Hk]. assert (0 ≤ i_inum n `mod` IPB < IPB) as Hm by (apply Z.mod_pos_bound; done).
  eexists. split_and!; [exact Hs'|apply Hk|..]; cbn [v_view v_put].
  - rewrite fupd_eq. by apply get_put_dinode.
  - intros j Hj Hne. rewrite fupd_eq. by apply get_put_dinode_ne.
  - intros y Hy. by rewrite fupd_ne.
Qed.
End contents.

(** ** A disk on which the theorems can be tried *)
Definition demo_boot (m : gmap Z block) : bst ram_disk :=
  Bst demo_pst (Spin 0 "" None) (replicate (Z.to_nat NBUF) buf0) None None (RamDisk m []).
Definition demo_disk (m : gmap Z block) (x : Z) : block := default zero_block (m !! x).

Definition demo_lst (b : bst ram_disk) : lst ram_disk :=
  Lst b (Spin 0 "log" None) 2 0 0 ROOTDEV (Lh 0 (replicate (Z.to_nat LOGBLOCKS) 0)).
Lemma demo_txn b : txn (demo_lst b) [].
Proof. split; try done; cbn; unfold LOGBLOCKS, MAXOPBLOCKS; lia. Qed.

(** The machine in a transaction on the disk [m], with nothing logged yet. *)
Lemma demo_intx m : ∃ l : lst ram_disk,
  srep l (Txv (demo_disk m) (demo_disk m) [] ∅) ∧ log_start l = 2.
Proof.
  destruct (wp_Ok _ _ _ (binit_ok (demo_boot m) demo_pst_ok demo_running (length_replicate _ _)
    ltac:(apply Forall_replicate; by split))) as ([] & b & _ & [Hb _ [Him Hw]]).
  assert (quiet (demo_lst b) (demo_disk m) []) as Hq.
  { split; [|apply demo_txn|by split|done|done]. split; [|exact Him|exact Hw].
    eapply binv_ext; [|exact Hb]. done. }
  destruct (wp_Ok _ _ _ (begin_op_quiet (demo_lst b) (demo_disk m) [] Hq)) as ([] & l' & _ & Hl' & _ & _ & Hst).
  exists l'. split; [exact (intx_srep _ _ _ _ _ Hl')|done].
Qed.

(** Blocks 0 to 63 are in use; inodes from block 33, bitmap in block 46. *)
Definition demo_sb : superblock := Sb FSMAGIC 1000 954 200 31 2 33 46.
Definition demo_map : gmap Z block := {[ 46 := replicate 8 255 ++ replicate 1016 0 ]}.
Definition demo_dinode : dinode := Dinode 2 0 0 1 1500 [50; 51; 0; 0; 0; 0; 0; 0; 0; 0; 0; 0; 0].
Definition demo_inode : inode := Inode ROOTDEV 1 1 (Slk 0 (Spin 0 "" None) "" 0) 1 demo_dinode.
Definition demo_fst (l : lst ram_disk) : fst ram_disk :=
  Fst l (Kmem (Spin 0 "kmem" None) 0 ∅) demo_sb (Spin 0 "itable" None) (demo_inode :: replicate 49 inode0).
Definition demo_bufs (i : nat) : Z := 2 ^ 31 + 1128 * Z.of_nat i.
Definition demo_txv : txv := Txv (demo_disk demo_map) (demo_disk demo_map) [] ∅.

Lemma demo_frep l : srep l demo_txv → frep (demo_fst l) demo_txv.
Proof. done. Qed.

Lemma demo_len x : Z.of_nat (length (demo_disk demo_map x)) = BSIZE.
Proof.
  unfold demo_disk, demo_map. destruct (decide (x = 46)) as [->|].
  - by rewrite lookup_singleton_eq.
  - by rewrite lookup_singleton_ne by done.
Qed.

Lemma demo_bytes x : byte_list (demo_disk demo_map x).
Proof.
  unfold demo_disk, demo_map, byte_list. destruct (decide (x = 46)) as [->|].
  - rewrite lookup_singleton_eq. apply Forall_app. split; apply Forall_replicate; lia.
  - rewrite lookup_singleton_ne by done. apply Forall_replicate. lia.
Qed.

Lemma demo_BBLOCK c : 0 ≤ c < 1000 → BBLOCK c demo_sb = 46.
Proof. intros Hc. unfold BBLOCK, demo_sb. cbn [sb_bmapstart]. change BPB with 8192. rewrite Z.div_small by lia. done. Qed.

Lemma demo_used b : 0 ≤ b < 64 → blk_used demo_sb (demo_disk demo_map) b = true.
Proof.
  intros Hb. assert (forallb (λ b, blk_used demo_sb (demo_disk demo_map) b) (seqZ 0 64) = true) as H by (vm_compute; reflexivity).
  rewrite forallb_forall in H. apply H, list_elem_of_In, elem_of_seqZ. lia.
Qed.

Lemma demo_layout : fs_layout 2 demo_sb.
Proof. split; cbn; [lia|lia|]. intros b Hb. change BPB with 8192. rewrite Z.div_small by lia. apply home_2. lia. Qed.

Lemma demo_blocks : blocks_ok 2 demo_sb (demo_disk demo_map).
Proof.
  split; [apply demo_len|]. cbn [sb_size demo_sb]. intros b Hb Hf.
  assert (64 ≤ b) as H64 by (destruct (decide (64 ≤ b)); [done|]; rewrite demo_used in Hf by lia; done).
  split; [apply home_2; lia|]. intros c Hc. rewrite demo_BBLOCK by lia. lia.
Qed.

Lemma demo_alloc_pre l : srep l demo_txv → log_start l = 2 → alloc_pre (demo_fst l) demo_txv.
Proof.
  intros Hl Hs. split; cbn [f_l demo_fst f_sb v_view v_held v_log demo_txv]; rewrite ?Hs.
  - done.
  - apply demo_layout.
  - apply demo_blocks.
  - by intros b _ [? ?].
  - by intros b _ _ [? ?].
  - rewrite map_size_empty. unfold NBUF, MAXOPBLOCKS. cbn. lia.
Qed.

Lemma balloc_allocates_witness : ∃ l, srep l demo_txv ∧
  wp (balloc ROOTDEV) (λ r s', ∃ v', frep s' v' ∧ v_held v' = ∅ ∧
    (r = 0 ∧ v' = demo_txv ∧ (∀ b, 0 ≤ b < 1000 → blk_used demo_sb (demo_disk demo_map) b = true) ∨
     0 ≤ r < 1000 ∧ blk_used demo_sb (demo_disk demo_map) r = false ∧ v_view v' r = zero_block ∧
     (∀ c, 0 ≤ c < 1000 → blk_used demo_sb (v_view v') c = bool_decide (c = r) || blk_used demo_sb (demo_disk demo_map) c) ∧
     ∀ x, x ≠ r → x ≠ BBLOCK r demo_sb → v_view v' x = demo_disk demo_map x)) (demo_fst l).
Proof.
  destruct (demo_intx demo_map) as (l & Hl & Hs). exists l. split; [done|].
  exact (balloc_allocates (demo_fst l) demo_txv (demo_alloc_pre l Hl Hs)).
Defined.

Lemma bfree_releases_witness : ∃ l, srep l demo_txv ∧
  wp (bfree ROOTDEV 60) (λ _ s', ∃ v', frep s' v' ∧ v_held v' = ∅ ∧
    (∀ c, 0 ≤ c < 1000 → blk_used demo_sb (v_view v') c = negb (bool_decide (c = 60)) && blk_used demo_sb (demo_disk demo_map) c) ∧
    ∀ x, x ≠ BBLOCK 60 demo_sb → v_view v' x = demo_disk demo_map x) (demo_fst l).
Proof.
  destruct (demo_intx demo_map) as (l & Hl & Hs). exists l. split; [done|].
  refine (bfree_releases (demo_fst l) demo_txv 60 Hl _ demo_len _ _ _).
  - cbn [f_l demo_fst]. rewrite Hs. exact demo_layout.
  - cbn. lia.
  - by intros [? ?].
  - cbn [v_log v_held demo_txv]. rewrite map_size_empty. unfold NBUF, MAXOPBLOCKS. cbn. lia.
Defined.

Lemma balloc_bfree_witness : ∃ l, srep l demo_txv ∧
  wp (do b <- balloc ROOTDEV; (if b =? 0 then ret tt else bfree ROOTDEV b) ;; ret b) (λ _ s', ∃ v', frep s' v' ∧
    ∀ c, 0 ≤ c < 1000 → blk_used demo_sb (v_view v') c = blk_used demo_sb (demo_disk demo_map) c) (demo_fst l).
Proof.
  destruct (demo_intx demo_map) as (l & Hl & Hs). exists l. split; [done|].
  apply (balloc_bfree (demo_fst l) demo_txv (demo_alloc_pre l Hl Hs)).
  - by apply demo_used.
  - cbn [v_log v_held demo_txv]. rewrite map_size_empty. unfold NBUF, MAXOPBLOCKS. cbn. lia.
Defined.

Lemma demo_fblk f bn : 0 ≤ bn < 2 → fblk f demo_dinode bn = 50 + bn.
Proof. intros H. assert (bn = 0 ∨ bn = 1) as [->| ->] by lia; done. Qed.

Lemma demo_file : file_ok 2 (demo_disk demo_map) demo_dinode 2.
Proof.
  split.
  - done.
  - intros bn Hbn. rewrite demo_fblk by done. split; [lia|apply home_2; lia].
  - intros bn bm Hbn Hbm. rewrite !demo_fblk by done. lia.
  - done.
  - done.
Qed.

Lemma demo_nobuf a : a < 2 ^ 31 → ¬ in_bufs demo_bufs a.
Proof. intros Ha [i Hi]. unfold demo_bufs in Hi. lia. Qed.

Lemma demo_dinode_ok : dinode_ok demo_dinode.
Proof. split; cbn; try lia. repeat constructor; lia. Qed.

(** 200 bytes at offset 1000 of the file of 1500 bytes: across the two blocks. *)
Lemma demo_write_pre l : srep l demo_txv → log_start l = 2 → write_pre demo_bufs (demo_fst l) demo_txv 0 2 4096 1000 200.
Proof.
  intros Hl Hs. split.
  - split; try done.
    + cbn [f_l demo_fst]. rewrite Hs. exact demo_file.
    + apply demo_len.
    + apply demo_bytes.
  - cbn. lia.
  - apply demo_dinode_ok.
  - cbn. lia.
  - lia.
  - unfold BSIZE. lia.
  - lia.
  - intros a Ha. apply demo_nobuf. lia.
  - cbn [f_l demo_fst]. rewrite Hs. change (home 2 33). apply home_2. lia.
  - split; [|done]. intros bm Hbm. change (i_d (ino 0 (demo_fst l))) with demo_dinode. rewrite demo_fblk by done. change (50 + bm ≠ 33). lia.
  - vm_compute. lia.
Qed.

Lemma writei_writes_witness : ∃ l, srep l demo_txv ∧
  wp (writei 0 demo_bufs 0 0 4096 1000 200) (λ r s', r = 200 ∧
    ∃ v', wrote demo_bufs (demo_fst l) demo_txv 0 2 4096 1000 200 s' v') (demo_fst l).
Proof.
  destruct (demo_intx demo_map) as (l & Hl & Hs). exists l. split; [done|].
  apply (writei_writes 0 demo_bufs (demo_fst l) demo_txv 0 2 4096 1000 200 (demo_write_pre l Hl Hs)).
Defined.

(** A write past the largest file, and a read whose end wraps around. *)
Lemma file_range_checks_witness : ∃ l, srep l demo_txv ∧
  writei 0 demo_bufs 0 0 4096 1000 (2 ^ 32 - 500) (demo_fst l) = Ok (-1) (demo_fst l) ∧
  readi 0 demo_bufs 0 0 4096 1000 (2 ^ 32 - 500) (demo_fst l) = Ok 0 (demo_fst l).
Proof.
  destruct (demo_intx demo_map) as (l & Hl & Hs). exists l. split; [done|].
  destruct (file_range_checks 0 demo_bufs (demo_fst l) 0 0 4096 1000 (2 ^ 32 - 500)) as [Hw Hr]; [lia|lia|].
  split; [apply Hw; right; done|apply Hr; right; lia].
Defined.

Lemma writei_readi_witness : ∃ l, srep l demo_txv ∧
  wp (do r <- writei 0 demo_bufs 0 0 4096 1000 200; do q <- readi 0 demo_bufs 0 0 8192 1000 200; ret (r, q))
     (λ p s', p = (200, 200) ∧ ∀ i, 0 ≤ i < 200 → rd (km_mem (f_km s')) (8192 + i) = rd ∅ (4096 + i)) (demo_fst l).
Proof.
  destruct (demo_intx demo_map) as (l & Hl & Hs). exists l. split; [done|].
  apply (writei_readi 0 demo_bufs (demo_fst l) demo_txv 0 2 4096 1000 200 8192 (demo_write_pre l Hl Hs)).
  - cbn. unfold BSIZE. lia.
  - vm_compute. lia.
  - lia.
  - lia.
  - intros a Ha. apply demo_nobuf. lia.
Defined.

Lemma iupdate_persists_witness : ∃ l, srep l demo_txv ∧
  wp (iupdate 0) (λ _ s', ∃ v', frep s' v' ∧ inodes s' = inodes (demo_fst l) ∧
    get_dinode 1 (v_view v' 33) = demo_dinode ∧
    (∀ j, 0 ≤ j < IPB → j ≠ 1 → get_dinode j (v_view v' 33) = get_dinode j (demo_disk demo_map 33)) ∧
    ∀ y, y ≠ 33 → v_view v' y = demo_disk demo_map y) (demo_fst l).
Proof.
  destruct (demo_intx demo_map) as (l & Hl & Hs). exists l. split; [done|].
  apply (iupdate_persists (demo_fst l) demo_txv 0 Hl demo_len).
  - done.
  - apply demo_dinode_ok.
  - cbn [f_l demo_fst]. rewrite Hs. change (home 2 33). apply home_2. lia.
  - by intros [? ?].
  - cbn [v_log v_held demo_txv]. rewrite map_size_empty. unfold NBUF, MAXOPBLOCKS. cbn. lia.
Defined.
