(* ===== verification/Itable.v ===== *)
(** * The inode table of kernel/fs.c

    iget, idup, iput and ilock against the abstract table: which inodes are
    referenced, how often, and in which slot. *)
From S2P Require Import Prelude Memory KString Riscv Spinlock Kalloc Vm Sched Sleeplock Disk Bio BioSpec BioInv BioOps Log LogSpec LogOps LogTx FsRep Fs FsBlocks FsData FsInode BioProps LogProps FsProps.

Section itable.
Context {D : Type} `{!BlockDev D}.
Implicit Types (s : fst D) (v : txv) (t : bst D).

(** ** Changes of the process table *)
Lemma binv_pst t p' a : binv t a → pst_same (b_p t) p' → binv (over on_pst p' t) a.
Proof.
  intros Hb Hp. pose proof (ci_pst _ _ _ _ (bi_cinv _ _ Hb)) as Hok. pose proof (ci_run _ _ _ _ (bi_cinv _ _ Hb)) as Hrun.
  apply binv_p; [done|by eapply pst_same_ok|by eapply is_running_same|by apply cur_pid_same].
Qed.

Lemma frep_pst s v p' : frep s v → pst_same (f_p s) p' → frep (with_fp p' s) v ∧ fkeep s (with_fp p' s).
Proof.
  intros [(r & Hb & Hr) H1 H2 H3 H4 H5 H6] Hp. split.
  - split; try done; [exists r; split; [by apply binv_pst|done]|]. by eapply lfields_txn; [|exact H2].
  - split; try done. intros Hok. split; [by split|]. by eapply pst_same_ok.
Qed.

Lemma frep_ok s v : frep s v → pst_ok (f_p s) ∧ is_running (f_p s).
Proof. intros [(r & [Hc _ _] & _) _ _ _ _ _ _]. split; [apply (ci_pst _ _ _ _ Hc)|apply (ci_run _ _ _ _ Hc)]. Qed.

(** ** Reference counts *)
Record it_inv s : Prop := {
  iv_lock : lock_free (it_lock s);
  iv_len : length (inodes s) = Z.to_nat NINODE;
  iv_ref i : (i < Z.to_nat NINODE)%nat → 0 ≤ i_ref (ino i s);
  iv_uniq i j : (i < Z.to_nat NINODE)%nat → (j < Z.to_nat NINODE)%nat →
    0 < i_ref (ino i s) → 0 < i_ref (ino j s) →
    i_dev (ino i s) = i_dev (ino j s) → i_inum (ino i s) = i_inum (ino j s) → i = j
}.

(** A change of slot [i] alone, inside itable.lock. *)
Record at_slot s i (n : inode) s' : Prop := {
  as_ino : inodes s' = <[i := n]> (inodes s);
  as_lock : it_lock s' = it_lock s;
  as_p : f_p s' = synced (f_p s);
  as_l : f_l s' = f_l (with_fp (synced (f_p s)) s);
  as_km : f_km s' = f_km s;
  as_sb : f_sb s' = f_sb s
}.

Lemma at_slot_same s i n s' : at_slot s i n s' → (i < length (inodes s))%nat → ino i s' = n.
Proof. intros H Hi. unfold ino. rewrite (as_ino _ _ _ _ H). by apply list_lookup_total_insert_eq. Qed.
Lemma at_slot_other s i n s' j : at_slot s i n s' → j ≠ i → ino j s' = ino j s.
Proof. intros H Hi. unfold ino. rewrite (as_ino _ _ _ _ H). by apply list_lookup_total_insert_ne. Qed.

Lemma alter_insert {A} `{Inhabited A} (g : A → A) i (l : list A) : (i < length l)%nat → alter g i l = <[i := g (l !!! i)]> l.
Proof.
  intros Hi. destruct (lookup_lt_is_Some_2 _ _ Hi) as [x Hx]. rewrite (list_lookup_total_correct _ _ _ Hx).
  apply list_eq. intros j. rewrite list_lookup_alter, list_lookup_insert. case_decide as E; subst.
  - rewrite decide_True by done. by rewrite Hx.
  - by rewrite decide_False by tauto.
Qed.

Lemma set_slot s i g {A} (r : A) :
  hart_ok (p_hart (f_p s)) → lock_free (it_lock s) → (i < length (inodes s))%nat →
  wp (set_ino i g ;; zoom on_it release ;; ret r) (λ x s', x = r ∧ at_slot s i (g (ino i s)) s')
     (over on_it (push (p_hart (f_p s)), held (it_lock s) (tp (p_hart (f_p s)))) s).
Proof.
  intros Hh Hl Hi. unfold set_ino. wp_step. wp_step. wp_step.
  eapply wp_of_Ok; [by apply (zoom_release on_it _ (p_hart (f_p s)) (it_lock s))|]. wp_step. split; [done|].
  split; try done. cbn. by apply alter_insert.
Qed.

(** The invariant after a change of one slot. *)
Lemma it_inv_slot s i n s' :
  it_inv s → at_slot s i n s' → (i < Z.to_nat NINODE)%nat → 0 ≤ i_ref n →
  (∀ j, j ≠ i → (j < Z.to_nat NINODE)%nat → 0 < i_ref n → 0 < i_ref (ino j s) →
     i_dev (ino j s) = i_dev n → i_inum (ino j s) ≠ i_inum n) → it_inv s'.
Proof.
  intros [H1 H2 H3 H4] Ha Hi Hn Hu. pose proof (at_slot_same _ _ _ _ Ha ltac:(lia)) as Ei.
  assert (∀ j, j ≠ i → ino j s' = ino j s) as Ej by (intros j; by apply (at_slot_other s i n)).
  split.
  - by rewrite (as_lock _ _ _ _ Ha).
  - by rewrite (as_ino _ _ _ _ Ha), length_insert.
  - intros j Hj. destruct (decide (j = i)) as [->|Hne]; [by rewrite Ei|rewrite Ej by done; by apply H3].
  - intros j k Hj Hk Rj Rk Ed En. destruct (decide (j = i)) as [->|Hji], (decide (k = i)) as [->|Hki]; try done.
    + rewrite Ei in *. rewrite Ej in * by done. exfalso. by apply (Hu k).
    + rewrite Ei in *. rewrite Ej in * by done. exfalso. by apply (Hu j).
    + rewrite !Ej in * by done. by apply H4.
Qed.

Lemma find_slot (P : nat → bool) i : List.find P islots = Some i → P i = true ∧ (i < Z.to_nat NINODE)%nat.
Proof. intros [Hin HP]%List.find_some. split; [done|]. apply list_elem_of_In, elem_of_seq in Hin. lia. Qed.
Lemma find_no_slot (P : nat → bool) i : List.find P islots = None → (i < Z.to_nat NINODE)%nat → P i = false.
Proof. intros H Hi. apply (List.find_none _ _ H), list_elem_of_In, elem_of_seq. lia. Qed.

(** What a reference to inode [inum] of [dev] means for slot [i]. *)
Definition names s (i : nat) (dev inum : Z) : Prop :=
  (i < Z.to_nat NINODE)%nat ∧ 0 < i_ref (ino i s) ∧ i_dev (ino i s) = dev ∧ i_inum (ino i s) = inum.

Lemma iget_enter s {A} (k : M (fst D) A) Q :
  hart_ok (p_hart (f_p s)) → lock_free (it_lock s) →
  wp k Q (over on_it (push (p_hart (f_p s)), held (it_lock s) (tp (p_hart (f_p s)))) s) →
  wp (zoom on_it acquire ;; k) Q s.
Proof. intros Hh Hl H. wp_step. by eapply wp_of_Ok; [apply (zoom_acquire on_it s); [done|done|done]|]. Qed.

(** The slot iget returns, from what was in it. *)
Definition named (dev inum : Z) (n : inode) : inode :=
  Inode dev inum (i_ref n + 1) (i_lock n) (if decide (i_ref n = 0) then 0 else i_valid n) (i_d n).

(** iget, with the slot it changes. *)
Lemma iget_run s dev inum :
  hart_ok (p_hart (f_p s)) → it_inv s →
  (wp (iget dev inum) (λ i s', it_inv s' ∧ at_slot s i (named dev inum (ino i s)) s' ∧ names s' i dev inum ∧ (∀ j, j ≠ i → ino j s' = ino j s) ∧
     i_ref (ino i s') = i_ref (ino i s) + 1 ∧
     if decide (i_ref (ino i s) = 0) then i_valid (ino i s') = 0 ∧ ∀ j, ¬ names s j dev inum
     else names s i dev inum ∧ ino i s' = with_ref (i_ref (ino i s) + 1) (ino i s)) s) ∨
  faults (iget dev inum) s (Panicked "iget: no inodes") ∧
    ∀ j, (j < Z.to_nat NINODE)%nat → 0 < i_ref (ino j s) ∧ ¬ names s j dev inum.
Proof.
  intros Hh Hi. pose proof (iv_lock _ Hi) as Hl. pose proof (iv_len _ Hi) as Hlen.
  set (s1 := over on_it (push (p_hart (f_p s)), held (it_lock s) (tp (p_hart (f_p s)))) s).
  assert (List.find (λ i, (0 <? i_ref (ino i s1)) && (i_dev (ino i s1) =? dev) && (i_inum (ino i s1) =? inum)) islots = List.find (λ i, (0 <? i_ref (ino i s)) && (i_dev (ino i s) =? dev) && (i_inum (ino i s) =? inum)) islots) as Es by done.
  assert (List.find (λ i, i_ref (ino i s1) =? 0) islots = List.find (λ i, i_ref (ino i s) =? 0) islots) as Et by done.
  destruct (List.find (λ i, (0 <? i_ref (ino i s)) && (i_dev (ino i s) =? dev) && (i_inum (ino i s) =? inum)) islots) as [i|] eqn:Ef.
  - left. apply iget_enter; [done|done|]. fold s1. wp_step. wp_step. rewrite Es.
    apply find_slot in Ef as [[[Hr Hd]%andb_true_iff Hn]%andb_true_iff Hlt].
    apply Z.ltb_lt in Hr. apply Z.eqb_eq in Hd, Hn.
    eapply wp_mono; [apply (set_slot s i); [done|done|lia]|]. intros x s' [-> Ha].
    pose proof (at_slot_same _ _ _ _ Ha ltac:(lia)) as Ei. unfold names. rewrite Ei. cbn [i_ref i_dev i_inum i_valid with_ref].
    assert (at_slot s i (named dev inum (ino i s)) s') as Ha'.
    { unfold named. rewrite decide_False by lia. rewrite <- Hd, <- Hn. exact Ha. }
    split_and!; try lia; try done.
    + apply (it_inv_slot _ _ _ _ Hi Ha); cbn; [done|lia|]. intros j Hji Hj _ Rj Ed En.
      apply Hji. apply (iv_uniq _ Hi); done.
    + intros j Hj. by apply (at_slot_other _ _ _ _ _ Ha).
    + by rewrite decide_False by lia.
  - assert (∀ j, ¬ names s j dev inum) as Hno.
    { intros j (Hj & Rj & Ed & En). pose proof (find_no_slot _ j Ef Hj) as H. cbn in H.
      rewrite (proj2 (Z.ltb_lt 0 _)), (proj2 (Z.eqb_eq _ dev)), (proj2 (Z.eqb_eq _ inum)) in H by done. done. }
    destruct (List.find (λ i, i_ref (ino i s) =? 0) islots) as [i|] eqn:Eg.
    + left. apply iget_enter; [done|done|]. fold s1. wp_step. wp_step. rewrite Es, Et.
      apply find_slot in Eg as [Hr Hlt]. apply Z.eqb_eq in Hr.
      eapply wp_mono; [apply (set_slot s i); [done|done|lia]|]. intros x s' [-> Ha].
      pose proof (at_slot_same _ _ _ _ Ha ltac:(lia)) as Ei. unfold names. rewrite Ei. cbn [i_ref i_dev i_inum i_valid].
      assert (at_slot s i (named dev inum (ino i s)) s') as Ha'.
    { unfold named. rewrite decide_True by done. rewrite Hr. exact Ha. }
    split_and!; try lia; try done.
      * apply (it_inv_slot _ _ _ _ Hi Ha); cbn; [done|lia|]. intros j Hji Hj _ Rj Ed En. by apply (Hno j).
      * intros j Hj. by apply (at_slot_other _ _ _ _ _ Ha).
      * by rewrite decide_True.
    + right. split.
      * unfold faults, iget. rewrite (bind_Ok _ _ _ _ _ (zoom_acquire on_it s _ _ eq_refl Hh Hl)). fold s1.
        rewrite (bind_Ok _ _ _ _ _ (eq_refl : get s1 = Ok s1 s1)). rewrite Es, Et. done.
      * intros j Hj. split; [|done]. pose proof (find_no_slot _ j Eg Hj) as H. cbn in H. apply Z.eqb_neq in H.
        pose proof (iv_ref _ Hi j Hj). lia.
Qed.

(** Iget returns the one slot that names the inode, with one more reference: the
    slot that names it already, or else an unused slot, set up as not yet read
    from disk. No two slots in use ever name the same inode. With every slot in
    use by another inode iget panics. *)
Theorem iget_references s dev inum :
  hart_ok (p_hart (f_p s)) → it_inv s →
  (wp (iget dev inum) (λ i s', it_inv s' ∧ names s' i dev inum ∧ (∀ j, j ≠ i → ino j s' = ino j s) ∧
     i_ref (ino i s') = i_ref (ino i s) + 1 ∧
     if decide (i_ref (ino i s) = 0) then i_valid (ino i s') = 0 ∧ ∀ j, ¬ names s j dev inum
     else names s i dev inum ∧ ino i s' = with_ref (i_ref (ino i s) + 1) (ino i s)) s) ∨
  faults (iget dev inum) s (Panicked "iget: no inodes") ∧
    ∀ j, (j < Z.to_nat NINODE)%nat → 0 < i_ref (ino j s) ∧ ¬ names s j dev inum.
Proof.
  intros Hh Hi. destruct (iget_run s dev inum Hh Hi) as [H|H]; [left|by right].
  eapply wp_mono; [exact H|]. by intros i s' (? & _ & ?).
Qed.

(** ** Locking an inode *)

(** The inode of slot [i] once it is locked by the calling process and read. *)
Definition locked_inode s (n : inode) (d : dinode) : inode :=
  Inode (i_dev n) (i_inum n) (i_ref n) (Slk 1 (sl_lock (i_lock n)) (sl_name (i_lock n)) (cur_pid (f_p s)))
    (if i_valid n =? 0 then 1 else i_valid n) d.

Lemma frep_inodes s v g : frep s v → frep (with_inodes g s) v.
Proof. done. Qed.

Lemma ino_alter s i g : (i < length (inodes s))%nat → ino i (with_inodes (alter g i) s) = g (ino i s).
Proof. intros Hi. apply (set_ino_upd i g s Hi). Qed.

Lemma ilock_enter s v i :
  frep s v → (i < length (inodes s))%nat → sl_locked (i_lock (ino i s)) = 0 → lock_free (sl_lock (i_lock (ino i s))) →
  ∃ s1, zoom (on_ilock i) (acquiresleep (ChInodeLock i)) s = Ok tt s1 ∧ frep s1 v ∧ f_sb s1 = f_sb s ∧ f_km s1 = f_km s ∧
    skeep (f_l s) (f_l s1) ∧ log_start (f_l s1) = log_start (f_l s) ∧ it_lock s1 = it_lock s ∧
    inodes s1 = <[i := Inode (i_dev (ino i s)) (i_inum (ino i s)) (i_ref (ino i s))
       (Slk 1 (sl_lock (i_lock (ino i s))) (sl_name (i_lock (ino i s))) (cur_pid (f_p s))) (i_valid (ino i s)) (i_d (ino i s))]> (inodes s).
Proof.
  intros Hs Hi H0 Hl. destruct (frep_ok _ _ Hs) as [Hok Hr]. eexists. split.
  { apply zoom_Ok. cbn. by apply acquiresleep_run. }
  destruct (frep_pst s v (synced (f_p s)) Hs (synced_same _)) as [Hs' Hk'].
  split_and!; try done; [apply Hk'|]. cbn. rewrite alter_insert by done. done.
Qed.

(** Ilock of a referenced, unlocked inode locks it for the caller and, the first
    time, reads the inode from its slot of its block; a block's inode that is not
    allocated panics. Nothing else changes. *)
Theorem ilock_loads s v i :
  frep s v → let n := ino i s in let x := IBLOCK (i_inum n) (f_sb s) in
  let d := if i_valid n =? 0 then get_dinode (i_inum n `mod` IPB) (v_view v x) else i_d n in
  (i < length (inodes s))%nat → 1 ≤ i_ref n → sl_locked (i_lock n) = 0 → lock_free (sl_lock (i_lock n)) →
  i_dev n = ROOTDEV → home (log_start (f_l s)) x → ¬ held_blk (v_held v) x →
  (length (v_log v) + size (v_held v) < Z.to_nat NBUF)%nat →
  if (i_valid n =? 0) && (d_type d =? 0) then faults (ilock (Some i)) s (Panicked "ilock: no type")
  else wp (ilock (Some i)) (λ _ s', frep s' v ∧ inodes s' = <[i := locked_inode s n d]> (inodes s) ∧
         f_sb s' = f_sb s ∧ f_km s' = f_km s ∧ it_lock s' = it_lock s ∧ skeep (f_l s) (f_l s')) s.
Proof.
  intros Hs n x d Hi Href H0 Hl Hdev Hx Hh Hroom.
  destruct (ilock_enter s v i Hs Hi H0 Hl) as (s1 & E1 & Hs1 & Eb & Ek & Hk1 & EL & Et & En). fold n in En.
  set (n1 := Inode _ _ _ _ _ _) in En.
  assert (ino i s1 = n1) as Ei by (unfold ino; rewrite En; by apply list_lookup_total_insert_eq).
  assert ((i < length (inodes s1))%nat) as Hi1 by (by rewrite En, length_insert).
  destruct (i_valid n =? 0) eqn:Ev; cbn [andb].
  2: { unfold ilock. wp_step. wp_step. fold n. rewrite (proj2 (Z.ltb_ge (i_ref n) 1)) by done. wp_step. eapply wp_of_Ok; [exact E1|].
       wp_step. wp_step. rewrite Ei. cbn [i_valid n1]. rewrite Ev. cbn [when]. wp_step.
       split_and!; try done. rewrite En. unfold locked_inode. by rewrite Ev. }
  destruct (wp_Ok _ _ _ (fs_bread s1 v ROOTDEV x Hs1 eq_refl ltac:(apply Hx) Hh Hroom)) as (b & s2 & E2 & Hs2 & Hb & Hk2).
  assert (v_held (v_bread b x v) !! b = Some x) as Hhb by (cbn; apply lookup_insert_eq).
  destruct (wp_Ok _ _ _ (fs_data s2 _ b x Hs2 Hhb)) as (d' & s2' & E3 & -> & ->). cbn [v_view v_bread] in E3.
  set (s3 := with_inodes (alter (with_d (λ _, d)) i) s2).
  destruct (wp_Ok _ _ _ (fs_brelse s3 (v_bread b x v) b x Hs2 Hhb (clean_or_logged s1 v x Hs1 Hh))) as ([] & s4 & E4 & Hs4 & Hk4).
  rewrite v_bread_released in Hs4 by done.
  set (s5 := with_inodes (alter (with_ivalid 1) i) s4).
  assert (inodes s5 = <[i := locked_inode s n d]> (inodes s)) as E5.
  { cbn. rewrite (fk_ino _ _ Hk4). cbn. rewrite (fk_ino _ _ Hk2), En.
    rewrite (alter_insert (with_d _)), list_lookup_total_insert_eq, list_insert_insert_eq by (rewrite ?length_insert; done).
    rewrite alter_insert, list_lookup_total_insert_eq, list_insert_insert_eq by (rewrite ?length_insert; done). unfold locked_inode. by rewrite Ev. }
  assert (ino i s5 = locked_inode s n d) as Ei5 by (unfold ino; rewrite E5; by apply list_lookup_total_insert_eq).
  assert (ilock (Some i) s = (if d_type d =? 0 then panic "ilock: no type" else ret tt) s5) as Hrun.
  { unfold ilock. rewrite (bind_Ok _ _ _ _ _ (eq_refl : get s = Ok s s)). fold n.
    rewrite (proj2 (Z.ltb_ge (i_ref n) 1)) by done. rewrite (bind_Ok _ _ _ _ _ E1).
    rewrite (bind_Ok _ _ _ _ _ (eq_refl : get s1 = Ok s1 s1)), Ei. cbn [i_valid i_dev i_inum n1]. rewrite Ev. cbn [when].
    rewrite Hdev, Eb. fold x. rewrite (bind_Ok _ _ _ _ _ E2), (bind_Ok _ _ _ _ _ E3).
    rewrite (bind_Ok _ _ _ _ _ (eq_refl : set_ino i _ s2 = Ok tt s3)), (bind_Ok _ _ _ _ _ E4).
    rewrite (bind_Ok _ _ _ _ _ (eq_refl : set_ino i _ s4 = Ok tt s5)).
    rewrite (bind_Ok _ _ _ _ _ (eq_refl : get s5 = Ok s5 s5)), Ei5. done. }
  destruct (d_type d =? 0).
  - unfold faults. by rewrite Hrun.
  - eapply wp_of_Ok; [exact Hrun|].
    split_and!; [exact Hs4|exact E5|..]; cbn.
    + rewrite (fk_sb _ _ Hk4). exact (eq_trans (fk_sb _ _ Hk2) Eb).
    + rewrite (fk_km _ _ Hk4). exact (eq_trans (fk_km _ _ Hk2) Ek).
    + rewrite (fk_it _ _ Hk4). exact (eq_trans (fk_it _ _ Hk2) Et).
    + transitivity (f_l s1); [exact Hk1|]. transitivity (f_l s2); [apply Hk2|apply Hk4].
Qed.
End itable.

Lemma demo_slot n k i : (n :: replicate k inode0) !!! i = if decide (i = 0%nat) then n else inode0.
Proof.
  destruct i as [|i]; [done|]. rewrite decide_False by done. rewrite list_lookup_total_alt.
  change ((n :: replicate k inode0) !! S i) with (replicate k inode0 !! i). destruct (decide (i < k)%nat).
  - by rewrite lookup_replicate_2.
  - by rewrite lookup_ge_None_2 by (rewrite length_replicate; lia).
Qed.

Lemma demo_it_inv l : it_inv (demo_fst l).
Proof.
  split; [by split|done| |]; intros i; unfold ino; cbn [inodes demo_fst].
  - intros _. rewrite demo_slot. by case_decide.
  - intros j _ _. rewrite !demo_slot. repeat case_decide; cbn; try lia; congruence.
Qed.

Lemma iget_references_witness : ∃ l, srep l demo_txv ∧
  wp (iget ROOTDEV 1) (λ i s', it_inv s' ∧ names s' i ROOTDEV 1 ∧ i_ref (ino i s') = i_ref (ino i (demo_fst l)) + 1) (demo_fst l).
Proof.
  destruct (demo_intx demo_map) as (l & Hl & Hs). exists l. split; [done|].
  destruct (iget_references (demo_fst l) ROOTDEV 1 (ps_hart _ (srep_pst _ _ Hl)) (demo_it_inv l)) as [H|[_ H]].
  - eapply wp_mono; [exact H|]. intros i s' (? & ? & _ & ? & _). done.
  - exfalso. apply (H 0%nat); [vm_compute; lia|]. by split_and!; [vm_compute; lia|..].
Defined.

(** The inode on disk, in a slot that has not been read. *)
Definition demo_map2 : gmap Z block := <[33 := put_dinode 1 demo_dinode zero_block]> demo_map.
Definition demo_txv2 : txv := Txv (demo_disk demo_map2) (demo_disk demo_map2) [] ∅.
Definition demo_unread (l : lst ram_disk) : fst ram_disk :=
  Fst l (Kmem (Spin 0 "kmem" None) 0 ∅) demo_sb (Spin 0 "itable" None)
    (Inode ROOTDEV 1 1 (Slk 0 (Spin 0 "" None) "" 0) 0 dinode0 :: replicate 49 inode0).

Lemma demo_on_disk : get_dinode 1 (demo_disk demo_map2 33) = demo_dinode.
Proof. vm_compute. reflexivity. Qed.

Lemma ilock_loads_witness : ∃ l, srep l demo_txv2 ∧
  wp (ilock (Some 0%nat)) (λ _ s', frep s' demo_txv2 ∧ i_d (ino 0 s') = demo_dinode ∧ i_valid (ino 0 s') = 1) (demo_unread l).
Proof.
  destruct (demo_intx demo_map2) as (l & Hl & Hs). exists l. split; [done|].
  pose proof (ilock_loads (demo_unread l) demo_txv2 0 Hl) as H.
  change (IBLOCK _ _) with 33 in H. change (i_inum _ `mod` IPB) with 1 in H. change (i_valid _ =? 0) with true in H.
  cbn [v_view demo_txv2 andb] in H. rewrite demo_on_disk in H. change (d_type demo_dinode =? 0) with false in H. cbn iota in H.
  eapply wp_mono; [apply H|].
  - cbn. lia.
  - cbn. lia.
  - done.
  - by split.
  - done.
  - cbn [f_l demo_unread]. rewrite Hs. apply home_2. lia.
  - by intros [? ?].
  - cbn [v_log v_held demo_txv2]. rewrite map_size_empty. unfold NBUF, MAXOPBLOCKS. cbn. lia.
  - intros [] s' (H1 & H2 & _). unfold ino. rewrite H2. split_and!; done.
Defined.
