(* ===== verification/Dir.v ===== *)
(** * kernel/fs.c: directories and path names

    Directory entries, dirlookup, dirlink, skipelem, namex. Strings live in
    memory as the C code has them; the local [struct dirent de] of dirlookup and
    dirlink and the local [name] buffer of namei are at the addresses given as
    arguments, in the kernel stack of the caller. *)
From S2P Require Import Prelude Memory KString Riscv Spinlock Kalloc Vm Sched Sleeplock Disk Bio Log Fs.

Definition chr_slash : Z := 47.

Section dir.
Context {D : Type} `{!BlockDev D}.
Context (end_ : Z) (buf_addr : nat → Z).
Implicit Types s : fst D.

Abbreviation readi := (readi end_ buf_addr).
Abbreviation writei := (writei end_ buf_addr).

Definition namecmp (s t : Z) : M mem Z := strncmp s t DIRSIZ.

(** The fields of the dirent at address [de]. *)
Definition de_inum (de : Z) s : Z := ld 2 (km_mem (f_km s)) de.
Definition de_name (de : Z) : Z := de + 2.

(** The offsets [for(off = 0; off < dp->size; off += sizeof(de))] runs through;
    the loops that use them do not change dp->size. *)
Definition de_offs (size : Z) : list Z :=
  (λ k, k * sizeof_dirent) <$> seqZ 0 ((size + sizeof_dirent - 1) `div` sizeof_dirent).

(** dirlookup returns the inode and the offset it stores in *poff. *)
Definition dirlookup (de : Z) (dp : nat) (name : Z) : M (fst D) (option (nat * Z)) :=
  do s <- get;
  if negb (d_type (i_d (ino dp s)) =? T_DIR) then panic "dirlookup not DIR"
  else
    first (de_offs (d_size (i_d (ino dp s)))) (λ off,
      do r <- readi dp 0 de off sizeof_dirent;
      if negb (r =? sizeof_dirent) then panic "dirlookup read"
      else
        do inum <- gets (de_inum de);
        if inum =? 0 then ret None
        else
          do c <- zoom on_mem (namecmp name (de_name de));
          if c =? 0 then
            do s <- get;
            do ip <- iget (i_dev (ino dp s)) inum;
            ret (Some (ip, off))
          else ret None).

Definition dirlink (de : Z) (dp : nat) (name inum : Z) : M (fst D) Z :=
  do r <- dirlookup de dp name;
  match r with
  | Some (ip, _) => iput ip ;; ret (-1)
  | None =>
      do s <- get;
      let size := d_size (i_d (ino dp s)) in
      do hole <- first (de_offs size) (λ off,
        do r <- readi dp 0 de off sizeof_dirent;
        if negb (r =? sizeof_dirent) then panic "dirlink read"
        else
          do i <- gets (de_inum de);
          ret (if i =? 0 then Some off else None));
      let off := default (Z.of_nat (length (de_offs size)) * sizeof_dirent) hole in
      zoom on_mem (strncpy (de_name de) name DIRSIZ) ;;
      zoom on_mem (modify (λ m, st 2 m de (u16 inum))) ;;
      do w <- writei dp 0 de off sizeof_dirent;
      if negb (w =? sizeof_dirent) then ret (-1) else ret 0
  end.

(** ** Paths *)

(** A loop that advances [path] while the character it points to satisfies [p]; the fuel bounds the length of the string. *)
Fixpoint scan_while (fuel : nat) (p : Z → bool) (path : Z) (m : mem) : Z :=
  match fuel with
  | O => path
  | S n => if p (rd m path) then scan_while n p (path + 1) m else path
  end.
Definition is_slash (c : Z) : bool := c =? chr_slash.
Definition in_elem (c : Z) : bool := negb (c =? chr_slash) && negb (c =? 0).

(** skipelem(path, name): 0 is the null pointer. Paths are shorter than MAXPATH. *)
Definition skipelem (path name : Z) : M mem Z :=
  do m <- get;
  let path := scan_while (Z.to_nat MAXPATH) is_slash path m in
  if rd m path =? 0 then ret 0
  else
    let s := path in
    let path := scan_while (Z.to_nat MAXPATH) in_elem path m in
    let len := path - s in
    (if DIRSIZ <=? len then memmove name s DIRSIZ ;; ret tt
     else memmove name s len ;; modify (λ m, wr m (name + len) 0)) ;;
    do m <- get;
    ret (scan_while (Z.to_nat MAXPATH) is_slash path m).

(** [myproc()->cwd] *)
Definition my_cwd : M (fst D) nat :=
  do p <- zoom on_fp me;
  do s <- get;
  of_option (p_cwd (p_priv (procs (f_p s) !!! p))).

(** Every iteration of namex consumes a character of the path. *)
Definition namex (de path : Z) (parent : bool) (name : Z) : M (fst D) (option nat) :=
  do m <- gets (λ s, km_mem (f_km s));
  do ip <- (if rd m path =? chr_slash then iget ROOTDEV ROOTINO else do c <- my_cwd; idup c);
  loop (S (Z.to_nat MAXPATH))
    (λ '(ip, path),
       do path <- zoom on_mem (skipelem path name);
       if path =? 0 then
         (if parent then iput ip ;; ret (inr None) else ret (inr (Some ip)))
       else
         ilock (Some ip) ;;
         do s <- get;
         if negb (d_type (i_d (ino ip s)) =? T_DIR) then iunlockput ip ;; ret (inr None)
         else if parent && (rd (km_mem (f_km s)) path =? 0) then iunlock (Some ip) ;; ret (inr (Some ip))
         else
           do next <- dirlookup de ip name;
           match next with
           | None => iunlockput ip ;; ret (inr None)
           | Some (next, _) => iunlockput ip ;; ret (inl (next, path))
           end)
    (ip, path).

Definition namei (de name path : Z) : M (fst D) (option nat) := namex de path false name.
Definition nameiparent (de path name : Z) : M (fst D) (option nat) := namex de path true name.
End dir.
