(* ===== verification/DirProps.v ===== *)
(** * Path names

    What skipelem of kernel/fs.c does to a path, against the list of the path's
    elements: the strings between its slashes. *)
From S2P Require Import Prelude Memory KString Riscv Spinlock Kalloc Vm Sched Sleeplock Disk Bio Log Fs Dir.

(** ** The elements of a path *)
Fixpoint split_slash (l : list Z) : list (list Z) :=
  match l with
  | [] => [[]]
  | c :: l =>
      if is_slash c then [] :: split_slash l
      else match split_slash l with
           | e :: es => (c :: e) :: es
           | [] => [[c]]
           end
  end.

Definition path_elems (l : list Z) : list (list Z) := filter (λ e, e ≠ []) (split_slash l).

(** The element skipelem leaves in its buffer of DIRSIZ bytes: cut at DIRSIZ
    characters, and terminated when it is shorter. *)
Definition holds_name (m : mem) (name : Z) (e : list Z) : Prop :=
  rds m name (Nat.min (length e) (Z.to_nat DIRSIZ)) = take (Z.to_nat DIRSIZ) e ∧
  (Z.of_nat (length e) < DIRSIZ → cstr m name e).

(** ** Scanning *)
Fixpoint span (p : Z → bool) (l : list Z) : list Z * list Z :=
  match l with
  | [] => ([], [])
  | c :: l' => if p c then let '(a, b) := span p l' in (c :: a, b) else ([], l)
  end.

Lemma span_app p l : (span p l).1 ++ (span p l).2 = l.
Proof. induction l as [|c l IH]; [done|]. cbn. destruct (p c); [|done]. destruct (span p l). cbn in *. by rewrite IH. Qed.

Lemma span_all p l : Forall (λ c, p c = true) (span p l).1.
Proof.
  induction l as [|c l IH]; [constructor|]. cbn. destruct (p c) eqn:E; [|constructor].
  destruct (span p l). by constructor.
Qed.

Lemma span_stop p l c r : (span p l).2 = c :: r → p c = false.
Proof.
  induction l as [|d l IH]; [done|]. cbn. destruct (p d) eqn:E; [|by intros [= <- <-]].
  destruct (span p l). by apply IH.
Qed.

Lemma scan_while_span fuel p a m l :
  cstr m a l → p 0 = false → (length l < fuel)%nat →
  scan_while fuel p a m = a + Z.of_nat (length (span p l).1) ∧
  cstr m (scan_while fuel p a m) (span p l).2.
Proof.
  revert a l. induction fuel as [|fuel IH]; intros a l Hc Hp Hf; [lia|]. cbn.
  destruct l as [|c l].
  - assert (rd m a = 0) as E by (by apply cstr_nil). rewrite E, Hp. cbn. split; [lia|done].
  - pose proof Hc as (E & _ & Hc')%cstr_cons. rewrite E. cbn [length] in Hf. destruct (p c) eqn:Epc; cbn; rewrite ?Epc; cbn.
    + destruct (IH (a + 1) l Hc' Hp ltac:(lia)) as [E1 H2]. destruct (span p l) as [t u]. cbn in *. split; [lia|done].
    + split; [lia|done].
Qed.

(** ** Elements and scanning *)
Lemma elems_slash l r : Forall (λ c, is_slash c = true) l → path_elems (l ++ r) = path_elems r.
Proof. induction 1 as [|c l Hc _ IH]; [done|]. cbn. unfold path_elems in *. cbn. rewrite Hc. by rewrite filter_cons_False by naive_solver. Qed.

Lemma split_plain e : Forall (λ c, is_slash c = false) e → split_slash e = [e].
Proof. induction 1 as [|c e Hc _ IH]; [done|]. cbn. by rewrite Hc, IH. Qed.

Lemma split_plain_app e c r : Forall (λ c, is_slash c = false) e → is_slash c = true →
  split_slash (e ++ c :: r) = e :: split_slash r.
Proof. intros He Hc. induction He as [|d e Hd _ IH]; cbn; [by rewrite Hc|]. by rewrite Hd, IH. Qed.

Lemma in_elem_plain l : Forall (λ c, in_elem c = true) l → Forall (λ c, is_slash c = false) l.
Proof. intros H. eapply Forall_impl; [exact H|]. clear H. intros c [H _]%andb_true_iff. by apply negb_true_iff in H. Qed.

(** The elements of a path that starts with an element [e]. *)
Lemma elems_cons e r :
  e ≠ [] → Forall (λ c, is_slash c = false) e → (∀ c r', r = c :: r' → is_slash c = true) →
  path_elems (e ++ r) = e :: path_elems r.
Proof.
  intros Hne He Hr. unfold path_elems. destruct r as [|c r].
  - rewrite app_nil_r, split_plain by done. by rewrite filter_cons_True.
  - assert (is_slash c = true) as Hc by (by apply (Hr c r)).
    rewrite split_plain_app by done. rewrite filter_cons_True by done. cbn. rewrite Hc.
    by rewrite filter_cons_False by naive_solver.
Qed.

Lemma span_len p l : (length (span p l).1 + length (span p l).2 = length l)%nat.
Proof. rewrite <- (span_app p l) at 3. by rewrite length_app. Qed.

Lemma cstr_rds m a l r : cstr m a (l ++ r) → rds m a (length l) = l ∧ cstr m (a + Z.of_nat (length l)) r.
Proof.
  revert a. induction l as [|c l IH]; intros a H; cbn [length app] in *.
  - split; [done|]. by rewrite Z.add_0_r.
  - apply cstr_cons in H as (E & _ & H). destruct (IH _ H) as [E1 H1]. split.
    + by rewrite rds_cons, E, E1.
    + by replace (a + Z.of_nat (S (length l))) with (a + 1 + Z.of_nat (length l)) by lia.
Qed.

(** The copy of an element into the name buffer. *)
Lemma copy_name_ok s name e r m :
  cstr m s (e ++ r) → name + DIRSIZ ≤ s ∨ s + Z.of_nat (length (e ++ r)) < name →
  let len := Z.of_nat (length e) in
  wp (if DIRSIZ <=? len then memmove name s DIRSIZ ;; ret tt
      else memmove name s len ;; modify (λ m, wr m (name + len) 0))
     (λ _ m', holds_name m' name e ∧ ∀ a, ¬ (name ≤ a < name + DIRSIZ) → rd m' a = rd m a) m.
Proof.
  intros Hc Hd len. destruct (cstr_rds _ _ _ _ Hc) as [Hr _]. rewrite length_app in Hd.
  assert (∀ i, 0 ≤ i < len → rd m (s + i) = e !!! Z.to_nat i) as Hi.
  { intros i Hi. rewrite <- Hr. rewrite list_lookup_total_alt, lookup_rds, decide_True by lia. cbn. f_equal. lia. }
  destruct (Z.leb_spec DIRSIZ len) as [Hle|Hlt].
  - wp_step. wp_call (memmove_rd name s DIRSIZ m ltac:(done)). intros x m' [_ Hm']. wp_step.
    split; [|intros a Ha; by rewrite Hm', decide_False]. split; [|lia].
    rewrite Nat.min_r by lia. apply list_eq. intros i. rewrite lookup_rds. destruct (decide (i < Z.to_nat DIRSIZ)%nat).
    + rewrite Hm', decide_True by lia. rewrite lookup_take_lt by lia.
      replace (s + (name + Z.of_nat i - name)) with (s + Z.of_nat i) by lia. rewrite Hi by lia.
      rewrite Nat2Z.id. symmetry. apply list_lookup_lookup_total_lt. lia.
    + by rewrite lookup_take_ge by lia.
  - wp_step. wp_call (memmove_rd name s len m ltac:(lia)). intros x m' [_ Hm']. wp_step.
    assert (rds (wr m' (name + len) 0) name (length e) = e) as Ee.
    { transitivity (rds m s (length e)); [|done]. apply rds_ext. intros i Hil. rewrite rd_wr_ne by lia. rewrite Hm', decide_True by lia. f_equal. lia. }
    split.
    + split; [rewrite Nat.min_l by lia; rewrite take_ge by lia; done|]. intros _. split.
      * destruct Hc as [Hc _]. by apply Forall_app in Hc as [? _].
      * replace (S (length e)) with (length e + 1)%nat by lia. rewrite rds_app, Ee. f_equal.
        rewrite rds_cons, rds_0. f_equal. by rewrite rd_wr_eq.
    + intros a Ha. rewrite rd_wr_ne by lia. rewrite Hm', decide_False by lia. done.
Qed.

(** Skipelem walks through the elements of a path. On a path without elements
    it returns 0; otherwise it copies the first element, cut at DIRSIZ characters,
    to [name] and returns a pointer to the rest of the path, which has the
    remaining elements, starts with no slash and is strictly shorter, so that the
    loop of namex ends. It writes only to the name buffer. *)
Theorem skipelem_next path name l m :
  0 < path → cstr m path l → Z.of_nat (length l) < MAXPATH →
  name + DIRSIZ ≤ path ∨ path + Z.of_nat (length l) < name →
  match path_elems l with
  | [] => skipelem path name m = Ok 0 m
  | e :: es => wp (skipelem path name) (λ r m', ∃ l', path_elems l' = es ∧ cstr m' r l' ∧
      (length l' < length l)%nat ∧ r = path + Z.of_nat (length l - length l') ∧
      (∀ c l2, l' = c :: l2 → is_slash c = false) ∧ holds_name m' name e ∧
      ∀ a, ¬ (name ≤ a < name + DIRSIZ) → rd m' a = rd m a) m
  end.
Proof.
  intros Hpos Hc Hlen Hd.
  destruct (scan_while_span (Z.to_nat MAXPATH) is_slash path m l Hc eq_refl ltac:(lia)) as [E1 Hc1].
  pose proof (span_len is_slash l) as L1. rewrite E1 in Hc1.
  assert (path_elems l = path_elems (span is_slash l).2) as ->.
  { rewrite <- (span_app is_slash l) at 1. apply elems_slash, span_all. }
  destruct (span is_slash l) as [sl l1] eqn:Es. cbn [Datatypes.fst snd] in *.
  set (s := path + Z.of_nat (length sl)) in *. destruct l1 as [|c0 l1'] eqn:El1.
  { cbn. unfold skipelem. rewrite (bind_Ok _ _ _ _ _ (eq_refl : get m = Ok m m)), E1.
    apply cstr_nil in Hc1. by rewrite Hc1. }
  rewrite <- El1 in *. assert (is_slash c0 = false) as Hc0.
  { apply (span_stop is_slash l c0 l1'). by rewrite Es. }
  pose proof Hc1 as Hc1'. rewrite El1 in Hc1'. apply cstr_cons in Hc1' as (R0 & Hz & _).
  destruct (scan_while_span (Z.to_nat MAXPATH) in_elem s m l1 Hc1 eq_refl ltac:(lia)) as [E2 Hc2].
  pose proof (span_len in_elem l1) as L2. pose proof (span_app in_elem l1) as A2. pose proof (span_all in_elem l1) as F2.
  pose proof (span_stop in_elem l1) as S2. rewrite E2 in Hc2.
  assert ((span in_elem l1).1 ≠ []) as Hne.
  { assert (in_elem c0 = true) as Hin.
    { unfold in_elem, is_slash in *. by rewrite Hc0, (proj2 (Z.eqb_neq c0 0)). }
    rewrite El1. cbn [span]. rewrite Hin. by destruct (span in_elem l1'). }
  destruct (span in_elem l1) as [e r] eqn:Ee. cbn [Datatypes.fst snd] in *.
  assert (∀ c r', r = c :: r' → is_slash c = true) as Hr.
  { intros c r' ->. specialize (S2 c r' eq_refl). apply cstr_cons in Hc2 as (_ & Hcz & _). unfold in_elem, is_slash in *.
    rewrite (proj2 (Z.eqb_neq c 0)) in S2 by done. cbn in S2. rewrite andb_true_r in S2. by apply negb_false_iff in S2. }
  rewrite <- A2. rewrite elems_cons; [|done|by apply in_elem_plain|done].
  unfold skipelem. wp_step. wp_step. rewrite E1. fold s. rewrite R0, (proj2 (Z.eqb_neq c0 0)) by done.
  rewrite E2. replace (s + Z.of_nat (length e) - s) with (Z.of_nat (length e)) by lia.
  assert (name + DIRSIZ ≤ s ∨ s + Z.of_nat (length (e ++ r)) < name) as Hd' by (rewrite A2; unfold s; lia).
  rewrite <- A2 in Hc1. wp_step. wp_call (copy_name_ok s name e r m Hc1 Hd'). intros x m' [Hn Hm'].
  assert (cstr m' (s + Z.of_nat (length e)) r) as Hc3.
  { eapply cstr_ext; [|exact Hc2]. intros y Hy. apply Hm'. unfold s in *. lia. }
  wp_step. wp_step. wp_step.
  destruct (scan_while_span (Z.to_nat MAXPATH) is_slash _ m' r Hc3 eq_refl ltac:(lia)) as [E4 Hc4].
  pose proof (span_len is_slash r) as L3. pose proof (span_app is_slash r) as A3. pose proof (span_all is_slash r) as F3.
  pose proof (span_stop is_slash r) as S3. destruct (span is_slash r) as [sl' l']. cbn [Datatypes.fst snd] in *.
  assert (length e ≠ 0%nat) by (by destruct e).
  exists l'. split_and!; [|done|lia|rewrite E4; unfold s; lia|exact S3|done|done].
  rewrite <- A3. by rewrite elems_slash.
Qed.

Lemma skipelem_next_witness :
  let m := wrs ∅ 100 [47; 47; 97; 47; 98; 98; 0] in
  wp (skipelem 100 50) (λ r m', ∃ l', path_elems l' = [[98; 98]] ∧ cstr m' r l' ∧
      (length l' < 6)%nat ∧ r = 100 + Z.of_nat (6 - length l') ∧
      (∀ c l2, l' = c :: l2 → is_slash c = false) ∧ holds_name m' 50 [97] ∧
      ∀ a, ¬ (50 ≤ a < 50 + DIRSIZ) → rd m' a = rd m a) m.
Proof.
  apply (skipelem_next 100 50 [47; 47; 97; 47; 98; 98] (wrs ∅ 100 [47; 47; 97; 47; 98; 98; 0])).
  - lia.
  - split; [repeat constructor; lia|vm_compute; reflexivity].
  - vm_compute. reflexivity.
  - left. vm_compute. discriminate.
Defined.
