(* ===== verification/DirLookup.v ===== *)
(** * Directories as lists of entries

    dirlookup and dirlink of kernel/fs.c against the directory as the list of
    the entries in its file: which entry a name finds, and where a new name
    goes. A name is what stands before the first NUL of a field of DIRSIZ bytes,
    as strncmp and strncpy see it. *)
From S2P Require Import Prelude Memory KString Riscv Spinlock Kalloc Vm Sched Sleeplock Disk Bio BioSpec BioInv BioOps Log LogSpec LogOps LogTx FsRep Fs FsBlocks FsData FsInode BioProps LogProps FsProps Itable Dir.

(** ** Names in fields of fixed length *)
Fixpoint upto0 (l : list Z) : list Z :=
  match l with
  | [] => []
  | b :: l => if b =? 0 then [] else b :: upto0 l
  end.

Lemma strncmp_upto0 n : ∀ m p q, strncmp_loop n m p q = 0 ↔ upto0 (rds m p n) = upto0 (rds m q n).
Proof.
  induction n as [|n IH]; intros m p q; cbn [strncmp_loop]; [done|]. rewrite !rds_cons. cbn [upto0].
  destruct (Z.eqb_spec (rd m p) 0) as [Hp|Hp]; cbn [negb andb].
  - destruct (Z.eqb_spec (rd m q) 0); [|split; [lia|done]]. split; [done|lia].
  - destruct (Z.eqb_spec (rd m p) (rd m q)) as [E|E].
    + rewrite <- E, (proj2 (Z.eqb_neq _ 0)) by done. rewrite IH. split; [by intros ->|by intros [=]].
    + split; [lia|]. destruct (rd m q =? 0); [done|]. by intros [=].
Qed.

Lemma upto0_zeros n : upto0 (replicate n 0) = [].
Proof. by destruct n. Qed.

Lemma strncpy_upto0 n : ∀ m s t, s + Z.of_nat n ≤ t ∨ t + Z.of_nat n ≤ s →
  upto0 (rds (strncpy_loop n s t m) s n) = upto0 (rds m t n).
Proof.
  induction n as [|n IH]; intros m s t Hd; cbn [strncpy_loop]; [done|]. rewrite !rds_cons. cbn [upto0].
  destruct (Z.eqb_spec (rd m t) 0) as [E|E].
  - rewrite zero_pad_rd, decide_False, rd_wr_eq, E by lia. done.
  - rewrite strncpy_loop_rd, rd_wr_eq, u8_small by (lia || apply rd_range).
    rewrite (proj2 (Z.eqb_neq _ 0)) by done. f_equal. rewrite IH by lia. f_equal. apply rds_ext.
    intros x Hx. rewrite rd_wr_ne by lia. done.
Qed.

Lemma bool_decide_ext_eqb (P : Prop) `{Decision P} z : (P ↔ z = 0) → bool_decide P = (z =? 0).
Proof. intros H'. destruct (Z.eqb_spec z 0); [rewrite bool_decide_true|rewrite bool_decide_false]; tauto. Qed.

(** ** The entries of a directory *)
Definition ent_byte (f : Z → block) (d : dinode) (k c : Z) : Z := u8 (file_byte f d (16 * k + c)).
Definition ent_inum (f : Z → block) (d : dinode) (k : Z) : Z := ent_byte f d k 0 + 256 * ent_byte f d k 1.
Definition ent_name (f : Z → block) (d : dinode) (k : Z) : list Z := upto0 (ent_byte f d k <$> seqZ 2 14).

(** Entry [k] is in use and has the name. *)
Definition ent_is (f : Z → block) (d : dinode) (nm : list Z) (k : Z) : bool :=
  negb (ent_inum f d k =? 0) && bool_decide (ent_name f d k = nm).
Definition nents (d : dinode) : Z := d_size d `div` 16.
(** The first such entry. *)
Definition dir_find (f : Z → block) (d : dinode) (nm : list Z) : option Z :=
  List.find (ent_is f d nm) (seqZ 0 (nents d)).
(** The first unused entry, or the end. *)
Definition dir_hole (f : Z → block) (d : dinode) : Z :=
  default (nents d) (List.find (λ k, ent_inum f d k =? 0) (seqZ 0 (nents d))).

Lemma find_seqZ_none (P : Z → bool) n : (∀ j, 0 ≤ j < n → P j = false) → List.find P (seqZ 0 n) = None.
Proof.
  intros H. destruct (List.find P (seqZ 0 n)) as [x|] eqn:Ex; [|done]. apply List.find_some in Ex as [Hx Px].
  apply list_elem_of_In, elem_of_seqZ in Hx. by rewrite H in Px by lia.
Qed.

Lemma find_app_none {A} (P : A → bool) l r : List.find P l = None → List.find P (l ++ r) = List.find P r.
Proof. induction l as [|x l IH]; [done|]. cbn. by destruct (P x). Qed.

Lemma find_seqZ (P : Z → bool) n k :
  0 ≤ k < n → P k = true → (∀ j, 0 ≤ j < k → P j = false) → List.find P (seqZ 0 n) = Some k.
Proof.
  intros Hk HP Hno. replace n with (k + (n - k)) by lia. rewrite seqZ_app by lia.
  rewrite find_app_none by (by apply find_seqZ_none). rewrite seqZ_cons by lia. cbn [List.find]. by rewrite Z.add_0_l, HP.
Qed.

Lemma find_seqZ_inv (P : Z → bool) n :
  match List.find P (seqZ 0 n) with
  | Some k => 0 ≤ k < n ∧ P k = true
  | None => ∀ j, 0 ≤ j < n → P j = false
  end.
Proof.
  destruct (List.find P (seqZ 0 n)) as [x|] eqn:Ex.
  - apply List.find_some in Ex as [Hx Px]. apply list_elem_of_In, elem_of_seqZ in Hx. split; [lia|done].
  - intros j Hj. apply (List.find_none _ _ Ex), list_elem_of_In, elem_of_seqZ. lia.
Qed.

Lemma de_offs_at size pre x post :
  0 ≤ size → size `mod` 16 = 0 → de_offs size = pre ++ x :: post →
  x = 16 * Z.of_nat (length pre) ∧ Z.of_nat (length pre) < size `div` 16.
Proof.
  intros H0 H1 E. assert (de_offs size !! length pre = Some x) as Hx by (rewrite E; by apply list_lookup_middle).
  unfold de_offs, sizeof_dirent in Hx. rewrite list_lookup_fmap in Hx.
  apply fmap_Some in Hx as (k & Hk & ->). apply lookup_seqZ in Hk as [-> Hlt].
  replace ((size + 16 - 1) `div` 16) with (size `div` 16) in Hlt by dlia. lia.
Qed.

Lemma length_de_offs size : 0 ≤ size → size `mod` 16 = 0 → Z.of_nat (length (de_offs size)) = size `div` 16.
Proof.
  intros H0 H1. unfold de_offs, sizeof_dirent. rewrite length_fmap, length_seqZ. dlia.
Qed.

Section dirs.
Context {D : Type} `{!BlockDev D}.
Context (end_ : Z) (buf_addr : nat → Z).
Implicit Types (s : fst D) (v : txv).
Abbreviation fmem s := (km_mem (f_km s)).
Abbreviation in_bufs := (in_bufs buf_addr).

(** The inode [dp] is a directory that can be read: whole entries, blocks allocated. *)
Record dir_ok s v dp : Prop := {
  dk_read : readable s v dp;
  dk_type : d_type (i_d (ino dp s)) = T_DIR;
  dk_size : 0 ≤ d_size (i_d (ino dp s)) ≤ MAXFILE * BSIZE;
  dk_ents : d_size (i_d (ino dp s)) `mod` 16 = 0
}.

(** The local dirent at [de] and the name are apart from each other and from the
    buffer cache. *)
Record args_ok (de name : Z) : Prop := {
  ao_de : 0 ≤ de ∧ de + 16 < 2 ^ 64;
  ao_bufs a : de ≤ a < de + 16 → ¬ in_bufs a;
  ao_name : de + 16 ≤ name ∨ name + 14 ≤ de;
  ao_nbufs a : name ≤ a < name + 14 → ¬ in_bufs a
}.

(** Only the dirent and the copies of the buffers changed in memory. *)
Definition kept (de : Z) s s' : Prop :=
  ∀ a, ¬ (de ≤ a < de + 16) → ¬ in_bufs a → rd (fmem s') a = rd (fmem s) a.

Definition name_of s (name : Z) : list Z := upto0 (rds (fmem s) name 14).

Lemma name_kept de name s s' : args_ok de name → kept de s s' → name_of s' name = name_of s name.
Proof.
  intros [_ _ Hn Hb] Hk. unfold name_of. f_equal. apply rds_ext. intros x Hx. apply Hk; [lia|].
  apply Hb. lia.
Qed.

Lemma dir_ok_keep s s' v dp : dir_ok s v dp → frep s' v → mkeep s s' → dir_ok s' v dp.
Proof.
  intros [H1 H2 H3 H4] Hs' Hk. assert (ino dp s' = ino dp s) as Ei by (unfold ino; by rewrite (mk_ino _ _ Hk)).
  split; rewrite ?Ei; try done. by apply (readable_keep s).
Qed.

(** readi of one entry. *)
Lemma read_ent s v dp de name k :
  dir_ok s v dp → args_ok de name → let d := i_d (ino dp s) in 0 ≤ k < nents d →
  wp (readi end_ buf_addr dp 0 de (16 * k) sizeof_dirent) (λ r s', r = sizeof_dirent ∧ frep s' v ∧ mkeep s s' ∧
    de_inum de s' = ent_inum (v_view v) d k ∧ name_of s' (de_name de) = ent_name (v_view v) d k ∧ kept de s s') s.
Proof.
  intros [Hr _ Hs Hm] [[Hd0 Hd1] Hb _ _] d Hk. fold d in Hs, Hm.
  assert (16 * k + 16 ≤ d_size d) as Hin by (unfold nents in Hk; dlia).
  assert (MAXFILE * BSIZE < 2 ^ 31) as Hmf by done. unfold sizeof_dirent.
  wp_call (readi_ok end_ buf_addr s v dp de (16 * k) 16 Hr); fold d; try done; try lia.
  fold d. rewrite Z.min_l by lia. intros r s' (-> & Hs' & Hk' & Hrd & Hout).
  assert (∀ c, 0 ≤ c < 16 → rd (fmem s') (de + c) = ent_byte (v_view v) d k c) as Hc.
  { intros c Hc. rewrite Hrd by lia. unfold ent_byte. do 2 f_equal. lia. }
  split_and!; try done.
  - unfold de_inum, ld. rewrite !rds_cons, rds_0. cbn [le_val]. unfold ent_inum.
    rewrite <- (Hc 0), <- (Hc 1) by lia. replace (de + 0) with de by lia. lia.
  - unfold name_of, ent_name, de_name. f_equal. apply list_eq. intros i. rewrite lookup_rds, list_lookup_fmap.
    case_decide as Hi.
    + rewrite lookup_seqZ_lt by lia. cbn. f_equal. rewrite <- Hc by lia. f_equal. lia.
    + rewrite lookup_seqZ_ge by lia. done.
Qed.

(** There is a slot for inode [inum]: one that names it or an unused one. *)
Definition slot_for s (inum : Z) : Prop :=
  ∃ j, (j < Z.to_nat NINODE)%nat ∧ (i_ref (ino j s) = 0 ∨ names s j ROOTDEV inum).

(** The inode [inum] was referenced in slot [i]. *)
Record got s v (i : nat) (inum : Z) s' : Prop := {
  gt_rep : frep s' v;
  gt_inv : it_inv s';
  gt_names : names s' i ROOTDEV inum;
  gt_ref : i_ref (ino i s') = i_ref (ino i s) + 1;
  gt_other j : j ≠ i → ino j s' = ino j s;
  gt_old : i_ref (ino i s) ≠ 0 → i_inum (ino i s) = inum;
  gt_slot : inodes s' = <[i := named ROOTDEV inum (ino i s)]> (inodes s);
  gt_l : skeep (f_l s) (f_l s');
  gt_sb : f_sb s' = f_sb s;
  gt_it : it_lock s' = it_lock s
}.

Lemma iget_got s v inum :
  frep s v → it_inv s → slot_for s inum →
  wp (iget ROOTDEV inum) (λ i s', got s v i inum s' ∧ fmem s' = fmem s) s.
Proof.
  intros Hs Hi (j & Hj & Hslot). destruct (frep_ok _ _ Hs) as [Hok _].
  destruct (iget_run s ROOTDEV inum (ps_hart _ Hok) Hi) as [H|[_ H]].
  - eapply wp_mono; [exact H|]. intros i s' (H1 & [A1 A2 A3 A4 A5 A6] & H2 & H3 & H4 & H5).
    destruct (frep_pst s v (synced (f_p s)) Hs (synced_same _)) as [Hs' Hk'].
    split; [split; try done|by rewrite A5]; unfold frep; rewrite ?A4; [exact Hs'| |apply Hk'].
    intros Hr. rewrite decide_False in H5 by done. apply H5.
  - exfalso. destruct (H j Hj) as [? ?]. destruct Hslot; [lia|done].
Qed.

Lemma mkeep_it s s' : mkeep s s' → it_inv s → it_inv s'.
Proof.
  intros [_ _ H1 H2] [A B C E]. split; unfold ino in *; rewrite ?H1, ?H2; try done.
  all: intros; eauto.
Qed.
(** What dirlookup leaves when it found entry [k] and when it found none. *)
Definition looked s v de dp (nm : list Z) (r : option (nat * Z)) s' : Prop :=
  let f := v_view v in let d := i_d (ino dp s) in
  kept de s s' ∧
  match dir_find f d nm with
  | None => r = None ∧ frep s' v ∧ mkeep s s'
  | Some k => ∃ i, r = Some (i, 16 * k) ∧ got s v i (ent_inum f d k) s'
  end.

Lemma got_keep s s1 v i inum s' : mkeep s s1 → got s1 v i inum s' → got s v i inum s'.
Proof.
  intros Hk [H1 H2 H3 H4 H5 H6 H6' H7 H8 H9]. pose proof (mk_l _ _ Hk) as Hl. unfold ino in *. rewrite (mk_ino _ _ Hk) in *.
  split; try done; [by etransitivity|by rewrite H8, (mk_sb _ _ Hk)|by rewrite H9, (mk_it _ _ Hk)].
Qed.

Lemma slot_for_keep s s' inum : mkeep s s' → slot_for s inum → slot_for s' inum.
Proof. intros Hk. unfold slot_for, names, ino. by rewrite (mk_ino _ _ Hk). Qed.

(** dirlookup of a directory: it finds the first entry in use with the name. *)
Lemma dirlookup_run s v de dp name :
  dir_ok s v dp → args_ok de name → it_inv s →
  let nm := name_of s name in let d := i_d (ino dp s) in
  (∀ k, dir_find (v_view v) d nm = Some k → slot_for s (ent_inum (v_view v) d k)) →
  wp (dirlookup end_ buf_addr de dp name) (looked s v de dp nm) s.
Proof.
  intros Hd Ha Hi nm d Hslot. pose proof Hd as [_ Ht Hs Hm]. fold d in Ht, Hs, Hm.
  unfold dirlookup. wp_step. wp_step. fold d. rewrite Ht. cbn [Z.eqb negb].
  apply (wp_first _ _ (λ pre s', frep s' v ∧ mkeep s s' ∧ kept de s s' ∧
    ∀ k, 0 ≤ k < Z.of_nat (length pre) → ent_is (v_view v) d nm k = false)).
  - split_and!; [apply (dk_read _ _ _ Hd)|done|done|]. cbn. intros; lia.
  - intros pre x post s1 Hpre (Hs1 & Hk1 & Hm1 & Hno).
    destruct (de_offs_at _ _ _ _ (proj1 Hs) Hm Hpre) as [-> Hlt].
    set (k := Z.of_nat (length pre)) in *.
    assert (ino dp s1 = ino dp s) as Ei by (unfold ino; by rewrite (mk_ino _ _ Hk1)).
    wp_step. wp_call (read_ent s1 v dp de name k (dir_ok_keep _ _ _ _ Hd Hs1 Hk1) Ha).
    { rewrite Ei. unfold nents. fold d. lia. }
    rewrite Ei. fold d. intros r s2 (-> & Hs2 & Hk2 & Hin & Hnm & Hm2). rewrite Z.eqb_refl. cbn [negb].
    assert (mkeep s s2) as Hk by (by transitivity s1).
    assert (kept de s s2) as Hmem by (intros a ? ?; rewrite Hm2, Hm1; done).
    wp_step. wp_step. rewrite Hin. destruct (Z.eqb_spec (ent_inum (v_view v) d k) 0) as [E0|E0].
    { wp_step. split_and!; try done. intros j Hj. rewrite length_app in Hj. cbn in Hj.
      destruct (decide (j = k)) as [->|]; [unfold ent_is; by rewrite E0|apply Hno; lia]. }
    wp_step. wp_step. cbn [view on_mem]. unfold namecmp, strncmp. wp_step.
    assert (ent_is (v_view v) d nm k = (strncmp_loop 14 (fmem s2) name (de_name de) =? 0)) as Eis.
    { unfold ent_is. rewrite (proj2 (Z.eqb_neq _ 0)) by done. cbn [negb andb].
      apply bool_decide_ext_eqb. rewrite strncmp_upto0. fold (name_of s2 name). fold (name_of s2 (de_name de)).
      rewrite Hnm, (name_kept _ _ _ _ Ha Hmem). done. }
    change (Z.to_nat DIRSIZ) with 14%nat. rewrite <- Eis.
    replace (over on_mem (fmem s2) s2) with s2 by (by destruct s2 as [? [] ? ? ?]).
    destruct (ent_is (v_view v) d nm k) eqn:Ek.
    + assert (dir_find (v_view v) d nm = Some k) as Hf by (apply find_seqZ; [unfold nents; lia|done|done]).
      wp_step. wp_step. wp_step.
      replace (i_dev (ino dp s2)) with ROOTDEV
        by (unfold ino; rewrite (mk_ino _ _ Hk); symmetry; apply (ra_dev _ _ _ (dk_read _ _ _ Hd))).
      wp_call (iget_got s2 v (ent_inum (v_view v) d k)); [done|by apply (mkeep_it s)|by apply (slot_for_keep s), Hslot|].
      intros i s3 [Hg Hm3]. wp_step. unfold looked. fold d. rewrite Hf. split.
      * intros a ? ?. rewrite Hm3. by apply Hmem.
      * exists i. split; [done|]. by apply (got_keep s s2).
    + wp_step. split_and!; try done. intros j Hj. rewrite length_app in Hj. cbn in Hj.
      destruct (decide (j = k)) as [->|]; [done|apply Hno; lia].
  - intros s' (Hs' & Hk' & Hm' & Hno). unfold looked. fold d. split; [done|].
    unfold dir_find. rewrite find_seqZ_none; [done|]. intros j Hj. apply Hno.
    rewrite (length_de_offs _ (proj1 Hs) Hm). done.
Qed.
(** ** A new entry *)

(** What dirlink needs to write one entry into blocks the directory has. *)
Record link_pre s v dp nb : Prop := {
  lp_able : writable s v dp nb;
  lp_slot : (dp < length (inodes s))%nat;
  lp_dinode : dinode_ok (i_d (ino dp s));
  lp_in : d_size (i_d (ino dp s)) + 16 ≤ nb * BSIZE;
  lp_ihome : home (log_start (f_l s)) (IBLOCK (i_inum (ino dp s)) (f_sb s));
  lp_iout : outside (v_view v) (i_d (ino dp s)) nb (IBLOCK (i_inum (ino dp s)) (f_sb s));
  lp_room : (length (v_log v) + 2 < Z.to_nat LOGBLOCKS)%nat
}.

Lemma rw_left_ent k : rw_left 16 (16 * k) = 1%nat.
Proof.
  unfold rw_left, BSIZE. change (0 <? 16) with true. cbn iota.
  replace ((16 + (16 * k) `mod` 1024 + 1024 - 1) `div` 1024) with 1 by dlia. done.
Qed.

Lemma link_write_pre s s' v dp nb de name k :
  link_pre s v dp nb → dir_ok s v dp → args_ok de name → frep s' v → mkeep s s' →
  0 ≤ k ≤ nents (i_d (ino dp s)) → write_pre buf_addr s' v dp nb de (16 * k) 16.
Proof.
  intros [[W1 W2 W3 W4 W5 W6] L2 L3 L4 L5 L6 L7] [_ _ Hs Hm] [Hde Hb _ _] Hs' Hk Hk0.
  assert (ino dp s' = ino dp s) as Ei by (unfold ino; by rewrite (mk_ino _ _ Hk)).
  pose proof (mkeep_start s s' v Hk W1) as EL. unfold nents in Hk0.
  split; rewrite ?Ei, ?EL, ?(mk_ino _ _ Hk), ?(mk_sb _ _ Hk); try done.
  - split; rewrite ?Ei, ?EL; done.
  - dlia.
  - dlia.
  - rewrite rw_left_ent. lia.
Qed.

(** The entries after the write of entry [k] from the dirent at [de]. *)
Lemma wrote_ents s v dp nb de k s' v' :
  wrote buf_addr s v dp nb de (16 * k) 16 s' v' → 0 ≤ k → 16 * k + 16 ≤ nb * BSIZE →
  let d := i_d (ino dp s) in let d' := i_d (ino dp s') in
  ent_inum (v_view v') d' k = de_inum de s ∧ ent_name (v_view v') d' k = name_of s (de_name de) ∧
  ∀ j, 0 ≤ j → 16 * j + 16 ≤ nb * BSIZE → j ≠ k →
    ent_inum (v_view v') d' j = ent_inum (v_view v) d j ∧ ent_name (v_view v') d' j = ent_name (v_view v) d j.
Proof.
  intros Hw Hk Hin d d'. assert (d' = grown d (16 * k + 16)) as Ed by (unfold d', d; by rewrite (wr_ino _ _ _ _ _ _ _ _ _ _ Hw)).
  assert (∀ j c, 0 ≤ j → 0 ≤ c < 16 → 16 * j + 16 ≤ nb * BSIZE → ent_byte (v_view v') d' j c =
    if decide (j = k) then rd (fmem s) (de + c) else ent_byte (v_view v) d j c) as Hb.
  { intros j c Hj Hc Hjn. unfold ent_byte. rewrite Ed.
    change (file_byte (v_view v') (grown d (16 * k + 16)) ?o) with (file_byte (v_view v') d o).
    unfold d. rewrite (wr_bytes _ _ _ _ _ _ _ _ _ _ Hw) by lia. destruct (decide (j = k)) as [->|Hjk].
    - rewrite decide_True by lia. rewrite u8_small by apply rd_range. f_equal. lia.
    - rewrite decide_False by lia. done. }
  assert (∀ j (g : Z → Z), (∀ c, 0 ≤ c < 16 → ent_byte (v_view v') d' j c = g c) →
    ent_inum (v_view v') d' j = g 0 + 256 * g 1 ∧ ent_name (v_view v') d' j = upto0 (g <$> seqZ 2 14)) as Hg.
  { intros j g Hg. unfold ent_inum, ent_name. rewrite !Hg by lia. split; [done|]. f_equal.
    apply list_fmap_ext. intros i c Hc%lookup_seqZ. apply Hg. lia. }
  destruct (Hg k (λ c, rd (fmem s) (de + c))) as [E1 E2].
  { intros c Hc. by rewrite Hb, decide_True by lia. }
  split_and!.
  - rewrite E1. unfold de_inum, ld. rewrite !rds_cons, rds_0. cbn [le_val]. replace (de + 0) with de by lia. lia.
  - rewrite E2. unfold name_of, de_name. f_equal. apply list_eq. intros i. rewrite lookup_rds, list_lookup_fmap. case_decide.
    + rewrite lookup_seqZ_lt by lia. cbn [fmap option_fmap option_map]. do 2 f_equal. lia.
    + rewrite lookup_seqZ_ge by lia. done.
  - intros j Hj Hjn Hjk. apply (Hg j (ent_byte (v_view v) d j)). intros c Hc. by rewrite Hb, decide_False by done.
Qed.
(** The search for an unused entry. *)
Lemma hole_run s v de dp name :
  dir_ok s v dp → args_ok de name → let d := i_d (ino dp s) in
  wp (first (de_offs (d_size d)) (λ off,
        do r <- readi end_ buf_addr dp 0 de off sizeof_dirent;
        if negb (r =? sizeof_dirent) then panic "dirlink read"
        else
          do i <- gets (de_inum de);
          ret (if i =? 0 then Some off else None)))
     (λ hole s', default (Z.of_nat (length (de_offs (d_size d))) * sizeof_dirent) hole = 16 * dir_hole (v_view v) d ∧
        frep s' v ∧ mkeep s s' ∧ kept de s s') s.
Proof.
  intros Hd Ha d. pose proof Hd as [_ _ Hs Hm]. fold d in Hs, Hm.
  apply (wp_first _ _ (λ pre s', frep s' v ∧ mkeep s s' ∧ kept de s s' ∧
    ∀ k, 0 ≤ k < Z.of_nat (length pre) → (ent_inum (v_view v) d k =? 0) = false)).
  - split_and!; [apply (dk_read _ _ _ Hd)|done|done|]. cbn. intros; lia.
  - intros pre x post s1 Hpre (Hs1 & Hk1 & Hm1 & Hno).
    destruct (de_offs_at _ _ _ _ (proj1 Hs) Hm Hpre) as [-> Hlt]. set (k := Z.of_nat (length pre)) in *.
    assert (ino dp s1 = ino dp s) as Ei by (unfold ino; by rewrite (mk_ino _ _ Hk1)).
    wp_step. wp_call (read_ent s1 v dp de name k (dir_ok_keep _ _ _ _ Hd Hs1 Hk1) Ha).
    { rewrite Ei. unfold nents. fold d. lia. }
    rewrite Ei. fold d. intros r s2 (-> & Hs2 & Hk2 & Hin & _ & Hm2). rewrite Z.eqb_refl. cbn [negb].
    wp_step. wp_step. rewrite Hin. wp_step.
    assert (frep s2 v ∧ mkeep s s2 ∧ kept de s s2) as Hkeep.
    { split_and!; [done|by transitivity s1|]. intros a ? ?. rewrite Hm2, Hm1; done. }
    destruct (ent_inum (v_view v) d k =? 0) eqn:E0.
    + split; [|done]. cbn [default]. unfold dir_hole. rewrite (find_seqZ _ _ k); [done|unfold nents; lia|done|done].
    + destruct Hkeep as (? & ? & ?). split_and!; try done. intros j Hj. rewrite length_app in Hj. cbn in Hj.
      destruct (decide (j = k)) as [->|]; [done|apply Hno; lia].
  - intros s' (Hs' & Hk' & Hm' & Hno). split; [|done]. cbn [default]. rewrite (length_de_offs _ (proj1 Hs) Hm) in *.
    unfold dir_hole. rewrite find_seqZ_none; [unfold sizeof_dirent, nents; cbn; lia|exact Hno].
Qed.

Lemma hole_range f d : 0 ≤ d_size d → 0 ≤ dir_hole f d ≤ nents d.
Proof.
  intros Hd. unfold dir_hole. pose proof (find_seqZ_inv (λ k, ent_inum f d k =? 0) (nents d)) as H.
  assert (0 ≤ nents d) by (unfold nents; dlia). destruct (List.find _ _); cbn; lia.
Qed.

(** dirlink of a name that is not there: the entry goes to the first hole. *)
Lemma dirlink_run s v de dp name inum nb :
  dir_ok s v dp → link_pre s v dp nb → args_ok de name → it_inv s → 0 ≤ inum < 2 ^ 16 →
  let nm := name_of s name in let d := i_d (ino dp s) in let k := dir_hole (v_view v) d in
  dir_find (v_view v) d nm = None →
  wp (dirlink end_ buf_addr de dp name inum) (λ r s', r = 0 ∧ ∃ s1 v', mkeep s s1 ∧ kept de s s1 ∧
    write_pre buf_addr s1 v dp nb de (16 * k) 16 ∧
    de_inum de s1 = inum ∧ name_of s1 (de_name de) = nm ∧ wrote buf_addr s1 v dp nb de (16 * k) 16 s' v') s.
Proof.
  intros Hd Hl Ha Hi Hinum nm d k Hnone. pose proof (hole_range (v_view v) d (proj1 (dk_size _ _ _ Hd))) as Hk.
  unfold dirlink. wp_step. wp_call (dirlookup_run s v de dp name Hd Ha Hi).
  { fold d nm. by rewrite Hnone. }
  fold d nm. intros r s1 [Hm1 Hr]. fold d in Hr. rewrite Hnone in Hr. destruct Hr as (-> & Hs1 & Hk1).
  assert (ino dp s1 = ino dp s) as Ei by (unfold ino; by rewrite (mk_ino _ _ Hk1)).
  wp_step. wp_step. rewrite Ei. fold d. wp_step.
  pose proof (hole_run s1 v de dp name (dir_ok_keep _ _ _ _ Hd Hs1 Hk1) Ha) as Hh. rewrite Ei in Hh. fold d in Hh.
  wp_call Hh. intros hole s2 (-> & Hs2 & Hk2 & Hm2). fold k.
  assert (mkeep s s2) as Hks2 by (by transitivity s1).
  assert (kept de s s2) as Hms2 by (intros a ? ?; rewrite Hm2, Hm1; done).
  pose proof (name_kept _ _ _ _ Ha Hms2) as Hnm2. fold nm in Hnm2.
  wp_step. wp_step. unfold strncpy. wp_step. wp_step. wp_step. cbn [view on_mem]. wp_step. wp_step. wp_step. cbn [view on_mem].
  set (m1 := strncpy_loop (Z.to_nat DIRSIZ) (de_name de) name (fmem s2)).
  set (s3 := over on_mem (st 2 m1 de (u16 inum)) s2).
  change (over on_mem _ (over on_mem m1 s2)) with s3.
  assert (mkeep s s3) as Hks3 by (transitivity s2; [done|apply with_mem_keep]).
  assert (write_pre buf_addr s3 v dp nb de (16 * k) 16) as Hwp by (by apply (link_write_pre s s3 v dp nb de name k)).
  wp_step. wp_call (writei_run end_ buf_addr s3 v dp nb de (16 * k) 16 Hwp).
  intros r s4 (-> & v' & Hw). change (16 =? sizeof_dirent) with true. cbn [negb]. wp_step. split; [done|]. exists s3, v'.
  pose proof (ao_name _ _ Ha) as Hdis. split_and!; try done.
  - intros a Hna Hnb. change (fmem s3) with (st 2 m1 de (u16 inum)). rewrite rd_st_out by lia.
    unfold m1. rewrite strncpy_loop_rd; [by apply Hms2|]. unfold de_name. change (Z.to_nat DIRSIZ) with 14%nat. lia.
  - unfold de_inum. change (fmem s3) with (st 2 m1 de (u16 inum)). assert (u16 inum = inum) as -> by (apply Z.mod_small; lia).
    apply ld_st_eq. cbn. lia.
  - rewrite <- Hnm2. unfold name_of. change (fmem s3) with (st 2 m1 de (u16 inum)). 
    transitivity (upto0 (rds m1 (de_name de) 14)).
    + f_equal. apply rds_ext. intros x Hx. rewrite rd_st_out; [done|]. unfold de_name. lia.
    + apply (strncpy_upto0 14). unfold de_name. lia.
Qed.
(** After the write the directory can be read and searched again. *)
Lemma linked_dir s v dp nb de name k s1 s' v' :
  dir_ok s v dp → link_pre s v dp nb → mkeep s s1 →
  write_pre buf_addr s1 v dp nb de (16 * k) 16 → 0 ≤ k ≤ nents (i_d (ino dp s)) →
  wrote buf_addr s1 v dp nb de (16 * k) 16 s' v' → args_ok de name → it_inv s →
  dir_ok s' v' dp ∧ it_inv s' ∧ kept de s1 s' ∧
  i_d (ino dp s') = grown (i_d (ino dp s)) (16 * k + 16).
Proof.
  intros Hd Hl Hk1 Hwp Hk Hw Ha Hi. pose proof Hd as [_ Ht Hs Hm].
  assert (∀ j, ino j s1 = ino j s) as Ei by (intros j; unfold ino; by rewrite (mk_ino _ _ Hk1)).
  pose proof (wr_ino _ _ _ _ _ _ _ _ _ _ Hw) as Ew. rewrite Ei in Ew. set (d := i_d (ino dp s)) in *.
  assert (i_d (ino dp s') = grown d (16 * k + 16)) as Ed by (by rewrite Ew).
  pose proof (lp_in _ _ _ _ Hl) as Hin. pose proof (fo_max _ _ _ _ (wa_file _ _ _ _ (lp_able _ _ _ _ Hl))) as Hnb.
  fold d in Hin. assert (nb * BSIZE ≤ MAXFILE * BSIZE) as Hnb' by (unfold BSIZE in *; lia).
  assert (16 * nents d = d_size d) as En by (unfold nents; dlia).
  split_and!; [split| | |done].
  - apply (wrote_readable buf_addr s1 v dp nb de (16 * k) 16); [done|done|rewrite Ei; fold d; lia|].
    rewrite rw_left_ent. pose proof (lp_room _ _ _ _ Hl). change NBUF with LOGBLOCKS. lia.
  - by rewrite Ed.
  - rewrite Ed. cbn [grown d_size with_size]. lia.
  - rewrite Ed. cbn [grown d_size with_size]. destruct (Z.max_spec (d_size d) (16 * k + 16)) as [[_ ->]|[_ ->]]; [dlia|done].
  - destruct Hi as [I1 I2 I3 I4].
    assert (∀ j, i_ref (ino j s') = i_ref (ino j s) ∧ i_dev (ino j s') = i_dev (ino j s) ∧ i_inum (ino j s') = i_inum (ino j s)) as Hj.
    { intros j. destruct (decide (j = dp)) as [->|Hne]; [by rewrite Ew|].
      by rewrite (wr_ino_ne _ _ _ _ _ _ _ _ _ _ Hw j Hne), Ei. }
    split.
    + rewrite (wr_it _ _ _ _ _ _ _ _ _ _ Hw), (mk_it _ _ Hk1). done.
    + rewrite (wr_slots _ _ _ _ _ _ _ _ _ _ Hw), (mk_ino _ _ Hk1). done.
    + intros i Hlt. destruct (Hj i) as (-> & _). by apply I3.
    + intros i j. destruct (Hj i) as (-> & -> & ->), (Hj j) as (-> & -> & ->). apply I4.
  - intros a _ Hb. by apply (wr_mem _ _ _ _ _ _ _ _ _ _ Hw).
Qed.

(** The name that was linked is the one the directory finds. *)
Lemma linked_find s v dp nb de k s1 s' v' nm inum :
  dir_ok s v dp → link_pre s v dp nb → mkeep s s1 →
  wrote buf_addr s1 v dp nb de (16 * k) 16 s' v' → 0 ≤ k ≤ nents (i_d (ino dp s)) → inum ≠ 0 →
  i_d (ino dp s') = grown (i_d (ino dp s)) (16 * k + 16) →
  de_inum de s1 = inum → name_of s1 (de_name de) = nm → dir_find (v_view v) (i_d (ino dp s)) nm = None →
  dir_find (v_view v') (i_d (ino dp s')) nm = Some k ∧ ent_inum (v_view v') (i_d (ino dp s')) k = inum.
Proof.
  intros Hd Hl Hk1 Hw Hk H0 Ed Hin Hnm Hnone. pose proof Hd as [_ _ Hs Hm].
  assert (ino dp s1 = ino dp s) as Ei by (unfold ino; by rewrite (mk_ino _ _ Hk1)).
  pose proof (lp_in _ _ _ _ Hl) as Hnb. assert (16 * nents (i_d (ino dp s)) = d_size (i_d (ino dp s))) as En by (unfold nents; dlia).
  destruct (wrote_ents _ _ _ _ _ _ _ _ Hw ltac:(lia) ltac:(lia)) as (E1 & E2 & E3). rewrite Ei in E3.
  rewrite Hin in E1. rewrite Hnm in E2. split; [|done]. apply find_seqZ.
  - rewrite Ed. unfold nents. cbn [grown d_size with_size].
    destruct (Z.max_spec (d_size (i_d (ino dp s))) (16 * k + 16)) as [[? ->]|[? ->]]; dlia.
  - unfold ent_is. rewrite E1, E2, (proj2 (Z.eqb_neq inum 0)), bool_decide_true by done. done.
  - intros j Hj. destruct (E3 j) as [F1 F2]; [lia|lia|lia|]. unfold ent_is. rewrite F1, F2.
    pose proof (find_seqZ_inv (ent_is (v_view v) (i_d (ino dp s)) nm) (nents (i_d (ino dp s)))) as H.
    unfold dir_find in Hnone. rewrite Hnone in H. apply H. lia.
Qed.

(** ** Properties *)

(** C24: dirlookup finds a name where the directory's entries have it: it returns the
    offset of the first entry in use with that name and a new reference to that
    entry's inode, in the one slot of the table for it; when no entry has the name
    it returns nothing. The disk and the other inodes do not change, and of memory
    only the local dirent and the copies of buffers do. *)
Theorem dirlookup_finds s v de dp name :
  dir_ok s v dp → args_ok de name → it_inv s →
  (∀ k, dir_find (v_view v) (i_d (ino dp s)) (name_of s name) = Some k →
     slot_for s (ent_inum (v_view v) (i_d (ino dp s)) k)) →
  wp (dirlookup end_ buf_addr de dp name) (looked s v de dp (name_of s name)) s.
Proof. apply dirlookup_run. Qed.

(** C23: a name that dirlink has entered is found again: dirlink of a name the
    directory does not have writes the entry at the first hole, or at the end, and
    returns 0; dirlookup of the name then returns that offset and a reference to
    the inode with the number that was linked. *)
Theorem dirlink_dirlookup s v de dp name inum nb :
  dir_ok s v dp → link_pre s v dp nb → args_ok de name → it_inv s → 0 < inum < 2 ^ 16 → slot_for s inum →
  dir_find (v_view v) (i_d (ino dp s)) (name_of s name) = None →
  wp (do r <- dirlink end_ buf_addr de dp name inum; do q <- dirlookup end_ buf_addr de dp name; ret (r, q))
     (λ p s', ∃ i, p = (0, Some (i, 16 * dir_hole (v_view v) (i_d (ino dp s)))) ∧
        names s' i ROOTDEV inum ∧ i_ref (ino i s') = i_ref (ino i s) + 1) s.
Proof.
  intros Hd Hl Ha Hi Hinum Hslot Hnone. wp_step. wp_call (dirlink_run s v de dp name inum nb Hd Hl Ha Hi ltac:(lia) Hnone).
  intros r s2 (-> & s1 & v' & Hk1 & Hm1 & Hwp & Hin & Hnm & Hw).
  pose proof (hole_range (v_view v) (i_d (ino dp s)) (proj1 (dk_size _ _ _ Hd))) as Hk.
  set (k := dir_hole (v_view v) (i_d (ino dp s))) in *.
  destruct (linked_dir s v dp nb de name k s1 s2 v' Hd Hl Hk1 Hwp Hk Hw Ha Hi) as (Hd2 & Hi2 & Hm2 & Ed).
  destruct (linked_find s v dp nb de k s1 s2 v' _ inum Hd Hl Hk1 Hw Hk ltac:(lia) Ed Hin Hnm Hnone) as [Hf Hen].
  assert (name_of s2 name = name_of s name) as En.
  { apply (name_kept de name); [done|]. intros a ? ?. rewrite Hm2, Hm1; done. }
  assert (∀ j, i_ref (ino j s2) = i_ref (ino j s) ∧ i_dev (ino j s2) = i_dev (ino j s) ∧ i_inum (ino j s2) = i_inum (ino j s)) as Hj.
  { intros j. assert (ino j s1 = ino j s) as Ei by (unfold ino; by rewrite (mk_ino _ _ Hk1)).
    destruct (decide (j = dp)) as [->|Hne]; [by rewrite (wr_ino _ _ _ _ _ _ _ _ _ _ Hw), Ei|].
    by rewrite (wr_ino_ne _ _ _ _ _ _ _ _ _ _ Hw j Hne), Ei. }
  wp_step. wp_call (dirlookup_run s2 v' de dp name Hd2 Ha Hi2).
  { rewrite En, Hf. intros k' [= <-]. rewrite Hen. destruct Hslot as (j & Hlt & Hs). exists j. split; [done|].
    unfold names. destruct (Hj j) as (-> & -> & ->). exact Hs. }
  rewrite En. intros q s3 [_ Hq]. rewrite Hf in Hq. destruct Hq as (i & -> & Hg). wp_step. exists i.
  rewrite Hen in Hg. split_and!; [done|apply Hg|]. rewrite (gt_ref _ _ _ _ _ Hg). by destruct (Hj i) as (-> & _).
Qed.
End dirs.

(** ** A directory on which the theorems can be tried

    The root directory has the entry "." for inode 1 and an unused one; the name
    "a" is at address 8192. *)
Definition demo_dmap : gmap Z block := {[ 50 := [1; 0; 46] ++ replicate 1021 0 ]}.
Definition demo_dtxv : txv := Txv (demo_disk demo_dmap) (demo_disk demo_dmap) [] ∅.
Definition demo_dind : dinode := Dinode T_DIR 0 0 1 32 [50; 51; 0; 0; 0; 0; 0; 0; 0; 0; 0; 0; 0].
Definition demo_dir (c : Z) (l : lst ram_disk) : fst ram_disk :=
  Fst l (Kmem (Spin 0 "kmem" None) 0 (wr ∅ 8192 c)) demo_sb (Spin 0 "itable" None)
    (Inode ROOTDEV 1 1 (Slk 0 (Spin 0 "" None) "" 0) 1 demo_dind :: replicate 49 inode0).

Lemma demo_dblock x : Z.of_nat (length (demo_disk demo_dmap x)) = BSIZE ∧ byte_list (demo_disk demo_dmap x).
Proof.
  unfold demo_disk, demo_dmap. destruct (decide (x = 50)) as [->|Hx].
  - rewrite lookup_singleton_eq. cbn [default]. split; [done|].
    apply Forall_app. split; [repeat constructor; lia|apply Forall_replicate; lia].
  - rewrite lookup_singleton_ne by done. split; [done|]. apply Forall_replicate. lia.
Qed.

Lemma demo_dfile nb : nb ≤ 2 → file_ok 2 (demo_disk demo_dmap) demo_dind nb.
Proof.
  intros Hnb. assert (∀ f bn, 0 ≤ bn < nb → fblk f demo_dind bn = 50 + bn) as Hf.
  { intros f bn H. assert (bn = 0 ∨ bn = 1) as [->| ->] by lia; done. }
  split; [change MAXFILE with 268; lia|..]; change NDIRECT with 12; try lia.
  - intros bn Hbn. rewrite Hf by done. split; [lia|apply home_2; lia].
  - intros bn bm Hbn Hbm. rewrite !Hf by done. lia.
Qed.

Lemma demo_dir_ok c l : srep l demo_dtxv → log_start l = 2 → dir_ok (demo_dir c l) demo_dtxv 0.
Proof.
  intros Hl Hs. split; [split|done|done|done]; try done.
  - cbn [f_l demo_dir]. rewrite Hs. apply demo_dfile. done.
  - intros x. apply (demo_dblock x).
  - vm_compute. lia.
Qed.

Lemma demo_args : args_ok demo_bufs 4096 8192.
Proof. split; try lia; intros a Ha; apply demo_nobuf; lia. Qed.

Lemma demo_dir_it c l : it_inv (demo_dir c l).
Proof.
  split; [by split|done| |]; intros i; unfold ino; cbn [inodes demo_dir].
  - intros _. rewrite demo_slot. by case_decide.
  - intros j _ _. rewrite !demo_slot. repeat case_decide; cbn; try lia; congruence.
Qed.

Lemma demo_link_pre c l : srep l demo_dtxv → log_start l = 2 → link_pre (demo_dir c l) demo_dtxv 0 1.
Proof.
  intros Hl Hs. split.
  - split; try done.
    + cbn [f_l demo_dir]. rewrite Hs. apply demo_dfile. lia.
    + intros x. apply (demo_dblock x).
    + intros x. apply (demo_dblock x).
  - cbn. lia.
  - split; cbn; try (unfold T_DIR; lia). repeat constructor; lia.
  - cbn. unfold BSIZE. lia.
  - cbn [f_l demo_dir]. rewrite Hs. change (home 2 33). apply home_2. lia.
  - split; [|done]. intros bm Hbm. assert (bm = 0) as -> by lia. done.
  - cbn. unfold LOGBLOCKS, MAXOPBLOCKS. cbn. lia.
Qed.

(** "." is found, in the slot of the directory itself. *)
Lemma dirlookup_finds_witness : ∃ l, srep l demo_dtxv ∧
  wp (dirlookup 0 demo_bufs 4096 0 8192) (λ r s', ∃ i, r = Some (i, 0) ∧ names s' i ROOTDEV 1) (demo_dir 46 l).
Proof.
  destruct (demo_intx demo_dmap) as (l & Hl & Hs). exists l. split; [exact Hl|].
  assert (dir_find (demo_disk demo_dmap) demo_dind (name_of (demo_dir 46 l) 8192) = Some 0) as E by (vm_compute; reflexivity).
  assert (ent_inum (demo_disk demo_dmap) demo_dind 0 = 1) as E1 by (vm_compute; reflexivity).
  eapply wp_mono; [apply (dirlookup_finds 0 demo_bufs (demo_dir 46 l) demo_dtxv 4096 0 8192)|].
  - exact (demo_dir_ok 46 l Hl Hs).
  - exact demo_args.
  - exact (demo_dir_it 46 l).
  - cbn [v_view demo_dtxv]. change (i_d (ino 0 (demo_dir 46 l))) with demo_dind. rewrite E. intros k [= <-]. rewrite E1.
    exists 1%nat. split; [vm_compute; lia|by left].
  - intros r s' [_ H]. cbn [v_view demo_dtxv] in H. change (i_d (ino 0 (demo_dir 46 l))) with demo_dind in H.
    rewrite E, E1 in H. destruct H as (i & -> & Hg). exists i. split; [done|apply Hg].
Defined.

Lemma dirlink_dirlookup_witness : ∃ l, srep l demo_dtxv ∧
  wp (do r <- dirlink 0 demo_bufs 4096 0 8192 7; do q <- dirlookup 0 demo_bufs 4096 0 8192; ret (r, q))
     (λ p s', ∃ i, p = (0, Some (i, 16)) ∧ names s' i ROOTDEV 7) (demo_dir 97 l).
Proof.
  destruct (demo_intx demo_dmap) as (l & Hl & Hs). exists l. split; [exact Hl|].
  assert (dir_find (demo_disk demo_dmap) demo_dind (name_of (demo_dir 97 l) 8192) = None) as E by (vm_compute; reflexivity).
  assert (dir_hole (demo_disk demo_dmap) demo_dind = 1) as E1 by (vm_compute; reflexivity).
  eapply wp_mono; [apply (dirlink_dirlookup 0 demo_bufs (demo_dir 97 l) demo_dtxv 4096 0 8192 7 1)|].
  - exact (demo_dir_ok 97 l Hl Hs).
  - exact (demo_link_pre 97 l Hl Hs).
  - exact demo_args.
  - exact (demo_dir_it 97 l).
  - lia.
  - exists 1%nat. split; [vm_compute; lia|by left].
  - exact E.
  - intros p s' (i & Hp & Hn & _). cbn [v_view demo_dtxv] in Hp. change (i_d (ino 0 (demo_dir 97 l))) with demo_dind in Hp.
    rewrite E1 in Hp. exists i. split; assumption.
Defined.
