(* ===== verification/Namei.v ===== *)
(** * Path resolution

    namex of kernel/fs.c against the directory tree on the disk: which inode a
    path names, the references the walk takes and gives back, and that it ends. *)
From S2P Require Import Prelude Memory KString Riscv Spinlock Kalloc Vm Sched Sleeplock Disk Bio BioSpec BioInv BioOps Log LogSpec LogOps LogTx FsRep Fs FsBlocks FsData FsInode BioProps LogProps FsProps Itable Dir DirProps DirLookup.

(** ** Counting references *)
Definition weight (n : Z) (x : inode) : Z := if decide (i_inum x = n) then i_ref x else 0.
(** The references to inode [n]. *)
Fixpoint cnt (n : Z) (l : list inode) : Z := match l with [] => 0 | x :: l => weight n x + cnt n l end.
(** The inodes that are referenced. *)
Definition used (l : list inode) : list Z := i_inum <$> filter (λ x, 0 < i_ref x) l.

Lemma cnt_insert n l : ∀ i x y, l !! i = Some x → cnt n (<[i := y]> l) = cnt n l - weight n x + weight n y.
Proof.
  induction l as [|z l IH]; intros [|i] x y H; try done.
  - cbn in H. injection H as ->. cbn [cnt insert list_insert]. lia.
  - change (<[S i := y]> (z :: l)) with (z :: <[i := y]> l). cbn [cnt]. rewrite (IH i x y H). lia.
Qed.

Lemma used_cnt l n : Forall (λ x, 0 ≤ i_ref x) l → (n ∈ used l) ↔ 0 < cnt n l.
Proof.
  induction 1 as [|x l Hx Hl IH]; [by cbn; rewrite elem_of_nil|]. unfold used in *. rewrite filter_cons. cbn [cnt].
  assert (0 ≤ cnt n l) as Hc.
  { clear IH. induction Hl as [|y l Hy _ IH]; cbn [cnt]; [lia|]. unfold weight. case_decide; lia. }
  unfold weight. case_decide; cbn; rewrite ?elem_of_cons, IH; case_decide; subst; intuition lia.
Qed.

Lemma used_free l : (length (used l) < length l)%nat → Forall (λ x, 0 ≤ i_ref x) l → ∃ j x, l !! j = Some x ∧ i_ref x = 0.
Proof.
  intros Hlen Hl. induction Hl as [|x l Hx Hl IH]; [cbn in Hlen; lia|]. unfold used in *. rewrite filter_cons in Hlen.
  case_decide as E.
  - destruct IH as (j & y & Hj & Hy); [cbn in Hlen; lia|]. by exists (S j), y.
  - exists 0%nat, x. split; [done|lia].
Qed.

Lemma used_nodup l :
  (∀ i j x y, l !! i = Some x → l !! j = Some y → 0 < i_ref x → 0 < i_ref y → i_inum x = i_inum y → i = j) → NoDup (used l).
Proof.
  intros H. induction l as [|x l IH]; [constructor|]. unfold used in *. rewrite filter_cons.
  assert (NoDup (i_inum <$> filter (λ x, 0 < i_ref x) l)) as Hn.
  { apply IH. intros i j y z Hi Hj Hy Hz E. specialize (H (S i) (S j) y z Hi Hj Hy Hz E). lia. }
  case_decide as E; [|done]. cbn. constructor; [|done].
  intros (y & Ey & [Hy (j & Hj)%list_elem_of_lookup]%list_elem_of_filter)%list_elem_of_fmap.
  by specialize (H 0%nat (S j) x y eq_refl Hj E Hy Ey).
Qed.

Section table.
Context {D : Type} `{!BlockDev D}.
Implicit Types (s : fst D) (v : txv).
Abbreviation fmem s := (km_mem (f_km s)).

(** The inode [inum] as it is on the disk. *)
Definition disk_inode v (sb : superblock) (inum : Z) : dinode :=
  get_dinode (inum `mod` IPB) (v_view v (IBLOCK inum sb)).

(** ** The inode table between operations *)

(** Everything but the inode table and memory is kept. *)
Record xkeep s s' : Prop := {
  xk_l : skeep (f_l s) (f_l s');
  xk_sb : f_sb s' = f_sb s;
  xk_it : it_lock s' = it_lock s
}.
#[export] Instance xkeep_preorder : PreOrder xkeep.
Proof.
  split.
  - intros s. by split.
  - intros s1 s2 s3 [A1 A2 A3] [B1 B2 B3]. split; [by etransitivity|congruence..].
Qed.
Lemma mkeep_xkeep s s' : mkeep s s' → xkeep s s'.
Proof. by intros [? ? ? ?]. Qed.

Lemma xkeep_start s s' v : frep s v → xkeep s s' → log_start (f_l s') = log_start (f_l s).
Proof. intros Hs [Hk _ _]. destruct (Hk (srep_pst _ _ Hs)) as [K _]. apply K. Qed.
Lemma xkeep_pid s s' v : frep s v → xkeep s s' → cur_pid (f_p s') = cur_pid (f_p s).
Proof.
  intros Hs [Hk _ _]. destruct (frep_ok _ _ Hs) as [Hok Hr]. destruct (Hk Hok) as [K _].
  apply cur_pid_same; [done|done|apply K].
Qed.

(** Slots in use are of the root device, and what they hold is on the disk. *)
Record tab s v : Prop := {
  tb_rep : frep s v;
  tb_inv : it_inv s;
  tb_dev i : (i < Z.to_nat NINODE)%nat → 0 < i_ref (ino i s) → i_dev (ino i s) = ROOTDEV;
  tb_val i : (i < Z.to_nat NINODE)%nat → 0 < i_ref (ino i s) → i_valid (ino i s) ≠ 0 →
    i_d (ino i s) = disk_inode v (f_sb s) (i_inum (ino i s))
}.

(** The sleep locks: all free, but for that of [o], which the caller holds. *)
Definition lk_ok (o : option nat) (p : pst) (j : nat) (n : inode) : Prop :=
  lock_free (sl_lock (i_lock n)) ∧
  if decide (o = Some j) then sl_locked (i_lock n) = 1 ∧ sl_pid (i_lock n) = cur_pid p
  else sl_locked (i_lock n) = 0.
Definition lks (o : option nat) s : Prop := ∀ j, (j < Z.to_nat NINODE)%nat → lk_ok o (f_p s) j (ino j s).

Lemma ino_insert s s' i n j :
  inodes s' = <[i := n]> (inodes s) → (i < length (inodes s))%nat → ino j s' = if decide (j = i) then n else ino j s.
Proof.
  intros E Hi. unfold ino. rewrite E. destruct (decide (j = i)) as [->|Hne].
  - by apply list_lookup_total_insert_eq.
  - by apply list_lookup_total_insert_ne.
Qed.

(** Slot [i] changed, for the same inode. *)
Lemma tab_upd s s' v i n :
  tab s v → frep s' v → xkeep s s' → inodes s' = <[i := n]> (inodes s) → (i < Z.to_nat NINODE)%nat →
  i_dev n = i_dev (ino i s) → i_inum n = i_inum (ino i s) → 0 ≤ i_ref n → (0 < i_ref n → 0 < i_ref (ino i s)) →
  (0 < i_ref n → i_valid n ≠ 0 → i_d n = disk_inode v (f_sb s) (i_inum n)) → tab s' v.
Proof.
  intros [T1 [I1 I2 I3 I4] T3 T4] Hs' Hk E Hi Ed En Hr Hrp Hval. rewrite <- I2 in Hi.
  assert (∀ j, ino j s' = if decide (j = i) then n else ino j s) as Ho by (intros j; by apply ino_insert).
  assert (∀ j, (j < Z.to_nat NINODE)%nat → 0 < i_ref (ino j s') → 0 < i_ref (ino j s) ∧ i_dev (ino j s') = i_dev (ino j s) ∧
    i_inum (ino j s') = i_inum (ino j s)) as Hs.
  { intros j Hj. rewrite Ho. case_decide; subst; [|done]. auto. }
  split; [done|split| |].
  - by rewrite (xk_it _ _ Hk).
  - by rewrite E, length_insert.
  - intros j Hj. rewrite Ho. case_decide; [done|]. by apply I3.
  - intros j k Hj Hk' Rj Rk. destruct (Hs j Hj Rj) as (? & -> & ->), (Hs k Hk' Rk) as (? & -> & ->). by apply I4.
  - intros j Hj Rj. destruct (Hs j Hj Rj) as (? & -> & _). by apply T3.
  - intros j Hj. rewrite Ho, (xk_sb _ _ Hk). case_decide; subst; [done|]. by apply T4.
Qed.

(** The locks after a change of slot [i]. *)
Lemma lks_upd s s' v i n o o' :
  lks o s → frep s v → xkeep s s' → inodes s' = <[i := n]> (inodes s) → (i < length (inodes s))%nat →
  lk_ok o' (f_p s) i n → (∀ j, j ≠ i → o = Some j ↔ o' = Some j) → lks o' s'.
Proof.
  intros Hl Hs Hk E Hi Hn Ho j Hj. rewrite (ino_insert s s' i n) by done. unfold lk_ok in *.
  rewrite (xkeep_pid s s' v) by done. destruct (decide (j = i)) as [->|Hne]; [done|].
  destruct (Hl j Hj) as [H1 H2]. split; [done|]. specialize (Ho j Hne).
  destruct (decide (o = Some j)), (decide (o' = Some j)); tauto.
Qed.

(** ** ilock, iunlock and iput *)
Lemma ilock_tab s v i inum :
  tab s v → lks None s → names s i ROOTDEV inum → let d := disk_inode v (f_sb s) inum in
  d_type d ≠ 0 → home (log_start (f_l s)) (IBLOCK inum (f_sb s)) → v_held v = ∅ → (length (v_log v) < Z.to_nat NBUF)%nat →
  wp (ilock (Some i)) (λ _ s', tab s' v ∧ lks (Some i) s' ∧ xkeep s s' ∧ f_km s' = f_km s ∧
    inodes s' = <[i := locked_inode s (ino i s) d]> (inodes s)) s.
Proof.
  intros Ht Hl (Hi & Hr & Hd & Hn) d Hty Hh Hheld Hroom. pose proof Ht as [T1 [I1 I2 I3 I4] T3 T4].
  destruct (Hl i Hi) as [L1 L2]. rewrite decide_False in L2 by done.
  assert ((if i_valid (ino i s) =? 0 then get_dinode (i_inum (ino i s) `mod` IPB) (v_view v (IBLOCK (i_inum (ino i s)) (f_sb s)))
    else i_d (ino i s)) = d) as Ed.
  { destruct (Z.eqb_spec (i_valid (ino i s)) 0); [by rewrite Hn|]. rewrite T4 by done. by rewrite Hn. }
  pose proof (ilock_loads s v i T1) as H. cbv zeta in H. rewrite Ed, Hn in H.
  rewrite (proj2 (Z.eqb_neq (d_type d) 0)), andb_false_r in H by done.
  assert (¬ held_blk (v_held v) (IBLOCK inum (f_sb s))) as Hnh by (rewrite Hheld; by intros [j Hj]).
  wp_call H; [lia|lia|done|done|done|done|done|rewrite Hheld, map_size_empty; lia|].
  intros [] s' (Hs' & E & Eb & Ek & Et & Hk). assert (xkeep s s') as Hx by done.
  assert ((i < length (inodes s))%nat) as Hil by lia.
  split_and!; try done.
  - apply (tab_upd s s' v i (locked_inode s (ino i s) d)); try done; cbn; [lia|]. by rewrite Hn.
  - eapply (lks_upd s s' v i _ None); [done|done|done|exact E|done| |].
    + split; [done|]. by rewrite decide_True.
    + intros j Hj. split; [done|]. congruence.
Qed.
Definition unlocked (n : inode) : inode :=
  Inode (i_dev n) (i_inum n) (i_ref n) (Slk 0 (sl_lock (i_lock n)) (sl_name (i_lock n)) 0) (i_valid n) (i_d n).

Lemma with_fp_same s v p : frep s v → pst_same (f_p s) p → frep (with_fp p s) v ∧ xkeep s (with_fp p s).
Proof. intros Hs Hp. destruct (frep_pst s v p Hs Hp) as [H1 H2]. split; [done|]. by apply mkeep_xkeep, fkeep_mkeep. Qed.

Lemma over_ilock s i p lk :
  (i < length (inodes s))%nat →
  inodes (over (on_ilock i) (p, lk) s) =
    <[i := Inode (i_dev (ino i s)) (i_inum (ino i s)) (i_ref (ino i s)) lk (i_valid (ino i s)) (i_d (ino i s))]> (inodes s).
Proof. intros Hi. cbn. by rewrite alter_insert. Qed.

Lemma iunlock_tab s v i :
  tab s v → lks (Some i) s → (i < Z.to_nat NINODE)%nat → 1 ≤ i_ref (ino i s) →
  wp (iunlock (Some i)) (λ _ s', tab s' v ∧ lks None s' ∧ xkeep s s' ∧ f_km s' = f_km s ∧
    inodes s' = <[i := unlocked (ino i s)]> (inodes s)) s.
Proof.
  intros Ht Hl Hi Hr. pose proof Ht as [T1 [I1 I2 I3 I4] T3 T4]. assert ((i < length (inodes s))%nat) as Hil by lia.
  destruct (Hl i Hi) as [L1 L2]. rewrite decide_True in L2 by done. destruct L2 as [L2 L3].
  destruct (frep_ok _ _ T1) as [Hok Hrun]. unfold iunlock. wp_step.
  set (s1 := over (on_ilock i) (synced (f_p s), i_lock (ino i s)) s).
  assert (inodes s1 = inodes s) as E1.
  { unfold s1. rewrite over_ilock by done. apply list_insert_id. destruct (lookup_lt_is_Some_2 _ _ Hil) as [x Hx].
    unfold ino. rewrite (list_lookup_total_correct _ _ _ Hx), Hx. by destruct x. }
  assert (ino i s1 = ino i s) as Ei by (unfold ino; by rewrite E1).
  destruct (with_fp_same s v (synced (f_p s)) T1 (synced_same _)) as [Hs1 Hk1].
  eapply wp_of_Ok; [apply zoom_Ok; cbn; by apply holdingsleep_run|]. fold s1. rewrite L2, L3, Z.eqb_refl.
  change (negb (1 =? 0) && true) with true. wp_step. wp_step. rewrite Ei, (proj2 (Z.ltb_ge _ 1)) by done. cbn [negb orb].
  wp_step. change (view (on_ilock i) s1) with (synced (f_p s), i_lock (ino i s1)). rewrite Ei.
  wp_call releasesleep_run; [by apply synced_ok|done|]. intros [] [p lk] [Hp Hlk]. cbn [Datatypes.fst snd] in Hp, Hlk. subst lk.
  set (s2 := over (on_ilock i) (p, _) s1).
  assert (inodes s2 = <[i := unlocked (ino i s)]> (inodes s)) as E2.
  { unfold s2. rewrite over_ilock, Ei, E1 by (by rewrite E1). done. }
  destruct (with_fp_same (with_fp (synced (f_p s)) s) v p Hs1 Hp) as [Hs2 Hk2].
  assert (xkeep s s2) as Hk.
  { transitivity (with_fp (synced (f_p s)) s); [exact Hk1|]. destruct Hk2. by split. }
  assert (frep s2 v) as Hf2 by exact Hs2.
  split_and!; try done.
  - apply (tab_upd s s2 v i (unlocked (ino i s))); try done; cbn; [lia|]. intros R V. by apply T4.
  - eapply (lks_upd s s2 v i _ (Some i)); [done|done|done|exact E2|done| |].
    + split; [done|]. by rewrite decide_False.
    + intros j Hj. split; [congruence|done].
Qed.

(** iput of a reference that is not the last one to a deleted file. *)
Lemma iput_tab s v i :
  tab s v → lks None s → (i < Z.to_nat NINODE)%nat → 1 ≤ i_ref (ino i s) →
  (i_valid (ino i s) ≠ 0 → d_nlink (i_d (ino i s)) ≠ 0) →
  wp (iput i) (λ _ s', tab s' v ∧ lks None s' ∧ xkeep s s' ∧ f_km s' = f_km s ∧
    inodes s' = <[i := with_ref (i_ref (ino i s) - 1) (ino i s)]> (inodes s)) s.
Proof.
  intros Ht Hl Hi Hr Hnl. pose proof Ht as [T1 [I1 I2 I3 I4] T3 T4]. assert ((i < length (inodes s))%nat) as Hil by lia.
  destruct (frep_ok _ _ T1) as [Hok Hrun]. unfold iput.
  apply iget_enter; [apply Hok|done|]. set (s1 := over on_it _ s). wp_step. wp_step.
  change (ino i s1) with (ino i s).
  assert ((i_ref (ino i s) =? 1) && negb (i_valid (ino i s) =? 0) && (d_nlink (i_d (ino i s)) =? 0) = false) as ->.
  { destruct (Z.eqb_spec (i_valid (ino i s)) 0); [by rewrite andb_false_r|].
    by rewrite (proj2 (Z.eqb_neq (d_nlink _) 0)), andb_false_r by auto. }
  cbn [when]. wp_step. wp_step. unfold set_ino. wp_step. wp_step.
  eapply wp_of_Ok; [apply (zoom_release on_it _ (p_hart (f_p s)) (it_lock s)); [done|apply Hok|done]|].
  set (s' := over on_it _ _). destruct (with_fp_same s v (synced (f_p s)) T1 (synced_same _)) as [Hs' Hk'].
  assert (inodes s' = <[i := with_ref (i_ref (ino i s) - 1) (ino i s)]> (inodes s)) as E.
  { cbn. by rewrite alter_insert. }
  assert (frep s' v) as Hf by exact Hs'. assert (xkeep s s') as Hk by (destruct Hk'; by split).
  split_and!; try done.
  - apply (tab_upd s s' v i (with_ref (i_ref (ino i s) - 1) (ino i s))); try done; cbn; [lia|lia|].
    intros R V. apply T4; [done|lia|done].
  - eapply (lks_upd s s' v i _ None); [done|done|done|exact E|done| |done]. exact (Hl i Hi).
Qed.

(** ** References the walk holds *)

Lemma it_refs s : it_inv s → Forall (λ x, 0 ≤ i_ref x) (inodes s).
Proof.
  intros [_ H2 H3 _]. apply Forall_lookup. intros i x Hx. pose proof (lookup_lt_Some _ _ _ Hx) as Hlt. rewrite H2 in Hlt.
  specialize (H3 i Hlt). unfold ino in H3. by rewrite (list_lookup_total_correct _ _ _ Hx) in H3.
Qed.

Lemma tab_nodup s v : tab s v → NoDup (used (inodes s)).
Proof.
  intros [_ [_ H2 _ H4] T3 _]. apply used_nodup. intros i j x y Hx Hy Rx Ry E.
  pose proof (lookup_lt_Some _ _ _ Hx) as Hi. pose proof (lookup_lt_Some _ _ _ Hy) as Hj. rewrite H2 in Hi, Hj.
  specialize (H4 i j Hi Hj). pose proof (T3 i Hi) as Di. pose proof (T3 j Hj) as Dj. unfold ino in *.
  rewrite (list_lookup_total_correct _ _ _ Hx), (list_lookup_total_correct _ _ _ Hy) in *.
  apply H4; [done|done| |done]. rewrite Di, Dj; done.
Qed.

(** With one more reference than in a table with two free slots, one is free. *)
Lemma walk_slot s0 s v n m :
  tab s0 v → tab s v → (length (used (inodes s0)) + 2 ≤ Z.to_nat NINODE)%nat →
  (∀ k, cnt k (inodes s) = cnt k (inodes s0) + (if decide (k = n) then 1 else 0)) → slot_for s m.
Proof.
  intros T0 T Hroom Hc. pose proof (it_refs _ (tb_inv _ _ T0)) as R0. pose proof (it_refs _ (tb_inv _ _ T)) as R.
  assert (length (used (inodes s)) ≤ length (n :: used (inodes s0)))%nat as Hle.
  { apply NoDup_incl_length; [by apply NoDup_ListNoDup, (tab_nodup s v)|]. intros k Hk. apply list_elem_of_In in Hk.
    apply list_elem_of_In, elem_of_cons. rewrite used_cnt in * by done. rewrite Hc in Hk. case_decide; [by left|right; lia]. }
  cbn in Hle. pose proof (iv_len _ (tb_inv _ _ T)) as Hlen.
  destruct (used_free (inodes s)) as (j & x & Hj & Hx); [lia|done|]. pose proof (lookup_lt_Some _ _ _ Hj) as Hlt.
  exists j. split; [lia|left]. unfold ino. by rewrite (list_lookup_total_correct _ _ _ Hj).
Qed.

(** A slot changed, for the same inode. *)
Lemma cnt_slot s s' i n k :
  inodes s' = <[i := n]> (inodes s) → (i < length (inodes s))%nat → i_inum n = i_inum (ino i s) →
  cnt k (inodes s') = cnt k (inodes s) + (if decide (k = i_inum n) then i_ref n - i_ref (ino i s) else 0).
Proof.
  intros E Hi Hn. destruct (lookup_lt_is_Some_2 _ _ Hi) as [x Hx]. rewrite E, (cnt_insert k _ i x n Hx).
  unfold ino in *. rewrite (list_lookup_total_correct _ _ _ Hx) in *. unfold weight. rewrite Hn. repeat case_decide; subst; done || lia.
Qed.

Lemma got_tab s v o i inum s' :
  tab s v → lks o s → got s v i inum s' →
  tab s' v ∧ lks o s' ∧ xkeep s s' ∧ ∀ k, cnt k (inodes s') = cnt k (inodes s) + (if decide (k = inum) then 1 else 0).
Proof.
  intros T Hl [G1 G2 G3 G4 G5 G6 G7 G8 G9 G10]. pose proof T as [T1 [I1 I2 I3 I4] T3 T4].
  assert (i < Z.to_nat NINODE)%nat as Hi by apply G3. assert (i < length (inodes s))%nat as Hil by lia.
  assert (xkeep s s') as Hk by done. pose proof (I3 i Hi) as Hr0.
  assert (∀ j, ino j s' = if decide (j = i) then named ROOTDEV inum (ino i s) else ino j s) as Ho by (intros j; by apply ino_insert).
  split_and!; [split; try done|..|done|].
  - intros j Hj. rewrite Ho. case_decide; [done|]. by apply T3.
  - intros j Hj. rewrite Ho, G9. case_decide as Ej; [subst j|by apply T4]. cbn. intros _ Hv.
    destruct (decide (i_ref (ino i s) = 0)); [done|]. rewrite T4 by (done || lia). by rewrite G6.
  - eapply (lks_upd s s' v i _ o); [done|done|done|exact G7|done| |done]. exact (Hl i Hi).
  - intros k. destruct (lookup_lt_is_Some_2 _ _ Hil) as [x Hx]. rewrite G7, (cnt_insert k _ i x _ Hx).
    unfold ino in *. rewrite (list_lookup_total_correct _ _ _ Hx) in *. unfold weight. cbn [named i_inum i_ref].
    destruct (decide (i_ref x = 0)) as [E0|E0]; [repeat case_decide; subst; done || lia|].
    rewrite (G6 E0). repeat case_decide; subst; done || lia.
Qed.
Lemma iunlockput_tab s v i :
  tab s v → lks (Some i) s → (i < Z.to_nat NINODE)%nat → 1 ≤ i_ref (ino i s) →
  d_nlink (i_d (ino i s)) ≠ 0 →
  wp (iunlockput i) (λ _ s', tab s' v ∧ lks None s' ∧ xkeep s s' ∧ f_km s' = f_km s ∧
    (∀ j, j ≠ i → ino j s' = ino j s) ∧ i_ref (ino i s') = i_ref (ino i s) - 1 ∧
    i_dev (ino i s') = i_dev (ino i s) ∧ i_inum (ino i s') = i_inum (ino i s) ∧
    ∀ k, cnt k (inodes s') = cnt k (inodes s) - (if decide (k = i_inum (ino i s)) then 1 else 0)) s.
Proof.
  intros T Hl Hi Hr Hn. pose proof (iv_len _ (tb_inv _ _ T)) as Hlen. assert ((i < length (inodes s))%nat) as Hil by lia.
  unfold iunlockput. wp_step. wp_call (iunlock_tab s v i); [done..|].
  intros [] s1 (T1 & L1 & K1 & M1 & E1).
  assert (∀ j, ino j s1 = if decide (j = i) then unlocked (ino i s) else ino j s) as O1 by (intros j; by apply ino_insert).
  pose proof (O1 i) as Oi. rewrite decide_True in Oi by done.
  wp_call (iput_tab s1 v i); [done|done|done|by rewrite Oi|by rewrite Oi|].
  intros [] s2 (T2 & L2 & K2 & M2 & E2). rewrite Oi in E2. pose proof (iv_len _ (tb_inv _ _ T1)) as Hlen1.
  assert ((i < length (inodes s1))%nat) as Hil1 by lia.
  assert (∀ j, ino j s2 = if decide (j = i) then with_ref (i_ref (ino i s) - 1) (unlocked (ino i s)) else ino j s1) as O2
    by (intros j; by apply ino_insert).
  split_and!; [done|done|by transitivity s1|by rewrite M2|..].
  - intros j Hj. by rewrite O2, O1, !decide_False by done.
  - by rewrite O2, decide_True.
  - by rewrite O2, decide_True.
  - by rewrite O2, decide_True.
  - intros k. rewrite (cnt_slot s1 s2 i _ k E2 Hil1), (cnt_slot s s1 i _ k E1 Hil) by (by rewrite ?Oi).
    rewrite Oi. cbn [unlocked with_ref i_inum i_ref]. repeat case_decide; lia.
Qed.
End table.

(** ** The directory tree *)
Section walk.
Context {D : Type} `{!BlockDev D}.
Context (end_ : Z) (buf_addr : nat → Z).
Implicit Types (s : fst D) (v : txv).
Abbreviation fmem s := (km_mem (f_km s)).
Abbreviation in_bufs := (in_bufs buf_addr).

(** An inode a path may lead through. *)
Record node v (sb : superblock) (L inum : Z) : Prop := {
  nd_home : home L (IBLOCK inum sb);
  nd_type : d_type (disk_inode v sb inum) ≠ 0;
  nd_link : d_nlink (disk_inode v sb inum) ≠ 0;
  nd_file : d_type (disk_inode v sb inum) = T_DIR →
    file_ok L (v_view v) (disk_inode v sb inum) (nblocks (disk_inode v sb inum));
  nd_size : d_type (disk_inode v sb inum) = T_DIR →
    0 ≤ d_size (disk_inode v sb inum) ≤ MAXFILE * BSIZE ∧ d_size (disk_inode v sb inum) `mod` 16 = 0
}.
(** [P] holds inodes of a well-formed file system, with the entries of its directories. *)
Record tree v (sb : superblock) (L : Z) (P : Z → Prop) : Prop := {
  tr_node n : P n → node v sb L n;
  tr_ent n k : P n → d_type (disk_inode v sb n) = T_DIR → 0 ≤ k < nents (disk_inode v sb n) →
    ent_inum (v_view v) (disk_inode v sb n) k ≠ 0 → P (ent_inum (v_view v) (disk_inode v sb n) k)
}.

(** The inode a list of path elements leads to from [n]; with [parent], the
    directory the last element is looked up in. *)
Fixpoint resolve v (sb : superblock) (parent : bool) (n : Z) (es : list (list Z)) : option Z :=
  match es with
  | [] => if parent then None else Some n
  | e :: es =>
      let d := disk_inode v sb n in
      if negb (d_type d =? T_DIR) then None
      else if parent && bool_decide (es = []) then Some n
      else match dir_find (v_view v) d (take (Z.to_nat DIRSIZ) e) with
           | None => None
           | Some k => resolve v sb parent (ent_inum (v_view v) d k) es
           end
  end.

(** The disk and the transaction as the walk needs them. *)
Record disk_ok v : Prop := {
  do_len x : Z.of_nat (length (v_view v x)) = BSIZE;
  do_held : v_held v = ∅;
  do_room : (length (v_log v) < Z.to_nat NBUF)%nat
}.

(** The path, the name buffer and the dirent are apart. *)
Record path_args (de name path : Z) (l : list Z) : Prop := {
  pa_args : args_ok buf_addr de name;
  pa_pos : 0 < path;
  pa_de : de + 16 ≤ path ∨ path + Z.of_nat (length l) < de;
  pa_name : name + DIRSIZ ≤ path ∨ path + Z.of_nat (length l) < name;
  pa_bufs a : path ≤ a ≤ path + Z.of_nat (length l) → ¬ in_bufs a
}.

Lemma holds_name_of s name e : char_list e → holds_name (fmem s) name e → name_of s name = take (Z.to_nat DIRSIZ) e.
Proof.
  intros Hc [H1 H2]. unfold name_of. change (Z.to_nat DIRSIZ) with 14%nat in *. unfold DIRSIZ in *.
  assert (∀ l r, char_list l → upto0 (l ++ r) = l ++ upto0 r) as Hu.
  { intros l r Hl. induction Hl as [|b l Hb _ IH]; [done|]. cbn. rewrite (proj2 (Z.eqb_neq b 0)) by lia. by rewrite IH. }
  destruct (decide (14 ≤ length e)%nat) as [Hle|Hgt].
  - rewrite Nat.min_r in H1 by done. rewrite H1. rewrite <- (app_nil_r (take 14 e)) at 1.
    rewrite Hu by (by apply Forall_take). by rewrite app_nil_r.
  - destruct H2 as [_ H2]; [lia|]. replace 14%nat with (S (length e) + (13 - length e))%nat at 1 by lia.
    rewrite rds_app, H2, <- app_assoc, Hu by done. rewrite take_ge by lia. cbn. by rewrite app_nil_r.
Qed.
(** ** One element of the path *)

(** The references of [s0] and one to [inum], in slot [ip]; locked by the caller
    when [o] says so. *)
Record on_way s0 s v (o : option nat) (ip : nat) (inum : Z) : Prop := {
  ow_tab : tab s v;
  ow_lks : lks o s;
  ow_keep : xkeep s0 s;
  ow_names : names s ip ROOTDEV inum;
  ow_cnt k : cnt k (inodes s) = cnt k (inodes s0) + (if decide (k = inum) then 1 else 0)
}.
(** The references of [s0], and no lock held. *)
Record back s0 s v : Prop := {
  bk_tab : tab s v;
  bk_lks : lks None s;
  bk_keep : xkeep s0 s;
  bk_cnt k : cnt k (inodes s) = cnt k (inodes s0)
}.

Lemma on_way_keep s0 s s' v o ip inum : on_way s0 s v o ip inum → frep s' v → mkeep s s' → on_way s0 s' v o ip inum.
Proof.
  intros [T L K N C] Hf Hm. pose proof (xkeep_pid s s' v (tb_rep _ _ T) (mkeep_xkeep _ _ Hm)) as Ep.
  assert (∀ j, ino j s' = ino j s) as Ei by (intros j; unfold ino; by rewrite (mk_ino _ _ Hm)). split.
  - destruct T as [T1 T2 T3 T4]. split; [done|by apply (mkeep_it s)| |]; intros i; rewrite Ei; [by apply T3|].
    rewrite (mk_sb _ _ Hm). by apply T4.
  - intros j Hj. rewrite Ei. unfold lk_ok. rewrite Ep. by apply L.
  - transitivity s; [done|by apply mkeep_xkeep].
  - unfold names in *. by rewrite Ei.
  - intros k. by rewrite (mk_ino _ _ Hm).
Qed.

Lemma lock_node s0 s v ip inum :
  on_way s0 s v None ip inum → node v (f_sb s0) (log_start (f_l s0)) inum → frep s0 v → disk_ok v →
  wp (ilock (Some ip)) (λ _ s', on_way s0 s' v (Some ip) ip inum ∧ f_km s' = f_km s ∧
    i_d (ino ip s') = disk_inode v (f_sb s0) inum) s.
Proof.
  intros [T L K N C] [N1 N2 _ _ _] Hf0 [_ Hh Hr]. pose proof (iv_len _ (tb_inv _ _ T)) as Hlen.
  pose proof (xkeep_start s0 s v Hf0 K) as EL. pose proof (xk_sb _ _ K) as EB. pose proof N as (Hi & Hr1 & Hd & Hn).
  wp_call (ilock_tab s v ip inum T L N); rewrite ?EB, ?EL; try done.
  intros [] s' (T' & L' & K' & M' & E'). assert ((ip < length (inodes s))%nat) as Hil by lia.
  assert (ino ip s' = locked_inode s (ino ip s) (disk_inode v (f_sb s0) inum)) as Ei.
  { rewrite (ino_insert s s' ip _ ip E') by done. by rewrite decide_True. }
  split_and!; [split; try done| done|by rewrite Ei].
  - by transitivity s.
  - split_and!; [done|by rewrite Ei..].
  - intros k. rewrite (cnt_slot s s' ip _ k E' Hil) by done. cbn [locked_inode i_ref i_inum].
    rewrite C. repeat case_decide; lia.
Qed.

(** Giving up: the walk ends here. *)
Lemma leave_node s0 s v ip inum :
  on_way s0 s v (Some ip) ip inum → d_nlink (i_d (ino ip s)) ≠ 0 →
  wp (iunlockput ip) (λ _ s', back s0 s' v ∧ f_km s' = f_km s) s.
Proof.
  intros [T L K (Hi & Hr & Hd & Hn) C] Hl. wp_call (iunlockput_tab s v ip); [done|done|done|lia|done|].
  intros [] s' (T' & L' & K' & M' & _ & _ & _ & _ & C'). split; [|done]. split; [done|done|by transitivity s|].
  intros k. rewrite C', C, Hn. case_decide; lia.
Qed.

(** The next inode is referenced in slot [i]; the directory is left. *)
Lemma next_node s0 s v ip inum i n s1 :
  on_way s0 s v (Some ip) ip inum → got s v i n s1 → d_nlink (i_d (ino ip s)) ≠ 0 →
  wp (iunlockput ip) (λ _ s', on_way s0 s' v None i n ∧ f_km s' = f_km s1) s1.
Proof.
  intros [T L K (Hi & Hr & Hd & Hn) C] G Hl. destruct (got_tab s v (Some ip) i n s1 T L G) as (T1 & L1 & K1 & C1).
  pose proof (iv_len _ (tb_inv _ _ T)) as Hlen. destruct G as [_ _ G3 G4 G5 G6 G7 _ _ _].
  assert (i_inum (ino ip s1) = inum ∧ i_d (ino ip s1) = i_d (ino ip s) ∧
    i_ref (ino ip s1) = i_ref (ino ip s) + (if decide (ip = i) then 1 else 0)) as (F1 & F2 & F3).
  { destruct (decide (ip = i)) as [->|Hne]; [|rewrite G5 by done; split_and!; [done|done|lia]].
    rewrite (ino_insert s s1 i _ i G7) by lia. rewrite decide_True by done. cbn. rewrite <- Hn. split_and!; [|done|done].
    symmetry. apply G6. lia. }
  wp_call (iunlockput_tab s1 v ip); [done|done|done|case_decide; lia|by rewrite F2|].
  intros [] s' (T' & L' & K' & M' & O' & R' & D' & N' & C'). split; [|done]. split; [done|done| | |].
  - transitivity s; [done|]. by transitivity s1.
  - destruct G3 as (A1 & A2 & A3 & A4). destruct (decide (i = ip)) as [->|Hne].
    + unfold names. rewrite R', D', N', F3, decide_True by done. split_and!; [done|lia|done|done].
    + unfold names. rewrite O' by done. done.
  - intros k. rewrite C', C1, C, F1. repeat case_decide; lia.
Qed.
Lemma unlock_node s0 s v ip inum :
  on_way s0 s v (Some ip) ip inum →
  wp (iunlock (Some ip)) (λ _ s', on_way s0 s' v None ip inum ∧ f_km s' = f_km s) s.
Proof.
  intros [T L K (Hi & Hr & Hd & Hn) C]. pose proof (iv_len _ (tb_inv _ _ T)) as Hlen.
  assert ((ip < length (inodes s))%nat) as Hil by lia. wp_call (iunlock_tab s v ip); [done|done|done|lia|].
  intros [] s' (T' & L' & K' & M' & E'). assert (ino ip s' = unlocked (ino ip s)) as Ei.
  { rewrite (ino_insert s s' ip _ ip E') by done. by rewrite decide_True. }
  split; [|done]. split; [done|done|by transitivity s|split_and!; [done|by rewrite Ei..]|].
  intros k. rewrite (cnt_slot s s' ip _ k E' Hil) by done. cbn [unlocked i_ref i_inum]. rewrite C. repeat case_decide; lia.
Qed.

Lemma put_node s0 s v ip inum :
  on_way s0 s v None ip inum → d_nlink (disk_inode v (f_sb s0) inum) ≠ 0 →
  wp (iput ip) (λ _ s', back s0 s' v ∧ f_km s' = f_km s) s.
Proof.
  intros [T L K (Hi & Hr & Hd & Hn) C] Hl. pose proof (iv_len _ (tb_inv _ _ T)) as Hlen.
  assert ((ip < length (inodes s))%nat) as Hil by lia.
  wp_call (iput_tab s v ip); [done|done|done|lia|intros Hv; by rewrite (tb_val _ _ T), Hn, (xk_sb _ _ K)|].
  intros [] s' (T' & L' & K' & M' & E'). split; [|done]. split; [done|done|by transitivity s|].
  intros k. rewrite (cnt_slot s s' ip _ k E' Hil) by done. cbn [with_ref i_ref i_inum]. rewrite C, Hn. repeat case_decide; lia.
Qed.

(** The directory in slot [ip], locked, is searched for the name. *)
Lemma look_node s0 s v de name ip inum :
  on_way s0 s v (Some ip) ip inum → let d := disk_inode v (f_sb s0) inum in
  i_d (ino ip s) = d → d_type d = T_DIR → node v (f_sb s0) (log_start (f_l s0)) inum →
  tab s0 v → (length (used (inodes s0)) + 2 ≤ Z.to_nat NINODE)%nat → disk_ok v → args_ok buf_addr de name →
  wp (dirlookup end_ buf_addr de ip name) (looked buf_addr s v de ip (name_of s name)) s.
Proof.
  intros Hw d Ed Ht [_ _ _ N4 N5] T0 Hroom [D1 D2 D3] Ha. pose proof Hw as [T L K (Hi & Hr & Hd & Hn) C].
  destruct (N5 Ht) as [S1 S2]. apply dirlookup_run; [split|done|apply T|].
  - split; try done; [apply T|]. rewrite Ed, (xkeep_start s0 s v (tb_rep _ _ T0) K). by apply N4.
  - by rewrite Ed.
  - by rewrite Ed.
  - by rewrite Ed.
  - intros k _. by apply (walk_slot s0 s v inum).
Qed.

Lemma split_chars l : char_list l → Forall char_list (split_slash l).
Proof.
  unfold char_list. induction 1 as [|c l Hc _ IH]; cbn; [by apply Forall_singleton|].
  destruct (is_slash c); [by apply Forall_cons|]. destruct (split_slash l) as [|e es].
  - by apply Forall_singleton, Forall_singleton.
  - apply Forall_cons in IH as [He Hes]. apply Forall_cons. split; [by apply Forall_cons|done].
Qed.
Lemma elems_chars l e es : char_list l → path_elems l = e :: es → char_list e.
Proof.
  intros Hl E. pose proof (split_chars l Hl) as H. rewrite Forall_forall in H. apply H.
  assert (e ∈ path_elems l) as Hin by (rewrite E; apply list_elem_of_here). by apply list_elem_of_filter in Hin as [_ ?].
Qed.
(** A rest of a path that does not start with a slash is empty when it has no elements. *)
Lemma elems_nil l : (∀ c l', l = c :: l' → is_slash c = false) → path_elems l = [] → l = [].
Proof.
  intros H E. destruct l as [|c l]; [done|]. specialize (H c l eq_refl). exfalso. unfold path_elems in E. cbn in E.
  rewrite H in E. destruct (split_slash l) as [|e es]; rewrite filter_cons in E; by rewrite decide_True in E.
Qed.

Lemma path_args_next de name path l l' :
  path_args de name path l → (length l' < length l)%nat →
  path_args de name (path + Z.of_nat (length l - length l')) l'.
Proof.
  intros [P1 P2 P3 P4 P5] Hl. split; [done|lia|lia|lia|]. intros a Ha. apply P5. lia.
Qed.

Lemma cstr_kept de name path l s s' :
  path_args de name path l → kept buf_addr de s s' → cstr (fmem s) path l → cstr (fmem s') path l.
Proof.
  intros [_ _ P3 _ P5] Hk. apply cstr_ext. intros x Hx. apply Hk; [lia|]. by apply P5.
Qed.
(** ** The loop of namex *)

(** What namex returns, against [resolve]. *)
Definition outcome s0 v (parent : bool) (name : Z) (res : option Z) (lst : option (list Z)) (r : option nat) s : Prop :=
  match res with
  | None => r = None ∧ back s0 s v
  | Some n => ∃ i, r = Some i ∧ on_way s0 s v None i n ∧
      (parent = true → ∃ e, lst = Some e ∧ name_of s name = take (Z.to_nat DIRSIZ) e)
  end.

Section loop.
Context (s0 : fst D) (v : txv) (P : Z → Prop) (de name : Z) (parent : bool).
Context (T0 : tab s0 v) (HD : disk_ok v) (HT : tree v (f_sb s0) (log_start (f_l s0)) P).
Context (Hroom : (length (used (inodes s0)) + 2 ≤ Z.to_nat NINODE)%nat).
Abbreviation res n l := (resolve v (f_sb s0) parent n (path_elems l)).

(** At the head of the loop: [l] is left of the path, whose end is at [pend]. *)
Record at_head (pend : Z) (ip : nat) (path : Z) (s : fst D) (l : list Z) (n : Z) : Prop := {
  hd_str : cstr (fmem s) path l;
  hd_args : path_args de name path l;
  hd_end : path + Z.of_nat (length l) = pend;
  hd_len : Z.of_nat (length l) < MAXPATH;
  hd_way : on_way s0 s v None ip n;
  hd_in : P n
}.

(** From the lock of directory or file [n] to the end of the iteration. *)
Lemma body_rest pend l0 ip path s l n e es :
  at_head pend ip path s l n → (∀ c l2, l = c :: l2 → is_slash c = false) → path_elems l = es →
  name_of s name = take (Z.to_nat DIRSIZ) e → (parent = true → last (e :: es) = last (path_elems l0)) →
  wp (ilock (Some ip) ;;
      do s <- get;
      if negb (d_type (i_d (ino ip s)) =? T_DIR) then iunlockput ip ;; ret (inr None)
      else if parent && (rd (km_mem (f_km s)) path =? 0) then iunlock (Some ip) ;; ret (inr (Some ip))
      else
        do next <- dirlookup end_ buf_addr de ip name;
        match next with
        | None => iunlockput ip ;; ret (inr None)
        | Some (next, _) => iunlockput ip ;; ret (inl (next, path))
        end)
     (λ r s', match r with
              | inl (ip', path') => path' = path ∧ ∃ n', at_head pend ip' path s' l n' ∧
                  (parent = true → last es = last (path_elems l0)) ∧
                  resolve v (f_sb s0) parent n (e :: es) = resolve v (f_sb s0) parent n' es
              | inr b => outcome s0 v parent name (resolve v (f_sb s0) parent n (e :: es)) (last (path_elems l0)) b s'
              end) s.
Proof.
  intros [H1 H2 H3 H4 H5 H6] Hsl Ees Hnm Hlast. pose proof (tr_node _ _ _ _ HT n H6) as Hn.
  set (d := disk_inode v (f_sb s0) n).
  wp_step. wp_call (lock_node s0 s v ip n H5 Hn (tb_rep _ _ T0) HD). intros [] s1 (W1 & M1 & Ed). fold d in Ed.
  assert (name_of s1 name = take (Z.to_nat DIRSIZ) e) as Hnm1 by (unfold name_of; by rewrite M1).
  assert (d_nlink (i_d (ino ip s1)) ≠ 0) as Hnl by (rewrite Ed; apply Hn).
  wp_step. wp_step. rewrite Ed. cbn [resolve]. fold d. destruct (Z.eqb_spec (d_type d) T_DIR) as [Ht|Ht]; cbn [negb].
  2: { wp_step. wp_call (leave_node s0 s1 v ip n W1 Hnl). intros [] s2 [B2 _]. by wp_step. }
  assert ((rd (fmem s1) path =? 0) = bool_decide (es = [])) as ->.
  { rewrite M1. destruct l as [|c l].
    - apply cstr_nil in H1. rewrite H1, bool_decide_true; [done|]. by rewrite <- Ees.
    - apply cstr_cons in H1 as (-> & Hc & _). rewrite (proj2 (Z.eqb_neq c 0)), bool_decide_false by (done || intros ->; by apply elems_nil in Ees). done. }
  destruct (parent && bool_decide (es = [])) eqn:Ep.
  { apply andb_true_iff in Ep as [Ep ->%bool_decide_eq_true]. wp_step. wp_call (unlock_node s0 s1 v ip n W1).
    intros [] s2 [W2 M2]. wp_step. exists ip. split_and!; [done|done|]. intros _. exists e. split; [by rewrite <- Hlast|].
    unfold name_of. rewrite M2. exact Hnm1. }
  wp_step. wp_call (look_node s0 s1 v de name ip n W1); [done|done|done|done|done|done|apply H2|].
  rewrite Hnm1. intros r s2 [K2 R2]. rewrite Ed in R2. fold d in R2.
  destruct (dir_find (v_view v) d (take (Z.to_nat DIRSIZ) e)) as [k|] eqn:Ef.
  - destruct R2 as (i & -> & G2). pose proof (find_seqZ_inv (ent_is (v_view v) d (take (Z.to_nat DIRSIZ) e)) (nents d)) as Hk.
    unfold dir_find in Ef. rewrite Ef in Hk. destruct Hk as [Hk [Hin _]%andb_true_iff].
    apply negb_true_iff, Z.eqb_neq in Hin.
    wp_step. wp_call (next_node s0 s1 v ip n i _ s2 W1 G2 Hnl). intros [] s3 [W3 M3]. wp_step. split; [done|].
    exists (ent_inum (v_view v) d k). split_and!; [split; try done| |done].
    + rewrite M3. eapply cstr_kept; [exact H2|exact K2|]. by rewrite M1.
    + by apply (tr_ent _ _ _ _ HT).
    + intros Epar. rewrite <- (Hlast Epar). rewrite Epar in Ep. cbn in Ep. apply bool_decide_eq_false in Ep. by destruct es.
  - destruct R2 as (-> & F2 & K2'). pose proof (on_way_keep _ _ _ _ _ _ _ W1 F2 K2') as W2.
    assert (ino ip s2 = ino ip s1) as Ei by (unfold ino; by rewrite (mk_ino _ _ K2')).
    wp_step. wp_call (leave_node s0 s2 v ip n W2); [by rewrite Ei|]. intros [] s3 [B3 _]. by wp_step.
Qed.
Lemma namex_loop ip path s l n :
  at_head (path + Z.of_nat (length l)) ip path s l n →
  wp (loop (S (Z.to_nat MAXPATH))
    (λ '(ip, path),
       do path <- zoom on_mem (skipelem path name);
       if path =? 0 then
         (if parent then iput ip ;; ret (inr None) else ret (inr (Some ip)))
       else
         ilock (Some ip) ;;
         do s <- get;
         if negb (d_type (i_d (ino ip s)) =? T_DIR) then iunlockput ip ;; ret (inr None)
         else if parent && (rd (km_mem (f_km s)) path =? 0) then iunlock (Some ip) ;; ret (inr (Some ip))
         else
           do next <- dirlookup end_ buf_addr de ip name;
           match next with
           | None => iunlockput ip ;; ret (inr None)
           | Some (next, _) => iunlockput ip ;; ret (inl (next, path))
           end)
    (ip, path)) (outcome s0 v parent name (res n l) (last (path_elems l))) s.
Proof.
  intros Hh. set (pend := path + Z.of_nat (length l)) in *.
  apply (wp_loop (λ '(ip', path') s', ∃ l' n', at_head pend ip' path' s' l' n' ∧
      (parent = true → last (path_elems l') = last (path_elems l)) ∧ res n' l' = res n l)
    (λ '(_, path') _, Z.to_nat (pend - path'))).
  - intros [ip' path'] s' (l' & n' & Hd & H7 & <-). pose proof Hd as [H1 H2 H3 H4 H5 H6].
    pose proof (skipelem_next path' name l' (fmem s') (pa_pos _ _ _ _ H2) H1 H4 (pa_name _ _ _ _ H2)) as Hs.
    destruct (path_elems l') as [|e es] eqn:Ee.
    + wp_step. wp_step. cbn [view on_mem]. eapply wp_of_Ok; [exact Hs|]. cbn [Z.eqb].
      replace (over on_mem (fmem s') s') with s' by (by destruct s' as [? [] ? ? ?]). cbn [resolve outcome].
      destruct parent eqn:Ep.
      * wp_step. wp_call (put_node s0 s' v ip' n' H5); [apply (tr_node _ _ _ _ HT _ H6)|].
        intros [] s2 [B2 _]. by wp_step.
      * wp_step. by exists ip'.
    + wp_step. wp_step. cbn [view on_mem]. wp_call Hs.
      intros r m' (l2 & E2 & C2 & Hl2 & -> & Hsl & Hnm & Hm').
      pose proof (path_args_next _ _ _ _ _ H2 Hl2) as H2'. set (path2 := path' + Z.of_nat (length l' - length l2)) in *.
      rewrite (proj2 (Z.eqb_neq path2 0)) by (pose proof (pa_pos _ _ _ _ H2'); lia).
      set (s2 := over on_mem m' s').
      assert (on_way s0 s2 v None ip' n') as W2.
      { apply (on_way_keep s0 s'); [done|exact (tb_rep _ _ (ow_tab _ _ _ _ _ _ H5))|apply with_mem_keep]. }
      assert (name_of s2 name = take (Z.to_nat DIRSIZ) e) as Hnm2.
      { apply holds_name_of; [|exact Hnm]. eapply elems_chars; [|exact Ee]. apply H1. }
      eapply wp_mono; [apply (body_rest pend l ip' path2 s2 l2 n' e es); try done|].
      * split; try done; [unfold path2; lia|lia].
      * intros [[ip3 path3]|b] s3; [|done]. intros (-> & n3 & Hd3 & Hl3 & ->). split.
        -- exists l2, n3. rewrite E2. done.
        -- unfold path2. lia.
  - exists l, n. done.
  - unfold pend. pose proof (hd_len _ _ _ _ _ _ Hh). lia.
Qed.
End loop.

(** ** The start of the walk *)

(** The inode a path is relative to. *)
Definition starts s (l : list Z) (n : Z) : Prop :=
  if bool_decide (head l = Some chr_slash) then n = ROOTINO
  else ∃ p c, running (f_p s) p ∧ p_cwd (p_priv (procs (f_p s) !!! p)) = Some c ∧ names s c ROOTDEV n.

Lemma got_way s0 s v i n s1 : back s0 s v → got s v i n s1 → on_way s0 s1 v None i n.
Proof.
  intros [T L K C] G. destruct (got_tab s v None i n s1 T L G) as (T1 & L1 & K1 & C1).
  split; [done|done|by transitivity s|apply G|]. intros k. by rewrite C1, C.
Qed.

Lemma idup_way s0 s v c n :
  back s0 s v → names s c ROOTDEV n → wp (idup c) (λ i s', on_way s0 s' v None i n ∧ f_km s' = f_km s) s.
Proof.
  intros [T L K C] (Hi & Hr & Hd & Hn). pose proof T as [T1 [I1 I2 I3 I4] T3 T4]. destruct (frep_ok _ _ T1) as [Hok _].
  unfold idup. apply iget_enter; [apply Hok|done|].
  eapply wp_mono; [apply (set_slot s c); [apply Hok|done|lia]|]. intros i s' [-> [A1 A2 A3 A4 A5 A6]].
  set (x := with_ref (i_ref (ino c s) + 1) (ino c s)) in *.
  destruct (with_fp_same s v (synced (f_p s)) T1 (synced_same _)) as [Hs' [Kl _ _]].
  assert (frep s' v) as Hf by (unfold frep; rewrite A4; exact Hs').
  assert (xkeep s s') as Hk by (split; [rewrite A4; exact Kl|done|done]).
  assert (ino c s' = x) as Ec by (rewrite (ino_insert s s' c x c A1) by lia; by rewrite decide_True).
  split; [|done]. split.
  - apply (tab_upd s s' v c x); try done; cbn; [lia|]. intros _. by apply T4.
  - eapply (lks_upd s s' v c x None); [done|done|done|exact A1|lia| |done]. exact (L c Hi).
  - by transitivity s.
  - unfold names. rewrite Ec. cbn. split_and!; [done|lia|done|done].
  - intros k. rewrite (cnt_slot s s' c x k A1) by (done || lia). cbn [x with_ref i_inum i_ref]. rewrite C, Hn.
    repeat case_decide; lia.
Qed.

Lemma start_way s v l n path :
  tab s v → lks None s → starts s l n → slot_for s ROOTINO → cstr (fmem s) path l →
  wp (if rd (fmem s) path =? chr_slash then iget ROOTDEV ROOTINO else do c <- my_cwd; idup c)
     (λ i s', on_way s s' v None i n ∧ fmem s' = fmem s) s.
Proof.
  intros T L Hst Hslot Hc. assert (back s s v) as B by done.
  assert ((rd (fmem s) path =? chr_slash) = bool_decide (head l = Some chr_slash)) as ->.
  { destruct l as [|c l]; [apply cstr_nil in Hc|apply cstr_cons in Hc as (Hc & _)]; rewrite Hc; [done|]. cbn.
    destruct (Z.eqb_spec c chr_slash); [by rewrite bool_decide_true by congruence|by rewrite bool_decide_false by congruence]. }
  unfold starts in Hst. destruct (bool_decide _).
  - subst n. wp_call (iget_got s v ROOTINO); [apply T|apply T|done|]. intros i s' [G M]. split; [by apply (got_way s s)|done].
  - destruct Hst as (p & c & Hr & Hcwd & Hn). destruct (frep_ok _ _ (tb_rep _ _ T)) as [Hok _].
    unfold my_cwd. wp_step. wp_step. eapply wp_of_Ok; [apply zoom_Ok; cbn; by apply (me_run (f_p s) p)|].
    set (s1 := over on_fp _ s). wp_step. wp_step. change (procs (f_p s1)) with (procs (f_p s)). rewrite Hcwd. unfold of_option. wp_step.
    destruct (with_fp_same s v (synced (f_p s)) (tb_rep _ _ T) (synced_same _)) as [Hs1 Hk1].
    assert (back s s1 v) as B1.
    { destruct T as [T1 T2 T3 T4]. split; [split; [exact Hs1|by destruct T2|done|done]|done..]. }
    wp_call (idup_way s s1 v c n B1 Hn). intros i s' [W M]. split; [done|by rewrite M].
Qed.

(** ** Properties *)

(** C22: namei and nameiparent resolve a path as the directory tree on the disk says:
    they return the inode that the path's elements lead to, each looked up in the
    directory before it (the root directory for a path that starts with a slash,
    else the current directory), or nothing when an element is missing or is not a
    directory; nameiparent returns the last directory and leaves the last element
    in the name buffer. The call ends, locks are free again, and of references only
    the one to the inode returned is new. *)
Theorem namex_resolves s v P de path name parent l n :
  tab s v → lks None s → disk_ok v → tree v (f_sb s) (log_start (f_l s)) P → P n → starts s l n →
  (length (used (inodes s)) + 2 ≤ Z.to_nat NINODE)%nat →
  cstr (fmem s) path l → path_args de name path l → Z.of_nat (length l) < MAXPATH →
  wp (namex end_ buf_addr de path parent name)
     (outcome s v parent name (resolve v (f_sb s) parent n (path_elems l)) (last (path_elems l))) s.
Proof.
  intros T L HD HT HP Hst Hroom Hc Ha Hlen. unfold namex. wp_step. wp_step. wp_step.
  wp_call (start_way s v l n path T L Hst).
  - pose proof (iv_len _ (tb_inv _ _ T)) as Hl. destruct (used_free (inodes s)) as (j & x & Hj & Hx);
      [lia|by apply it_refs, (tb_inv _ v)|]. pose proof (lookup_lt_Some _ _ _ Hj). exists j. split; [lia|left].
    unfold ino. by rewrite (list_lookup_total_correct _ _ _ Hj).
  - done.
  - intros i s1 [W M]. apply (namex_loop s v P de name parent T HD HT Hroom).
    split; try done. by rewrite M.
Qed.
End walk.

(** ** A tree on which the theorem can be tried

    The root directory, inode 1, has "." and "a"; "a" is the file with inode 2.
    The path "/a" is at address 12288. *)
Definition demo_root : dinode := Dinode T_DIR 0 0 1 32 [50; 0; 0; 0; 0; 0; 0; 0; 0; 0; 0; 0; 0].
Definition demo_a : dinode := Dinode T_FILE 0 0 1 0 [0; 0; 0; 0; 0; 0; 0; 0; 0; 0; 0; 0; 0].
Definition demo_tmap : gmap Z block :=
  <[33 := put_dinode 2 demo_a (put_dinode 1 demo_root zero_block)]>
    {[ 50 := [1; 0; 46] ++ replicate 13 0 ++ [2; 0; 97] ++ replicate 1005 0 ]}.
Definition demo_ttxv : txv := Txv (demo_disk demo_tmap) (demo_disk demo_tmap) [] ∅.
Definition demo_tree (l : lst ram_disk) : fst ram_disk :=
  Fst l (Kmem (Spin 0 "kmem" None) 0 (wr (wr ∅ 12288 47) 12289 97)) demo_sb (Spin 0 "itable" None) (replicate 50 inode0).

Lemma demo_tblock x : Z.of_nat (length (demo_disk demo_tmap x)) = BSIZE.
Proof.
  unfold demo_disk, demo_tmap. destruct (decide (x = 33)) as [->|H33]; [rewrite lookup_insert_eq; vm_compute; reflexivity|].
  rewrite lookup_insert_ne by done. destruct (decide (x = 50)) as [->|H50]; [rewrite lookup_singleton_eq; reflexivity|].
  by rewrite lookup_singleton_ne.
Qed.

Lemma demo_nodes :
  disk_inode demo_ttxv demo_sb 1 = demo_root ∧ disk_inode demo_ttxv demo_sb 2 = demo_a ∧
  ent_inum (demo_disk demo_tmap) demo_root 0 = 1 ∧ ent_inum (demo_disk demo_tmap) demo_root 1 = 2.
Proof. split_and!; vm_compute; reflexivity. Qed.

Lemma demo_root_file f : file_ok 2 f demo_root 1.
Proof.
  assert (∀ bn, 0 ≤ bn < 1 → fblk f demo_root bn = 50) as H by (intros bn Hbn; by assert (bn = 0) as -> by lia).
  split; [done|..].
  - intros bn Hbn. rewrite H by done. split; [done|apply home_2; lia].
  - lia.
  - done.
  - done.
Qed.

Lemma demo_tree_ok : tree demo_ttxv demo_sb 2 (λ n, n = 1 ∨ n = 2).
Proof.
  destruct demo_nodes as (E1 & E2 & E3 & E4). split.
  - intros n [->| ->]; (split; [change (IBLOCK _ _) with 33; apply home_2; lia|..]); rewrite ?E1, ?E2.
    1, 2, 5, 6, 7, 8: done.
    + intros _. apply demo_root_file.
    + done.
  - intros n k [->| ->]; rewrite ?E1, ?E2; [|done]. intros _ Hk _. change (nents demo_root) with 2 in Hk.
    change (v_view demo_ttxv) with (demo_disk demo_tmap).
    assert (k = 0 ∨ k = 1) as [->| ->] by lia; [rewrite E3|rewrite E4]; lia.
Qed.

Lemma demo_tree_slot l j : ino j (demo_tree l) = inode0.
Proof.
  unfold ino, demo_tree, inodes. rewrite list_lookup_total_alt. destruct (decide (j < 50)%nat).
  - by rewrite lookup_replicate_2.
  - by rewrite lookup_ge_None_2 by (rewrite length_replicate; lia).
Qed.

Lemma demo_tab l : srep l demo_ttxv → tab (demo_tree l) demo_ttxv ∧ lks None (demo_tree l).
Proof.
  intros Hl. split; [split; [exact Hl|split|..]|]; try (intros j; rewrite ?demo_tree_slot; done).
  - by split.
  - reflexivity.
Qed.

Lemma namex_resolves_witness : ∃ l, srep l demo_ttxv ∧
  wp (namex 0 demo_bufs 4096 12288 false 8192) (λ r s', ∃ i, r = Some i ∧ names s' i ROOTDEV 2) (demo_tree l).
Proof.
  destruct (demo_intx demo_tmap) as (l & Hl & Hs). exists l. split; [exact Hl|].
  assert (resolve demo_ttxv demo_sb false 1 (path_elems [47; 97]) = Some 2) as E by (vm_compute; reflexivity).
  destruct (demo_tab l Hl) as [T L].
  eapply wp_mono; [apply (namex_resolves 0 demo_bufs (demo_tree l) demo_ttxv (λ n, n = 1 ∨ n = 2) 4096 12288 8192 false [47; 97] 1)|].
  - exact T.
  - exact L.
  - split; [exact demo_tblock|reflexivity|vm_compute; lia].
  - cbn [f_l demo_tree]. rewrite Hs. exact demo_tree_ok.
  - by left.
  - reflexivity.
  - vm_compute. lia.
  - apply cstr_cons. split; [reflexivity|]. split; [lia|]. apply cstr_cons. split; [reflexivity|]. split; [lia|].
    apply cstr_nil. reflexivity.
  - split; [split|..]; cbn [length]; try (unfold DIRSIZ; lia); intros a Ha; apply demo_nobuf; lia.
  - cbn. unfold MAXPATH. lia.
  - intros r s' H. unfold outcome in H. cbn [f_sb demo_tree] in H. rewrite E in H. destruct H as (i & -> & W & _).
    exists i. split; [reflexivity|apply W].
Defined.
