(* ===== verification/Mkfs.v ===== *)
(** * mkfs/mkfs.c: building the initial file system

    The image being written is [mk_img], a finite map from sector numbers to blocks;
    reading a sector the file does not have yet makes mkfs die. die(), exit(1) and a
    failed assert end the program: they are the outcome [Panicked]. The files named on
    the command line are given with their contents ([None] for a file that cannot
    be opened). The layouts of struct dinode and struct superblock are those of Fs. *)
From S2P Require Import Prelude Memory KString Riscv Spinlock Kalloc Vm Sched Sleeplock Disk Bio Log Fs.

Module Image.

Definition NINODES : Z := 200.
Definition nbitmap : Z := FSSIZE `div` BPB + 1.
Definition ninodeblocks : Z := NINODES `div` IPB + 1.
Definition nlog : Z := LOGBLOCKS + 1.
Definition nmeta : Z := 2 + nlog + ninodeblocks + nbitmap.
Definition nblocks : Z := FSSIZE - nmeta.

Record mkst : Type := Mkst { mk_img : gmap Z block; freeinode : Z; freeblock : Z }.

Definition die {A} (msg : string) : M mkst A := panic msg.
Definition assert (b : bool) : M mkst unit := if b then ret tt else panic "assert".

(** The bytes of the result are the little-endian bytes of [x]; on a little-endian
    host the result is [x] itself. *)
Definition xshort (x : Z) : Z := le_val [u8 x; u8 (Z.shiftr x 8)].
Definition xint (x : Z) : Z := le_val [u8 x; u8 (Z.shiftr x 8); u8 (Z.shiftr x 16); u8 (Z.shiftr x 24)].

Definition sb : superblock :=
  Sb FSMAGIC (xint FSSIZE) (xint nblocks) (xint NINODES) (xint nlog) (xint 2) (xint (2 + nlog)) (xint (2 + nlog + ninodeblocks)).
Definition enc_sb (s : superblock) : list Z :=
  mjoin (le_bytes 4 <$> [sb_magic s; sb_size s; sb_nblocks s; sb_ninodes s; sb_nlog s; sb_logstart s; sb_inodestart s; sb_bmapstart s]).

(** The sector at file offset [sec * BSIZE], a 32-bit product. *)
Definition sector (sec : Z) : Z := u32 (sec * BSIZE) `div` BSIZE.
Definition wsect (sec : Z) (buf : block) : M mkst unit :=
  modify (λ s, Mkst (<[sector sec := buf]> (mk_img s)) (freeinode s) (freeblock s)).
Definition rsect (sec : Z) : M mkst block :=
  do s <- get;
  match mk_img s !! sector sec with Some b => ret b | None => die "read" end.

Definition winode (inum : Z) (ip : dinode) : M mkst unit :=
  let bn := IBLOCK inum sb in
  do buf <- rsect bn;
  wsect bn (put_dinode (inum `mod` IPB) ip buf).
Definition rinode (inum : Z) : M mkst dinode :=
  do buf <- rsect (IBLOCK inum sb);
  ret (get_dinode (inum `mod` IPB) buf).

(** [freeinode++], [freeblock++] *)
Definition next_inode : M mkst Z :=
  do s <- get;
  modify (λ s, Mkst (mk_img s) (u32 (freeinode s + 1)) (freeblock s)) ;;
  ret (freeinode s).
Definition next_block : M mkst Z :=
  do s <- get;
  modify (λ s, Mkst (mk_img s) (freeinode s) (u32 (freeblock s + 1))) ;;
  ret (freeblock s).

Definition ialloc (type : Z) : M mkst Z :=
  do inum <- next_inode;
  winode inum (Dinode (i16 (xshort type)) 0 0 (i16 (xshort 1)) (xint 0) (replicate 13 0)) ;;
  ret inum.

Definition balloc (used : Z) : M mkst unit :=
  assert (used <? BPB) ;;
  let buf := fold_left (λ buf i, set_bit i buf) (seqZ 0 used) zero_block in
  wsect (sb_bmapstart sb) buf.

Definition addr (k : Z) (din : dinode) : Z := xint (d_addrs din !!! Z.to_nat k).

(** The block for file block [fbn], allocated if the inode has none; the inode
    afterwards and the block. *)
Definition iappend_block (fbn : Z) (din : dinode) : M mkst (dinode * Z) :=
  if fbn <? NDIRECT then
    do din <- (if addr fbn din =? 0 then do b <- next_block; ret (with_addr fbn (xint b) din) else ret din);
    ret (din, addr fbn din)
  else
    do din <- (if addr NDIRECT din =? 0 then do b <- next_block; ret (with_addr NDIRECT (xint b) din) else ret din);
    do ind <- rsect (addr NDIRECT din);
    do ind <- (if get32 (fbn - NDIRECT) ind =? 0 then
                 do b <- next_block;
                 let ind := put32 (fbn - NDIRECT) (xint b) ind in
                 wsect (addr NDIRECT din) ind ;;
                 ret ind
               else ret ind);
    ret (din, xint (get32 (fbn - NDIRECT) ind)).

(** The state of the loop is the inode, the offset and the bytes left. *)
Definition iappend_step (st : dinode * Z * list Z) : M mkst ((dinode * Z * list Z) + (dinode * Z)) :=
  let '(din, off, p) := st in
  if Z.of_nat (length p) <=? 0 then ret (inr (din, off))
  else
    let fbn := off `div` BSIZE in
    assert (fbn <? MAXFILE) ;;
    do r <- iappend_block fbn din;
    let '(din, x) := r in
    let n1 := Z.min (Z.of_nat (length p)) ((fbn + 1) * BSIZE - off) in
    do buf <- rsect x;
    wsect x (splice (off - fbn * BSIZE) (take (Z.to_nat n1) p) buf) ;;
    ret (inl (din, u32 (off + n1), drop (Z.to_nat n1) p)).

Definition iappend (inum : Z) (xp : list Z) : M mkst unit :=
  do din <- rinode inum;
  do r <- loop (S (length xp)) iappend_step (din, xint (d_size din), xp);
  let '(din, off) := r in
  winode inum (with_size (xint off) din).

(** struct dirent with the name copied by strncpy. *)
Definition dirent (inum : Z) (name : list Z) : list Z :=
  le_bytes 2 (xshort inum) ++ take 14 (name ++ replicate 14 0).

Definition chr_slash : Z := 47.
Definition chr_under : Z := 95.
(** "user/" *)
Definition str_user : list Z := [117; 115; 101; 114; 47].

(** The name of a file in the image: without user/ and a leading underscore. *)
Definition strip_user (name : list Z) : list Z :=
  if decide (take 5 name = str_user) then drop 5 name else name.
Definition strip_under (name : list Z) : list Z :=
  match name with c :: l => if c =? chr_under then l else name | [] => [] end.

(** [while((cc = read(fd, buf, sizeof(buf))) > 0) iappend(inum, buf, cc)] *)
Definition copy_file (inum : Z) (data : list Z) : M mkst unit :=
  loop (S (length data)) (λ data,
    let cc := take (Z.to_nat BSIZE) data in
    if Z.of_nat (length cc) <=? 0 then ret (inr tt)
    else iappend inum cc ;; ret (inl (drop (Z.to_nat BSIZE) data))) data.

Definition add_file (rootino : Z) (f : list Z * option (list Z)) : M mkst unit :=
  let shortname := strip_user f.1 in
  assert (negb (existsb (Z.eqb chr_slash) shortname)) ;;
  match f.2 with
  | None => die "open"
  | Some data =>
      let shortname := strip_under shortname in
      assert (Z.of_nat (length shortname) <=? DIRSIZ) ;;
      do inum <- ialloc T_FILE;
      iappend rootino (dirent inum shortname) ;;
      copy_file inum data
  end.

(** main, after the image file has been opened. *)
Definition main (files : list (list Z * option (list Z))) : M mkst unit :=
  assert (BSIZE `mod` sizeof_dinode =? 0) ;;
  assert (BSIZE `mod` sizeof_dirent =? 0) ;;
  modify (λ s, Mkst (mk_img s) (freeinode s) nmeta) ;;
  each (seqZ 0 FSSIZE) (λ i, wsect i zero_block) ;;
  wsect 1 (splice 0 (enc_sb sb) zero_block) ;;
  do rootino <- ialloc T_DIR;
  assert (rootino =? ROOTINO) ;;
  iappend rootino (dirent rootino [46]) ;;
  iappend rootino (dirent rootino [46; 46]) ;;
  each files (add_file rootino) ;;
  do din <- rinode rootino;
  let off := xint (d_size din) in
  let off := u32 ((off `div` BSIZE + 1) * BSIZE) in
  winode rootino (with_size (xint off) din) ;;
  do s <- get;
  balloc (freeblock s).

Definition init : mkst := Mkst ∅ 1 0.
End Image.
