(* ===== verification/MkfsProps.v ===== *)
(** * The files mkfs writes (mkfs/mkfs.c)

    The file that iappend extends, read with the kernel's layout of inodes and
    indirect blocks ([file_byte] of FsData); the free map that balloc writes, read
    with the kernel's [blk_used]. *)
From S2P Require Import Prelude Memory KString Riscv Spinlock Kalloc Vm Sched Sleeplock Disk Bio BioSpec BioInv BioOps Log LogSpec LogOps LogTx FsRep Fs FsBlocks FsData FsInode Mkfs.
Import Image.

(** ** The image *)
Definition fimg (s : mkst) : Z → block := λ x, default zero_block (mk_img s !! x).

Record mk_ok (s : mkst) : Prop := {
  mo_dom x : 0 ≤ x < FSSIZE → is_Some (mk_img s !! x);
  mo_len x b : mk_img s !! x = Some b → Z.of_nat (length b) = BSIZE
}.

Lemma fimg_len s x : mk_ok s → Z.of_nat (length (fimg s x)) = BSIZE.
Proof. intros Hs. unfold fimg. destruct (mk_img s !! x) eqn:E; [by apply (mo_len s Hs x)|done]. Qed.

Lemma sector_id x : 0 ≤ x < FSSIZE → sector x = x.
Proof. intros Hx. unfold sector, FSSIZE, BSIZE in *. rewrite u32_small by lia. dlia. Qed.

Lemma xint_small x : 0 ≤ x < 2 ^ 32 → xint x = x.
Proof.
  intros Hx. unfold xint, u8. cbn [le_val]. rewrite !Z.shiftr_div_pow2 by lia.
  change (2 ^ 8) with 256. change (2 ^ 16) with 65536. change (2 ^ 24) with 16777216. dlia.
Qed.

Lemma rsect_run s x : mk_ok s → 0 ≤ x < FSSIZE → rsect x s = Ok (fimg s x) s.
Proof.
  intros Hs Hx. unfold rsect, bind, get. rewrite sector_id by done. unfold fimg. destruct (mo_dom s Hs x Hx) as [b ->]. done.
Qed.

(** The image after a write of sector [x]. *)
Definition put_img (x : Z) (b : block) (s : mkst) : mkst := Mkst (<[x := b]> (mk_img s)) (freeinode s) (freeblock s).

Lemma wsect_run s x b : 0 ≤ x < FSSIZE → wsect x b s = Ok tt (put_img x b s).
Proof. intros Hx. unfold wsect, modify. by rewrite sector_id. Qed.

Lemma fimg_put s x b y : fimg (put_img x b s) y = fupd (fimg s) x b y.
Proof. unfold fimg, put_img, fupd. cbn. rewrite lookup_insert. repeat case_decide; congruence || done. Qed.

Lemma put_img_ok s x b : mk_ok s → Z.of_nat (length b) = BSIZE → mk_ok (put_img x b s).
Proof.
  intros [H1 H2] Hb. split; cbn.
  - intros y Hy. rewrite lookup_insert. case_decide; [by eexists|by apply H1].
  - intros y c. rewrite lookup_insert. case_decide; [by intros [= <-]|apply H2].
Qed.

(** ** The file map under construction *)
(** The first [nb] blocks of the file [d] are data blocks below [fb], all different;
    it has no others. [ind] says whether it has an indirect block. *)
Definition ind_of (d : dinode) : Z := d_addrs d !!! Z.to_nat NDIRECT.
Record mfile (f : Z → block) (d : dinode) (nb : Z) (ind : bool) (fb : Z) : Prop := {
  mf_len : length (d_addrs d) = 13%nat;
  mf_nb : 0 ≤ nb ≤ MAXFILE;
  mf_has : NDIRECT < nb → ind = true;
  mf_blk bn : 0 ≤ bn < nb → nmeta ≤ fblk f d bn < fb;
  mf_inj bn bm : 0 ≤ bn < nb → 0 ≤ bm < nb → fblk f d bn = fblk f d bm → bn = bm;
  mf_ind : if ind then nmeta ≤ ind_of d < fb else ind_of d = 0;
  mf_sep bn : 0 ≤ bn < nb → ind = true → fblk f d bn ≠ ind_of d;
  mf_rest bn : nb ≤ bn < MAXFILE → bn < NDIRECT ∨ ind = true → fblk f d bn = 0
}.

(** The blocks from [fb] on have not been written. *)
Definition fresh (f : Z → block) (fb : Z) : Prop := ∀ x, fb ≤ x < FSSIZE → f x = zero_block.

Lemma get32_zero k : get32 k zero_block = 0.
Proof.
  unfold get32, zero_block. rewrite drop_replicate, take_replicate. generalize (4 `min` (Z.to_nat BSIZE - Z.to_nat (4 * k)))%nat.
  intros n. induction n as [|n IH]; cbn; [done|lia].
Qed.

(** The C values of mkfs's globals. *)
Lemma nmeta_eq : nmeta = 47 ∧ FSSIZE = 2000.
Proof. done. Qed.

Lemma fblk_ext f f' d bn : (∀ x, f x = f' x) → fblk f d bn = fblk f' d bn.
Proof. intros H. unfold fblk. by rewrite H. Qed.

Lemma mfile_ext f f' d nb ind fb : (∀ x, f x = f' x) → mfile f d nb ind fb → mfile f' d nb ind fb.
Proof.
  intros H [M1 M2 M3 M4 M5 M6 M7 M8]. assert (∀ bn, fblk f' d bn = fblk f d bn) as E by (intros; symmetry; by apply fblk_ext).
  split; try done; intros *; rewrite ?E; auto.
Qed.

Lemma with_addr_other k j a d : 0 ≤ k → 0 ≤ j → j ≠ k → d_addrs (with_addr k a d) !!! Z.to_nat j = d_addrs d !!! Z.to_nat j.
Proof. intros. cbn. apply list_lookup_total_insert_ne. lia. Qed.

Lemma with_addr_same k a d : 0 ≤ k < 13 → length (d_addrs d) = 13%nat → d_addrs (with_addr k a d) !!! Z.to_nat k = a.
Proof. intros. cbn. apply list_lookup_total_insert_eq. lia. Qed.

(** A new direct block. *)
Lemma grow_direct f d nb ind fb : mfile f d nb ind fb → nb < NDIRECT → nmeta ≤ fb →
  let d' := with_addr nb fb d in
  mfile f d' (nb + 1) ind (fb + 1) ∧ fblk f d' nb = fb ∧ ∀ bm, 0 ≤ bm → bm ≠ nb → fblk f d' bm = fblk f d bm.
Proof.
  intros [M1 M2 M3 M4 M5 M6 M7 M8] Hnb Hfb d'. unfold NDIRECT in *.
  assert (fblk f d' nb = fb) as E1 by (unfold fblk; rewrite (proj2 (Z.ltb_lt nb NDIRECT)) by (unfold NDIRECT; lia); apply with_addr_same; [lia|done]).
  assert (ind_of d' = ind_of d) as Ei by (unfold ind_of, d'; apply with_addr_other; [lia|done|unfold NDIRECT; lia]).
  assert (∀ bm, 0 ≤ bm → bm ≠ nb → fblk f d' bm = fblk f d bm) as E2.
  { intros bm Hb Hne. unfold fblk. fold (ind_of d') (ind_of d). rewrite Ei. destruct (bm <? NDIRECT); [|done]. apply with_addr_other; lia. }
  assert (ind = true → nmeta ≤ ind_of d < fb) as Hi by (by intros ->).
  split_and!; [|done|done]. split.
  - cbn. by rewrite length_insert.
  - change MAXFILE with 268 in *. lia.
  - unfold NDIRECT. intros. lia.
  - intros bm Hbm. destruct (decide (bm = nb)) as [->|Hne]; [rewrite E1; lia|]. rewrite E2 by lia. specialize (M4 bm). lia.
  - intros b1 b2 H1 H2. destruct (decide (b1 = nb)) as [->|N1], (decide (b2 = nb)) as [->|N2]; [done| | |].
    + rewrite E1, E2 by lia. intros E. specialize (M4 b2). lia.
    + rewrite E1, E2 by lia. intros E. specialize (M4 b1). lia.
    + rewrite !E2 by lia. apply M5; lia.
  - rewrite Ei. destruct ind; [lia|done].
  - intros bm Hbm Hin. rewrite Ei. specialize (Hi Hin). destruct (decide (bm = nb)) as [->|Hne]; [rewrite E1; lia|]. rewrite E2 by lia. apply M7; [lia|done].
  - intros bm Hbm. rewrite E2 by lia. apply M8. lia.
Qed.

(** The indirect block. *)
Lemma grow_ind f d nb fb : mfile f d nb false fb → nmeta ≤ fb → f fb = zero_block →
  let d' := with_addr NDIRECT fb d in
  mfile f d' nb true (fb + 1) ∧ ind_of d' = fb ∧ ∀ bm, 0 ≤ bm < NDIRECT → fblk f d' bm = fblk f d bm.
Proof.
  intros [M1 M2 M3 M4 M5 M6 M7 M8] Hfb Hz d'.
  assert (nb ≤ NDIRECT) as Hnb by (destruct (Z.le_gt_cases nb NDIRECT); [done|by apply M3 in H]).
  assert (ind_of d' = fb) as Ei by (apply with_addr_same; [unfold NDIRECT; lia|done]).
  assert (∀ bm, 0 ≤ bm < NDIRECT → fblk f d' bm = fblk f d bm) as E.
  { intros bm Hb. unfold fblk. rewrite (proj2 (Z.ltb_lt bm NDIRECT)) by lia. apply with_addr_other; unfold NDIRECT in *; lia. }
  split_and!; [|done|done]. split; [cbn; by rewrite length_insert|done|done|..].
  - intros bm Hbm. rewrite E by lia. specialize (M4 bm). lia.
  - intros b1 b2 H1 H2. rewrite !E by lia. apply M5; lia.
  - rewrite Ei. lia.
  - intros bm Hbm _. rewrite Ei, E by lia. specialize (M4 bm). lia.
  - intros bm Hbm _. destruct (decide (bm < NDIRECT)) as [Hlt|Hge]; [rewrite E by lia; apply M8; [lia|by left]|].
    unfold fblk. fold (ind_of d'). rewrite (proj2 (Z.ltb_ge bm NDIRECT)) by lia. by rewrite Ei, Hz, get32_zero.
Qed.

(** A new block in the indirect block. *)
Lemma grow_indirect f d nb fb : mfile f d nb true fb → NDIRECT ≤ nb < MAXFILE → nmeta ≤ fb < 2 ^ 32 →
  Z.of_nat (length (f (ind_of d))) = BSIZE →
  let f' := fupd f (ind_of d) (put32 (nb - NDIRECT) fb (f (ind_of d))) in
  mfile f' d (nb + 1) true (fb + 1) ∧ fblk f' d nb = fb ∧ ∀ bm, 0 ≤ bm < MAXFILE → bm ≠ nb → fblk f' d bm = fblk f d bm.
Proof.
  intros [M1 M2 M3 M4 M5 M6 M7 M8] Hnb Hfb Hlen f'. cbn [andb] in M6. pose proof nmeta_eq.
  assert (∀ bm, NDIRECT ≤ bm < MAXFILE → 4 * (bm - NDIRECT) + 4 ≤ BSIZE) as Hfit by (intros; change MAXFILE with 268 in *; unfold NDIRECT, BSIZE in *; lia).
  assert (fblk f' d nb = fb) as E1.
  { unfold fblk. rewrite (proj2 (Z.ltb_ge nb NDIRECT)) by lia. fold (ind_of d). unfold f'. rewrite fupd_eq, get_put32; [apply u32_small; lia|lia|].
    specialize (Hfit nb). lia. }
  assert (∀ bm, 0 ≤ bm < MAXFILE → bm ≠ nb → fblk f' d bm = fblk f d bm) as E2.
  { intros bm Hb Hne. unfold fblk. destruct (Z.ltb_spec bm NDIRECT); [done|]. fold (ind_of d). unfold f'. rewrite fupd_eq, get_put32_ne; [done|lia..|]. specialize (Hfit nb). lia. }
  split_and!; [|done|done]. split; [done|lia|done|..].
  - intros bm Hbm. destruct (decide (bm = nb)) as [->|Hne]; [rewrite E1; lia|]. rewrite E2 by lia. specialize (M4 bm). lia.
  - intros b1 b2 H1 H2. destruct (decide (b1 = nb)) as [->|N1], (decide (b2 = nb)) as [->|N2]; [done| | |].
    + rewrite E1, E2 by lia. intros E. specialize (M4 b2). lia.
    + rewrite E1, E2 by lia. intros E. specialize (M4 b1). lia.
    + rewrite !E2 by lia. apply M5; lia.
  - lia.
  - intros bm Hbm _. destruct (decide (bm = nb)) as [->|Hne]; [rewrite E1; lia|]. rewrite E2 by lia. apply M7; [lia|done].
  - intros bm Hbm Hor. rewrite E2 by lia. apply M8; [lia|done].
Qed.

(** ** iappend_block *)
Definition has_ind (nb : Z) : bool := NDIRECT <? nb.
Definition b2z (b : bool) : Z := if b then 1 else 0.

Record d_same (d d' : dinode) : Prop := {
  ds_type : d_type d' = d_type d;
  ds_major : d_major d' = d_major d;
  ds_minor : d_minor d' = d_minor d;
  ds_nlink : d_nlink d' = d_nlink d;
  ds_addrs : Forall (λ a, 0 ≤ a < 2 ^ 32) (d_addrs d) → Forall (λ a, 0 ≤ a < 2 ^ 32) (d_addrs d')
}.
#[export] Instance d_same_preorder : PreOrder d_same.
Proof.
  split.
  - by intros d.
  - intros d1 d2 d3 [A1 A2 A3 A4 A5] [B1 B2 B3 B4 B5]. split; [congruence..|auto].
Qed.

Lemma d_same_addr k a d : 0 ≤ a < 2 ^ 32 → d_same d (with_addr k a d).
Proof. intros Ha. split; try done. intros H. cbn. by apply Forall_insert. Qed.

(** The state of an append to the file [d] of [nb] blocks. *)
Record appending s d nb : Prop := {
  ap_ok : mk_ok s;
  ap_file : mfile (fimg s) d nb (has_ind nb) (freeblock s);
  ap_fresh : fresh (fimg s) (freeblock s);
  ap_free : nmeta ≤ freeblock s
}.

(** Block [bn] of the file exists. *)
Record provided s d nb bn s' d' : Prop := {
  pv_ap : appending s' d' (bn + 1);
  pv_keep bm : 0 ≤ bm < nb → fblk (fimg s') d' bm = fblk (fimg s) d bm;
  pv_img y : y ≠ ind_of d' → fimg s' y = fimg s y;
  pv_ind : ind_of d' = ind_of d ∨ freeblock s ≤ ind_of d';
  pv_new : bn < nb ∨ freeblock s ≤ fblk (fimg s') d' bn;
  pv_free : freeblock s ≤ freeblock s' ≤ freeblock s + (bn + 1 - nb) + b2z (has_ind (bn + 1)) - b2z (has_ind nb);
  pv_same : d_same d d' ∧ d_size d' = d_size d;
  pv_ino : freeinode s' = freeinode s
}.

(** The state after [freeblock++]. *)
Definition bump s : mkst := Mkst (mk_img s) (freeinode s) (freeblock s + 1).

Lemma next_block_run s : nmeta ≤ freeblock s → freeblock s + 1 < FSSIZE + 1 → next_block s = Ok (freeblock s) (bump s).
Proof.
  intros H1 H2. unfold next_block, bind, get, modify, ret, bump. rewrite u32_small; [done|].
  pose proof nmeta_eq. lia.
Qed.

Lemma xint_blk x : 0 ≤ x < FSSIZE → xint x = x.
Proof. intros Hx. apply xint_small. unfold FSSIZE in Hx. lia. Qed.

(** A block the file already has. *)
Lemma provided_refl s d nb bn : appending s d nb → nb = bn + 1 → provided s d nb bn s d.
Proof.
  intros H ->. split; [done|done|done|by left|left; lia|unfold b2z; lia|split; [reflexivity|done]|done].
Qed.

Lemma fresh_mono f f' fb fb' : fresh f fb → fb ≤ fb' → (∀ y, fb' ≤ y → f' y = f y) → fresh f' fb'.
Proof. intros H Hle E x Hx. rewrite E by lia. apply H. lia. Qed.

Lemma direct_ok s d nb bn : appending s d nb → (nb = bn ∨ nb = bn + 1) → 0 ≤ bn < NDIRECT → freeblock s + 2 ≤ FSSIZE →
  wp (iappend_block bn d) (λ r s', provided s d nb bn s' r.1 ∧ r.2 = fblk (fimg s') r.1 bn) s.
Proof.
  intros Ha Hnb Hbn Hroom. pose proof nmeta_eq as Hm. pose proof Ha as [Hok Hf Hz Hfb]. pose proof Hf as [F1 F2 F3 F4 F5 F6 F7 F8].
  unfold iappend_block. rewrite (proj2 (Z.ltb_lt bn NDIRECT)) by lia. unfold addr.
  assert (fblk (fimg s) d bn = d_addrs d !!! Z.to_nat bn) as Eb by (unfold fblk; by rewrite (proj2 (Z.ltb_lt bn NDIRECT)) by lia).
  wp_step. destruct Hnb as [->| ->].
  - rewrite <- Eb, F8 by (change MAXFILE with 268 in *; unfold NDIRECT in *; lia). cbn [xint].
    change (xint 0 =? 0) with true. cbn iota. wp_step. eapply wp_of_Ok; [apply next_block_run; lia|]. wp_step.
    rewrite xint_blk by lia. wp_step. cbn [Datatypes.fst Datatypes.snd].
    destruct (grow_direct (fimg s) d bn (has_ind bn) (freeblock s) Hf ltac:(lia) Hfb) as (G1 & G2 & G3).
    assert (has_ind (bn + 1) = has_ind bn) as Eh by (unfold has_ind, NDIRECT in *; lia).
    split.
    + split; [|intros; apply G3; lia|done| |right; change (fimg (bump s)) with (fimg s); rewrite G2; lia|rewrite Eh; cbn [bump freeblock]; lia|split; [apply d_same_addr; lia|done]|done].
      * split; [by destruct Hok|by rewrite Eh| |cbn; lia]. apply (fresh_mono (fimg s) _ (freeblock s)); [done|cbn; lia|done].
      * left. apply with_addr_other; unfold NDIRECT in *; lia.
    + rewrite with_addr_same by (unfold NDIRECT in *; lia || done). rewrite xint_blk by lia. done.
  - specialize (F4 bn ltac:(lia)). rewrite <- Eb, (xint_blk (fblk _ _ _)), (proj2 (Z.eqb_neq _ 0)) by lia. wp_step. wp_step.
    cbn [Datatypes.fst Datatypes.snd]. split; [by apply provided_refl|]. rewrite <- Eb. apply xint_blk. lia.
Qed.

(** The indirect block exists. *)
Record indirect s d nb s' d' : Prop := {
  id_ok : mk_ok s';
  id_img : mk_img s' = mk_img s ∧ freeinode s' = freeinode s;
  id_file : mfile (fimg s') d' nb true (freeblock s');
  id_free : freeblock s' = freeblock s + 1 - b2z (has_ind nb);
  id_same : d_same d d' ∧ d_size d' = d_size d;
  id_ind : ind_of d' = ind_of d ∨ freeblock s ≤ ind_of d';
  id_keep bm : 0 ≤ bm < nb → fblk (fimg s') d' bm = fblk (fimg s) d bm
}.

Lemma ind_block_ok s d nb : appending s d nb → NDIRECT ≤ nb → freeblock s + 2 ≤ FSSIZE →
  wp (if addr NDIRECT d =? 0 then do b <- next_block; ret (with_addr NDIRECT (xint b) d) else ret d)
    (λ d' s', indirect s d nb s' d') s.
Proof.
  intros [Hok Hf Hz Hfb] Hnb Hroom. pose proof nmeta_eq as [Hm Hs]. pose proof (mf_ind _ _ _ _ _ Hf) as Hi.
  unfold addr. fold (ind_of d). destruct (has_ind nb) eqn:E.
  - rewrite xint_blk, (proj2 (Z.eqb_neq _ 0)) by lia. wp_step.
    split; [done|done|done|rewrite E; cbn [b2z]; lia|split; [reflexivity|done]|by left|done].
  - rewrite Hi. change (xint 0 =? 0) with true. cbn iota. wp_step. eapply wp_of_Ok; [apply next_block_run; lia|]. wp_step.
    rewrite xint_blk by lia. destruct (grow_ind (fimg s) d nb (freeblock s) Hf Hfb (Hz (freeblock s) ltac:(lia))) as (G1 & G2 & G3).
    split; [by destruct Hok|done|done|rewrite E; cbn [b2z bump freeblock]; lia|split; [apply d_same_addr; lia|done]| |].
    + right. rewrite G2. lia.
    + intros bm Hbm. apply G3. unfold has_ind in E. lia.
Qed.

Lemma indirect_ok s d nb bn : appending s d nb → (nb = bn ∨ nb = bn + 1) → NDIRECT ≤ bn < MAXFILE → freeblock s + 2 ≤ FSSIZE →
  wp (iappend_block bn d) (λ r s', provided s d nb bn s' r.1 ∧ r.2 = fblk (fimg s') r.1 bn) s.
Proof.
  intros Ha Hnb Hbn Hroom. pose proof nmeta_eq as [Hm Hs]. pose proof Ha as [Hok Hf Hz Hfb].
  assert (NDIRECT = 12) as H12 by done. assert (MAXFILE = 268) as H268 by done.
  unfold iappend_block. rewrite (proj2 (Z.ltb_ge bn NDIRECT)) by lia. wp_step.
  wp_call (ind_block_ok s d nb Ha); [lia|done|]. intros d1 s1 [I1 [I2 I2'] I3 I4 I5 I6 I7].
  pose proof (mf_ind _ _ _ _ _ I3) as Hi. cbn iota in Hi.
  assert (freeblock s ≤ freeblock s1 ≤ freeblock s + 1) as Hfb1 by (destruct (has_ind nb); cbn [b2z] in I4; lia).
  assert (∀ x, fimg s1 x = fimg s x) as Eimg by (intros x; unfold fimg; by rewrite I2).
  assert (fblk (fimg s1) d1 bn = get32 (bn - NDIRECT) (fimg s1 (ind_of d1))) as Eb by (unfold fblk; by rewrite (proj2 (Z.ltb_ge bn NDIRECT)) by lia).
  assert (has_ind (bn + 1) = true) as Eh by (unfold has_ind; lia).
  unfold addr. fold (ind_of d1). rewrite (xint_blk (ind_of d1)) by lia. wp_step. eapply wp_of_Ok; [apply rsect_run; [done|lia]|].
  rewrite <- Eb. wp_step. destruct Hnb as [->| ->].
  - rewrite (mf_rest _ _ _ _ _ I3 bn) by (lia || by right). cbn [Z.eqb]. wp_step. eapply wp_of_Ok; [apply next_block_run; lia|].
    wp_step. rewrite xint_blk by lia. eapply wp_of_Ok; [apply wsect_run; lia|]. wp_step. wp_step. cbn [Datatypes.fst Datatypes.snd].
    destruct (grow_indirect (fimg s1) d1 bn (freeblock s1) I3 ltac:(lia) ltac:(lia) (fimg_len s1 _ I1)) as (G1 & G2 & G3).
    set (s2 := put_img _ _ _).
    assert (∀ x, fupd (fimg s1) (ind_of d1) (put32 (bn - NDIRECT) (freeblock s1) (fimg s1 (ind_of d1))) x = fimg s2 x) as E2.
    { intros x. unfold s2. by rewrite fimg_put. }
    assert (mk_ok s2) as Hok2.
    { apply put_img_ok; [by destruct I1|]. rewrite length_put32; [by apply fimg_len|lia|]. rewrite fimg_len by done. unfold BSIZE. lia. }
    split.
    + split.
      * split; [done|rewrite Eh; by apply (mfile_ext _ _ _ _ _ _ E2)| |cbn; lia].
        apply (fresh_mono (fimg s) _ (freeblock s)); [done|cbn; lia|]. intros y Hy. cbn in Hy. rewrite <- E2, fupd_ne by lia. apply Eimg.
      * intros bm Hbm. rewrite <- (fblk_ext _ _ _ _ E2), G3, I7 by lia. done.
      * intros y Hy. rewrite <- E2, fupd_ne by done. apply Eimg.
      * done.
      * right. rewrite <- (fblk_ext _ _ _ _ E2), G2. lia.
      * rewrite Eh. cbn [s2 put_img bump freeblock b2z]. lia.
      * done.
      * cbn. done.
    + rewrite get_put32, u32_small, xint_blk; [|lia..|rewrite fimg_len by done; unfold BSIZE; lia].
      by rewrite <- (fblk_ext _ _ _ _ E2), G2.
  - pose proof (mf_blk _ _ _ _ _ I3 bn ltac:(lia)) as Hx. rewrite (proj2 (Z.eqb_neq _ 0)) by lia. wp_step. wp_step.
    cbn [Datatypes.fst Datatypes.snd]. rewrite <- Eb, xint_blk by lia. split; [|done].
    assert (has_ind (bn + 1) = true → freeblock s1 = freeblock s) as Efb by (intros Eh'; rewrite Eh' in I4; cbn in I4; lia).
    specialize (Efb Eh). split; [|done|by intros|done|left; lia|rewrite Efb; lia|done|done].
    split; [done|by rewrite Eh| |lia]. rewrite Efb. intros x Hx'. rewrite Eimg. by apply Hz.
Qed.

Lemma iappend_block_ok s d nb bn : appending s d nb → (nb = bn ∨ nb = bn + 1) → 0 ≤ bn < MAXFILE → freeblock s + 2 ≤ FSSIZE →
  wp (iappend_block bn d) (λ r s', provided s d nb bn s' r.1 ∧ r.2 = fblk (fimg s') r.1 bn) s.
Proof.
  intros Ha Hnb Hbn Hroom. destruct (Z.lt_ge_cases bn NDIRECT); [apply direct_ok|apply indirect_ok]; try done; lia.
Qed.

(** ** iappend *)
Definition nbk (off : Z) : Z := (off + BSIZE - 1) `div` BSIZE.

(** A write to a data block does not change the file map. *)
Lemma mfile_write f d nb ind fb bn b : mfile f d nb ind fb → 0 ≤ bn < nb →
  let f' := fupd f (fblk f d bn) b in
  mfile f' d nb ind fb ∧ ∀ bm, fblk f' d bm = fblk f d bm.
Proof.
  intros Hf Hbn f'. pose proof Hf as [F1 F2 F3 F4 F5 F6 F7 F8]. pose proof nmeta_eq as [Hm _]. pose proof (F4 bn Hbn) as Hx.
  assert (∀ bm, fblk f' d bm = fblk f d bm) as E.
  { intros bm. unfold fblk at 1 2. destruct (bm <? NDIRECT); [done|]. fold (ind_of d). unfold f'. rewrite fupd_ne; [done|].
    destruct ind; [apply not_eq_sym; by apply F7|]. rewrite F6. lia. }
  split; [|done]. split; try done; intros *; rewrite ?E; auto.
Qed.

(** One more piece of the data is in the file. *)
Record appended s d off (p : list Z) s' d' : Prop := {
  ad_ap : appending s' d' (nbk (off + Z.of_nat (length p)));
  ad_old q : 0 ≤ q < off → file_byte (fimg s') d' q = file_byte (fimg s) d q;
  ad_new i c : p !! i = Some c → file_byte (fimg s') d' (off + Z.of_nat i) = c;
  ad_out y : y < freeblock s → (∀ bm, 0 ≤ bm < nbk off → y ≠ fblk (fimg s) d bm) → y ≠ ind_of d → fimg s' y = fimg s y;
  ad_map bm : 0 ≤ bm < nbk off → fblk (fimg s') d' bm = fblk (fimg s) d bm;
  ad_ind : ind_of d' = ind_of d ∨ freeblock s ≤ ind_of d';
  ad_blk bm : 0 ≤ bm < nbk (off + Z.of_nat (length p)) → bm < nbk off ∨ freeblock s ≤ fblk (fimg s') d' bm;
  ad_free : freeblock s ≤ freeblock s' ≤ freeblock s + (nbk (off + Z.of_nat (length p)) - nbk off)
              + b2z (has_ind (nbk (off + Z.of_nat (length p)))) - b2z (has_ind (nbk off));
  ad_same : d_same d d' ∧ d_size d' = d_size d;
  ad_ino : freeinode s' = freeinode s
}.

Lemma appended_nil s d off : 0 ≤ off → appending s d (nbk off) → appended s d off [] s d.
Proof.
  intros Ho H. split; cbn [length Z.of_nat]; rewrite ?Z.add_0_r; try done; [by left| |lia].
  intros bm Hbm. left. lia.
Qed.

Lemma nbk_mono a b : a ≤ b → nbk a ≤ nbk b.
Proof. intros H. unfold nbk, BSIZE. apply Z.div_le_mono; lia. Qed.

Lemma appended_app s d off p1 s1 d1 p2 s2 d2 : 0 ≤ off →
  appended s d off p1 s1 d1 → appended s1 d1 (off + Z.of_nat (length p1)) p2 s2 d2 → appended s d off (p1 ++ p2) s2 d2.
Proof.
  intros Ho [A1 A2 A3 A4 A5 A6 A7 A8 [A9 A9'] A10] [B1 B2 B3 B4 B5 B6 B7 B8 [B9 B9'] B10].
  pose proof (nbk_mono off (off + Z.of_nat (length p1)) ltac:(lia)) as Hmon.
  assert (∀ x : Z, off + Z.of_nat (length p1) + x = off + (Z.of_nat (length p1) + x)) as Eadd by lia. rewrite Eadd in *.
  split; rewrite ?length_app, ?Nat2Z.inj_add; try done.
  - intros q Hq. rewrite B2, A2 by lia. done.
  - intros i c Hi. destruct (decide (i < length p1)%nat) as [Hlt|Hge].
    + rewrite lookup_app_l in Hi by done. rewrite B2 by lia. by apply A3.
    + rewrite lookup_app_r in Hi by lia. rewrite <- (B3 _ _ Hi). f_equal. lia.
  - intros y Hy Hout Hind. rewrite B4, A4; [done|done|done|done|lia| |].
    + intros bm Hbm ->. destruct (A7 bm Hbm) as [Hlt|Hge]; [|lia]. apply (Hout bm ltac:(lia)). apply A5. lia.
    + destruct A6 as [-> |]; [done|lia].
  - intros bm Hbm. rewrite B5, A5 by lia. done.
  - destruct B6 as [-> |]; [done|]. right. lia.
  - intros bm Hbm. destruct (B7 bm Hbm) as [Hlt|]; [|right; lia]. rewrite B5 by lia. apply A7. lia.
  - lia.
  - split; [by transitivity d1|congruence].
  - congruence.
Qed.

(** Writing a piece into the block that has been provided for it. *)
Lemma piece_ok s d off bn p1 s1 d1 :
  provided s d (nbk off) bn s1 d1 → (nbk off = bn ∨ nbk off = bn + 1) → 0 ≤ off → bn = off `div` BSIZE →
  let o := off - bn * BSIZE in o + Z.of_nat (length p1) ≤ BSIZE → nbk (off + Z.of_nat (length p1)) = bn + 1 →
  let x := fblk (fimg s1) d1 bn in
  appended s d off p1 (put_img x (splice o p1 (fimg s1 x)) s1) d1.
Proof.
  intros [P1 P2 P3 P4 P5 P6 P7 P8] Hnb Ho Ebn o Hfit Hnb' x. pose proof P1 as [Hok1 Hf1 Hz1 Hfb1]. pose proof nmeta_eq as [Hm Hs].
  assert (0 ≤ bn ∧ 0 ≤ o) as [Hbn Hpos] by (subst bn; unfold o, BSIZE; dlia).
  pose proof (mf_blk _ _ _ _ _ Hf1 bn ltac:(lia)) as Hx. fold x in Hx.
  destruct (mfile_write _ _ _ _ _ bn (splice o p1 (fimg s1 x)) Hf1 ltac:(lia)) as [Hf2 Emap]. fold x in Hf2, Emap.
  set (s2 := put_img _ _ _). assert (∀ y, fupd (fimg s1) x (splice o p1 (fimg s1 x)) y = fimg s2 y) as E2 by (intros y; unfold s2; by rewrite fimg_put).
  assert (∀ bm, fblk (fimg s2) d1 bm = fblk (fimg s1) d1 bm) as Emap2 by (intros bm; rewrite <- Emap; symmetry; by apply fblk_ext).
  assert (∀ bm, 0 ≤ bm < bn + 1 → fimg s1 (fblk (fimg s1) d1 bm) = fimg s (fblk (fimg s1) d1 bm)) as Edat.
  { intros bm Hbm. apply P3. pose proof (mf_blk _ _ _ _ _ Hf1 bm Hbm). pose proof (mf_ind _ _ _ _ _ Hf1) as Hi.
    destruct (has_ind (bn + 1)) eqn:Eh; [by apply (mf_sep _ _ _ _ _ Hf1)|]. rewrite Hi. lia. }
  assert (∀ q, 0 ≤ q < (bn + 1) * BSIZE → file_byte (fimg s2) d1 q =
    if decide (q `div` BSIZE = bn ∧ o ≤ q `mod` BSIZE < o + Z.of_nat (length p1)) then p1 !!! Z.to_nat (q `mod` BSIZE - o) else file_byte (fimg s1) d1 q) as FB.
  { intros q Hq. assert (0 ≤ q `div` BSIZE < bn + 1) as Hqb by (unfold BSIZE in *; dlia).
    assert (0 ≤ q `mod` BSIZE < BSIZE) as Hqm by (apply Z.mod_pos_bound; done).
    unfold file_byte. rewrite Emap2, <- E2. unfold fupd. destruct (decide (fblk (fimg s1) d1 (q `div` BSIZE) = x)) as [E|E].
    - assert (q `div` BSIZE = bn) as Eq by (apply (mf_inj _ _ _ _ _ Hf1); [lia|lia|done]).
      rewrite splice_lookup by (rewrite ?fimg_len by done; lia). rewrite E. repeat case_decide; try done; tauto.
    - rewrite decide_False; [done|]. intros [Eq _]. apply E. by rewrite Eq. }
  split.
  - rewrite Hnb'. split; [|by apply (mfile_ext _ _ _ _ _ _ E2)| |done].
    + apply put_img_ok; [done|]. rewrite length_splice by (rewrite ?fimg_len by done; lia). by apply fimg_len.
    + intros y Hy. cbn in Hy. rewrite <- E2, fupd_ne by lia. by apply Hz1.
  - intros q Hq. rewrite FB by (subst bn; unfold BSIZE in *; dlia). rewrite decide_False by (unfold o in *; subst bn; unfold BSIZE in *; dlia).
    unfold file_byte. assert (0 ≤ q `div` BSIZE < nbk off) as Hqb by (unfold nbk, BSIZE in *; dlia).
    rewrite Edat by lia. by rewrite P2.
  - intros i c Hi. pose proof (lookup_lt_Some _ _ _ Hi) as Hlt. rewrite FB by (subst bn; unfold o, BSIZE in *; dlia).
    assert ((off + Z.of_nat i) `div` BSIZE = bn ∧ (off + Z.of_nat i) `mod` BSIZE = o + Z.of_nat i) as [Ed Em] by (unfold o in *; subst bn; unfold BSIZE in *; split; dlia).
    rewrite Ed, Em, decide_True by lia. replace (Z.to_nat (o + Z.of_nat i - o)) with i by lia. by apply list_lookup_total_correct.
  - intros y Hy Hout Hind. rewrite <- E2, fupd_ne; [apply P3; destruct P4 as [->|]; [done|lia]|].
    intros ->. destruct P5 as [Hlt|Hge]; [|lia]. unfold x in Hout. rewrite P2 in Hout by lia. by apply (Hout bn ltac:(lia)).
  - intros bm Hbm. rewrite Emap2. by apply P2.
  - done.
  - rewrite Hnb'. intros bm Hbm. rewrite Emap2. destruct (decide (bm < nbk off)); [by left|]. right.
    assert (bm = bn) as -> by lia. destruct P5; [lia|done].
  - rewrite Hnb'. done.
  - done.
  - done.
Qed.

Lemma iappend_step_ok s d off p : appending s d (nbk off) → 0 ≤ off → p ≠ [] → off + Z.of_nat (length p) ≤ MAXFILE * BSIZE →
  freeblock s + 2 ≤ FSSIZE →
  wp (iappend_step (d, off, p)) (λ r s', ∃ d' p1 p2, p = p1 ++ p2 ∧ p1 ≠ [] ∧ r = inl (d', off + Z.of_nat (length p1), p2) ∧
    appended s d off p1 s' d') s.
Proof.
  intros Ha Ho Hp Hmax Hroom. pose proof nmeta_eq as [Hm Hs]. change (MAXFILE * BSIZE) with 274432 in Hmax. assert (MAXFILE = 268) as H268 by done.
  assert (0 < Z.of_nat (length p)) as Hlen by (destruct p; [done|cbn; lia]).
  unfold iappend_step. rewrite (proj2 (Z.leb_gt _ 0)) by lia. set (bn := off `div` BSIZE).
  set (n1 := Z.min (Z.of_nat (length p)) ((bn + 1) * BSIZE - off)).
  assert (0 ≤ bn < MAXFILE ∧ (nbk off = bn ∨ nbk off = bn + 1) ∧ 0 < n1 ≤ Z.of_nat (length p) ∧ nbk (off + n1) = bn + 1 ∧ off - bn * BSIZE + n1 ≤ BSIZE ∧ 0 ≤ off - bn * BSIZE) as (Hbn & Hnb & Hn1 & Hnb' & Hfit & Hpos).
  { unfold n1, nbk, bn in *. unfold BSIZE in *. split_and!; dlia. }
  rewrite (proj2 (Z.ltb_lt bn MAXFILE)) by lia. wp_step. unfold Image.assert. wp_step. wp_step.
  wp_call (iappend_block_ok s d (nbk off) bn Ha Hnb Hbn Hroom). intros [d1 x] s1 [[P1 P2 P3 P4 P5 P6 P7 P8] Ex]. cbn [Datatypes.fst Datatypes.snd] in *.
  pose proof P1 as [Hok1 Hf1 Hz1 Hfb1]. pose proof (mf_blk _ _ _ _ _ Hf1 bn ltac:(lia)) as Hx. rewrite <- Ex in Hx.
  assert (freeblock s1 ≤ FSSIZE) as Hfs1 by (unfold has_ind in P6; unfold b2z in P6; repeat case_match; lia).
  wp_step. eapply wp_of_Ok; [apply rsect_run; [done|lia]|]. wp_step. eapply wp_of_Ok; [apply wsect_run; lia|]. wp_step.
  set (p1 := take (Z.to_nat n1) p). assert (Z.of_nat (length p1) = n1) as Lp1 by (unfold p1; rewrite length_take; lia).
  exists d1, p1, (drop (Z.to_nat n1) p).
  split; [unfold p1; by rewrite take_drop|]. split; [intros E; rewrite E in Lp1; cbn in Lp1; lia|].
  split; [rewrite u32_small by lia; by rewrite Lp1|].
  rewrite Ex. apply piece_ok; [by split|done|done|done|by rewrite Lp1|by rewrite Lp1].
Qed.

Lemma iappend_loop_ok fuel s d off p : appending s d (nbk off) → 0 ≤ off → off + Z.of_nat (length p) ≤ MAXFILE * BSIZE →
  freeblock s + (nbk (off + Z.of_nat (length p)) - nbk off) + 3 ≤ FSSIZE + b2z (has_ind (nbk off)) → (length p < fuel)%nat →
  wp (loop fuel iappend_step (d, off, p)) (λ r s', ∃ d', r = (d', off + Z.of_nat (length p)) ∧ appended s d off p s' d') s.
Proof.
  revert s d off p. induction fuel as [|fuel IH]; intros s d off p Ha Ho Hmax Hroom Hf; [lia|].
  destruct (decide (p = [])) as [->|Hp].
  - eapply wp_of_Ok; [by apply loop_leave|]. exists d. rewrite Z.add_0_r. split; [done|by apply appended_nil].
  - pose proof (nbk_mono off (off + Z.of_nat (length p)) ltac:(lia)) as Hmon. cbn [loop]. wp_step. wp_call (iappend_step_ok s d off p Ha Ho Hp Hmax).
    { destruct (has_ind (nbk off)); cbn [b2z] in Hroom; lia. }
    intros r s1 (d1 & p1 & p2 & -> & Hp1 & -> & A). rewrite length_app, Nat2Z.inj_add in *.
    assert (0 < length p1)%nat as Hl1 by (destruct p1; [done|cbn; lia]).
    assert (off + Z.of_nat (length p1) + Z.of_nat (length p2) = off + (Z.of_nat (length p1) + Z.of_nat (length p2))) as E by lia.
    wp_call (IH s1 d1 (off + Z.of_nat (length p1)) p2); [apply A|lia|lia| |lia|].
    { rewrite E. pose proof (ad_free _ _ _ _ _ _ A). lia. }
    intros r s2 (d2 & -> & B). exists d2. split; [by rewrite E|]. by apply (appended_app s d off p1 s1 d1).
Qed.

(** ** Inodes of the image *)
Definition inode_of (inum : Z) s : dinode := get_dinode (inum `mod` IPB) (fimg s (IBLOCK inum sb)).

Lemma IBLOCK_range inum : 0 ≤ inum < NINODES → 0 < IBLOCK inum sb < nmeta ∧ 0 ≤ inum `mod` IPB < IPB.
Proof.
  intros Hi. unfold IBLOCK. change (sb_inodestart sb) with 33. change IPB with 16. change nmeta with 47. unfold NINODES in Hi.
  rewrite u32_small by dlia. split; dlia.
Qed.

Lemma IBLOCK_inj i j : 0 ≤ i < NINODES → 0 ≤ j < NINODES → IBLOCK i sb = IBLOCK j sb → i `mod` IPB = j `mod` IPB → i = j.
Proof.
  intros Hi Hj. unfold IBLOCK. change (sb_inodestart sb) with 33. change IPB with 16. unfold NINODES in *. rewrite !u32_small by dlia. dlia.
Qed.

Lemma winode_run s inum d : mk_ok s → 0 ≤ inum < NINODES →
  winode inum d s = Ok tt (put_img (IBLOCK inum sb) (put_dinode (inum `mod` IPB) d (fimg s (IBLOCK inum sb))) s).
Proof.
  intros Hok Hi. pose proof (IBLOCK_range inum Hi) as [Hr _]. pose proof nmeta_eq. unfold winode.
  rewrite (bind_Ok _ _ _ _ _ (rsect_run s (IBLOCK inum sb) Hok ltac:(lia))). apply wsect_run. lia.
Qed.

Lemma appending_winode s d nb inum d' : appending s d nb → 0 ≤ inum < NINODES → dinode_ok d' →
  let s' := put_img (IBLOCK inum sb) (put_dinode (inum `mod` IPB) d' (fimg s (IBLOCK inum sb))) s in
  appending s' d nb ∧ (∀ bm, fblk (fimg s') d bm = fblk (fimg s) d bm) ∧ (∀ y, nmeta ≤ y → fimg s' y = fimg s y) ∧
  inode_of inum s' = d' ∧ ∀ j, 0 ≤ j < NINODES → j ≠ inum → inode_of j s' = inode_of j s.
Proof.
  intros [Hok Hf Hz Hfb] Hi Hd s'. pose proof (IBLOCK_range inum Hi) as [Hr Hm]. pose proof nmeta_eq as [Hn Hs].
  assert (∀ y, nmeta ≤ y ∨ y = 0 → fimg s' y = fimg s y) as E by (intros y Hy; unfold s'; rewrite fimg_put, fupd_ne by lia; done).
  assert (∀ bm, fblk (fimg s') d bm = fblk (fimg s) d bm) as Eb.
  { intros bm. unfold fblk. destruct (bm <? NDIRECT); [done|]. fold (ind_of d). rewrite E; [done|].
    pose proof (mf_ind _ _ _ _ _ Hf). destruct (has_ind nb); lia. }
  split_and!; [|done|by intros; apply E; left| |].
  - split; [|destruct Hf; by split; try done; intros *; rewrite ?Eb; auto| |done].
    + apply put_img_ok; [done|]. rewrite length_put_dinode by (done || by apply fimg_len). by apply fimg_len.
    + intros y Hy. cbn in Hy. rewrite E by lia. by apply Hz.
  - unfold inode_of, s'. rewrite fimg_put, fupd_eq. apply get_put_dinode; [done|by apply fimg_len|done].
  - intros j Hj Hne. pose proof (IBLOCK_range j Hj) as [_ Hjm]. unfold inode_of, s'. rewrite fimg_put. unfold fupd. case_decide as Eq; [|done].
    rewrite Eq. apply get_put_dinode_ne; [done|done| |by apply fimg_len|done]. intros Em. apply Hne. by apply IBLOCK_inj.
Qed.

(** C32: Iappend(inum, p, n) appends to the file: read with the kernel's inode layout,
    the file's bytes afterwards are the old ones followed by the [n] new ones, through
    direct blocks and the indirect block, which it allocates when they are needed; the
    inode on the image has the new size and its blocks are data blocks no other file
    has; no other inode changes and no block of another file does. *)
Theorem iappend_appends s inum p : let d := inode_of inum s in
  0 ≤ inum < NINODES → dinode_ok d → appending s d (nbk (d_size d)) →
  d_size d + Z.of_nat (length p) ≤ MAXFILE * BSIZE →
  freeblock s + (nbk (d_size d + Z.of_nat (length p)) - nbk (d_size d)) + 3 ≤ FSSIZE →
  wp (iappend inum p) (λ _ s', let d' := inode_of inum s' in
    d_size d' = d_size d + Z.of_nat (length p) ∧ d_type d' = d_type d ∧ d_nlink d' = d_nlink d ∧
    dinode_ok d' ∧ appending s' d' (nbk (d_size d')) ∧
    (∀ q, 0 ≤ q < d_size d → file_byte (fimg s') d' q = file_byte (fimg s) d q) ∧
    (∀ i c, p !! i = Some c → file_byte (fimg s') d' (d_size d + Z.of_nat i) = c) ∧
    (∀ j, 0 ≤ j < NINODES → j ≠ inum → inode_of j s' = inode_of j s) ∧
    (∀ y, nmeta ≤ y < freeblock s → (∀ bm, 0 ≤ bm < nbk (d_size d) → y ≠ fblk (fimg s) d bm) → y ≠ ind_of d →
       fimg s' y = fimg s y)) s.
Proof.
  intros d Hi Hd Ha Hmax Hroom. pose proof (IBLOCK_range inum Hi) as [Hr Hm]. pose proof nmeta_eq as [Hn Hs]. pose proof Ha as [Hok Hf Hz Hfb].
  set (off := d_size d) in *. assert (0 ≤ off) as Hoff by apply Hd. change (MAXFILE * BSIZE) with 274432 in Hmax.
  unfold iappend, rinode. wp_step. wp_step. eapply wp_of_Ok; [apply rsect_run; [done|lia]|]. wp_step. fold (inode_of inum s). fold d.
  rewrite xint_small by (fold off; lia). fold off. wp_step.
  wp_call (iappend_loop_ok (S (length p)) s d off p Ha Hoff); [done|unfold b2z; case_match; lia|lia|].
  intros r s1 (d1 & -> & [A1 A2 A3 A4 A5 A6 A7 A8 [A9 A9'] A10]). set (off' := off + Z.of_nat (length p)) in *.
  rewrite xint_small by lia. pose proof A1 as [Hok1 Hf1 Hz1 Hfb1].
  assert (∀ z, 0 ≤ z < NINODES → inode_of z s1 = inode_of z s) as Eino.
  { intros z Hz'. unfold inode_of. rewrite A4; [done|pose proof (IBLOCK_range z Hz'); lia| |].
    - intros bm Hbm. pose proof (mf_blk _ _ _ _ _ Hf bm Hbm). pose proof (IBLOCK_range z Hz'). lia.
    - pose proof (mf_ind _ _ _ _ _ Hf). pose proof (IBLOCK_range z Hz'). destruct (has_ind _); lia. }
  assert (dinode_ok (with_size off' d1)) as Hd1.
  { destruct Hd as [D1 D2 D3 D4 D5 D6 D7], A9 as [B1 B2 B3 B4 B5]. split; cbn; rewrite ?B1, ?B2, ?B3, ?B4; try done; [lia|by apply B5|apply Hf1]. }
  destruct (appending_winode s1 d1 _ inum (with_size off' d1) A1 Hi Hd1) as (W1 & W2 & W3 & W4 & W5).
  eapply wp_of_Ok; [by apply winode_run|]. cbn zeta. set (s2 := put_img _ _ _) in *. rewrite W4. cbn [d_size with_size d_type d_nlink].
  assert (∀ q, 0 ≤ q < off' → file_byte (fimg s2) (with_size off' d1) q = file_byte (fimg s1) d1 q) as EB.
  { intros q Hq. unfold file_byte. change (fblk (fimg s2) (with_size off' d1)) with (fblk (fimg s2) d1). rewrite W2, W3; [done|].
    assert (0 ≤ q `div` BSIZE < nbk off') as Hqb by (unfold nbk, BSIZE; dlia). pose proof (mf_blk _ _ _ _ _ Hf1 _ Hqb). lia. }
  split_and!; [done|apply A9|apply A9|done| | | | |].
  - destruct W1 as [X1 X2 X3 X4]. split; [done|by destruct X2|done|done].
  - intros q Hq. rewrite EB, A2 by lia. done.
  - intros i c Hc. pose proof (lookup_lt_Some _ _ _ Hc). rewrite EB by lia. by apply A3.
  - intros j Hj Hne. rewrite W5 by done. by apply Eino.
  - intros y Hy Hout Hind. rewrite W3 by lia. apply A4; [lia|done|done].
Qed.

(** ** The free map *)
Lemma set_bits_spec used b : 0 ≤ used ≤ BPB → 0 ≤ b < BPB →
  length (fold_left (λ buf i, set_bit i buf) (seqZ 0 used) zero_block) = Z.to_nat BSIZE ∧
  bit_set b (fold_left (λ buf i, set_bit i buf) (seqZ 0 used) zero_block) = (b <? used).
Proof.
  intros Hu Hb. assert (∃ n, used = Z.of_nat n) as [n ->] by (exists (Z.to_nat used); lia).
  induction n as [|n IH].
  - change (seqZ 0 (Z.of_nat 0)) with (@nil Z). cbn [fold_left]. split; [done|]. rewrite (proj2 (Z.ltb_ge b _)) by lia.
    unfold bit_set, zero_block. rewrite lookup_total_replicate_2; [done|]. unfold BPB, BSIZE in *. dlia.
  - rewrite Nat2Z.inj_succ, <- Z.add_1_r, seqZ_app, fold_left_app by lia.
    change (seqZ (0 + Z.of_nat n) 1) with [Z.of_nat 0 + (0 + Z.of_nat n)]. cbn [fold_left Z.of_nat]. rewrite !Z.add_0_l.
    destruct IH as [IH1 IH2]; [lia|]. set (buf := fold_left _ _ _) in *. split; [by rewrite length_set_bit|].
    rewrite bit_set_bit, IH2; [|lia|lia|rewrite IH1; unfold BPB, BSIZE in *; dlia].
    apply eq_true_iff_eq. rewrite orb_true_iff, bool_decide_eq_true, !Z.ltb_lt. lia.
Qed.

(** C33: The free map that mkfs's balloc(used) writes says to the kernel that exactly the
    first [used] blocks are in use; the superblock mkfs writes places the free map outside
    the log, and no block the map calls free is part of the log or of the map, as the
    kernel's allocator needs. *)
Theorem balloc_marks s used : mk_ok s → nmeta ≤ used ≤ FSSIZE →
  wp (balloc used) (λ _ s', (∀ b, 0 ≤ b < sb_size sb → blk_used sb (fimg s') b = (b <? used)) ∧
    fs_layout (sb_logstart sb) sb ∧ blocks_ok (sb_logstart sb) sb (fimg s')) s.
Proof.
  intros Hok Hu. pose proof nmeta_eq as [Hn Hs]. unfold balloc, Image.assert. rewrite (proj2 (Z.ltb_lt used BPB)) by (change BPB with 8192; lia).
  wp_step. wp_step. eapply wp_of_Ok; [apply wsect_run; change (sb_bmapstart sb) with 46; lia|].
  change (sb_bmapstart sb) with 46. set (buf := fold_left _ _ _).
  assert (∀ b, 0 ≤ b < 2000 → BBLOCK b sb = 46 ∧ b `mod` BPB = b) as EB.
  { intros b Hb. unfold BBLOCK. change (sb_bmapstart sb) with 46. change BPB with 8192. rewrite u32_small by dlia. split; dlia. }
  assert (∀ b, 0 ≤ b < sb_size sb → blk_used sb (fimg (put_img 46 buf s)) b = (b <? used)) as Hused.
  { intros b Hb. change (sb_size sb) with 2000 in Hb. destruct (EB b Hb) as [E1 E2]. unfold blk_used. rewrite E1, E2, fimg_put, fupd_eq.
    apply set_bits_spec; change BPB with 8192; lia. }
  split_and!; [done| |].
  - split; [done|done|]. intros b Hb. change (sb_size sb) with 2000 in Hb. change (sb_bmapstart sb) with 46. change BPB with 8192.
    unfold home. change (sb_logstart sb) with 2. change LOGBLOCKS with 30. split; dlia.
  - split.
    + intros x. apply fimg_len, put_img_ok; [done|]. unfold buf. rewrite (proj1 (set_bits_spec used 0 ltac:(change BPB with 8192; lia) ltac:(done))). done.
    + intros b Hb. rewrite Hused by done. intros Hb'%Z.ltb_ge. change (sb_size sb) with 2000 in Hb. split.
      * unfold home. change (sb_logstart sb) with 2. change LOGBLOCKS with 30. lia.
      * intros c Hc. change (sb_size sb) with 2000 in Hc. rewrite (proj1 (EB c Hc)). lia.
Qed.

(** ** An image on which the theorems can be tried *)
Definition demo_img : gmap Z block := list_to_map ((λ x, (x, zero_block)) <$> seqZ 0 FSSIZE).
Definition demo_mk : mkst := Mkst demo_img 2 47.

Lemma demo_img_lookup x b : demo_img !! x = Some b ↔ 0 ≤ x < FSSIZE ∧ b = zero_block.
Proof.
  unfold demo_img. rewrite <- elem_of_list_to_map.
  - rewrite list_elem_of_fmap. split.
    + intros (y & [= <- ->] & Hy%elem_of_seqZ). split; [lia|done].
    + intros [Hx ->]. exists x. split; [done|]. apply elem_of_seqZ. lia.
  - assert (((λ x, (x, zero_block)) <$> seqZ 0 FSSIZE : list (Z * block)).*1 = seqZ 0 FSSIZE) as ->; [|apply NoDup_seqZ].
    rewrite <- list_fmap_compose. apply list_fmap_id.
Qed.

Lemma demo_mk_ok : mk_ok demo_mk.
Proof. split; cbn; [intros x Hx; exists zero_block; by apply demo_img_lookup|]. by intros x b [_ ->]%demo_img_lookup. Qed.

Lemma demo_fimg x : fimg demo_mk x = zero_block.
Proof. unfold fimg. cbn. destruct (demo_img !! x) eqn:E; [|done]. by apply demo_img_lookup in E as [_ ->]. Qed.

Lemma demo_inode : inode_of 1 demo_mk = dinode0.
Proof. unfold inode_of. rewrite demo_fimg. vm_compute. reflexivity. Qed.

Lemma demo_appending : appending demo_mk dinode0 (nbk 0).
Proof.
  split; [apply demo_mk_ok| |intros x _; apply demo_fimg|done].
  split; [done|done|done|by intros bn H; change (nbk 0) with 0 in H; lia|by intros bn bm H; change (nbk 0) with 0 in H; lia|done|by intros bn H; change (nbk 0) with 0 in H; lia|].
  intros bn Hbn _. unfold fblk. destruct (Z.ltb_spec bn NDIRECT) as [H|H].
  - cbn [d_addrs dinode0]. change (nbk 0) with 0 in Hbn. unfold NDIRECT in H. apply lookup_total_replicate_2. lia.
  - rewrite demo_fimg. apply get32_zero.
Qed.

Lemma iappend_appends_witness :
  wp (iappend 1 [7; 8; 9]) (λ _ s', d_size (inode_of 1 s') = 3 ∧ file_byte (fimg s') (inode_of 1 s') 2 = 9) demo_mk.
Proof.
  eapply wp_mono; [apply (iappend_appends demo_mk 1 [7; 8; 9])|].
  - unfold NINODES. lia.
  - rewrite demo_inode. split; try done. by apply Forall_replicate.
  - rewrite demo_inode. apply demo_appending.
  - rewrite demo_inode. by vm_compute.
  - rewrite demo_inode. by vm_compute.
  - intros [] s' (Hsz & _ & _ & _ & _ & _ & Hnew & _). rewrite demo_inode in *. split; [exact Hsz|]. exact (Hnew 2%nat 9 eq_refl).
Defined.

Lemma balloc_marks_witness :
  wp (balloc 51) (λ _ s', blk_used sb (fimg s') 50 = true ∧ blk_used sb (fimg s') 51 = false) demo_mk.
Proof.
  eapply wp_mono; [apply (balloc_marks demo_mk 51 demo_mk_ok); by vm_compute|].
  intros [] s' (H & _). rewrite !H by by vm_compute. done.
Defined.
