(* ===== verification/Pipe.v ===== *)
(** * kernel/pipe.c: pipes

    A pipe is a struct in a page from kalloc; a [struct pipe *] is the address of
    the page, and [pipes] maps the addresses in use to their structs. The byte
    counters are uints and wrap. [ch] is the address of the local variable of
    that name, through which each byte is copied from or to user memory.
    pipealloc, which also allocates files, is in File. *)
From S2P Require Import Prelude Memory KString Riscv Spinlock Kalloc Vm Sched Sleeplock Disk Bio Log Fs.

Definition PIPESIZE : Z := 512.

Record pipe : Type := Pipe {
  pi_lock : spinlock;
  pi_data : list Z;
  nread : Z;
  nwrite : Z;
  readopen : Z;
  writeopen : Z
}.
Definition pipe0 : pipe := Pipe (Spin 0 "" None) (replicate (Z.to_nat PIPESIZE) 5) 0 0 0 0.
#[export] Instance pipe_inhabited : Inhabited pipe := populate pipe0.

Record pip (D : Type) : Type := Pip { pi_f : fst D; pipes : gmap Z pipe }.
Arguments Pip {D}.
Arguments pi_f {D}.
Arguments pipes {D}.

Section pipe.
Context {D : Type} `{!BlockDev D}.
Context (end_ : Z).
Implicit Types (s : pip D) (pi : Z).

Definition on_pf : lens (pip D) (fst D) := Lens pi_f (λ f s, Pip f (pipes s)).
Definition pi_p s : pst := f_p (pi_f s).
Definition on_pp : lens (pip D) pst := Lens pi_p (λ p s, Pip (with_fp p (pi_f s)) (pipes s)).
Definition on_pvst : lens (pip D) vst :=
  Lens (λ s, view on_vst (pi_f s)) (λ v s, Pip (over on_vst v (pi_f s)) (pipes s)).
Definition pipe_at pi s : pipe := pipes s !!! pi.
Definition set_pipe pi (f : pipe → pipe) : M (pip D) unit :=
  modify (λ s, Pip (pi_f s) (<[pi := f (pipe_at pi s)]> (pipes s))).
Definition with_plock (l : spinlock) (p : pipe) : pipe :=
  Pipe l (pi_data p) (nread p) (nwrite p) (readopen p) (writeopen p).
Definition on_plk pi : lens (pip D) lockst :=
  Lens (λ s, (p_hart (pi_p s), pi_lock (pipe_at pi s)))
       (λ t s, Pip (with_fp (Pst t.1 (procs (pi_p s))) (pi_f s))
                 (<[pi := with_plock t.2 (pipe_at pi s)]> (pipes s))).
Definition on_pslst pi : lens (pip D) slst :=
  Lens (λ s, (pi_p s, pi_lock (pipe_at pi s)))
       (λ t s, Pip (with_fp t.1 (pi_f s)) (<[pi := with_plock t.2 (pipe_at pi s)]> (pipes s))).
Definition on_kst : lens (pip D) kst :=
  Lens (λ s, v_k (view on_pvst s)) (λ k s, over on_pvst (Vst k (v_procs (view on_pvst s))) s).

Definition pipeclose pi (writable : Z) : M (pip D) unit :=
  zoom (on_plk pi) acquire ;;
  (if negb (writable =? 0) then
     set_pipe pi (λ p, Pipe (pi_lock p) (pi_data p) (nread p) (nwrite p) (readopen p) 0) ;;
     zoom on_pp (wakeup (ChPipeRead pi))
   else
     set_pipe pi (λ p, Pipe (pi_lock p) (pi_data p) (nread p) (nwrite p) 0 (writeopen p)) ;;
     zoom on_pp (wakeup (ChPipeWrite pi))) ;;
  do s <- get;
  if (readopen (pipe_at pi s) =? 0) && (writeopen (pipe_at pi s) =? 0) then
    zoom (on_plk pi) release ;;
    zoom on_kst (kfree end_ pi) ;;
    modify (λ s, Pip (pi_f s) (delete pi (pipes s)))
  else zoom (on_plk pi) release.

(** [pi->data[pi->nwrite++ % PIPESIZE] = c] *)
Definition put_byte (c : Z) (p : pipe) : pipe :=
  Pipe (pi_lock p) (<[Z.to_nat (nwrite p `mod` PIPESIZE) := c]> (pi_data p))
    (nread p) (u32 (nwrite p + 1)) (readopen p) (writeopen p).

Definition pagetable_of (pr : nat) s : Z := p_pgtbl (p_priv (procs (pi_p s) !!! pr)).

(** Every iteration that does not leave or sleep writes a byte: fuel n + 1. *)
Definition pipewrite (ch pi addr n : Z) : M (pip D) Z :=
  do pr <- zoom on_pp me;
  zoom (on_plk pi) acquire ;;
  do r <- loop (S (Z.to_nat n)) (λ i,
    if negb (i <? n) then ret (inr (inr i))
    else
      do p <- gets (pipe_at pi);
      do k <- (if readopen p =? 0 then ret true else
               do k <- zoom on_pp (killed pr); ret (negb (k =? 0)));
      if k : bool then zoom (on_plk pi) release ;; ret (inr (inl (-1)))
      else
        do p <- gets (pipe_at pi);
        if nwrite p =? u32 (nread p + PIPESIZE) then
          zoom on_pp (wakeup (ChPipeRead pi)) ;;
          zoom (on_pslst pi) (sleep (ChPipeWrite pi)) ;;
          ret (inl i)
        else
          do pt <- gets (pagetable_of pr);
          do r <- zoom on_pvst (copyin end_ pt ch (u64 (addr + i)) 1);
          if r =? -1 then ret (inr (inr i))
          else
            do c <- gets (λ s, rd (km_mem (f_km (pi_f s))) ch);
            set_pipe pi (put_byte c) ;;
            ret (inl (i + 1))) 0;
  match r with
  | inl v => ret v
  | inr i =>
      zoom on_pp (wakeup (ChPipeRead pi)) ;;
      zoom (on_plk pi) release ;;
      ret i
  end.

(** The copying loop of piperead, from [i]. *)
Definition piperead_copy (ch : Z) (pr : nat) (pi addr n : Z) : M (pip D) Z :=
  loop (S (Z.to_nat n)) (λ i,
    if negb (i <? n) then ret (inr i)
    else
      do p <- gets (pipe_at pi);
      if nread p =? nwrite p then ret (inr i)
      else
        let c := pi_data p !!! Z.to_nat (nread p `mod` PIPESIZE) in
        zoom on_pf (zoom on_mem (modify (λ m, wr m ch c))) ;;
        do pt <- gets (pagetable_of pr);
        do r <- zoom on_pvst (copyout end_ pt (u64 (addr + i)) ch 1);
        if r =? -1 then ret (inr (if i =? 0 then -1 else i))
        else
          set_pipe pi (λ p, Pipe (pi_lock p) (pi_data p) (u32 (nread p + 1)) (nwrite p) (readopen p) (writeopen p)) ;;
          ret (inl (i + 1))) 0.

(** piperead sleeps at most once per run: fuel 2. *)
Definition piperead (ch pi addr n : Z) : M (pip D) Z :=
  do pr <- zoom on_pp me;
  zoom (on_plk pi) acquire ;;
  do k <- loop 2 (λ _,
    do p <- gets (pipe_at pi);
    if (nread p =? nwrite p) && negb (writeopen p =? 0) then
      do k <- zoom on_pp (killed pr);
      if negb (k =? 0) then zoom (on_plk pi) release ;; ret (inr true)
      else zoom (on_pslst pi) (sleep (ChPipeRead pi)) ;; ret (inl tt)
    else ret (inr false)) tt;
  if k : bool then ret (-1)
  else
    do i <- piperead_copy ch pr pi addr n;
    zoom on_pp (wakeup (ChPipeWrite pi)) ;;
    zoom (on_plk pi) release ;;
    ret i.
End pipe.
