(* ===== verification/PipeProps.v ===== *)
(** * Pipes as queues of bytes (kernel/pipe.c)

    The ring buffer of a pipe, with its two wrapping counters, against the list of
    the bytes written and not yet read. *)
From S2P Require Import Prelude Memory KString Riscv Spinlock Kalloc Vm VmSpec VmOps VmProps VmCopy Sched Sleeplock Disk Bio Log Fs Pipe.

(** ** The queue *)
Definition pcount (p : pipe) : Z := u32 (nwrite p - nread p).
Definition pcontents (p : pipe) : list Z :=
  (λ i, pi_data p !!! Z.to_nat ((nread p + i) `mod` PIPESIZE)) <$> seqZ 0 (pcount p).

Record pipe_ok (p : pipe) : Prop := {
  po_len : length (pi_data p) = Z.to_nat PIPESIZE;
  po_nread : 0 ≤ nread p < 2 ^ 32;
  po_nwrite : 0 ≤ nwrite p < 2 ^ 32;
  po_count : pcount p ≤ PIPESIZE
}.

Lemma length_pcontents p : Z.of_nat (length (pcontents p)) = pcount p.
Proof. unfold pcontents. rewrite length_fmap, length_seqZ. pose proof (u32_range (nwrite p - nread p)). unfold pcount. lia. Qed.

(** The tests the code makes on the counters. *)
Lemma pipe_full p : pipe_ok p → (nwrite p =? u32 (nread p + PIPESIZE)) = (pcount p =? PIPESIZE).
Proof.
  intros [_ Hr Hw Hc]. unfold pcount, PIPESIZE, u32 in *. apply eq_true_iff_eq. rewrite !Z.eqb_eq. dlia.
Qed.

Lemma pipe_empty p : pipe_ok p → (nread p =? nwrite p) = (pcount p =? 0).
Proof. intros [_ Hr Hw Hc]. unfold pcount, PIPESIZE, u32 in *. apply eq_true_iff_eq. rewrite !Z.eqb_eq. dlia. Qed.

(** The counters wrap at a multiple of PIPESIZE. *)
Lemma u32_ring x : u32 x `mod` PIPESIZE = x `mod` PIPESIZE.
Proof. unfold u32, PIPESIZE. dlia. Qed.

Lemma put_byte_ok c p : pipe_ok p → pcount p < PIPESIZE →
  pipe_ok (put_byte c p) ∧ pcontents (put_byte c p) = pcontents p ++ [c].
Proof.
  intros [Hl Hr Hw Hc] Hlt.
  assert (0 ≤ pcount p ∧ u32 (u32 (nwrite p + 1) - nread p) = pcount p + 1) as [H0 Ec].
  { unfold pcount, PIPESIZE, u32 in *. dlia. }
  pose proof (u32_range (nwrite p + 1)) as Hu.
  assert (pcount (put_byte c p) = pcount p + 1) as Ep by (unfold pcount at 1; cbn [nwrite nread put_byte]; exact Ec). split.
  - split; cbn [pi_data nread nwrite put_byte]; [by rewrite length_insert|lia|lia|lia].
  - unfold pcontents. rewrite Ep, seqZ_app, fmap_app by lia. cbn [nread put_byte pi_data]. f_equal.
    + apply list_fmap_ext. intros k i [-> Hi]%lookup_seqZ. apply list_lookup_total_insert_ne.
      unfold pcount, PIPESIZE, u32 in *. intros E%Z2Nat.inj; dlia.
    + rewrite Z.add_0_l. change (seqZ (pcount p) 1) with [Z.of_nat 0 + pcount p]. rewrite Z.add_0_l. cbn [fmap list_fmap]. f_equal. replace ((nread p + pcount p) `mod` PIPESIZE) with (nwrite p `mod` PIPESIZE).
      2: { unfold pcount, PIPESIZE, u32. dlia. }
      apply list_lookup_total_insert_eq. rewrite Hl. pose proof (Z.mod_pos_bound (nwrite p) PIPESIZE ltac:(done)). lia.
Qed.

(** [pi->nread++] *)
Definition get_byte (p : pipe) : pipe :=
  Pipe (pi_lock p) (pi_data p) (u32 (nread p + 1)) (nwrite p) (readopen p) (writeopen p).

Lemma get_byte_ok p : pipe_ok p → 0 < pcount p →
  pipe_ok (get_byte p) ∧ pcontents p = pi_data p !!! Z.to_nat (nread p `mod` PIPESIZE) :: pcontents (get_byte p).
Proof.
  intros [Hl Hr Hw Hc] Hlt.
  assert (pcount (get_byte p) = pcount p - 1) as Ep.
  { unfold pcount in *. cbn [nwrite nread get_byte]. unfold PIPESIZE, u32 in *. dlia. }
  pose proof (u32_range (nread p + 1)) as Hu. split.
  - split; cbn [pi_data nread nwrite get_byte]; [done|lia|lia|lia].
  - unfold pcontents. rewrite Ep, (seqZ_cons 0 (pcount p)) by lia. cbn [nread get_byte pi_data]. rewrite fmap_cons, Z.add_0_r. f_equal.
    rewrite <- (fmap_add_seqZ 1 0), <- list_fmap_compose. replace (Z.pred (pcount p)) with (pcount p - 1) by lia.
    apply list_fmap_ext. intros k i _. cbn. f_equal. f_equal. rewrite <- (u32_ring (u32 (nread p + 1) + i)).
    rewrite <- (u32_ring (nread p + (1 + i))). f_equal. unfold u32. dlia.
Qed.

(** ** Inside pi->lock *)
Section pipe.
Context {D : Type} `{!BlockDev D}.
Context (end_ : Z) (end_pos : 0 < end_).
Implicit Types (s : pip D) (pi : Z) (p : pipe).
Abbreviation pmem s := (km_mem (f_km (pi_f s))).
Abbreviation twf := (twf end_ 2).

(** The allocator and memory, as the copying functions see them. *)
Definition ukst s : kst := v_k (view on_pvst s).

(** [s] with the memory and the pipe at [pi] replaced. *)
Definition upd s pi (m : mem) p : pip D := Pip (over on_mem m (pi_f s)) (<[pi := p]> (pipes s)).

Lemma upd_mem s pi m p m' : over on_pvst (Vst (set_mem m' (ukst s)) (v_procs (view on_pvst s))) (upd s pi m p) = upd s pi m' p.
Proof. destruct s as [[[[[]] ] ] ]. done. Qed.

Lemma upd_ukst s pi m p : ukst (upd s pi m p) = set_mem m (ukst s).
Proof. done. Qed.

Lemma pipe_at_upd s pi m p : pipe_at pi (upd s pi m p) = p.
Proof. unfold pipe_at. cbn. apply lookup_total_insert_eq. Qed.

Lemma set_pipe_upd s pi m p g : set_pipe pi g (upd s pi m p) = Ok tt (upd s pi m (g p)).
Proof.
  unfold set_pipe, modify. rewrite pipe_at_upd. unfold upd. cbn [pi_f pipes]. by rewrite insert_insert_eq.
Qed.

Lemma store_upd s pi m p a c :
  zoom on_pf (zoom on_mem (modify (λ m, wr m a c))) (upd s pi m p) = Ok tt (upd s pi (wr m a c) p).
Proof. done. Qed.

(** The thread in the critical section: interrupts are off, the process runs. *)
Record inside_pipe s (pr : nat) (q : proc) (root : Z) : Prop := {
  ip_ok : pst_ok (pi_p s);
  ip_sync : sync (p_hart (pi_p s)) = p_hart (pi_p s);
  ip_proc : procs (pi_p s) !! pr = Some q;
  ip_alive : p_killed (p_pub q) = 0;
  ip_root : p_pgtbl (p_priv q) = root
}.

Lemma killed_upd s pr q root pi m p :
  inside_pipe s pr q root → zoom on_pp (killed pr) (upd s pi m p) = Ok 0 (upd s pi m p).
Proof.
  intros [Hok Hs Hq Hk _]. rewrite (zoom_Ok on_pp _ (upd s pi m p) 0 (pi_p s)).
  - destruct s as [[[[[]] ] ] ]. done.
  - change (view on_pp (upd s pi m p)) with (pi_p s). rewrite (killed_run _ pr q Hok Hq), Hk, Hs. by destruct (pi_p s).
Qed.

Lemma pagetable_upd s pr q root pi m p : inside_pipe s pr q root → pagetable_of pr (upd s pi m p) = root.
Proof.
  intros [_ _ Hq _ Hr]. unfold pagetable_of. change (pi_p (upd s pi m p)) with (pi_p s).
  by rewrite (list_lookup_total_correct _ _ _ Hq).
Qed.

(** The byte of user memory at [va]. *)
Definition ubyte s root va : Z := rd (pmem s) (pa_of (pmem s) root va).

(** The local variable [ch] is kernel memory of its own. *)
Definition private root s fl (ch addr n : Z) : Prop :=
  ¬ owned root (ukst s) fl ch ∧ ∀ i, 0 ≤ i < n → pa_of (pmem s) root (addr + i) ≠ ch.

(** Copying one byte from the user. *)
Lemma copyin_byte s pi m p root fl ch addr n i Q (k : Z → M (pip D) (Z + (Z + Z))) :
  twf root (ukst s) fl → urange root (ukst s) fl addr n → private root s fl ch addr n → 0 ≤ i < n →
  (∀ a, a ≠ ch → rd m a = rd (pmem s) a) →
  (∀ m', (∀ a, a ≠ ch → rd m' a = rd (pmem s) a) → rd m' ch = ubyte s root (addr + i) → wp (k 0) Q (upd s pi m' p)) →
  wp (do r <- zoom on_pvst (copyin end_ root ch (u64 (addr + i)) 1); k r) Q (upd s pi m p).
Proof.
  intros Ht Hu [Ho Hp] Hi Hm Hk. pose proof Hu as [U1 U2 _ _]. assert (MAXVA < 2 ^ 64) as Hmax by done.
  rewrite u64_small by lia.
  assert (∀ x, owned root (ukst s) fl x → rd m x = rd (pmem s) x) as Hsame by (intros x Hx; apply Hm; intros ->; done).
  destruct (twf_mem end_ root (ukst s) fl m Ht Hsame) as (Ht' & Hleaf & Htab).
  assert (∀ x, pa_of m root x = pa_of (pmem s) root x) as Hpa by (intros x; unfold pa_of; by rewrite Hleaf).
  wp_step. apply wp_zoom. eapply wp_mono.
  { apply (copyin_ok end_ end_pos root (view on_pvst (upd s pi m p)) fl ch (addr + i) 1); change (v_k (view on_pvst (upd s pi m p))) with (set_mem m (ukst s)).
    - done.
    - apply (urange_sub root _ fl addr n); [lia|lia|lia|]. by apply (urange_mem end_).
    - lia.
    - intros a Ha. replace a with ch by lia. split.
      + intros (x & Hx & Hin). apply Ho. exists x. split; [|done]. cbn [k_mem set_mem] in Hx. by rewrite Htab in Hx.
      + intros j Hj. cbn [k_mem set_mem]. rewrite Hpa. replace (addr + i + j) with (addr + i) by lia. by apply Hp. }
  intros r t (-> & m' & -> & [Ci Co]). change (v_k (view on_pvst (upd s pi m p))) with (set_mem m (ukst s)) in *. cbn [k_mem set_mem] in Ci, Co.
  change (set_mem m' (set_mem m (ukst s))) with (set_mem m' (ukst s)).
  change (v_procs (view on_pvst (upd s pi m p))) with (v_procs (view on_pvst s)). rewrite upd_mem. apply Hk.
  - intros a Ha. rewrite Co by lia. by apply Hm.
  - specialize (Ci 0 ltac:(lia)). rewrite !Z.add_0_r in Ci. rewrite Ci, Hpa. apply Hm. by apply Hp.
Qed.

(** The loop of pipewrite, with room for all bytes. *)
Lemma pipewrite_loop s pr q root pi p1 fl ch addr n :
  inside_pipe s pr q root → twf root (ukst s) fl → urange root (ukst s) fl addr n → private root s fl ch addr n →
  pipe_ok p1 → readopen p1 ≠ 0 → 0 ≤ n → pcount p1 + n ≤ PIPESIZE →
  wp (loop (S (Z.to_nat n)) (λ i,
      if negb (i <? n) then ret (inr (inr i))
      else
        do p <- gets (pipe_at pi);
        do k <- (if readopen p =? 0 then ret true else
                 do k <- zoom on_pp (killed pr); ret (negb (k =? 0)));
        if k : bool then zoom (on_plk pi) release ;; ret (inr (inl (-1)))
        else
          do p <- gets (pipe_at pi);
          if nwrite p =? u32 (nread p + PIPESIZE) then
            zoom on_pp (wakeup (ChPipeRead pi)) ;;
            zoom (on_pslst pi) (sleep (ChPipeWrite pi)) ;;
            ret (inl i)
          else
            do pt <- gets (pagetable_of pr);
            do r <- zoom on_pvst (copyin end_ pt ch (u64 (addr + i)) 1);
            if r =? -1 then ret (inr (inr i))
            else
              do c <- gets (λ s, rd (km_mem (f_km (pi_f s))) ch);
              set_pipe pi (put_byte c) ;;
              ret (inl (i + 1))) 0)
    (λ r s', r = inr (n : Z) ∧ ∃ m' p', s' = upd s pi m' p' ∧ (∀ a, a ≠ ch → rd m' a = rd (pmem s) a) ∧ pipe_ok p' ∧
       pcontents p' = pcontents p1 ++ ((λ i, ubyte s root (addr + i)) <$> seqZ 0 n) ∧
       pi_lock p' = pi_lock p1 ∧ readopen p' = readopen p1 ∧ writeopen p' = writeopen p1) (upd s pi (pmem s) p1).
Proof.
  intros Hin Ht Hu Hp Hok1 Hro Hn Hroom.
  apply (wp_loop (λ i s', 0 ≤ i ≤ n ∧ ∃ m' p', s' = upd s pi m' p' ∧ (∀ a, a ≠ ch → rd m' a = rd (pmem s) a) ∧ pipe_ok p' ∧
       pcontents p' = pcontents p1 ++ ((λ i, ubyte s root (addr + i)) <$> seqZ 0 i) ∧
       pi_lock p' = pi_lock p1 ∧ readopen p' = readopen p1 ∧ writeopen p' = writeopen p1) (λ i _, Z.to_nat (n - i))).
  - intros i s' (Hi & m' & p' & -> & Hm & Hok' & Hc & Hlk & Hr & Hw).
    destruct (Z.ltb_spec i n) as [Hlt|Hge]; cbn [negb].
    2: { assert (i = n) as -> by lia. wp_step. split; [done|]. exists m', p'. by split_and!. }
    assert (pcount p' = pcount p1 + i) as Ec.
    { rewrite <- !length_pcontents, Hc, length_app, length_fmap, length_seqZ. lia. }
    wp_step. wp_step. rewrite pipe_at_upd, Hr, (proj2 (Z.eqb_neq _ 0)) by done. wp_step. wp_step.
    eapply wp_of_Ok; [by apply (killed_upd s pr q root)|]. wp_step. cbn [negb Z.eqb].
    wp_step. wp_step. rewrite pipe_at_upd, (pipe_full _ Hok'), (proj2 (Z.eqb_neq _ PIPESIZE)) by lia.
    wp_step. wp_step. rewrite (pagetable_upd s pr q root) by done.
    apply (copyin_byte s pi m' p' root fl ch addr n i); [done|done|done|lia|done|].
    intros m2 Hm2 Hch. cbn [Z.eqb]. wp_step. wp_step. wp_step. eapply wp_of_Ok; [apply set_pipe_upd|]. wp_step.
    cbn [pi_f upd on_mem over f_km km_mem]. rewrite Hch.
    destruct (put_byte_ok (ubyte s root (addr + i)) p' Hok' ltac:(lia)) as [Hok2 Hc2].
    split; [|lia]. split; [lia|]. exists m2, (put_byte (ubyte s root (addr + i)) p'). split_and!; try done.
    rewrite Hc2, Hc, <- app_assoc. f_equal. rewrite (seqZ_app 0 i 1), fmap_app by lia. done.
  - split; [lia|]. exists (pmem s), p1. split_and!; try done. cbn. by rewrite app_nil_r.
  - lia.
Qed.

(** Leaving the section: the sleepers on [c] are woken and the lock is released. *)
Lemma pipe_leave s0 pi h lk m' p' c (r : Z) :
  hart_ok h → pst_ok (Pst (push h) (procs (pi_p s0))) → pi_lock p' = held lk (tp h) → lock_free lk →
  p_hart (pi_p s0) = push h →
  wp (zoom on_pp (wakeup c) ;; zoom (on_plk pi) release ;; ret r) (λ x s', x = r ∧ pmem s' = m' ∧
     pipes s' = <[pi := with_plock lk p']> (pipes s0) ∧
     p_hart (pi_p s') = sync h ∧ procs (pi_p s') = imap (wake_at c (cpu_proc (cur h))) (procs (pi_p s0)))
    (upd s0 pi m' p').
Proof.
  intros Hh Hok Hlk Hlf Eh. assert (pi_p (upd s0 pi m' p') = Pst (push h) (procs (pi_p s0))) as Ep.
  { change (pi_p (upd s0 pi m' p')) with (pi_p s0). rewrite <- Eh. by destruct (pi_p s0). }
  wp_step. apply wp_zoom. change (view on_pp (upd s0 pi m' p')) with (pi_p (upd s0 pi m' p')). rewrite Ep.
  eapply wp_mono; [by apply wakeup_run|]. intros [] t [Ht1 Ht2]. cbn [p_hart procs] in Ht1, Ht2.
  rewrite sync_push in Ht1 by done. rewrite cur_push in Ht2 by done.
  wp_step. eapply wp_of_Ok.
  { apply (zoom_release (on_plk pi) _ h lk); [|done|done]. cbn. rewrite Ht1. f_equal.
    unfold pipe_at. cbn. by rewrite lookup_total_insert_eq. }
  wp_step. split_and!; [done|done| |done|exact Ht2]. cbn. unfold pipe_at. cbn. by rewrite lookup_total_insert_eq, insert_insert_eq.
Qed.

(** The calling process and its pipe, before a call. *)
Record pipe_call s pi pr q root p fl : Prop := {
  pc_ok : pst_ok (pi_p s);
  pc_run : cpu_proc (cur (p_hart (pi_p s))) = Some pr;
  pc_proc : procs (pi_p s) !! pr = Some q;
  pc_alive : p_killed (p_pub q) = 0;
  pc_root : p_pgtbl (p_priv q) = root;
  pc_pipe : pipes s !! pi = Some p;
  pc_lock : lock_free (pi_lock p);
  pc_inv : pipe_ok p;
  pc_twf : twf root (ukst s) fl
}.

(** What acquire makes of the state. *)
Definition entered s pi p : pip D :=
  let h := sync (p_hart (pi_p s)) in
  upd (over on_pp (Pst (push h) (procs (pi_p s))) s) pi (pmem s) (with_plock (held (pi_lock p) (tp h)) p).

Lemma pipe_enter s pi pr q root p fl {A} (k : nat → M (pip D) A) Q :
  pipe_call s pi pr q root p fl → wp (k pr) Q (entered s pi p) →
  wp (do pr <- zoom on_pp me; zoom (on_plk pi) acquire ;; k pr) Q s.
Proof.
  intros [Hok Hr Hq _ _ Hp Hl _ _] Hk. assert (running (pi_p s) pr) as Hrun by (split; [done|by eapply lookup_lt_Some]).
  wp_step. eapply wp_of_Ok; [apply zoom_Ok; by apply me_run|]. wp_step.
  eapply wp_of_Ok; [|exact Hk].
  rewrite (zoom_acquire (on_plk pi) _ (sync (p_hart (pi_p s))) (pi_lock p)).
  - unfold entered, upd. cbn. unfold pipe_at. cbn. rewrite (lookup_total_correct _ _ _ Hp). by destruct s as [[? []] ].
  - cbn. unfold pipe_at. cbn. by rewrite (lookup_total_correct _ _ _ Hp).
  - by apply sync_ok, Hok.
  - done.
Qed.

Lemma twf_hart root k fl h : twf root k fl → hart_ok h → twf root (Kst h (k_lock k) (freelist k) (k_mem k)) fl.
Proof. intros [[K1 K2 K3 K4 K5] H2 H3] Hh. by split; [split|..]. Qed.

Lemma entered_inside s pi pr q root p fl :
  pipe_call s pi pr q root p fl → let h := sync (p_hart (pi_p s)) in
  let s0 := over on_pp (Pst (push h) (procs (pi_p s))) s in
  hart_ok h ∧ pst_ok (Pst (push h) (procs (pi_p s))) ∧ inside_pipe s0 pr q root ∧ twf root (ukst s0) fl ∧
  pipe_ok (with_plock (held (pi_lock p) (tp h)) p).
Proof.
  intros [Hok Hr Hq Ha Hro Hp Hl Hi Ht] h s0. assert (hart_ok h) as Hh by (apply sync_ok, Hok).
  assert (pst_ok (Pst (push h) (procs (pi_p s)))) as Hok1.
  { split; [by apply push_ok|apply Hok|apply Hok]. }
  split_and!; [done|done| | |by destruct Hi].
  - split; [done|cbn; by apply sync_push|done|done|done].
  - apply (twf_hart root (ukst s) fl (push h)); [done|by apply push_ok].
Qed.

(** C26: pipewrite of [n] bytes into a pipe with room for them appends exactly the
    caller's bytes, in order, to the bytes in the pipe, also when the counters or the
    ring index wrap; the pipe's lock is free again, and the process's memory and all
    other pipes are as before. *)
Theorem pipewrite_appends s pi pr q root p fl ch addr n :
  pipe_call s pi pr q root p fl → urange root (ukst s) fl addr n → private root s fl ch addr n →
  readopen p ≠ 0 → 0 ≤ n → pcount p + n ≤ PIPESIZE →
  wp (pipewrite end_ ch pi addr n) (λ r s', r = n ∧ ∃ p', pipes s' = <[pi := p']> (pipes s) ∧ pipe_ok p' ∧
    pcontents p' = pcontents p ++ ((λ i, ubyte s root (addr + i)) <$> seqZ 0 n) ∧
    pi_lock p' = pi_lock p ∧ readopen p' = readopen p ∧ writeopen p' = writeopen p ∧
    ∀ a, a ≠ ch → rd (pmem s') a = rd (pmem s) a) s.
Proof.
  intros Hc Hu Hp Hro Hn Hroom. destruct (entered_inside s pi pr q root p fl Hc) as (Hh & Hok1 & Hin & Ht & Hi).
  unfold pipewrite. apply (pipe_enter s pi pr q root p fl); [done|]. unfold entered.
  set (h := sync (p_hart (pi_p s))) in *. set (s0 := over on_pp _ s) in *.
  assert (urange root (ukst s0) fl addr n) as Hu0 by (by destruct Hu).
  wp_step. wp_call (pipewrite_loop s0 pr q root pi _ fl ch addr n Hin Ht Hu0 Hp Hi Hro Hn Hroom).
  intros r s1 (-> & m' & p' & -> & Hm & Hok' & Hcon & Hlk & Hr & Hw).
  eapply wp_mono; [apply (pipe_leave s0 pi h (pi_lock p) m' p'); [done|done|done|apply Hc|done]|].
  intros x s' (-> & Hmem & Hpi & _). split; [done|]. exists (with_plock (pi_lock p) p').
  split_and!; try done; [by destruct Hok'|]. intros a Ha. rewrite Hmem. by apply Hm.
Qed.

(** ** Reading *)

(** The memory after [i] bytes of [l] have gone to the user at [addr]. *)
Record delivered s root ch addr (l : list Z) (i : Z) (m : mem) : Prop := {
  de_in j : 0 ≤ j < i → rd m (pa_of (pmem s) root (addr + j)) = u8 (l !!! Z.to_nat j);
  de_out a : a ≠ ch → (∀ j, 0 ≤ j < i → a ≠ pa_of (pmem s) root (addr + j)) → rd m a = rd (pmem s) a
}.

Lemma copyout_byte s pi m p root fl ch addr n i (l : list Z) Q (k : Z → M (pip D) (Z + Z)) :
  twf root (ukst s) fl → wrange root (ukst s) fl addr n → private root s fl ch addr n → 0 ≤ i < n →
  delivered s root ch addr l i m →
  (∀ m', delivered s root ch addr l (i + 1) m' → wp (k 0) Q (upd s pi m' p)) →
  wp (do r <- zoom on_pvst (copyout end_ root (u64 (addr + i)) ch 1); k r) Q (upd s pi (wr m ch (l !!! Z.to_nat i)) p).
Proof.
  intros Ht Hw [Ho Hp] Hi [Di Do] Hk. destruct Hw as [Hu Hww Hinj]. pose proof Hu as [U1 U2 U3 U4].
  assert (MAXVA < 2 ^ 64) as Hmax by done. rewrite u64_small by lia.
  set (m1 := wr m ch (l !!! Z.to_nat i)).
  assert (∀ x, owned root (ukst s) fl x → rd m1 x = rd (pmem s) x) as Hsame.
  { intros x Hx. unfold m1. rewrite rd_wr_ne by (intros ->; done). apply Do; [by intros ->|].
    intros j Hj ->. apply (U4 (addr + j) _ ltac:(lia) (pa_of_in_page _ _ _) Hx). }
  destruct (twf_mem end_ root (ukst s) fl m1 Ht Hsame) as (Ht' & Hleaf & Htab).
  assert (∀ x, pa_of m1 root x = pa_of (pmem s) root x) as Hpa by (intros x; unfold pa_of; by rewrite Hleaf).
  wp_step. apply wp_zoom. eapply wp_mono.
  { apply (copyout_ok end_ end_pos root (view on_pvst (upd s pi m1 p)) fl (addr + i) ch 1); change (v_k (view on_pvst (upd s pi m1 p))) with (set_mem m1 (ukst s)).
    - done.
    - split.
      + apply (urange_sub root _ fl addr n); [lia|lia|lia|]. by apply (urange_mem end_).
      + intros va Hva. cbn [k_mem set_mem]. rewrite Hleaf. apply Hww. lia.
      + lia.
    - lia.
    - intros j j' Hj Hj'. cbn [k_mem set_mem]. rewrite Hpa. replace (addr + i + j) with (addr + i) by lia.
      replace (ch + j') with ch by lia. apply Hp. lia. }
  intros r t (-> & m' & -> & [Ci Co]). change (v_k (view on_pvst (upd s pi m1 p))) with (set_mem m1 (ukst s)) in *. cbn [k_mem set_mem] in Ci, Co.
  change (set_mem m' (set_mem m1 (ukst s))) with (set_mem m' (ukst s)).
  change (v_procs (view on_pvst (upd s pi m1 p))) with (v_procs (view on_pvst s)). rewrite upd_mem. apply Hk.
  specialize (Ci 0 ltac:(lia)). rewrite !Z.add_0_r, Hpa in Ci.
  assert (∀ a, a ≠ pa_of (pmem s) root (addr + i) → rd m' a = rd m1 a) as Co'.
  { intros a Ha. apply Co. intros j Hj. rewrite Hpa. by replace (addr + i + j) with (addr + i) by lia. }
  split.
  - intros j Hj. destruct (decide (j = i)) as [->|Hne].
    + rewrite Ci. unfold m1. by rewrite rd_wr_eq.
    + rewrite Co' by (intros E; apply Hne; by apply Hinj; [lia|lia|]). unfold m1. rewrite rd_wr_ne by (apply Hp; lia). apply Di. lia.
  - intros a Ha Hout. rewrite Co' by (apply Hout; lia). unfold m1. rewrite rd_wr_ne by done. apply Do; [done|]. intros j Hj. apply Hout. lia.
Qed.

Lemma piperead_copy_ok s pr q root pi p1 fl ch addr n :
  inside_pipe s pr q root → twf root (ukst s) fl → wrange root (ukst s) fl addr n → private root s fl ch addr n →
  pipe_ok p1 → 0 ≤ n → let k := Z.min n (pcount p1) in
  wp (piperead_copy end_ ch pr pi addr n)
    (λ r s', r = k ∧ ∃ m' p', s' = upd s pi m' p' ∧ delivered s root ch addr (pcontents p1) k m' ∧ pipe_ok p' ∧
       pcontents p' = drop (Z.to_nat k) (pcontents p1) ∧
       pi_lock p' = pi_lock p1 ∧ readopen p' = readopen p1 ∧ writeopen p' = writeopen p1) (upd s pi (pmem s) p1).
Proof.
  intros Hin Ht Hu Hp Hok1 Hn k. unfold piperead_copy. pose proof (length_pcontents p1) as HL.
  apply (wp_loop (λ i s', 0 ≤ i ≤ k ∧ ∃ m' p', s' = upd s pi m' p' ∧ delivered s root ch addr (pcontents p1) i m' ∧ pipe_ok p' ∧
       pcontents p' = drop (Z.to_nat i) (pcontents p1) ∧
       pi_lock p' = pi_lock p1 ∧ readopen p' = readopen p1 ∧ writeopen p' = writeopen p1) (λ i _, Z.to_nat (n - i))).
  - intros i s' (Hi & m' & p' & -> & Hd & Hok' & Hc & Hlk & Hr & Hw).
    assert (pcount p' = pcount p1 - i) as Ec.
    { rewrite <- !length_pcontents, Hc, length_drop. lia. }
    destruct (Z.ltb_spec i n) as [Hlt|Hge]; cbn [negb].
    2: { assert (i = k) as -> by lia. wp_step. split; [done|]. exists m', p'. by split_and!. }
    wp_step. wp_step. rewrite pipe_at_upd, (pipe_empty _ Hok'). destruct (Z.eqb_spec (pcount p') 0) as [E0|E0].
    { wp_step. assert (i = k) as -> by lia. split; [done|]. exists m', p'. by split_and!. }
    destruct (get_byte_ok p' Hok' ltac:(lia)) as [Hok2 Hc2].
    assert (pi_data p' !!! Z.to_nat (nread p' `mod` PIPESIZE) = pcontents p1 !!! Z.to_nat i) as ->.
    { pose proof (f_equal (λ l, l !! 0%nat) Hc2) as E. rewrite Hc in E. cbn in E. rewrite lookup_drop in E.
      rewrite Nat.add_0_r in E. by rewrite (list_lookup_total_correct _ _ _ E). }
    wp_step. eapply wp_of_Ok; [apply store_upd|].
    wp_step. wp_step. rewrite (pagetable_upd s pr q root) by done.
    apply (copyout_byte s pi m' p' root fl ch addr n i (pcontents p1)); [done|done|done|lia|done|].
    intros m2 Hd2. cbn [Z.eqb]. wp_step. eapply wp_of_Ok; [apply set_pipe_upd|]. wp_step.
    split; [|lia]. split; [lia|]. exists m2, (get_byte p'). split_and!; try done.
    rewrite Hc in Hc2. replace (Z.to_nat (i + 1)) with (Z.to_nat i + 1)%nat by lia. rewrite <- drop_drop, Hc2. done.
  - split; [lia|]. exists (pmem s), p1. split_and!; try done. split; [intros; lia|done].
  - lia.
Qed.

(** C27: piperead of up to [n] bytes from a pipe that holds bytes, or that has no writer
    left, delivers the oldest bytes in the pipe to the caller's memory in order,
    removes exactly those from the pipe and returns their number, without sleeping; at end of file it returns 0. *)
Theorem piperead_takes s pi pr q root p fl ch addr n :
  pipe_call s pi pr q root p fl → wrange root (ukst s) fl addr n → private root s fl ch addr n →
  0 < pcount p ∨ writeopen p = 0 → 0 ≤ n → let k := Z.min n (pcount p) in
  wp (piperead end_ ch pi addr n) (λ r s', r = k ∧ ∃ p', pipes s' = <[pi := p']> (pipes s) ∧ pipe_ok p' ∧
    pcontents p' = drop (Z.to_nat k) (pcontents p) ∧
    pi_lock p' = pi_lock p ∧ readopen p' = readopen p ∧ writeopen p' = writeopen p ∧
    delivered s root ch addr (pcontents p) k (pmem s')) s.
Proof.
  intros Hc Hu Hp Hne Hn k. destruct (entered_inside s pi pr q root p fl Hc) as (Hh & Hok1 & Hin & Ht & Hi).
  unfold piperead. apply (pipe_enter s pi pr q root p fl); [done|]. unfold entered.
  set (h := sync (p_hart (pi_p s))) in *. set (s0 := over on_pp _ s) in *.
  assert (wrange root (ukst s0) fl addr n) as Hu0 by (destruct Hu as [[] ? ?]; by split).
  wp_step. cbn [loop]. wp_step. wp_step. wp_step. rewrite pipe_at_upd, (pipe_empty _ Hi).
  change (pcount (with_plock _ p)) with (pcount p). cbn [writeopen with_plock].
  assert ((pcount p =? 0) && negb (writeopen p =? 0) = false) as ->.
  { destruct Hne as [H| ->]; [rewrite (proj2 (Z.eqb_neq _ 0)) by lia; done|by rewrite andb_false_r]. }
  wp_step. wp_step. wp_step.
  wp_call (piperead_copy_ok s0 pr q root pi _ fl ch addr n Hin Ht Hu0 Hp Hi Hn).
  intros r s1 (-> & m' & p' & -> & Hd & Hok' & Hcon & Hlk & Hr & Hw).
  eapply wp_mono; [apply (pipe_leave s0 pi h (pi_lock p) m' p'); [done|done|done|apply Hc|done]|].
  intros x s' (-> & Hmem & Hpi & _). split; [done|]. exists (with_plock (pi_lock p) p').
  split_and!; try done; [by destruct Hok'|]. rewrite Hmem. by destruct Hd.
Qed.
End pipe.

(** ** A pipe on which the theorems can be tried

    Process 3 runs with the user pages of VmCopy; the counters are about to wrap. *)
Definition demo_writer : proc :=
  Proc (Spin 0 "proc" None) (Ppub RUNNING None 0 0 7) None (Ppriv 0 0x3000 demo_root 0 [] [] None []).
Definition demo_ppst : pst := Pst demo_hart (<[3%nat := demo_writer]> (replicate 64 proc0)).
Definition demo_pipe (nr nw : Z) (wo : Z) : pipe :=
  Pipe (Spin 0 "pipe" None) (replicate (Z.to_nat PIPESIZE) 7) nr nw 1 wo.
Definition mk_pip (k : kst) (p : pipe) : pip ram_disk :=
  Pip (Fst (Lst (Bst demo_ppst (Spin 0 "" None) [] None None (RamDisk ∅ [])) (Spin 0 "log" None) 2 0 0 ROOTDEV (Lh 0 []))
         (Kmem (k_lock k) (freelist k) (k_mem k)) (Sb 0 0 0 0 0 0 0 0) (Spin 0 "itable" None) [])
      {[ 0x83000000 := p ]}.
Definition demo_pip : pipe → pip ram_disk := mk_pip demo_uk.

(** The pages of [mk_pip] are those of [k]. *)
Lemma mk_pip_owned k p fl a : owned demo_root (ukst (mk_pip k p)) fl a ↔ owned demo_root k fl a.
Proof. done. Qed.

Lemma mk_pip_wrange k p fl n : wrange demo_root k fl 0x1f00 512 → 0 ≤ n ≤ 512 →
  wrange demo_root (ukst (mk_pip k p)) fl 0x1f00 n.
Proof.
  intros [[H1 H2 H3 H4] Hw Hi] Hn. split; [split|..].
  - lia.
  - lia.
  - intros va Hva. apply H3. lia.
  - intros va x Hva. apply H4. lia.
  - intros va Hva. apply Hw. lia.
  - intros i j Hi' Hj. apply Hi; lia.
Qed.

Lemma mk_pip_twf k p fl : twf 0x87ff8000 2 demo_root k fl → twf 0x87ff8000 2 demo_root (ukst (mk_pip k p)) fl.
Proof. intros H. apply (twf_hart 0x87ff8000 demo_root k fl demo_hart); [done|apply demo_hart_ok]. Qed.

Lemma demo_call p : pipe_ok p → lock_free (pi_lock p) → ∃ fl, pipe_call 0x87ff8000 (demo_pip p) 0x83000000 3 demo_writer demo_root p fl ∧
  (∀ a, owned demo_root demo_uk fl a → 0x87ffb000 ≤ a).
Proof.
  intros Hp Hl. destruct demo_uk_ok as (fl & Ht & Ho & _). exists fl. split; [|exact Ho].
  split; [|reflexivity|reflexivity|reflexivity|reflexivity| |exact Hl|exact Hp|exact (mk_pip_twf demo_uk p fl Ht)].
  - split; [apply demo_hart_ok|reflexivity|]. apply Forall_insert; [apply Forall_replicate; by split|by split].
  - apply lookup_singleton_eq.
Qed.

Lemma demo_private p fl n : (∀ a, owned demo_root demo_uk fl a → 0x87ffb000 ≤ a) → 0 ≤ n ≤ 512 →
  private demo_root (demo_pip p) fl 0x84000000 0x1f00 n.
Proof.
  intros Ho Hn. split; [intros H; apply mk_pip_owned, Ho in H; lia|]. intros i Hi. cbn [pi_f demo_pip mk_pip f_km km_mem].
  rewrite (proj1 (demo_upa (0x1f00 + i) ltac:(lia))). lia.
Qed.

Lemma demo_uw p fl n : (∀ a, owned demo_root demo_uk fl a → 0x87ffb000 ≤ a) → 0 ≤ n ≤ 512 →
  wrange demo_root (ukst (demo_pip p)) fl 0x1f00 n.
Proof. intros Ho Hn. apply mk_pip_wrange; [by apply demo_wrange|done]. Qed.

Lemma pipewrite_appends_witness :
  wp (pipewrite 0x87ff8000 0x84000000 0x83000000 0x1f00 300) (λ r s', r = 300 ∧ ∃ p', pipes s' = {[ 0x83000000 := p' ]} ∧
    pcontents p' = (λ i, ubyte (demo_pip (demo_pipe (2 ^ 32 - 3) (2 ^ 32 - 3) 1)) demo_root (0x1f00 + i)) <$> seqZ 0 300)
    (demo_pip (demo_pipe (2 ^ 32 - 3) (2 ^ 32 - 3) 1)).
Proof.
  set (p := demo_pipe (2 ^ 32 - 3) (2 ^ 32 - 3) 1).
  assert (pipe_ok p) as Hp by (split; [done|cbn; lia|cbn; lia|vm_compute; congruence]).
  destruct (demo_call p Hp ltac:(by split)) as (fl & Hc & Ho).
  eapply wp_mono; [apply (pipewrite_appends 0x87ff8000 ltac:(done) (demo_pip p) 0x83000000 3 demo_writer demo_root p fl 0x84000000 0x1f00 300 Hc)|].
  - apply (demo_uw p fl 300 Ho). lia.
  - apply demo_private; [done|lia].
  - done.
  - lia.
  - vm_compute. congruence.
  - intros r s' (-> & p' & Hpi & _ & Hcon & _). split; [done|]. exists p'. split; [|exact Hcon]. rewrite Hpi. apply insert_singleton_eq.
Defined.

(** Five bytes across the wrap-around, and no writer left. *)
Lemma piperead_takes_witness :
  wp (piperead 0x87ff8000 0x84000000 0x83000000 0x1f00 300) (λ r s', r = 5 ∧ ∃ p', pipes s' = {[ 0x83000000 := p' ]} ∧ pcontents p' = [] ∧
    delivered (demo_pip (demo_pipe (2 ^ 32 - 3) 2 0)) demo_root 0x84000000 0x1f00 [7; 7; 7; 7; 7] 5 (km_mem (f_km (pi_f s')))) (demo_pip (demo_pipe (2 ^ 32 - 3) 2 0)).
Proof.
  set (p := demo_pipe (2 ^ 32 - 3) 2 0).
  assert (pipe_ok p) as Hp by (split; [done|cbn; lia|cbn; lia|vm_compute; congruence]).
  destruct (demo_call p Hp ltac:(by split)) as (fl & Hc & Ho).
  eapply wp_mono; [apply (piperead_takes 0x87ff8000 ltac:(done) (demo_pip p) 0x83000000 3 demo_writer demo_root p fl 0x84000000 0x1f00 300 Hc)|].
  - apply demo_uw; [done|lia].
  - apply demo_private; [done|lia].
  - by right.
  - lia.
  - intros r s' (-> & p' & Hpi & _ & Hcon & _ & _ & _ & Hd). split; [reflexivity|]. exists p'. split_and!.
    + rewrite Hpi. apply insert_singleton_eq.
    + rewrite Hcon. vm_compute. reflexivity.
    + assert (pcontents p = [7; 7; 7; 7; 7]) as <- by (vm_compute; reflexivity). exact Hd.
Defined.
