(* ===== verification/File.v ===== *)
(** * kernel/file.c and pipealloc: open files

    The table of open files. A [struct file *] is an index of [ftable.file].
    devsw is the pair of tables of device functions, given as arguments; [loc] is
    the address of the locals [ch] and [st] through which data is copied. *)
From S2P Require Import Prelude Memory KString Riscv Spinlock Kalloc Vm Sched Sleeplock Disk Bio Log Fs Pipe.

Inductive ftype : Type := FD_NONE | FD_PIPE | FD_INODE | FD_DEVICE.
#[export] Instance ftype_eq_dec : EqDecision ftype.
Proof. solve_decision. Defined.

Record file : Type := File {
  fl_type : ftype;
  fl_ref : Z;
  fl_readable : Z;
  fl_writable : Z;
  fl_pipe : Z;
  fl_ip : nat;
  fl_off : Z;
  fl_major : Z
}.
Definition file0 : file := File FD_NONE 0 0 0 0 0 0 0.
#[export] Instance file_inhabited : Inhabited file := populate file0.

Record fil (D : Type) : Type := Fil { fl_p : pip D; ft_lock : spinlock; files : list file }.
Arguments Fil {D}.
Arguments fl_p {D}.
Arguments ft_lock {D}.
Arguments files {D}.

Section file.
Context {D : Type} `{!BlockDev D}.
Context (end_ : Z) (buf_addr : nat → Z) (loc : Z).
(** devsw[i].read and devsw[i].write, None the null pointer. *)
Context (dev_read dev_write : Z → option (Z → Z → Z → M (fil D) Z)).
Implicit Types s : fil D.

Definition on_fil : lens (fil D) (fst D) :=
  Lens (λ s, pi_f (fl_p s)) (λ f s, Fil (Pip f (pipes (fl_p s))) (ft_lock s) (files s)).
Definition on_pip : lens (fil D) (pip D) := Lens fl_p (λ p s, Fil p (ft_lock s) (files s)).
Definition on_ft : lens (fil D) lockst :=
  Lens (λ s, (p_hart (f_p (view on_fil s)), ft_lock s))
       (λ t s, let s' := over on_fil (with_fp (Pst t.1 (procs (f_p (view on_fil s)))) (view on_fil s)) s in
               Fil (fl_p s') t.2 (files s')).
Definition fobj (f : nat) s : file := files s !!! f.
Definition set_file (f : nat) (g : file → file) : M (fil D) unit :=
  modify (λ s, Fil (fl_p s) (ft_lock s) (alter g f (files s))).
Definition with_fref (r : Z) (f : file) : file :=
  File (fl_type f) r (fl_readable f) (fl_writable f) (fl_pipe f) (fl_ip f) (fl_off f) (fl_major f).
Definition with_off (o : Z) (f : file) : file :=
  File (fl_type f) (fl_ref f) (fl_readable f) (fl_writable f) (fl_pipe f) (fl_ip f) o (fl_major f).

Definition fileinit : M (fil D) unit := zoom on_ft (initlock "ftable").

Definition filealloc : M (fil D) (option nat) :=
  zoom on_ft acquire ;;
  do s <- get;
  match List.find (λ f, fl_ref (fobj f s) =? 0) (seq 0 (Z.to_nat NFILE)) with
  | Some f =>
      set_file f (with_fref 1) ;;
      zoom on_ft release ;;
      ret (Some f)
  | None => zoom on_ft release ;; ret None
  end.

Definition filedup (f : nat) : M (fil D) nat :=
  zoom on_ft acquire ;;
  do s <- get;
  if fl_ref (fobj f s) <? 1 then panic "filedup"
  else
    set_file f (λ x, with_fref (fl_ref x + 1) x) ;;
    zoom on_ft release ;;
    ret f.

Definition fileclose (f : nat) : M (fil D) unit :=
  zoom on_ft acquire ;;
  do s <- get;
  if fl_ref (fobj f s) <? 1 then panic "fileclose"
  else
    set_file f (λ x, with_fref (fl_ref x - 1) x) ;;
    if 0 <? fl_ref (fobj f s) - 1 then zoom on_ft release
    else
      do ff <- gets (fobj f);
      set_file f (λ x, File FD_NONE 0 (fl_readable x) (fl_writable x) (fl_pipe x) (fl_ip x) (fl_off x) (fl_major x)) ;;
      zoom on_ft release ;;
      match fl_type ff with
      | FD_PIPE => zoom on_pip (pipeclose end_ (fl_pipe ff) (fl_writable ff))
      | FD_INODE | FD_DEVICE =>
          zoom on_fil (zoom on_l begin_op) ;;
          zoom on_fil (iput (fl_ip ff)) ;;
          zoom on_fil (zoom on_l end_op)
      | FD_NONE => ret tt
      end.

(** The bytes of struct stat: dev, ino, type, nlink, size at offsets 0, 4, 8, 10, 16. *)
Definition enc_stat (st : stat) : list Z :=
  le_bytes 4 (u32 (st_dev st)) ++ le_bytes 4 (st_ino st) ++ le_bytes 2 (u16 (st_type st)) ++
  le_bytes 2 (u16 (st_nlink st)) ++ replicate 4 0 ++ le_bytes 8 (st_size st).
Definition sizeof_stat : Z := 24.

Definition filestat (f : nat) (addr : Z) : M (fil D) Z :=
  do s <- get;
  match fl_type (fobj f s) with
  | FD_INODE | FD_DEVICE =>
      let ip := fl_ip (fobj f s) in
      do st <- zoom on_fil (ilock (Some ip) ;; do st <- stati ip; iunlock (Some ip) ;; ret st);
      zoom on_fil (zoom on_mem (modify (λ m, wrs m loc (enc_stat st)))) ;;
      do pt <- zoom on_fil my_pagetable;
      do r <- zoom on_fil (zoom on_vst (copyout end_ pt addr loc sizeof_stat));
      ret (if r <? 0 then -1 else 0)
  | _ => ret (-1)
  end.

Definition fileread (f : nat) (addr n : Z) : M (fil D) Z :=
  do s <- get;
  let x := fobj f s in
  if fl_readable x =? 0 then ret (-1)
  else match fl_type x with
  | FD_PIPE => zoom on_pip (piperead end_ loc (fl_pipe x) addr n)
  | FD_DEVICE =>
      if (fl_major x <? 0) || (NDEV <=? fl_major x) then ret (-1)
      else match dev_read (fl_major x) with
           | None => ret (-1)
           | Some read => read 1 addr n
           end
  | FD_INODE =>
      zoom on_fil (ilock (Some (fl_ip x))) ;;
      do r <- zoom on_fil (readi end_ buf_addr (fl_ip x) 1 addr (fl_off x) (u32 n));
      when (0 <? r) (set_file f (λ y, with_off (u32 (fl_off y + r)) y)) ;;
      zoom on_fil (iunlock (Some (fl_ip x))) ;;
      ret r
  | FD_NONE => panic "fileread"
  end.

(** The largest write of one transaction. *)
Definition write_max : Z := ((MAXOPBLOCKS - 1 - 1 - 2) `div` 2) * BSIZE.

(** Every iteration that goes on writes write_max bytes, or all that is left. *)
Definition filewrite (f : nat) (addr n : Z) : M (fil D) Z :=
  do s <- get;
  let x := fobj f s in
  if fl_writable x =? 0 then ret (-1)
  else match fl_type x with
  | FD_PIPE => zoom on_pip (pipewrite end_ loc (fl_pipe x) addr n)
  | FD_DEVICE =>
      if (fl_major x <? 0) || (NDEV <=? fl_major x) then ret (-1)
      else match dev_write (fl_major x) with
           | None => ret (-1)
           | Some write => write 1 addr n
           end
  | FD_INODE =>
      do i <- loop (Z.to_nat (n `div` write_max) + 2) (λ i,
        if negb (i <? n) then ret (inr i)
        else
          let n1 := Z.min (n - i) write_max in
          zoom on_fil (zoom on_l begin_op) ;;
          zoom on_fil (ilock (Some (fl_ip x))) ;;
          do s <- get;
          do r <- zoom on_fil (writei end_ buf_addr (fl_ip x) 1 (u64 (addr + i)) (fl_off (fobj f s)) n1);
          when (0 <? r) (set_file f (λ y, with_off (u32 (fl_off y + r)) y)) ;;
          zoom on_fil (iunlock (Some (fl_ip x))) ;;
          zoom on_fil (zoom on_l end_op) ;;
          if negb (r =? n1) then ret (inr i) else ret (inl (i + r))) 0;
      ret (if i =? n then n else -1)
  | FD_NONE => panic "filewrite"
  end.

(** ** pipealloc: the two files, or None for -1 *)
Definition pipealloc_bad (pi : Z) (f0 f1 : option nat) : M (fil D) (option (nat * nat)) :=
  when (negb (pi =? 0)) (zoom on_pip (zoom on_kst (kfree end_ pi))) ;;
  (match f0 with Some f => fileclose f | None => ret tt end) ;;
  (match f1 with Some f => fileclose f | None => ret tt end) ;;
  ret None.

Definition pipealloc : M (fil D) (option (nat * nat)) :=
  do f0 <- filealloc;
  match f0 with
  | None => pipealloc_bad 0 None None
  | Some a =>
      do f1 <- filealloc;
      match f1 with
      | None => pipealloc_bad 0 (Some a) None
      | Some b =>
          do pi <- zoom on_pip (zoom on_kst kalloc);
          if pi =? 0 then pipealloc_bad 0 (Some a) (Some b)
          else
            zoom on_pip (set_pipe pi (λ _, Pipe (Spin 0 "" None) (replicate (Z.to_nat PIPESIZE) 5) 0 0 1 1)) ;;
            zoom on_pip (zoom (on_plk pi) (initlock "pipe")) ;;
            set_file a (λ x, File FD_PIPE (fl_ref x) 1 0 pi (fl_ip x) (fl_off x) (fl_major x)) ;;
            set_file b (λ x, File FD_PIPE (fl_ref x) 0 1 pi (fl_ip x) (fl_off x) (fl_major x)) ;;
            ret (Some (a, b))
      end
  end.
End file.
