(* ===== verification/FileProps.v ===== *)
(** * Reference counts of open files

    filealloc, filedup and fileclose of kernel/file.c against the multiset of the
    pointers to open files the rest of the kernel holds: the count of a slot is
    the number of pointers to it. *)
From S2P Require Import Prelude Memory KString Riscv Spinlock Kalloc Vm Sched Sleeplock Disk Bio Log Fs BioProps LogProps FsProps Pipe File.

(** ** Pointers held *)
Definition nrefs (f : nat) (hs : list nat) : Z := Z.of_nat (count_occ Nat.eq_dec hs f).

(** One pointer given up. *)
Fixpoint drop_ref (f : nat) (hs : list nat) : list nat :=
  match hs with
  | [] => []
  | g :: hs => if decide (g = f) then hs else g :: drop_ref f hs
  end.

Lemma nrefs_cons f g hs : nrefs f (g :: hs) = nrefs f hs + (if decide (g = f) then 1 else 0).
Proof. unfold nrefs. cbn. destruct (Nat.eq_dec g f), (decide (g = f)); subst; try done; lia. Qed.
Lemma nrefs_in f hs : f ∈ hs ↔ 0 < nrefs f hs.
Proof. unfold nrefs. rewrite list_elem_of_In, (count_occ_In Nat.eq_dec). lia. Qed.
Lemma nrefs_drop f g hs : f ∈ hs → nrefs g (drop_ref f hs) = nrefs g hs - (if decide (f = g) then 1 else 0).
Proof.
  induction hs as [|h hs IH]; [by intros ?%not_elem_of_nil|]. intros Hin. cbn [drop_ref].
  destruct (decide (h = f)) as [->|Hne]; [rewrite nrefs_cons; lia|].
  rewrite !nrefs_cons, IH; [lia|]. apply elem_of_cons in Hin as [->|?]; done.
Qed.

Lemma get_bind {S A} (k : S → M S A) s : (do x <- get; k x) s = k s s.
Proof. done. Qed.
Lemma bind_Ok_inv {S A B} (c : M S A) (k : A → M S B) s b s' :
  bind c k s = Ok b s' → ∃ a t, c s = Ok a t ∧ k a t = Ok b s'.
Proof. unfold bind. destruct (c s) as [a t|]; [|done]. intros H. by exists a, t. Qed.

Section files.
Context {D : Type} `{!BlockDev D}.
Context (end_ : Z).
Implicit Types (s : fil D) (hs : list nat).

Definition fhart s : hart := p_hart (f_p (view on_fil s)).
(** [s] with the table [fs], after a critical section of ftable.lock. *)
Definition settled s (fs : list file) : fil D := Fil (fl_p (over on_ft (sync (fhart s), ft_lock s) s)) (ft_lock s) fs.

(** The table counts the pointers held. *)
Record counts s hs : Prop := {
  ct_len : length (files s) = Z.to_nat NFILE;
  ct_ref f : (f < Z.to_nat NFILE)%nat → fl_ref (fobj f s) = nrefs f hs;
  ct_in f : f ∈ hs → (f < Z.to_nat NFILE)%nat
}.
(** ... and ftable.lock is free. *)
Record fsim s hs : Prop := {
  fs_hart : hart_ok (fhart s);
  fs_lock : lock_free (ft_lock s);
  fs_counts : counts s hs
}.

(** What a call of filedup and fileclose sees, and leaves when it counts. *)
Lemma ft_enter s {A} (k : M (fil D) A) :
  hart_ok (fhart s) → lock_free (ft_lock s) →
  (zoom on_ft acquire ;; k) s = k (over on_ft (push (fhart s), held (ft_lock s) (tp (fhart s))) s).
Proof. intros Hh Hl. by rewrite (bind_Ok _ _ _ _ _ (zoom_acquire on_ft s _ _ eq_refl Hh Hl)). Qed.

Lemma ft_set s f g :
  hart_ok (fhart s) → lock_free (ft_lock s) →
  ∃ s1, set_file f g (over on_ft (push (fhart s), held (ft_lock s) (tp (fhart s))) s) = Ok tt s1 ∧
    files s1 = alter g f (files s) ∧ zoom on_ft release s1 = Ok tt (settled s (alter g f (files s))) ∧
    ∀ fs, zoom on_ft release (Fil (fl_p s1) (ft_lock s1) fs) = Ok tt (settled s fs).
Proof.
  intros Hh Hl. eexists. split_and!; [done|done| |intros fs].
  all: erewrite (zoom_release on_ft _ (fhart s) (ft_lock s)); [|done|done|done].
  all: unfold settled; by destruct s as [[[[] ? ? ? ?] ?] ? ?].
Qed.

(** The counts after a change of one slot. *)
Lemma counts_alter s hs hs' f g s' :
  counts s hs → files s' = alter g f (files s) → (f < Z.to_nat NFILE)%nat → fl_ref (g (fobj f s)) = nrefs f hs' →
  (∀ h, h ≠ f → nrefs h hs' = nrefs h hs) → (∀ h, h ∈ hs' → (h < Z.to_nat NFILE)%nat) → counts s' hs'.
Proof.
  intros [H3 H4 H5] Es Hf Hg Hne Hin.
  assert (∀ h, fobj h s' = if decide (h = f) then g (fobj f s) else fobj h s) as Ho.
  { intros h. unfold fobj. rewrite Es. rewrite <- H3 in Hf. destruct (lookup_lt_is_Some_2 _ _ Hf) as [x Hx].
    rewrite !list_lookup_total_alt, list_lookup_alter. case_decide as E; subst.
    - rewrite decide_True, Hx by done. done.
    - by rewrite decide_False by congruence. }
  split; [by rewrite Es, length_alter| |done].
  intros h Hh. rewrite Ho. case_decide as E; subst; [done|]. rewrite Hne by done. by apply H4.
Qed.

Lemma fsim_settled s hs hs' fs : fsim s hs → counts (settled s fs) hs' → fsim (settled s fs) hs'.
Proof.
  intros [H1 H2 _] Hc. split; [|done|done]. unfold settled, fhart in *.
  destruct s as [[[[] ? ? ? ?] ?] ? ?]. by apply sync_ok.
Qed.

Lemma zoom_files_fil {A} (c : M (fst D) A) s a s' : zoom on_fil c s = Ok a s' → files s' = files s ∧ ft_lock s' = ft_lock s.
Proof. unfold zoom. destruct (c _); [|done]. by intros [= <- <-]. Qed.
Lemma zoom_files_pip {A} (c : M (pip D) A) s a s' : zoom on_pip c s = Ok a s' → files s' = files s ∧ ft_lock s' = ft_lock s.
Proof. unfold zoom. destruct (c _); [|done]. by intros [= <- <-]. Qed.

Lemma last_inode ip s s' :
  (zoom on_fil (zoom on_l begin_op) ;; zoom on_fil (iput ip) ;; zoom on_fil (zoom on_l end_op)) s = Ok tt s' →
  files s' = files s ∧ ft_lock s' = ft_lock s.
Proof.
  intros (? & t1 & H3 & (? & t2 & H4 & H5)%bind_Ok_inv)%bind_Ok_inv.
  apply zoom_files_fil in H3 as [? ?], H4 as [? ?], H5 as [? ?]. split; congruence.
Qed.

(** A slot that is in use. *)
Lemma held_slot s hs f : fsim s hs → f ∈ hs → (f < Z.to_nat NFILE)%nat ∧ fl_ref (fobj f s) = nrefs f hs ∧ 1 ≤ nrefs f hs.
Proof.
  intros [_ _ [_ H2 H3]] Hf. pose proof (H3 f Hf) as Hlt. split_and!; [done|by apply H2|]. apply nrefs_in in Hf. lia.
Qed.

Lemma filealloc_run s hs :
  fsim s hs →
  match List.find (λ f, fl_ref (fobj f s) =? 0) (seq 0 (Z.to_nat NFILE)) with
  | Some f => filealloc s = Ok (Some f) (settled s (alter (with_fref 1) f (files s)))
  | None => filealloc s = Ok None (settled s (files s))
  end.
Proof.
  intros [Hh Hl _]. unfold filealloc. rewrite ft_enter by done. rewrite get_bind.
  change (λ f, fl_ref (fobj f (over on_ft _ s)) =? 0) with (λ f, fl_ref (fobj f s) =? 0).
  destruct (List.find _ _) as [f|].
  - destruct (ft_set s f (with_fref 1) Hh Hl) as (s1 & E1 & _ & E2 & _).
    by rewrite (bind_Ok _ _ _ _ _ E1), (bind_Ok _ _ _ _ _ E2).
  - erewrite bind_Ok; [|by apply (zoom_release on_ft _ (fhart s) (ft_lock s))].
    unfold settled. by destruct s as [[[[] ? ? ? ?] ?] ? ?].
Qed.

Lemma filedup_run s hs f :
  fsim s hs → f ∈ hs → filedup f s = Ok f (settled s (alter (λ x, with_fref (fl_ref x + 1) x) f (files s))).
Proof.
  intros Hs Hf. destruct (held_slot _ _ _ Hs Hf) as (_ & Hr & H1). destruct Hs as [Hh Hl _].
  unfold filedup. rewrite ft_enter by done. rewrite get_bind.
  change (fobj f (over on_ft _ s)) with (fobj f s). rewrite Hr, (proj2 (Z.ltb_ge _ 1)) by done.
  destruct (ft_set s f (λ x, with_fref (fl_ref x + 1) x) Hh Hl) as (s1 & E1 & _ & E2 & _).
  by rewrite (bind_Ok _ _ _ _ _ E1), (bind_Ok _ _ _ _ _ E2).
Qed.

Lemma fileclose_shared s hs f :
  fsim s hs → f ∈ hs → 1 < nrefs f hs →
  fileclose end_ f s = Ok tt (settled s (alter (λ x, with_fref (fl_ref x - 1) x) f (files s))).
Proof.
  intros Hs Hf H2. destruct (held_slot _ _ _ Hs Hf) as (_ & Hr & H1). destruct Hs as [Hh Hl _].
  unfold fileclose. rewrite ft_enter by done. rewrite get_bind.
  change (fobj f (over on_ft _ s)) with (fobj f s). rewrite Hr, (proj2 (Z.ltb_ge _ 1)) by done.
  destruct (ft_set s f (λ x, with_fref (fl_ref x - 1) x) Hh Hl) as (s1 & E1 & _ & E2 & _).
  by rewrite (bind_Ok _ _ _ _ _ E1), (proj2 (Z.ltb_lt 0 _)), E2 by lia.
Qed.

(** The last pointer: the slot is free when the pipe or the inode is released. *)
Lemma fileclose_last s hs f s' :
  fsim s hs → f ∈ hs → nrefs f hs = 1 → fileclose end_ f s = Ok tt s' →
  files s' = alter (λ x, File FD_NONE 0 (fl_readable x) (fl_writable x) (fl_pipe x) (fl_ip x) (fl_off x) (fl_major x)) f (files s) ∧
  ft_lock s' = ft_lock s.
Proof.
  intros Hs Hf H2. destruct (held_slot _ _ _ Hs Hf) as (_ & Hr & H1). destruct Hs as [Hh Hl _].
  unfold fileclose. rewrite ft_enter by done. rewrite get_bind.
  change (fobj f (over on_ft _ s)) with (fobj f s). rewrite Hr, (proj2 (Z.ltb_ge _ 1)) by done.
  set (g := λ x, with_fref (fl_ref x - 1) x).
  set (g' := λ x, File FD_NONE 0 (fl_readable x) (fl_writable x) (fl_pipe x) (fl_ip x) (fl_off x) (fl_major x)).
  destruct (ft_set s f g Hh Hl) as (s1 & E1 & F1 & _ & E2).
  rewrite (bind_Ok _ _ _ _ _ E1), (proj2 (Z.ltb_ge 0 _)) by lia.
  rewrite (bind_Ok _ _ _ _ _ (eq_refl : gets (fobj f) s1 = Ok (fobj f s1) s1)).
  set (s2 := Fil (fl_p s1) (ft_lock s1) (alter g' f (files s1))).
  rewrite (bind_Ok _ _ _ _ _ (eq_refl : set_file f g' s1 = Ok tt s2)).
  assert (zoom on_ft release s2 = Ok tt (settled s (files s2))) as E3 by apply E2.
  rewrite (bind_Ok _ _ _ _ _ E3). set (s3 := settled s (files s2)).
  assert (files s3 = alter g' f (files s)) as E.
  { change (files s3) with (alter g' f (files s1)). rewrite F1.
    apply list_eq. intros i. rewrite !list_lookup_alter. repeat case_decide; try done; by destruct (files s !! f). }
  rewrite <- E. change (ft_lock s) with (ft_lock s3). clearbody s3. destruct (fl_type (fobj f s1)).
  - by intros [= <-].
  - apply zoom_files_pip.
  - apply last_inode.
  - apply last_inode.
Qed.

Lemma no_file_panics s hs f :
  fsim s hs → f ∉ hs → (f < Z.to_nat NFILE)%nat →
  faults (filedup f) s (Panicked "filedup") ∧ faults (fileclose end_ f) s (Panicked "fileclose").
Proof.
  intros [Hh Hl [_ H2 _]] Hf Hlt. rewrite nrefs_in in Hf. assert (fl_ref (fobj f s) < 1) as Hr by (rewrite H2 by done; lia).
  unfold faults, filedup, fileclose. rewrite !ft_enter, !get_bind by done.
  change (fobj f (over on_ft _ s)) with (fobj f s). by rewrite (proj2 (Z.ltb_lt _ 1)) by done.
Qed.

Lemma closed_type s hs f s' h :
  fsim s hs → f ∈ hs → files s' = alter h f (files s) → (∀ x, fl_type (h x) = FD_NONE) → fl_type (fobj f s') = FD_NONE.
Proof.
  intros Hs Hf Es Hh. destruct (held_slot _ _ _ Hs Hf) as (Hlt & _). rewrite <- (ct_len _ _ (fs_counts _ _ Hs)) in Hlt.
  destruct (lookup_lt_is_Some_2 _ _ Hlt) as [x Hx].
  unfold fobj. rewrite Es, list_lookup_total_alt, list_lookup_alter, decide_True, Hx by done. apply Hh.
Qed.

(** The counts after each call. *)
Lemma alloc_counts s hs f :
  fsim s hs → (f < Z.to_nat NFILE)%nat → fl_ref (fobj f s) = 0 →
  (f ∉ hs) ∧ fsim (settled s (alter (with_fref 1) f (files s))) (f :: hs).
Proof.
  intros Hs Hf H0. destruct (Hs) as [_ _ Hc]. rewrite (ct_ref _ _ Hc f Hf) in H0.
  split; [rewrite nrefs_in; lia|]. apply (fsim_settled s hs); [done|]. eapply (counts_alter s hs); [done|done|done|..].
  - cbn. rewrite nrefs_cons, decide_True, H0 by done. done.
  - intros h Hh. rewrite nrefs_cons, decide_False by done. lia.
  - intros h [->|Hin]%elem_of_cons; [done|]. by apply (ct_in _ _ Hc).
Qed.

Lemma dup_counts s hs f :
  fsim s hs → f ∈ hs → fsim (settled s (alter (λ x, with_fref (fl_ref x + 1) x) f (files s))) (f :: hs).
Proof.
  intros Hs Hf. destruct (held_slot _ _ _ Hs Hf) as (Hlt & Hr & _). destruct (Hs) as [_ _ Hc].
  apply (fsim_settled s hs); [done|]. eapply (counts_alter s hs); [done|done|done|..].
  - cbn. rewrite Hr, nrefs_cons, decide_True by done. done.
  - intros h Hh. rewrite nrefs_cons, decide_False by done. lia.
  - intros h [->|Hin]%elem_of_cons; [done|]. by apply (ct_in _ _ Hc).
Qed.

Lemma close_counts s hs f g s' :
  fsim s hs → f ∈ hs → files s' = alter g f (files s) → fl_ref (g (fobj f s)) = nrefs f hs - 1 → counts s' (drop_ref f hs).
Proof.
  intros Hs Hf Es Hg. destruct (held_slot _ _ _ Hs Hf) as (Hlt & _). destruct Hs as [_ _ Hc].
  eapply (counts_alter s hs); [done|exact Es|done|..].
  - rewrite Hg, nrefs_drop, decide_True by done. done.
  - intros h Hh. rewrite nrefs_drop, decide_False by done. lia.
  - intros h Hin. apply (ct_in _ _ Hc), nrefs_in. apply nrefs_in in Hin. rewrite nrefs_drop in Hin by done.
    case_decide; lia.
Qed.

(** ** Properties *)

(** C28: the count of a slot of the file table is the number of pointers to it, for
    every mix of calls. filealloc gives a slot nobody points to, and fails only
    when all are pointed to; filedup adds a pointer; fileclose takes one away, and
    with the last one the slot is free again. A call with a pointer that is not
    held panics. *)
Theorem file_handles s hs :
  fsim s hs →
  (∃ r s', filealloc s = Ok r s' ∧
     match r with
     | Some f => (f ∉ hs) ∧ fsim s' (f :: hs)
     | None => fsim s' hs ∧ ∀ f, (f < Z.to_nat NFILE)%nat → f ∈ hs
     end) ∧
  (∀ f, f ∈ hs → ∃ s', filedup f s = Ok f s' ∧ fsim s' (f :: hs)) ∧
  (∀ f, f ∈ hs → 1 < nrefs f hs → ∃ s', fileclose end_ f s = Ok tt s' ∧ fsim s' (drop_ref f hs)) ∧
  (∀ f s', f ∈ hs → nrefs f hs = 1 → fileclose end_ f s = Ok tt s' →
     counts s' (drop_ref f hs) ∧ fl_type (fobj f s') = FD_NONE ∧ ft_lock s' = ft_lock s) ∧
  (∀ f, (f < Z.to_nat NFILE)%nat → f ∉ hs →
     faults (filedup f) s (Panicked "filedup") ∧ faults (fileclose end_ f) s (Panicked "fileclose")).
Proof.
  intros Hs. split_and!.
  - pose proof (filealloc_run s hs Hs) as H. destruct (List.find _ _) as [f|] eqn:Ef.
    + apply List.find_some in Ef as [Hin H0%Z.eqb_eq]. apply list_elem_of_In, elem_of_seq in Hin.
      do 2 eexists. split; [exact H|]. apply alloc_counts; [done|lia|done].
    + do 2 eexists. split; [exact H|]. split.
      * apply (fsim_settled s hs); [done|]. by destruct (fs_counts _ _ Hs).
      * intros f Hf. apply nrefs_in. rewrite <- (ct_ref _ _ (fs_counts _ _ Hs) f Hf).
        assert (fl_ref (fobj f s) ≠ 0) by (apply Z.eqb_neq, (List.find_none _ _ Ef), list_elem_of_In, elem_of_seq; lia).
        rewrite (ct_ref _ _ (fs_counts _ _ Hs) f Hf) in *. unfold nrefs in *. lia.
  - intros f Hf. eexists. split; [by apply (filedup_run s hs)|]. by apply dup_counts.
  - intros f Hf H1. eexists. split; [by apply (fileclose_shared s hs)|].
    apply (fsim_settled s hs); [done|]. eapply (close_counts s hs f); [done|done|done|].
    cbn. by destruct (held_slot _ _ _ Hs Hf) as (_ & -> & _).
  - intros f s' Hf H1 Hc. destruct (fileclose_last s hs f s' Hs Hf H1 Hc) as [E El].
    split_and!; [|by eapply closed_type|done].
    eapply (close_counts s hs f); [done|done|exact E|]. cbn. lia.
  - intros f Hlt Hf. by apply (no_file_panics s hs).
Qed.
End files.

(** Slot 2 is open twice, the others are free. *)
Definition demo_files : list file := <[2%nat := File FD_INODE 2 1 1 0 0 0 0]> (replicate 100 file0).
Definition demo_fil : fil ram_disk :=
  Fil (Pip (demo_fst (demo_lst (demo_boot ∅))) ∅) (Spin 0 "ftable" None) demo_files.

Lemma demo_fsim : fsim demo_fil [2; 2]%nat.
Proof.
  split; [apply demo_hart_ok|by split|]. split; [done| |].
  - intros f Hf. unfold fobj, demo_fil, demo_files, files. destruct (decide (f = 2%nat)) as [->|Hne]; [done|].
    rewrite list_lookup_total_insert_ne, list_lookup_total_alt, lookup_replicate_2 by (done || exact Hf).
    by rewrite !nrefs_cons, !decide_False by done.
  - intros f. rewrite !elem_of_cons, elem_of_nil. intros [->|[->|[]]]; vm_compute; lia.
Qed.

Lemma file_handles_witness :
  (∃ r s', filealloc demo_fil = Ok r s') ∧
  (∃ s', filedup 2 demo_fil = Ok 2%nat s' ∧ fsim s' [2; 2; 2]%nat) ∧
  (∃ s', fileclose 0 2 demo_fil = Ok tt s' ∧ fsim s' [2]%nat) ∧
  faults (fileclose 0 5) demo_fil (Panicked "fileclose").
Proof.
  destruct (file_handles 0 demo_fil [2; 2]%nat demo_fsim) as ((r & s' & H1 & _) & H2 & H3 & _ & H5).
  split_and!.
  - exists r, s'. exact H1.
  - apply H2. apply list_elem_of_here.
  - apply (H3 2%nat); [apply list_elem_of_here|reflexivity].
  - apply (H5 5%nat); [vm_compute; lia|]. rewrite !elem_of_cons, elem_of_nil. lia.
Defined.
