(* ===== verification/Proc.v ===== *)
(** * kernel/proc.c: the life of a process

    Allocation, fork, exit, wait, memory size, the scheduler. The struct
    trapframe of a process is in memory at p->trapframe; [trampoline] and
    [forkret] are the addresses of the code of those names and [loc] the address
    of the field &pp->xstate, through which kwait copies the status out. *)
From S2P Require Import Prelude Memory KString Riscv Spinlock Kalloc Vm Sched Sleeplock Disk Bio Log Fs Dir Pipe File.

Record sys (D : Type) : Type := Sys {
  y_f : fil D;
  pid_lock : spinlock;
  nextpid : Z;
  wait_lock : spinlock;
  initproc : option nat;
  tickslock : spinlock;
  ticks : Z
}.
Arguments Sys {D}.
Arguments y_f {D}.
Arguments pid_lock {D}.
Arguments nextpid {D}.
Arguments wait_lock {D}.
Arguments initproc {D}.
Arguments tickslock {D}.
Arguments ticks {D}.

(** Offsets of struct trapframe and its size. *)
Definition TF_kernel_satp : Z := 0.
Definition TF_kernel_sp : Z := 8.
Definition TF_kernel_trap : Z := 16.
Definition TF_epc : Z := 24.
Definition TF_kernel_hartid : Z := 32.
Definition TF_sp : Z := 48.
Definition TF_a0 : Z := 112.
Definition TF_a1 : Z := 120.
Definition TF_a7 : Z := 168.
Definition sizeof_trapframe : Z := 288.

(** safestrcpy between two name arrays of n bytes: the characters up to the NUL,
    at most n - 1 of them, then a NUL; the rest of the target is kept. *)
Fixpoint until_nul (l : list Z) : list Z :=
  match l with [] => [] | c :: l' => if c =? 0 then [] else c :: until_nul l' end.
Definition name_copy (dst src : list Z) : list Z :=
  let c := take (length dst - 1) (until_nul src) in c ++ 0 :: drop (S (length c)) dst.

Section proc.
Context {D : Type} `{!BlockDev D}.
Context (end_ : Z) (buf_addr : nat → Z) (loc trampoline forkret_addr : Z).
Implicit Types s : sys D.

Definition on_fl : lens (sys D) (fil D) :=
  Lens y_f (λ f s, Sys f (pid_lock s) (nextpid s) (wait_lock s) (initproc s) (tickslock s) (ticks s)).
Definition on_fs : lens (sys D) (fst D) :=
  Lens (λ s, pi_f (fl_p (y_f s))) (λ f s, over on_fl (over on_fil f (y_f s)) s).
Definition y_p s : pst := f_p (view on_fs s).
Definition with_yp (p : pst) s : sys D := over on_fs (with_fp p (view on_fs s)) s.
Definition on_yp : lens (sys D) pst := Lens y_p with_yp.
Definition on_yv : lens (sys D) vst :=
  Lens (λ s, view on_vst (view on_fs s)) (λ v s, over on_fs (over on_vst v (view on_fs s)) s).
Definition on_yk : lens (sys D) kst :=
  Lens (λ s, v_k (view on_yv s)) (λ k s, over on_yv (Vst k (v_procs (view on_yv s))) s).
Definition on_ymem : lens (sys D) mem :=
  Lens (λ s, km_mem (f_km (view on_fs s))) (λ m s, over on_fs (over on_mem m (view on_fs s)) s).
Definition with_hart (h : hart) s : sys D := with_yp (Pst h (procs (y_p s))) s.
Definition yhart s : hart := p_hart (y_p s).
Definition on_pid : lens (sys D) lockst :=
  Lens (λ s, (yhart s, pid_lock s))
       (λ t s, let s' := with_hart t.1 s in
               Sys (y_f s') t.2 (nextpid s) (wait_lock s) (initproc s) (tickslock s) (ticks s)).
Definition on_wait : lens (sys D) lockst :=
  Lens (λ s, (yhart s, wait_lock s))
       (λ t s, let s' := with_hart t.1 s in
               Sys (y_f s') (pid_lock s) (nextpid s) t.2 (initproc s) (tickslock s) (ticks s)).
Definition on_wslst : lens (sys D) slst :=
  Lens (λ s, (y_p s, wait_lock s))
       (λ t s, let s' := with_yp t.1 s in
               Sys (y_f s') (pid_lock s) (nextpid s) t.2 (initproc s) (tickslock s) (ticks s)).
Definition on_proc (i : nat) : lens (sys D) lockst :=
  Lens (λ s, view (proc_lk i) (y_p s)) (λ t s, with_yp (over (proc_lk i) t (y_p s)) s).

Definition prc (i : nat) s : proc := procs (y_p s) !!! i.
Definition set_proc (i : nat) (f : proc → proc) : M (sys D) unit :=
  modify (λ s, with_yp (Pst (yhart s) (alter f i (procs (y_p s)))) s).
Definition set_pub (i : nat) (f : ppub → ppub) : M (sys D) unit :=
  set_proc i (λ p, Proc (p_lock p) (f (p_pub p)) (p_parent p) (p_priv p)).
Definition set_priv (i : nat) (f : ppriv → ppriv) : M (sys D) unit :=
  set_proc i (λ p, Proc (p_lock p) (p_pub p) (p_parent p) (f (p_priv p))).
Definition set_parent (i : nat) (o : option nat) : M (sys D) unit :=
  set_proc i (λ p, Proc (p_lock p) (p_pub p) o (p_priv p)).
Definition with_pid (pid : Z) (p : ppub) : ppub := Ppub (p_state p) (p_chan p) (p_killed p) (p_xstate p) pid.
Definition with_xstate (x : Z) (p : ppub) : ppub := Ppub (p_state p) (p_chan p) (p_killed p) x (p_pid p).
Definition with_sz (z : Z) (p : ppriv) : ppriv :=
  Ppriv (p_kstack p) z (p_pgtbl p) (p_trapframe p) (p_context p) (p_ofile p) (p_cwd p) (p_name p).
Definition with_pgtbl (z : Z) (p : ppriv) : ppriv :=
  Ppriv (p_kstack p) (p_size p) z (p_trapframe p) (p_context p) (p_ofile p) (p_cwd p) (p_name p).
Definition with_tf (z : Z) (p : ppriv) : ppriv :=
  Ppriv (p_kstack p) (p_size p) (p_pgtbl p) z (p_context p) (p_ofile p) (p_cwd p) (p_name p).
Definition with_context (c : list Z) (p : ppriv) : ppriv :=
  Ppriv (p_kstack p) (p_size p) (p_pgtbl p) (p_trapframe p) c (p_ofile p) (p_cwd p) (p_name p).
Definition with_ofile (fd : nat) (f : option nat) (p : ppriv) : ppriv :=
  Ppriv (p_kstack p) (p_size p) (p_pgtbl p) (p_trapframe p) (p_context p) (<[fd := f]> (p_ofile p)) (p_cwd p) (p_name p).
Definition with_cwd (c : option nat) (p : ppriv) : ppriv :=
  Ppriv (p_kstack p) (p_size p) (p_pgtbl p) (p_trapframe p) (p_context p) (p_ofile p) c (p_name p).
Definition with_name (n : list Z) (p : ppriv) : ppriv :=
  Ppriv (p_kstack p) (p_size p) (p_pgtbl p) (p_trapframe p) (p_context p) (p_ofile p) (p_cwd p) n.
Definition with_kstack (k : Z) (p : ppriv) : ppriv :=
  Ppriv k (p_size p) (p_pgtbl p) (p_trapframe p) (p_context p) (p_ofile p) (p_cwd p) (p_name p).

Definition ymyproc : M (sys D) nat := zoom on_yp me.

Definition procinit : M (sys D) unit :=
  zoom on_pid (initlock "nextpid") ;;
  zoom on_wait (initlock "wait_lock") ;;
  each slots (λ i,
    zoom (on_proc i) (initlock "proc") ;;
    set_pub i (with_state UNUSED) ;;
    set_priv i (with_kstack (KSTACK (Z.of_nat i)))).

Definition allocpid : M (sys D) Z :=
  zoom on_pid acquire ;;
  do pid <- gets nextpid;
  modify (λ s, Sys (y_f s) (pid_lock s) (i32 (nextpid s + 1)) (wait_lock s) (initproc s) (tickslock s) (ticks s)) ;;
  zoom on_pid release ;;
  ret pid.

Definition proc_pagetable (p : nat) : M (sys D) Z :=
  do pagetable <- zoom on_yk uvmcreate;
  if pagetable =? 0 then ret 0
  else
    do r <- zoom on_yk (mappages pagetable TRAMPOLINE PGSIZE trampoline (Z.lor PTE_R PTE_X));
    if r <? 0 then zoom on_yk (uvmfree end_ pagetable 0) ;; ret 0
    else
      do s <- get;
      do r <- zoom on_yk (mappages pagetable TRAPFRAME PGSIZE (p_trapframe (p_priv (prc p s))) (Z.lor PTE_R PTE_W));
      if r <? 0 then
        zoom on_yk (uvmunmap end_ pagetable TRAMPOLINE 1 false) ;;
        zoom on_yk (uvmfree end_ pagetable 0) ;;
        ret 0
      else ret pagetable.

Definition proc_freepagetable (pagetable sz : Z) : M (sys D) unit :=
  zoom on_yk (uvmunmap end_ pagetable TRAMPOLINE 1 false) ;;
  zoom on_yk (uvmunmap end_ pagetable TRAPFRAME 1 false) ;;
  zoom on_yk (uvmfree end_ pagetable sz).

Definition freeproc (p : nat) : M (sys D) unit :=
  do s <- get;
  when (negb (p_trapframe (p_priv (prc p s)) =? 0)) (zoom on_yk (kfree end_ (p_trapframe (p_priv (prc p s))))) ;;
  set_priv p (with_tf 0) ;;
  do s <- get;
  when (negb (p_pgtbl (p_priv (prc p s)) =? 0))
    (proc_freepagetable (p_pgtbl (p_priv (prc p s))) (p_size (p_priv (prc p s)))) ;;
  set_priv p (with_pgtbl 0) ;;
  set_priv p (with_sz 0) ;;
  set_pub p (with_pid 0) ;;
  set_parent p None ;;
  set_priv p (λ q, with_name (<[0%nat := 0]> (p_name q)) q) ;;
  set_pub p (with_chan None) ;;
  set_pub p (with_killed 0) ;;
  set_pub p (with_xstate 0) ;;
  set_pub p (with_state UNUSED).

(** allocproc returns with p->lock held. *)
Definition allocproc : M (sys D) (option nat) :=
  do found <- first slots (λ i,
    zoom (on_proc i) acquire ;;
    do s <- get;
    if bool_decide (p_state (p_pub (prc i s)) = UNUSED) then ret (Some i)
    else zoom (on_proc i) release ;; ret None);
  match found with
  | None => ret None
  | Some p =>
      do pid <- allocpid;
      set_pub p (with_pid pid) ;;
      set_pub p (with_state USED) ;;
      do tf <- zoom on_yk kalloc;
      set_priv p (with_tf tf) ;;
      if tf =? 0 then freeproc p ;; zoom (on_proc p) release ;; ret None
      else
        do pt <- proc_pagetable p;
        set_priv p (with_pgtbl pt) ;;
        if pt =? 0 then freeproc p ;; zoom (on_proc p) release ;; ret None
        else
          do s <- get;
          set_priv p (with_context (forkret_addr :: u64 (p_kstack (p_priv (prc p s)) + PGSIZE) :: replicate 12 0)) ;;
          ret (Some p)
  end.

(** userinit: [root] is the address of the literal for the root path, [de] and
    [name] those of the locals of namei. *)
Definition userinit (de name root : Z) : M (sys D) unit :=
  do p <- allocproc;
  modify (λ s, Sys (y_f s) (pid_lock s) (nextpid s) (wait_lock s) p (tickslock s) (ticks s)) ;;
  match p with
  | None => halt Wild
  | Some p =>
      do cwd <- zoom on_fs (namei end_ buf_addr de name root);
      set_priv p (with_cwd cwd) ;;
      set_pub p (with_state RUNNABLE) ;;
      zoom (on_proc p) release
  end.

Definition growproc (n : Z) : M (sys D) Z :=
  do p <- ymyproc;
  do s <- get;
  let sz := p_size (p_priv (prc p s)) in
  let pt := p_pgtbl (p_priv (prc p s)) in
  if 0 <? n then
    if TRAPFRAME <? u64 (sz + n) then ret (-1)
    else
      do sz' <- zoom on_yk (uvmalloc end_ pt sz (u64 (sz + n)) PTE_W);
      if sz' =? 0 then ret (-1)
      else set_priv p (with_sz sz') ;; ret 0
  else if n <? 0 then
    do sz' <- zoom on_yk (uvmdealloc end_ pt sz (u64 (sz + n)));
    set_priv p (with_sz sz') ;; ret 0
  else set_priv p (with_sz sz) ;; ret 0.

Definition kfork : M (sys D) Z :=
  do p <- ymyproc;
  do o <- allocproc;
  match o with
  | None => ret (-1)
  | Some np =>
      do s <- get;
      let q := p_priv (prc p s) in
      do r <- zoom on_yk (uvmcopy end_ (p_pgtbl q) (p_pgtbl (p_priv (prc np s))) (p_size q));
      if r <? 0 then freeproc np ;; zoom (on_proc np) release ;; ret (-1)
      else
        set_priv np (with_sz (p_size q)) ;;
        do s <- get;
        let tf := p_trapframe (p_priv (prc np s)) in
        zoom on_ymem (modify (λ m, wrs m tf (rds m (p_trapframe q) (Z.to_nat sizeof_trapframe)))) ;;
        zoom on_ymem (modify (λ m, st64 m (tf + TF_a0) 0)) ;;
        each (seq 0 (Z.to_nat NOFILE)) (λ i,
          do s <- get;
          match p_ofile (p_priv (prc p s)) !!! i with
          | None => ret tt
          | Some f => do f' <- zoom on_fl (filedup f); set_priv np (with_ofile i (Some f'))
          end) ;;
        do cwd <- of_option (p_cwd q);
        do cwd' <- zoom on_fs (idup cwd);
        set_priv np (with_cwd (Some cwd')) ;;
        set_priv np (λ x, with_name (name_copy (p_name x) (p_name q)) x) ;;
        do s <- get;
        let pid := p_pid (p_pub (prc np s)) in
        zoom (on_proc np) release ;;
        zoom on_wait acquire ;;
        set_parent np (Some p) ;;
        zoom on_wait release ;;
        zoom (on_proc np) acquire ;;
        set_pub np (with_state RUNNABLE) ;;
        zoom (on_proc np) release ;;
        ret pid
  end.

(** [wakeup(p)] of a process pointer; of the null pointer, on which no process
    sleeps, it only takes and gives back the locks. *)
Definition wakeup_proc (o : option nat) : M (sys D) unit :=
  match o with
  | Some i => zoom on_yp (wakeup (ChProc i))
  | None => each slots (λ j,
      do m <- zoom on_yp (zoom hart_of myproc);
      if bool_decide (m = Some j) then ret tt
      else zoom (on_proc j) acquire ;; zoom (on_proc j) release)
  end.

Definition reparent (p : nat) : M (sys D) unit :=
  each slots (λ i,
    do s <- get;
    if bool_decide (p_parent (prc i s) = Some p) then
      set_parent i (initproc s) ;;
      wakeup_proc (initproc s)
    else ret tt).

Definition kexit (status : Z) : M (sys D) unit :=
  do p <- ymyproc;
  do s <- get;
  if bool_decide (initproc s = Some p) then panic "init exiting"
  else
    each (seq 0 (Z.to_nat NOFILE)) (λ fd,
      do s <- get;
      match p_ofile (p_priv (prc p s)) !!! fd with
      | None => ret tt
      | Some f => zoom on_fl (fileclose end_ f) ;; set_priv p (with_ofile fd None)
      end) ;;
    zoom on_fs (zoom on_l begin_op) ;;
    do s <- get;
    do cwd <- of_option (p_cwd (p_priv (prc p s)));
    zoom on_fs (iput cwd) ;;
    zoom on_fs (zoom on_l end_op) ;;
    set_priv p (with_cwd None) ;;
    zoom on_wait acquire ;;
    reparent p ;;
    do s <- get;
    wakeup_proc (p_parent (prc p s)) ;;
    zoom (on_proc p) acquire ;;
    set_pub p (with_xstate status) ;;
    set_pub p (with_state ZOMBIE) ;;
    zoom on_wait release ;;
    zoom on_yp sched ;;
    panic "zombie exit".

(** One slot of the scan of kwait: the result if it ends the call. *)
Definition kwait_slot (p : nat) (addr : Z) (i : nat) : M (sys D) (option Z) :=
  do s <- get;
  if bool_decide (p_parent (prc i s) = Some p) then
    zoom (on_proc i) acquire ;;
    do s <- get;
    if bool_decide (p_state (p_pub (prc i s)) = ZOMBIE) then
      let pid := p_pid (p_pub (prc i s)) in
      do bad <- (if addr =? 0 then ret false
                 else
                   zoom on_ymem (modify (λ m, st 4 m loc (u32 (p_xstate (p_pub (prc i s)))))) ;;
                   do r <- zoom on_yv (copyout end_ (p_pgtbl (p_priv (prc p s))) addr loc 4);
                   ret (r <? 0));
      if bad : bool then
        zoom (on_proc i) release ;; zoom on_wait release ;; ret (Some (-1))
      else
        freeproc i ;;
        zoom (on_proc i) release ;; zoom on_wait release ;; ret (Some pid)
    else zoom (on_proc i) release ;; ret None
  else ret None.

(** The for(;;) of kwait: sleep leaves the thread, so one iteration runs. *)
Definition kwait (addr : Z) : M (sys D) Z :=
  do p <- ymyproc;
  zoom on_wait acquire ;;
  loop 1 (λ _,
    do r <- first slots (kwait_slot p addr);
    match r with
    | Some v => ret (inr v)
    | None =>
        do s <- get;
        let havekids := existsb (λ q, bool_decide (p_parent q = Some p)) (procs (y_p s)) in
        do k <- (if havekids then do k <- zoom on_yp (killed p); ret (negb (k =? 0)) else ret true);
        if k : bool then zoom on_wait release ;; ret (inr (-1))
        else zoom on_wslst (sleep (ChProc p)) ;; ret (inl tt)
    end) tt.

(** ** The scheduler

    [run i] is what happens from swtch(&c->context, &p->context) until the
    process switches back. scheduler() never returns: [scheduler n] is its first
    [n] iterations; wfi, which waits for an interrupt, changes nothing. *)
Definition on_yh : lens (sys D) hart := Lens yhart with_hart.
Definition set_cproc (o : option nat) : M (sys D) unit :=
  zoom on_yh (set_mycpu (λ c, Cpu o (noff c) (intena c))).

Fixpoint scheduler_scan (run : nat → M (sys D) unit) (l : list nat) (found : bool) : M (sys D) bool :=
  match l with
  | [] => ret found
  | i :: l' =>
      zoom (on_proc i) acquire ;;
      do s <- get;
      do found <- (if bool_decide (p_state (p_pub (prc i s)) = RUNNABLE) then
                     set_pub i (with_state RUNNING) ;;
                     set_cproc (Some i) ;;
                     run i ;;
                     set_cproc None ;;
                     ret true
                   else ret found);
      zoom (on_proc i) release ;;
      scheduler_scan run l' found
  end.

Definition scheduler (run : nat → M (sys D) unit) (n : nat) : M (sys D) unit :=
  set_cproc None ;;
  each (replicate n tt) (λ _,
    zoom on_yh intr_on ;;
    zoom on_yh intr_off ;;
    do found <- scheduler_scan run slots false;
    ret tt).
End proc.
