(* ===== verification/SchedLive.v ===== *)
(** * The scheduler runs every runnable process (kernel/proc.c)

    What a process does between the two swtch calls is the parameter [run] of the
    scheduler; [Dispatch] says what a process that was switched to owes the
    scheduler when it switches back: its lock, the other processes' locks free, the
    CPU as sched() leaves it, and no process it found RUNNABLE made otherwise. *)
From S2P Require Import Prelude Memory KString Riscv Spinlock Kalloc Vm Sched Sleeplock Disk Bio Log Fs Dir Pipe File Proc.

(** ** c->proc *)
Definition with_cproc (o : option nat) (h : hart) : hart := with_cur (Cpu o (noff (cur h)) (intena (cur h))) h.

Lemma with_cproc_ok o h : hart_ok h → hart_ok (with_cproc o h) ∧ noff (cur (with_cproc o h)) = noff (cur h) ∧
  cpu_proc (cur (with_cproc o h)) = o.
Proof.
  intros H. unfold with_cproc. rewrite cur_with_cur by done. split_and!; [|done|done].
  split; [cbn; rewrite length_insert; apply H|..]; rewrite cur_with_cur by done; apply H.
Qed.

Lemma with_cproc_push o h : hart_ok h → with_cproc o (push h) = push (with_cproc o h).
Proof.
  intros H. unfold with_cproc, push. rewrite (cur_with_cur _ h H). unfold with_cur. cbn [sstatus tp cpus cpu_proc noff intena].
  fold (push h). rewrite (cur_push h H). cbn [sstatus tp cpus push cpu_proc noff intena].
  by rewrite !list_insert_insert_eq.
Qed.

Lemma set_cproc_cpu o h : hart_ok h → set_mycpu (λ c, Cpu o (noff c) (intena c)) h = Ok tt (with_cproc o h).
Proof.
  intros H. unfold set_mycpu, modify, with_cproc, with_cur. by rewrite (list_alter_at _ _ _ _ (lookup_cur h H)).
Qed.

Section live.
Context {D : Type} `{!BlockDev D}.
Implicit Types (s : sys D) (i j : nat) (l : list proc).

(** The process table seen from the scheduler, with the lock of process [i] held. *)
Record onto i s (h : hart) l (q : proc) (lk : spinlock) : Prop := {
  on_eq : y_p s = Pst (push h) l;
  on_hart : hart_ok h;
  on_noff : noff (cur h) = 0;
  on_slot : l !! i = Some q;
  on_held : p_lock q = held lk (tp h) ∧ lock_free lk;
  on_len : length l = Z.to_nat NPROC;
  on_free : ∀ j r, j ≠ i → l !! j = Some r → lock_free (p_lock r)
}.

Definition runnable l j : Prop := ∃ r, l !! j = Some r ∧ p_state (p_pub r) = RUNNABLE.

(** What a dispatched process does. [ran i s] holds of the states after process [i] has run. *)
Class Dispatch (run : nat → M (sys D) unit) (ran : nat → sys D → Prop) : Prop := {
  run_back i s h l q lk : onto i s h l q lk → cpu_proc (cur h) = Some i → p_state (p_pub q) = RUNNING →
    wp (run i) (λ _ s', ran i s' ∧ (∀ j, ran j s → ran j s') ∧
      ∃ h' l' q' lk', onto i s' h' l' q' lk' ∧ tp h' = tp h ∧
        ∀ j, j ≠ i → runnable l j → runnable l' j) s;
  ran_stable i s p : ran i s → ran i (with_yp p s)
}.

Context (run : nat → M (sys D) unit) (ran : nat → sys D → Prop) `{!Dispatch run ran}.

Record sched_ok s : Prop := {
  so_p : pst_ok (y_p s);
  so_noff : noff (cur (yhart s)) = 0
}.

Lemma y_p_with p s : y_p (with_yp p s) = p.
Proof. done. Qed.

Lemma prc_with i p s : prc i (with_yp p s) = procs p !!! i.
Proof. done. Qed.

Lemma zoom_on_proc {A} i (c : M lockst A) s a p :
  zoom (proc_lk i) c (y_p s) = Ok a p → zoom (on_proc i) c s = Ok a (with_yp p s).
Proof. unfold zoom. cbn. destruct (c _) as [b t|]; [|done]. intros [= -> <-]. done. Qed.

Lemma set_pub_run i f s l h q : y_p s = Pst h l → l !! i = Some q →
  set_pub i f s = Ok tt (with_yp (Pst h (<[i := Proc (p_lock q) (f (p_pub q)) (p_parent q) (p_priv q)]> l)) s).
Proof. intros E Hq. unfold set_pub, set_proc, modify, yhart. rewrite E. cbn [p_hart procs]. by rewrite (list_alter_at _ _ _ _ Hq). Qed.

Lemma set_cproc_run o s h l : y_p s = Pst h l → hart_ok h → set_cproc o s = Ok tt (with_yp (Pst (with_cproc o h) l) s).
Proof.
  intros E H. unfold set_cproc. erewrite zoom_Ok; [|unfold on_yh, view, yhart; rewrite E; by apply set_cproc_cpu].
  cbn. unfold with_hart. by rewrite E.
Qed.

(** release(&p->lock) at the end of the visit of slot [i]. *)
Lemma visit_release s i h l q lk : onto i s h l q lk →
  ∃ s', zoom (on_proc i) release s = Ok tt s' ∧ sched_ok s' ∧ (∀ j, ran j s → ran j s') ∧
    ∀ j, j ≠ i → procs (y_p s') !! j = l !! j.
Proof.
  intros [E Hh Hn Hq [Hl Hf] Hlen Hfree]. pose proof (lookup_lt_Some _ _ _ Hq) as Hi.
  assert (l = <[i := Proc (held lk (tp h)) (p_pub q) (p_parent q) (p_priv q)]> l) as El.
  { rewrite list_insert_id; [done|]. by rewrite <- Hl, proc_eta. }
  pose proof (slot_release h l i lk (p_pub q) (p_parent q) (p_priv q) Hh Hf Hi) as R. rewrite <- El, <- E in R.
  eexists. split; [exact (zoom_on_proc _ _ _ _ _ R)|split; [|split]].
  - split; cbn; [|by rewrite cur_sync]. split; cbn; [by apply sync_ok|by rewrite length_insert|].
    apply Forall_lookup. intros j r. destruct (decide (j = i)) as [->|Hne].
    + rewrite list_lookup_insert_eq by done. by intros [= <-].
    + rewrite list_lookup_insert_ne by done. by apply Hfree.
  - intros j. apply ran_stable.
  - intros j Hj. cbn. by apply list_lookup_insert_ne.
Qed.

Lemma visit s i q found (k : bool → M (sys D) bool) Q : sched_ok s → procs (y_p s) !! i = Some q →
  (∀ s1 f1, sched_ok s1 → (∀ j, ran j s → ran j s1) →
     (∀ j, j ≠ i → runnable (procs (y_p s)) j → runnable (procs (y_p s1)) j) →
     (p_state (p_pub q) = RUNNABLE → ran i s1 ∧ f1 = true) → (found = true → f1 = true) → wp (k f1) Q s1) →
  wp (zoom (on_proc i) acquire ;;
      do s <- get;
      do found <- (if bool_decide (p_state (p_pub (prc i s)) = RUNNABLE) then
                     set_pub i (with_state RUNNING) ;;
                     set_cproc (Some i) ;;
                     run i ;;
                     set_cproc None ;;
                     ret true
                   else ret found);
      zoom (on_proc i) release ;;
      k found) Q s.
Proof.
  intros [Hp Hn] Hq Hk. pose proof (lookup_lt_Some _ _ _ Hq) as Hi. set (h := yhart s) in *. set (l := procs (y_p s)) in *.
  assert (hart_ok h) as Hh by apply Hp.
  set (held_q f := Proc (held (p_lock q) (tp h)) (f (p_pub q)) (p_parent q) (p_priv q)).
  assert (∀ f h1, hart_ok h1 → noff (cur h1) = 0 → tp h1 = tp h → ∀ s', onto i (with_yp (Pst (push h1) (<[i := held_q f]> l)) s') h1
    (<[i := held_q f]> l) (held_q f) (p_lock q)) as Honto.
  { intros f h1 Hh1 Hn1 Ht s'. split; [done|done|done|by apply list_lookup_insert_eq| |by rewrite length_insert; apply Hp|].
    - rewrite Ht. split; [done|]. exact (proj1 (Forall_lookup _ _) (ps_locks _ Hp) i q Hq).
    - intros j r Hj. rewrite list_lookup_insert_ne by done. apply (proj1 (Forall_lookup _ _) (ps_locks _ Hp)). }
  wp_step. eapply wp_of_Ok; [by apply zoom_on_proc, (slot_acquire (y_p s) i q)|]. fold l. change (p_hart (y_p s)) with h.
  change (Proc (held (p_lock q) (tp h)) (p_pub q) (p_parent q) (p_priv q)) with (held_q id).
  wp_step. wp_step. rewrite prc_with. cbn [procs]. rewrite list_lookup_total_insert_eq by done. cbn [held_q p_pub id].
  set (s1 := with_yp _ s). wp_step. case_bool_decide as Hrun.
  - wp_step. eapply wp_of_Ok; [apply (set_pub_run i _ s1 (<[i := held_q id]> l) (push h) (held_q id)); [done|by apply list_lookup_insert_eq]|].
    rewrite list_insert_insert_eq. wp_step.
    eapply wp_of_Ok; [by eapply set_cproc_run; [done|apply push_ok]|]. rewrite with_cproc_push by done.
    destruct (with_cproc_ok (Some i) h Hh) as (Hh2 & Hn2 & Hc2). wp_step.
    wp_call (run_back i _ (with_cproc (Some i) h) (<[i := held_q (with_state RUNNING)]> l)); [by apply Honto; [done|lia|]|done|done|].
    intros [] s2 (Hr & Hmono & h' & l' & q' & lk' & Hon & Ht & Hkeep).
    wp_step. eapply wp_of_Ok; [eapply set_cproc_run; [apply Hon|apply push_ok, Hon]|]. rewrite with_cproc_push by apply Hon.
    destruct (with_cproc_ok None h' (on_hart _ _ _ _ _ _ Hon)) as (Hh3 & Hn3 & _). wp_step.
    destruct (visit_release (with_yp (Pst (push (with_cproc None h')) l') s2) i (with_cproc None h') l' q' lk') as (s3 & E3 & Hok3 & Hm3 & Hl3).
    { destruct Hon. split; try done. by rewrite Hn3. }
    wp_step. eapply wp_of_Ok; [exact E3|]. apply Hk; [done| | | |done].
    + intros j Hj. apply Hm3, ran_stable, Hmono. do 3 (apply ran_stable). done.
    + intros j Hj (r & Hr1 & Hr2). destruct (Hkeep j Hj) as (r' & E' & Hs'); [exists r; by rewrite list_lookup_insert_ne|].
      exists r'. by rewrite Hl3.
    + intros _. split; [|done]. by apply Hm3, ran_stable.
  - wp_step. destruct (visit_release s1 i h (<[i := held_q id]> l) (held_q id) (p_lock q)) as (s3 & E3 & Hok3 & Hm3 & Hl3); [by apply Honto|].
    wp_step. eapply wp_of_Ok; [exact E3|]. apply Hk; [done| | |done|done].
    + intros j Hj. by apply Hm3, ran_stable.
    + intros j Hj (r & Hr1 & Hr2). exists r. rewrite Hl3, list_lookup_insert_ne by done. done.
Qed.

Lemma scan_ok s sl found : sched_ok s → NoDup sl → (∀ i, i ∈ sl → (i < Z.to_nat NPROC)%nat) →
  wp (scheduler_scan run sl found) (λ f s', sched_ok s' ∧ (∀ j, ran j s → ran j s') ∧
    (∀ i, i ∈ sl → runnable (procs (y_p s)) i → ran i s' ∧ f = true) ∧ (found = true → f = true)) s.
Proof.
  revert s found. induction sl as [|i sl IH]; intros s found Hok Hnd Hlt; cbn [scheduler_scan].
  - wp_step. split_and!; try done. intros i Hi. by apply not_elem_of_nil in Hi.
  - apply NoDup_cons in Hnd as [Hi Hnd].
    destruct (lookup_lt_is_Some_2 (procs (y_p s)) i) as [q Hq]; [rewrite (ps_len _ (so_p _ Hok)); apply Hlt; by left|].
    apply (visit s i q); [done|done|]. intros s1 f1 Hok1 Hm1 Hr1 Hran Hf1.
    wp_call (IH s1 f1 Hok1 Hnd); [intros j Hj; apply Hlt; by right|].
    intros f s2 (Hok2 & Hm2 & Hr2 & Hf2). split_and!; [done|by intros j Hj; apply Hm2, Hm1| |tauto].
    intros j [->|Hj]%elem_of_cons Hjr.
    + destruct Hjr as (r & Hr & Hs). rewrite Hq in Hr. injection Hr as ->. destruct (Hran Hs) as [? ->]. split; [by apply Hm2|by apply Hf2].
    + apply Hr2; [done|]. apply Hr1; [by intros ->|done].
Qed.

Lemma intr_toggle s : sched_ok s → ∃ s', zoom on_yh intr_on s = Ok tt s' ∧ ∃ s'', zoom on_yh intr_off s' = Ok tt s'' ∧
  sched_ok s'' ∧ procs (y_p s'') = procs (y_p s) ∧ ∀ j, ran j s → ran j s''.
Proof.
  intros [[H1 H2 H3] Hn]. eexists. split; [done|]. eexists. split; [done|]. split_and!.
  - split; [|done]. split; [|done|done]. split; [apply H1|apply H1|]. intros _. apply SIE_off.
  - done.
  - intros j Hj. unfold on_yh. cbn. unfold with_hart. by apply ran_stable.
Qed.

(** One iteration of the for(;;) of scheduler. *)
Lemma pass_ok s : sched_ok s →
  wp (zoom on_yh intr_on ;; zoom on_yh intr_off ;; do found <- scheduler_scan run slots false; ret tt)
    (λ _ s', sched_ok s' ∧ (∀ j, ran j s → ran j s') ∧ ∀ i, runnable (procs (y_p s)) i → ran i s') s.
Proof.
  intros Hok. destruct (intr_toggle s Hok) as (s1 & E1 & s2 & E2 & Hok2 & Hp2 & Hm2).
  wp_step. eapply wp_of_Ok; [exact E1|]. wp_step. eapply wp_of_Ok; [exact E2|]. wp_step.
  wp_call (scan_ok s2 slots false Hok2); [apply NoDup_seq|intros i Hi; apply elem_of_seq in Hi; lia|].
  intros f s3 (Hok3 & Hm3 & Hr3 & _). wp_step. split_and!; [done|by intros j Hj; apply Hm3, Hm2|].
  intros i Hi. apply Hr3; [|by rewrite Hp2]. destruct Hi as (r & Hr & _). apply elem_of_seq. apply lookup_lt_Some in Hr.
  rewrite (ps_len _ (so_p _ Hok)) in Hr. lia.
Qed.

(** C31: The scheduler starves nobody. Whatever the processes do, as long as each
    eventually switches back to the scheduler holding its lock as sched() demands,
    one pass of the scheduler's loop runs every process that was RUNNABLE at its start;
    the locks are balanced and every later pass starts from the same conditions. *)
Theorem scheduler_runs_all s n : sched_ok s → (0 < n)%nat →
  wp (scheduler run n) (λ _ s', sched_ok s' ∧ ∀ i, runnable (procs (y_p s)) i → ran i s') s.
Proof.
  intros Hok Hn. unfold scheduler. set (h := yhart s). assert (hart_ok h) as Hh by apply Hok.
  destruct (with_cproc_ok None h Hh) as (Hh1 & Hn1 & _).
  wp_step. eapply wp_of_Ok; [apply (set_cproc_run None s h (procs (y_p s))); [unfold h, yhart; by destruct (y_p s)|done]|].
  set (s1 := with_yp _ s). assert (sched_ok s1) as Hok1.
  { destruct Hok as [[_ ? ?] Hz]. split; [by split|]. change (yhart s1) with (with_cproc None h). by rewrite Hn1. }
  change (procs (y_p s)) with (procs (y_p s1)). generalize s1 Hok1. clear s1 Hok1. intros s1 Hok1.
  destruct n as [|n]; [lia|]. cbn [replicate each]. wp_step. wp_call (pass_ok s1 Hok1). intros [] s2 (Hok2 & _ & Hr2).
  eapply wp_mono; [apply (wp_each _ _ (λ s', sched_ok s' ∧ ∀ i, runnable (procs (y_p s1)) i → ran i s'))|done].
  - done.
  - intros [] s' _ [Hok' Hr']. wp_call (pass_ok s' Hok'). intros [] s'' (? & Hm & _). split; [done|]. intros i Hi. by apply Hm, Hr'.
Qed.
End live.

(** ** A table of processes that mark that they ran and yield *)
Section demo.
Context {D : Type} `{!BlockDev D}.

Definition demo_step (i : nat) : M (sys D) unit :=
  modify (λ s, Sys (y_f s) (pid_lock s) (nextpid s) (wait_lock s) (initproc s) (tickslock s) (Z.setbit (ticks s) (Z.of_nat i))) ;;
  set_pub i (with_state RUNNABLE).
Definition demo_ran (i : nat) (s : sys D) : Prop := Z.testbit (ticks s) (Z.of_nat i) = true.

#[export] Instance demo_dispatch : Dispatch demo_step demo_ran.
Proof.
  split; [|done]. intros i s h l q lk [E Hh Hn Hq Hl Hlen Hf] Hc Hs. unfold demo_step. wp_step. wp_step.
  eapply wp_of_Ok; [apply (set_pub_run i _ _ l (push h) q); [exact E|done]|]. pose proof (lookup_lt_Some _ _ _ Hq).
  split_and!.
  - unfold demo_ran. cbn. rewrite Z.setbit_eqb by lia. by rewrite Z.eqb_refl.
  - intros j Hj. unfold demo_ran in *. cbn. rewrite Z.setbit_eqb by lia. by rewrite Hj, orb_true_r.
  - eexists h, _, _, lk. split; [split; [reflexivity|done|done|by apply list_lookup_insert_eq|done|by rewrite length_insert|]|split; [done|]].
    + intros j r Hj. rewrite list_lookup_insert_ne by done. by apply Hf.
    + intros j Hj (r & Hr & Hst). exists r. by rewrite list_lookup_insert_ne.
Qed.
End demo.

(** Processes 3 and 9 are RUNNABLE. *)
Definition demo_ready : proc := Proc (Spin 0 "proc" None) (Ppub RUNNABLE None 0 0 7) None (p_priv proc0).
Definition demo_ready_sys : sys ram_disk :=
  Sys (Fil (Pip (Fst (Lst (Bst (Pst demo_hart (<[9%nat := demo_ready]> (<[3%nat := demo_ready]> (replicate 64 proc0))))
      (Spin 0 "" None) [] None None (RamDisk ∅ [])) (Spin 0 "log" None) 2 0 0 ROOTDEV (Lh 0 []))
      (Kmem (Spin 0 "kmem" None) 0 ∅) (Sb 0 0 0 0 0 0 0 0) (Spin 0 "itable" None) []) ∅) (Spin 0 "ftable" None) [])
    (Spin 0 "nextpid" None) 1 (Spin 0 "wait_lock" None) None (Spin 0 "time" None) 0.

Lemma scheduler_runs_all_witness :
  wp (scheduler demo_step 1) (λ _ s', Z.testbit (ticks s') 3 = true ∧ Z.testbit (ticks s') 9 = true) demo_ready_sys.
Proof.
  eapply wp_mono; [apply (scheduler_runs_all demo_step demo_ran demo_ready_sys 1); [|lia]|].
  - split; [|reflexivity]. split; [apply demo_hart_ok|reflexivity|].
    repeat (apply Forall_insert; [|by split]). apply Forall_replicate. by split.
  - intros [] s' [_ H]. split; [apply (H 3%nat)|apply (H 9%nat)]; by exists demo_ready.
Defined.
