(* ===== verification/ProcProps.v ===== *)
(** * Reaping a child (kernel/proc.c)

    freeproc and kwait against the table of processes, the allocator and the
    address space of the child. *)
From S2P Require Import Prelude Memory KString Riscv Spinlock Kalloc Vm VmSpec VmOps VmProps VmCopy VmFree Sched Sleeplock Disk Bio Log Fs Dir Pipe File Proc.

(** The hart is part of the allocator's state, and only has to be well formed. *)
Definition khart (h : hart) (k : kst) : kst := Kst h (k_lock k) (freelist k) (k_mem k).

Lemma kinv_hart end_ h k fl : hart_ok h → kinv end_ k fl → kinv end_ (khart h k) fl.
Proof. by intros Hh [? ? ? ? ?]. Qed.

Lemma user_space_hart end_ h root n k fl : hart_ok h → user_space end_ root n k fl → user_space end_ root n (khart h k) fl.
Proof. intros Hh [[? ? ?] ? ? ? ?]. split; [|done..]. split; [by apply kinv_hart|done..]. Qed.

Lemma push_same h h' : hart_ok h → hart_same (push h) h' → h' = push h.
Proof. intros H [->| ->]; [done|by apply sync_push]. Qed.

(** A scan of the table up to slot [j] that has not met slot [i]. *)
Lemma slots_split pre j post i : slots = pre ++ j :: post → i ∉ pre → (j <= i)%nat ∧ (j < Z.to_nat NPROC)%nat.
Proof.
  intros Hs Hni. assert (slots !! length pre = Some j) as E by (rewrite Hs; by apply list_lookup_middle).
  unfold slots in E. apply lookup_seq in E as [E Hlt]. split; [|lia].
  destruct (decide (i < j)%nat) as [Hij|]; [|lia]. exfalso. apply Hni.
  apply (list_elem_of_lookup_2 _ i). rewrite <- (lookup_app_l pre (j :: post)) by lia. rewrite <- Hs.
  unfold slots. apply lookup_seq. lia.
Qed.

(** The fields of a process after assignments. *)
Ltac fields := cbn [p_lock p_pub p_parent p_priv with_pgtbl with_sz with_pid with_name with_chan with_killed with_xstate with_state
  p_kstack p_size p_pgtbl p_trapframe p_context p_ofile p_cwd p_name p_state p_chan p_killed p_xstate p_pid with_tf with_context].

Section reap.
Context {D : Type} `{!BlockDev D}.
Context (end_ : Z) (end_pos : 0 < end_) (loc : Z).
Implicit Types (s : sys D) (i j p : nat) (l : list proc) (k : kst) (w : spinlock) (h : hart).

(** [s] with the table of processes [l], the hart and the allocator [k] and
    wait_lock [w]; nothing else of the system is different. *)
Definition put s w l k : sys D :=
  let s' := over on_yk k (with_yp (Pst (k_hart k) l) s) in
  Sys (y_f s') (pid_lock s) (nextpid s) w (initproc s) (tickslock s) (ticks s).

Lemma put_self s : s = put s (wait_lock s) (procs (y_p s)) (view on_yk s).
Proof.
  destruct s as [[[[[[[hh pl] ? ? ? ? ?] ? ? ? ? ? ?] [? ? ?] ? ? ?] ?] ? ?] ? ? ? ? ? ?]. reflexivity.
Qed.

Lemma put_y_p s w l k : y_p (put s w l k) = Pst (k_hart k) l.
Proof. reflexivity. Qed.

Lemma put_with_yp s w l k h l' : with_yp (Pst h l') (put s w l k) = put s w l' (khart h k).
Proof. reflexivity. Qed.

Lemma put_put s w l k w' l' k' : put (put s w l k) w' l' k' = put s w' l' k'.
Proof. reflexivity. Qed.

Lemma put_view s w l k : view on_yk (put s w l k) = k.
Proof. by destruct k. Qed.

Lemma put_over s w l k k' : over on_yk k' (put s w l k) = put s w l k'.
Proof. reflexivity. Qed.

Lemma put_k {A} s w l k (c : M kst A) Q :
  wp c (λ a k', Q a (put s w l k')) k → wp (zoom on_yk c) Q (put s w l k).
Proof. intros H. apply wp_zoom. rewrite put_view. exact H. Qed.

Lemma put_proc s w l k i f q Q : l !! i = Some q →
  Q tt (put s w (<[i := f q]> l) k) → wp (set_proc i f) Q (put s w l k).
Proof.
  intros Hq H. unfold set_proc. wp_step. rewrite put_y_p. cbn [procs]. rewrite (list_alter_at _ _ _ _ Hq).
  unfold yhart. rewrite put_y_p, put_with_yp. cbn [p_hart]. by destruct k.
Qed.

Lemma put_wait_acquire s w l k Q : hart_ok (k_hart k) → lock_free w →
  Q tt (put s (held w (tp (k_hart k))) l (khart (push (k_hart k)) k)) → wp (zoom on_wait acquire) Q (put s w l k).
Proof.
  intros Hh Hw H. eapply wp_of_Ok; [|exact H]. erewrite zoom_Ok; [|exact (acquire_run (k_hart k) w Hh Hw)]. reflexivity.
Qed.

Lemma put_wait_release s w l k h Q : hart_ok h → lock_free w → k_hart k = push h →
  Q tt (put s w l (khart (sync h) k)) → wp (zoom on_wait release) Q (put s (held w (tp h)) l k).
Proof.
  intros Hh Hw Hk H. eapply wp_of_Ok; [|exact H].
  assert (view on_wait (put s (held w (tp h)) l k) = (push h, held w (tp h))) as E by (cbn; by rewrite Hk).
  erewrite zoom_Ok; [|rewrite E; by apply release_run]. reflexivity.
Qed.

(** What the process [q] of [n] pages holds: a trapframe and an address space. *)
Record owns (q : proc) (n : nat) k fl : Prop := {
  ow_space : user_space end_ (p_pgtbl (p_priv q)) n k fl;
  ow_size : 0 ≤ p_size (p_priv q) ≤ TRAPFRAME ∧ PGROUNDUP (p_size (p_priv q)) = Z.of_nat n * PGSIZE;
  ow_tf : page_ok end_ (p_trapframe (p_priv q));
  ow_tf_own : p_trapframe (p_priv q) ∉
    upages (k_mem k) (p_pgtbl (p_priv q)) 0 n ++ pt_pages 2 (k_mem k) (p_pgtbl (p_priv q)) ++ fl
}.
Definition holdings (q : proc) (n : nat) k : list Z :=
  p_trapframe (p_priv q) :: upages (k_mem k) (p_pgtbl (p_priv q)) 0 n ++ pt_pages 2 (k_mem k) (p_pgtbl (p_priv q)).

(** Memory outside the pages [ps] is the same. *)
Definition untouched (ps : list Z) k k' : Prop :=
  ∀ a, (∀ x, x ∈ ps → ¬ in_page a x) → rd (k_mem k') a = rd (k_mem k) a.

Lemma untouched_trans ps k k' k'' : untouched ps k k' → untouched ps k' k'' → untouched ps k k''.
Proof. intros H1 H2 a Ha. by rewrite H2, H1. Qed.

Lemma untouched_more ps qs k k' : untouched ps k k' → (∀ x, x ∈ ps → x ∈ qs) → untouched qs k k'.
Proof. intros H Hs a Ha. apply H. auto. Qed.

#[export] Instance untouched_perm : Proper ((≡ₚ) ==> eq ==> eq ==> iff) untouched.
Proof. intros ps qs E k _ <- k' _ <-. split; intros H; (eapply untouched_more; [exact H|]); intros x; by rewrite E. Qed.

(** A slot that is free again; the fields freeproc leaves alone keep their values. *)
Definition unused (q : proc) : proc :=
  let r := p_priv q in
  Proc (p_lock q) (Ppub UNUSED None 0 0 0) None
    (Ppriv (p_kstack r) 0 0 0 (p_context r) (p_ofile r) (p_cwd r) (<[0%nat := 0]> (p_name r))).

(** proc_freepagetable, which only works on page tables. *)
Definition free_table (root sz : Z) : M kst unit :=
  uvmunmap end_ root TRAMPOLINE 1 false ;; uvmunmap end_ root TRAPFRAME 1 false ;; uvmfree end_ root sz.

Lemma put_free_table s w l k root sz Q : wp (free_table root sz) (λ _ k', Q tt (put s w l k')) k →
  wp (proc_freepagetable end_ root sz) Q (put s w l k).
Proof.
  intros H. unfold proc_freepagetable. wp_step. apply put_k. unfold free_table in H. unfold wp, bind in H |- *.
  destruct (uvmunmap end_ root TRAMPOLINE 1 false k) as [[] k1|]; [|done]. apply wp_bind, put_k. unfold wp.
  destruct (uvmunmap end_ root TRAPFRAME 1 false k1) as [[] k2|]; [|done]. apply put_k. unfold wp.
  by destruct (uvmfree end_ root sz k2) as [[] k3|].
Qed.

Lemma free_table_ok root n sz k fl : user_space end_ root n k fl →
  0 ≤ sz ≤ TRAPFRAME → PGROUNDUP sz = Z.of_nat n * PGSIZE →
  wp (free_table root sz) (λ _ k', hart_same (k_hart k) (k_hart k') ∧
    (∃ us, us ≡ₚ upages (k_mem k) root 0 n ++ pt_pages 2 (k_mem k) root ∧ kinv end_ k' (us ++ fl)) ∧
    ∀ a, (∀ x, x ∈ upages (k_mem k) root 0 n ++ pt_pages 2 (k_mem k) root ++ fl → ¬ in_page a x) →
      rd (k_mem k') a = rd (k_mem k) a) k.
Proof.
  intros Hu Hsz Hn. pose proof (us_size _ _ _ _ _ Hu) as Hmax. change TRAPFRAME with (2 ^ 38 - 8192) in Hsz, Hmax.
  pose proof (unmap_top end_ end_pos root n k fl Hu) as H. apply wp_Ok in H as ([] & k2 & E & Hsp & Hh & Hup & Htab & Hfr).
  unfold free_table, wp, bind in E |- *. destruct (uvmunmap end_ root TRAMPOLINE 1 false k) as [[] k1|]; [|done]. rewrite E.
  eapply (wp_mono (uvmfree end_ root sz)); [apply uvmfree_ok; [done|lia|unfold PGSIZE; lia|done|change MAXVA with (2 ^ 38); lia|done]|].
  intros [] k3 (Hh3 & H & Hfr3). rewrite Hup, Htab in H, Hfr3. split_and!; [eapply hart_same_trans; [apply Hu|done|done]|done|].
  intros a Ha. rewrite Hfr3 by done. apply Hfr. intros p Hp. apply Ha. rewrite elem_of_app. by right.
Qed.

(** freeproc is what it does to the allocator, and the fields it resets. *)
Lemma freeproc_parts s w l k i q (Q : kst → Prop) : l !! i = Some q →
  wp (when (negb (p_trapframe (p_priv q) =? 0)) (kfree end_ (p_trapframe (p_priv q)))) (λ _ k1,
    wp (when (negb (p_pgtbl (p_priv q) =? 0)) (free_table (p_pgtbl (p_priv q)) (p_size (p_priv q)))) (λ _, Q) k1) k →
  wp (freeproc end_ i) (λ _ s', ∃ k', s' = put s w (<[i := unused q]> l) k' ∧ Q k') (put s w l k).
Proof.
  intros Hq H. pose proof (lookup_lt_Some _ _ _ Hq) as Hi.
  unfold freeproc. wp_step. wp_step. wp_step. unfold prc. rewrite put_y_p. cbn [procs].
  rewrite (list_lookup_total_correct _ _ _ Hq).
  apply (wp_mono _ (λ _ s', ∃ k1, s' = put s w l k1 ∧
    wp (when (negb (p_pgtbl (p_priv q) =? 0)) (free_table (p_pgtbl (p_priv q)) (p_size (p_priv q)))) (λ _, Q) k1)).
  { destruct (p_trapframe (p_priv q) =? 0); cbn [negb when] in H |- *; [wp_step; exists k; split; [done|exact H]|apply put_k].
    eapply wp_mono; [exact H|]. intros [] k1 H1. by exists k1. }
  intros [] s1 (k1 & -> & H1).
  wp_step. eapply put_proc; [exact Hq|]. wp_step. wp_step. wp_step. unfold prc. rewrite put_y_p. cbn [procs].
  rewrite list_lookup_total_insert_eq by done. fields.
  match goal with |- wp _ _ (put _ _ ?L _) => set (l1 := L) end. apply (wp_mono _ (λ _ s', ∃ k2, s' = put s w l1 k2 ∧ Q k2)).
  { destruct (p_pgtbl (p_priv q) =? 0); cbn [negb when] in H1 |- *; [wp_step; exists k1; split; [done|exact H1]|]. apply put_free_table.
    eapply wp_mono; [exact H1|]. intros [] k2 H2. by exists k2. }
  intros [] s2 (k2 & -> & H2). unfold l1, unused. destruct q as [lk pb par [ks sz pg tf cx fs cw nm]].
  do 8 (wp_step; eapply put_proc; [by apply list_lookup_insert_eq|]; rewrite list_insert_insert_eq; fields).
  eapply put_proc; [by apply list_lookup_insert_eq|]. rewrite list_insert_insert_eq. fields. by exists k2.
Qed.

(** A page that is in use is not at the null address. *)
Lemma page_ok_eqb (a : Z) : page_ok end_ a → (a =? 0) = false.
Proof. intros H. pose proof (page_ok_range end_ end_pos _ H). apply Z.eqb_neq. lia. Qed.

Lemma user_space_root root n k fl : user_space end_ root n k fl → page_ok end_ root.
Proof.
  intros Hu. pose proof (tw_pages _ _ _ _ _ (us_twf _ _ _ _ _ Hu)) as Hp. rewrite Forall_forall in Hp. apply Hp, pt_in_pages.
Qed.

Lemma freeproc_ok s w l k i q n fl h :
  hart_ok h → k_hart k = push h → l !! i = Some q → owns q n k fl →
  wp (freeproc end_ i) (λ _ s', ∃ k', s' = put s w (<[i := unused q]> l) k' ∧ k_hart k' = push h ∧
    (∃ us, us ≡ₚ holdings q n k ∧ kinv end_ k' (us ++ fl)) ∧ untouched (holdings q n k ++ fl) k k') (put s w l k).
Proof.
  intros Hh Hk Hq [Hu [Hsz Hn] Htf Hown]. apply freeproc_parts; [done|]. rewrite (page_ok_eqb _ Htf). cbn [negb when].
  wp_call (kfree_other end_ end_pos _ n _ k fl Hu); [done|done|]. intros [] k1 (Hu1 & Hh1 & Hup & Htab & Hfr1).
  rewrite Hk in Hh1. apply push_same in Hh1; [|done]. rewrite (page_ok_eqb _ (user_space_root _ _ _ _ Hu)). cbn [negb when].
  wp_call (free_table_ok _ n _ k1 _ Hu1 Hsz Hn). intros [] k2 (Hh2 & (us & Hus & Hk2) & Hfr2). rewrite Hh1 in Hh2. apply push_same in Hh2; [|done].
  rewrite Hup, Htab in Hus, Hfr2. split_and!; [done| |].
  - exists (us ++ [p_trapframe (p_priv q)]). split; [|by rewrite <- app_assoc]. rewrite Hus. unfold holdings. by rewrite Permutation_app_comm.
  - intros a Ha. unfold holdings in Ha. cbn [app] in Ha. rewrite <- app_assoc in Ha. rewrite Hfr2; [apply Hfr1, Ha; by left|]. intros x Hx. apply Ha.
    rewrite !elem_of_app, elem_of_cons in Hx. rewrite elem_of_cons, !elem_of_app. tauto.
Qed.

(** ** p->lock *)
Definition with_lock (lk : spinlock) (q : proc) : proc := Proc lk (p_pub q) (p_parent q) (p_priv q).

Lemma put_slot_acquire s w l k i q Q : hart_ok (k_hart k) → l !! i = Some q → lock_free (p_lock q) →
  Q tt (put s w (<[i := with_lock (held (p_lock q) (tp (k_hart k))) q]> l) (khart (push (k_hart k)) k)) →
  wp (zoom (on_proc i) acquire) Q (put s w l k).
Proof.
  intros Hh Hq Hf H. eapply wp_of_Ok; [|exact H].
  assert (view (on_proc i) (put s w l k) = (k_hart k, p_lock q)) as E.
  { cbn. by rewrite (list_lookup_total_correct _ _ _ Hq). }
  erewrite zoom_Ok; [|rewrite E; by apply acquire_run].
  change (over (on_proc i) ?t (put s w l k)) with (with_yp (over (proc_lk i) t (y_p (put s w l k))) (put s w l k)).
  rewrite put_y_p. cbn [over proc_lk procs]. rewrite (list_alter_at _ _ _ _ Hq). reflexivity.
Qed.

Lemma put_slot_release s w l k i q h lk Q : hart_ok h → k_hart k = push h → l !! i = Some q → lock_free lk →
  p_lock q = held lk (tp h) →
  Q tt (put s w (<[i := with_lock lk q]> l) (khart (sync h) k)) → wp (zoom (on_proc i) release) Q (put s w l k).
Proof.
  intros Hh Hk Hq Hf Hl H. eapply wp_of_Ok; [|exact H].
  assert (view (on_proc i) (put s w l k) = (push h, held lk (tp h))) as E.
  { cbn. by rewrite (list_lookup_total_correct _ _ _ Hq), Hk, Hl. }
  erewrite zoom_Ok; [|rewrite E; by apply release_run].
  change (over (on_proc i) ?t (put s w l k)) with (with_yp (over (proc_lk i) t (y_p (put s w l k))) (put s w l k)).
  rewrite put_y_p. cbn [over proc_lk procs]. rewrite (list_alter_at _ _ _ _ Hq). reflexivity.
Qed.

(** ** The scan of kwait *)
Lemma with_lock_id lk q : with_lock (p_lock q) (with_lock lk q) = q.
Proof. by destruct q. Qed.

(** A slot that is not a ZOMBIE child of [p] is passed over. *)
Lemma slot_passed s w l k i q h p addr : hart_ok h → k_hart k = push h → l !! i = Some q → lock_free (p_lock q) →
  (p_parent q = Some p → p_state (p_pub q) ≠ ZOMBIE) →
  wp (kwait_slot end_ loc p addr i) (λ r s', r = None ∧ s' = put s w l k) (put s w l k).
Proof.
  intros Hh Hk Hq Hf Hz. pose proof (lookup_lt_Some _ _ _ Hq) as Hi.
  unfold kwait_slot. wp_step. wp_step. unfold prc. rewrite put_y_p. cbn [procs].
  rewrite (list_lookup_total_correct _ _ _ Hq). case_bool_decide as Hp; [|by wp_step].
  wp_step. apply (put_slot_acquire _ _ _ _ _ q); [rewrite Hk; auto with hart|done|done|].
  wp_step. wp_step. rewrite put_y_p. cbn [procs]. rewrite list_lookup_total_insert_eq by done.
  cbn [with_lock p_pub]. rewrite bool_decide_false by auto. wp_step.
  eapply (put_slot_release _ _ _ _ _ _ (k_hart k) (p_lock q)); [rewrite Hk; auto with hart|done|by apply list_lookup_insert_eq|done|done|].
  wp_step. split; [done|]. rewrite list_insert_insert_eq, with_lock_id, list_insert_id by done.
  f_equal. rewrite Hk, sync_push by done. destruct k. cbn in Hk. by subst.
Qed.

(** A ZOMBIE child is reaped. *)
Lemma slot_reaped s w l k i q h p n fl : hart_ok h → k_hart k = push h → lock_free w → l !! i = Some q → lock_free (p_lock q) →
  p_parent q = Some p → p_state (p_pub q) = ZOMBIE → owns q n k fl →
  wp (kwait_slot end_ loc p 0 i) (λ r s', r = Some (p_pid (p_pub q)) ∧ ∃ k' us,
    s' = put s w (<[i := unused q]> l) k' ∧ k_hart k' = sync h ∧ us ≡ₚ holdings q n k ∧ kinv end_ k' (us ++ fl) ∧
    untouched (holdings q n k ++ fl) k k') (put s (held w (tp h)) l k).
Proof.
  intros Hh Hk Hw Hq Hf Hp Hz Hown. pose proof (lookup_lt_Some _ _ _ Hq) as Hi.
  unfold kwait_slot. wp_step. wp_step. unfold prc. rewrite put_y_p. cbn [procs].
  rewrite (list_lookup_total_correct _ _ _ Hq), bool_decide_true by done.
  wp_step. apply (put_slot_acquire _ _ _ _ _ q); [rewrite Hk; auto with hart|done|done|].
  wp_step. wp_step. rewrite put_y_p. cbn [procs]. rewrite list_lookup_total_insert_eq by done.
  cbn [with_lock p_pub]. rewrite bool_decide_true by done. cbn [Z.eqb]. wp_step. wp_step. wp_step.
  set (k1 := khart (push (k_hart k)) k). assert (owns (with_lock (held (p_lock q) (tp (k_hart k))) q) n k1 fl) as Hown1.
  { destruct Hown as [Hu ? ? ?]. split; [apply user_space_hart; [rewrite Hk; auto with hart|done]|done..]. }
  wp_call (freeproc_ok s _ _ k1 i _ n fl (k_hart k)); [rewrite Hk; auto with hart|done|by apply list_lookup_insert_eq|done|].
  intros [] s1 (k2 & -> & Hk2 & (us & Hus & Hki) & Hun). rewrite list_insert_insert_eq. wp_step.
  eapply (put_slot_release _ _ _ _ _ _ (k_hart k) (p_lock q)); [rewrite Hk; auto with hart|done|by apply list_lookup_insert_eq|done|done|].
  rewrite list_insert_insert_eq. wp_step. eapply (put_wait_release _ _ _ _ h); [done|done|cbn; by rewrite Hk, sync_push|].
  wp_step. split; [done|]. exists (khart (sync h) (khart (sync (k_hart k)) k2)), us. split_and!; [done|done|done| |exact Hun].
  eapply kinv_hart in Hki; [exact Hki|by apply sync_ok].
Qed.

(** myproc() at the start of a system call. *)
Lemma ymyproc_run s p : pst_ok (y_p s) → running (y_p s) p →
  ymyproc s = Ok p (put s (wait_lock s) (procs (y_p s)) (khart (sync (yhart s)) (view on_yk s))).
Proof.
  intros Hp Hr. unfold ymyproc. rewrite (zoom_Ok on_yp me s _ _ (me_run _ _ Hp Hr)). f_equal.
  transitivity (with_yp (Pst (sync (yhart s)) (procs (y_p s))) (put s (wait_lock s) (procs (y_p s)) (view on_yk s))); [by rewrite <- put_self|reflexivity].
Qed.

(** kwait up to its scan: wait_lock is held. *)
Lemma kwait_enter {A} s p (c : nat → M (sys D) A) : pst_ok (y_p s) → running (y_p s) p → lock_free (wait_lock s) →
  (do p' <- ymyproc; zoom on_wait acquire ;; c p') s =
    c p (put s (held (wait_lock s) (tp (sync (yhart s)))) (procs (y_p s)) (khart (push (sync (yhart s))) (view on_yk s))).
Proof.
  intros Hp Hr Hw. rewrite (bind_Ok _ _ _ _ _ (ymyproc_run s p Hp Hr)). set (h := sync (yhart s)). assert (hart_ok h) as Hh by (apply sync_ok, Hp).
  pose proof (put_wait_acquire s (wait_lock s) (procs (y_p s)) (khart h (view on_yk s)) (λ _ s', s' = put s (held (wait_lock s) (tp h))
    (procs (y_p s)) (khart (push h) (view on_yk s))) Hh Hw eq_refl) as H.
  apply wp_Ok in H as ([] & s2 & E2 & ->). by rewrite (bind_Ok _ _ _ _ _ E2).
Qed.

(** The scan when no child is a ZOMBIE. *)
Lemma scan_none s w l k h p addr : hart_ok h → k_hart k = push h → length l = Z.to_nat NPROC →
  (∀ j r, l !! j = Some r → lock_free (p_lock r) ∧ (p_parent r = Some p → p_state (p_pub r) ≠ ZOMBIE)) →
  first slots (kwait_slot end_ loc p addr) (put s w l k) = Ok None (put s w l k).
Proof.
  intros Hh Hk Hlen Hl.
  assert (wp (first slots (kwait_slot end_ loc p addr)) (λ r s', r = None ∧ s' = put s w l k) (put s w l k)) as H.
  { apply (wp_first _ _ (λ _ s', s' = put s w l k)); [done| |done].
    intros pre i post s' Hs ->. destruct (lookup_lt_is_Some_2 l i) as [q Hq].
    { rewrite Hlen. assert (i ∈ slots) as Hi by (rewrite Hs, elem_of_app, elem_of_cons; auto).
      unfold slots in Hi. rewrite elem_of_seq in Hi. lia. }
    destruct (Hl i q Hq). wp_call (slot_passed s w l k i q h p addr); try done. by intros r s' [-> ->]. }
  apply wp_Ok in H as (r & s' & E & -> & ->). done.
Qed.

(** The scan up to the first ZOMBIE child. *)
Lemma scan_finds s w l k h p i q n fl : hart_ok h → k_hart k = push h → lock_free w → length l = Z.to_nat NPROC →
  (∀ j r, l !! j = Some r → lock_free (p_lock r)) → l !! i = Some q → p_parent q = Some p → p_state (p_pub q) = ZOMBIE →
  (∀ j r, (j < i)%nat → l !! j = Some r → p_parent r = Some p → p_state (p_pub r) ≠ ZOMBIE) → owns q n k fl →
  wp (first slots (kwait_slot end_ loc p 0)) (λ r s', r = Some (p_pid (p_pub q)) ∧ ∃ k' us,
    s' = put s w (<[i := unused q]> l) k' ∧ k_hart k' = sync h ∧ us ≡ₚ holdings q n k ∧ kinv end_ k' (us ++ fl) ∧
    untouched (holdings q n k ++ fl) k k') (put s (held w (tp h)) l k).
Proof.
  intros Hh Hk Hw Hlen Hl Hq Hp Hz Hfst Hown.
  apply (wp_first _ _ (λ pre s', s' = put s (held w (tp h)) l k ∧ i ∉ pre)).
  - split; [done|apply not_elem_of_nil].
  - intros pre j post s' Hs [-> Hni].
    destruct (slots_split pre j post i Hs Hni) as [Hle Hjl]. rewrite <- Hlen in Hjl.
    destruct (decide (j = i)) as [->|Hne].
    + wp_call (slot_reaped s w l k i q h p n fl); try done; [by eapply Hl|]. by intros r s' [-> H].
    + destruct (lookup_lt_is_Some_2 l j Hjl) as [r Hr].
      wp_call (slot_passed s (held w (tp h)) l k j r h p 0); [done|done|done|by eapply Hl|apply (Hfst j); [lia|done]|].
      intros ? s' [-> ->]. split; [done|]. rewrite elem_of_app, list_elem_of_singleton. intros [?|?]; [done|congruence].
  - intros s' [_ Hni]. exfalso. apply Hni. unfold slots. apply elem_of_seq. apply lookup_lt_Some in Hq. lia.
Qed.

(** ** Properties *)

(** C7: wait(0) reaps. When the caller has a child that has exited, kwait returns
    the pid of the first such child in the table. Its slot is UNUSED again, and the
    free list is the old one with the child's trapframe, every page of its memory and
    every page of its page table added, each once; wait_lock, every p->lock and
    interrupts are as they were, no byte outside these pages has changed, and nothing
    else of the system has. *)
Theorem kwait_reaps s p i q n fl :
  pst_ok (y_p s) → running (y_p s) p → lock_free (wait_lock s) →
  procs (y_p s) !! i = Some q → p_parent q = Some p → p_state (p_pub q) = ZOMBIE →
  (∀ j r, (j < i)%nat → procs (y_p s) !! j = Some r → p_parent r = Some p → p_state (p_pub r) ≠ ZOMBIE) →
  owns q n (view on_yk s) fl →
  wp (kwait end_ loc 0) (λ v s', v = p_pid (p_pub q) ∧ ∃ k' us,
    s' = put s (wait_lock s) (<[i := unused q]> (procs (y_p s))) k' ∧ hart_same (yhart s) (k_hart k') ∧
    us ≡ₚ holdings q n (view on_yk s) ∧ kinv end_ k' (us ++ fl) ∧
    untouched (holdings q n (view on_yk s) ++ fl) (view on_yk s) k') s.
Proof.
  intros Hp Hr Hw Hq Hpar Hz Hfst Hown. set (h := sync (yhart s)). assert (hart_ok h) as Hh by (apply sync_ok, Hp).
  unfold wp, kwait. rewrite (kwait_enter s p) by done. fold h. set (k := khart (push h) _).
  assert (owns q n k fl) as Hown'.
  { destruct Hown as [Hu ? ? ?]. split; [apply user_space_hart; [by apply push_ok|done]|done..]. }
  eassert (wp _ _ _) as H.
  { apply (scan_finds s (wait_lock s) (procs (y_p s)) k h p i q n fl); try done; [apply Hp|].
    intros j r. apply (proj1 (Forall_lookup _ _) (ps_locks _ Hp)). }
  apply wp_Ok in H as (v & s1 & E & -> & k1 & us & -> & Hk1 & Hus & Hki & Hun).
  erewrite loop_leave; [|rewrite (bind_Ok _ _ _ _ _ E); reflexivity].
  split; [done|]. exists k1, us. split_and!; [done| |done|done|done]. rewrite Hk1. unfold h.
  rewrite sync_sync by apply Hp. auto with hart.
Qed.

(** C8: wait with no child to reap. If the caller has no child, or has been killed,
    kwait returns -1 and changes nothing; otherwise it goes to sleep on its own
    struct proc, the channel kexit wakes, with wait_lock released and its own lock
    held as sched() demands. *)
Theorem kwait_waits s p q addr :
  pst_ok (y_p s) → cpu_proc (cur (yhart s)) = Some p → procs (y_p s) !! p = Some q → lock_free (wait_lock s) →
  noff (cur (yhart s)) = 0 →
  (∀ j r, procs (y_p s) !! j = Some r → p_parent r = Some p → p_state (p_pub r) ≠ ZOMBIE) →
  let h := sync (yhart s) in
  kwait end_ loc addr s =
    if existsb (λ r, bool_decide (p_parent r = Some p)) (procs (y_p s)) && (p_killed (p_pub q) =? 0)
    then Halt Slept (put s (wait_lock s)
           (<[p := Proc (held (p_lock q) (tp h)) (with_state SLEEPING (with_chan (Some (ChProc p)) (p_pub q))) (p_parent q) (p_priv q)]>
              (procs (y_p s))) (khart (push h) (view on_yk s)))
    else Ok (-1) (put s (wait_lock s) (procs (y_p s)) (khart h (view on_yk s))).
Proof.
  intros Hp Hc Hq Hw Hn Hz h. assert (hart_ok h) as Hh by (apply sync_ok, Hp). pose proof (lookup_lt_Some _ _ _ Hq) as Hi.
  unfold kwait. rewrite (kwait_enter s p) by done. fold h. set (l := procs (y_p s)) in *. set (k := khart (push h) (view on_yk s)).
  set (w := wait_lock s) in *. set (s1 := put s (held w (tp h)) l k).
  assert (pst_ok (Pst h l)) as Hph by (split; [done|apply Hp|apply Hp]).
  assert (first slots (kwait_slot end_ loc p addr) s1 = Ok None s1) as E.
  { apply (scan_none _ _ _ _ h); [done|done|apply Hp|]. intros j r Hj. split; [|by apply (Hz j)].
    by apply (proj1 (Forall_lookup _ _) (ps_locks _ Hp) j). }
  assert (zoom on_wait release s1 = Ok tt (put s w l (khart h (view on_yk s)))) as Erel.
  { pose proof (put_wait_release s w l k h (λ _ s', s' = put s w l (khart (sync h) k)) Hh Hw eq_refl eq_refl) as H.
    apply wp_Ok in H as ([] & ? & E1 & ->). unfold s1. rewrite E1. do 2 f_equal. unfold k, h. by rewrite sync_sync by apply Hp. }
  assert (zoom on_yp (killed p) s1 = Ok (p_killed (p_pub q)) s1) as Ekl.
  { erewrite zoom_Ok; [|apply (killed_run (Pst (push h) l) p q); [split; [by apply push_ok|apply Hp|apply Hp]|done]].
    cbn [p_hart procs]. rewrite sync_push by done. reflexivity. }
  set (kids := existsb _ l).
  assert ((if kids then do k <- zoom on_yp (killed p); ret (negb (k =? 0)) else ret true) s1 =
    Ok (negb (kids && (p_killed (p_pub q) =? 0))) s1) as Ekids by (destruct kids; [by rewrite (bind_Ok _ _ _ _ _ Ekl)|done]).
  destruct (kids && _); cbn [negb] in Ekids.
  - erewrite loop_Halt; [done|]. rewrite (bind_Ok _ _ _ _ _ E), (bind_Ok get _ _ _ _ eq_refl), (bind_Ok _ _ _ _ _ Ekids).
    erewrite bind_Halt; [done|]. erewrite zoom_Halt; [|apply (sleep_run (Pst h l) _ w p q); try done];
      [reflexivity|cbn [p_hart]; unfold h; by rewrite cur_sync by apply Hp..].
  - erewrite loop_leave; [done|]. rewrite (bind_Ok _ _ _ _ _ E), (bind_Ok get _ _ _ _ eq_refl), (bind_Ok _ _ _ _ _ Ekids).
    by rewrite (bind_Ok _ _ _ _ _ Erel).
Qed.
End reap.

(** Process 3 runs; process 5, its child, has exited, process 4 has not. *)
Definition demo_child (st : procstate) : proc :=
  Proc (Spin 0 "proc" None) (Ppub st None 0 7 12) (Some 3%nat)
    (Ppriv 0 100 0x87fff000 0x87ffa000 (replicate 14 0) (replicate 16 None) None (replicate 16 0)).
Definition demo_family (l : list proc) : sys ram_disk :=
  Sys (Fil (Pip (Fst (Lst (Bst (Pst demo_hart l) (Spin 0 "" None) [] None None (RamDisk ∅ [])) (Spin 0 "log" None) 2 0 0 ROOTDEV (Lh 0 []))
      (Kmem (k_lock demo_space) (freelist demo_space) (k_mem demo_space)) (Sb 0 0 0 0 0 0 0 0) (Spin 0 "itable" None) []) ∅) (Spin 0 "ftable" None) [])
    (Spin 0 "nextpid" None) 13 (Spin 0 "wait_lock" None) None (Spin 0 "time" None) 0.
Definition demo_procs (st : procstate) : list proc :=
  <[5%nat := demo_child st]> (<[4%nat := demo_child RUNNABLE]> (replicate 64 proc0)).

Lemma demo_family_ok st : pst_ok (y_p (demo_family (demo_procs st))).
Proof.
  split; [apply demo_hart_ok|reflexivity|]. unfold demo_family, demo_procs. cbn [y_p f_p view on_fs]. 
  repeat (apply Forall_insert; [|by split]). apply Forall_replicate. by split.
Qed.

Lemma demo_family_slot st j r : demo_procs st !! j = Some r → r = proc0 ∨ r = demo_child RUNNABLE ∨ r = demo_child st ∧ j = 5%nat.
Proof.
  unfold demo_procs. destruct (decide (j = 5%nat)) as [->|H5]; [rewrite list_lookup_insert_eq by (rewrite ?length_insert, length_replicate; lia); intros [= <-]; auto|].
  rewrite list_lookup_insert_ne by done.
  destruct (decide (j = 4%nat)) as [->|H4]; [rewrite list_lookup_insert_eq by (rewrite ?length_insert, length_replicate; lia); intros [= <-]; auto|].
  rewrite list_lookup_insert_ne by done. intros [-> _]%lookup_replicate. auto.
Qed.

Lemma demo_child_owns : owns 0x87ff8000 (demo_child ZOMBIE) 1 demo_space [0x87ffb000].
Proof.
  destruct demo_space_ok as [H1 H2 H3 H4]. split.
  - split; [done|done|done|vm_compute; discriminate|]. intros va Hva. apply H4. change TRAPFRAME with (2 ^ 38 - 8192) in Hva.
    change MAXVA with (2 ^ 38). cbn [demo_child p_priv p_pgtbl] in *. lia.
  - split; [split; vm_compute; discriminate|vm_compute; reflexivity].
  - split; vm_compute; [reflexivity|]. split; [discriminate|reflexivity].
  - apply (bool_decide_unpack _). vm_compute. done.
Qed.

Lemma kwait_reaps_witness :
  wp (kwait 0x87ff8000 0x81000000 0) (λ v s', v = 12 ∧ procs (y_p s') !! 5%nat = Some (unused (demo_child ZOMBIE)) ∧ ∃ us,
    us ≡ₚ [0x87ffa000; 0x87ffc000; 0x87fff000; 0x87ffe000; 0x87ffd000] ∧ kinv 0x87ff8000 (view on_yk s') (us ++ [0x87ffb000]))
    (demo_family (demo_procs ZOMBIE)).
Proof.
  eapply wp_mono; [apply (kwait_reaps 0x87ff8000 ltac:(done) 0x81000000 (demo_family (demo_procs ZOMBIE)) 3 5 (demo_child ZOMBIE) 1 [0x87ffb000])|].
  - apply demo_family_ok.
  - split; [reflexivity|vm_compute; lia].
  - by split.
  - reflexivity.
  - reflexivity.
  - reflexivity.
  - intros j r Hj Hr. change (demo_procs ZOMBIE !! j = Some r) in Hr. destruct (demo_family_slot _ _ _ Hr) as [->|[->|[_ ->]]]; [done|done|lia].
  - exact demo_child_owns.
  - intros v s' (-> & k' & us & -> & _ & Hus & Hk & _). split; [done|]. split; [reflexivity|]. exists us. split; [|by rewrite put_view].
    rewrite Hus. vm_compute. reflexivity.
Defined.

Lemma kwait_waits_witness :
  (∃ s', kwait 0x87ff8000 0x81000000 0x1000 (demo_family (demo_procs RUNNABLE)) = Halt Slept s' ∧
    p_chan (p_pub (prc 3 s')) = Some (ChProc 3) ∧ wait_lock s' = Spin 0 "wait_lock" None) ∧
  ∃ s', kwait 0x87ff8000 0x81000000 0 (demo_family (replicate 64 proc0)) = Ok (-1) s'.
Proof.
  split.
  - rewrite (kwait_waits 0x87ff8000 0x81000000 (demo_family (demo_procs RUNNABLE)) 3 proc0);
      [eexists; split; [reflexivity|split; reflexivity]|apply demo_family_ok|reflexivity|reflexivity|by split|reflexivity|].
    intros j r Hr. change (demo_procs RUNNABLE !! j = Some r) in Hr. by destruct (demo_family_slot _ _ _ Hr) as [->|[->|[-> _]]].
  - rewrite (kwait_waits 0x87ff8000 0x81000000 (demo_family (replicate 64 proc0)) 3 proc0);
      [eexists; reflexivity|..|reflexivity|reflexivity|by split|reflexivity|].
    + split; [apply demo_hart_ok|reflexivity|]. apply Forall_replicate. by split.
    + intros j r Hr. change (replicate 64 proc0 !! j = Some r) in Hr. apply lookup_replicate in Hr as [-> _]. done.
Defined.
