(* ===== verification/ProcAlloc.v ===== *)
(** * Setting up a process (kernel/proc.c)

    allocpid, proc_pagetable and allocproc: what a new process gets, and that a
    failure gives everything back. *)
From S2P Require Import Prelude Memory KString Riscv Spinlock Kalloc Vm VmSpec VmOps VmProps VmCopy VmFree VmSpace Sched Sleeplock Disk Bio Log Fs Dir Pipe File Proc ProcProps.

(** The entries of the page table of a new process. *)
Definition new_top (tramp tf : Z) : Z → Z :=
  mapped (mapped (λ _, 0) TRAMPOLINE tramp (Z.lor PTE_R PTE_X) 1) TRAPFRAME tf (Z.lor PTE_R PTE_W) 1.

Section alloc.
Context {D : Type} `{!BlockDev D}.
Context (end_ : Z) (end_pos : 0 < end_) (trampoline forkret_addr : Z).
Context (tramp_ok : 0 ≤ trampoline ∧ trampoline `mod` PGSIZE = 0 ∧ trampoline + PGSIZE ≤ 2 ^ 56).
Implicit Types (s : sys D) (i j p : nat) (l : list proc) (k : kst) (w : spinlock) (h : hart).

(** Freeing a table that maps nothing. *)
Lemma uvmfree_empty root k fl h : hart_ok h → k_hart k = push h → space end_ root 0 k fl →
  wp (uvmfree end_ root 0) (λ _ k', k_hart k' = push h ∧
    (∃ fl', fl' ≡ₚ pt_pages 2 (k_mem k) root ++ fl ∧ kinv end_ k' fl') ∧ untouched (pt_pages 2 (k_mem k) root ++ fl) k k') k.
Proof.
  intros Hh Hk Hs. wp_call (uvmfree_ok end_ end_pos root 0 0 k fl); try done.
  intros [] k' (Hh' & (us & Hus & Hki) & Hun). rewrite Hk in Hh'. apply push_same in Hh'; [|done]. split_and!; [done| |exact Hun].
  exists (us ++ fl). split; [by rewrite Hus|done].
Qed.

Lemma mapped_0 f va pa perm va' : mapped f va pa perm 0 va' = f va'.
Proof. unfold mapped. by rewrite decide_False by lia. Qed.

(** The mapping of a page at the top of the address space fails before anything is mapped. *)
Lemma map_top root va pa perm k fl f h : hart_ok h → k_hart k = push h →
  tab end_ root k fl f → va `mod` PGSIZE = 0 → 0 ≤ va → va + PGSIZE ≤ MAXVA →
  0 ≤ pa → pa `mod` PGSIZE = 0 → pa + PGSIZE ≤ 2 ^ 56 → 0 ≤ perm < 1024 →
  (∀ va', va ≤ va' < va + PGSIZE → has (f va') PTE_V = false) →
  wp (mappages root va PGSIZE pa perm) (λ r k', k_hart k' = push h ∧ untouched (pt_pages 2 (k_mem k) root ++ fl) k k' ∧ ∃ fl',
    pt_pages 2 (k_mem k') root ++ fl' ≡ₚ pt_pages 2 (k_mem k) root ++ fl ∧
    (r = 0 ∧ (length fl <= length fl' + 2)%nat ∧ tab end_ root k' fl' (mapped f va pa perm 1) ∨
     r = -1 ∧ (length fl < 2)%nat ∧ tab end_ root k' fl' f)) k.
Proof.
  intros Hh Hk Ht Hal Hva Hmax Hpa Hpal Hpm Hperm Hf. change PGSIZE with (Z.of_nat 1 * PGSIZE) in Hf, Hmax, Hpm |- *.
  wp_call (mappages_tab end_ end_pos 1 root va pa perm k fl f Ht); [done|done|lia|done|done|done|done|done|done|].
  intros r k' (fl' & n & [_ Hh' Hp Hun _] & Ht' & Hr & Hc1 & Hc2). rewrite Hk in Hh'. apply push_same in Hh'; [|done].
  split; [done|]. split; [exact Hun|]. exists fl'. split; [done|]. destruct Hr as [[-> ->]|[-> Hn]]; [left; split_and!; [done|lia|done]|].
  right. assert (n = 0%nat) as -> by lia. split_and!; [done|by apply Hc2|]. destruct Ht' as [? ? Hl]. split; [done|done|].
  intros va' Hva'. rewrite Hl by done. apply mapped_0.
Qed.

Lemma new_top_low tramp tf va : 0 ≤ va < TRAPFRAME → new_top tramp tf va = 0.
Proof.
  change TRAPFRAME with (2 ^ 38 - 8192). intros Hva. unfold new_top, mapped. change TRAPFRAME with (2 ^ 38 - 8192).
  change TRAMPOLINE with (2 ^ 38 - 4096). by rewrite !decide_False by lia.
Qed.

Lemma tramp_unmapped root k fl h f : hart_ok h → k_hart k = push h →
  tab end_ root k fl (mapped (λ _, 0) TRAMPOLINE trampoline f 1) →
  wp (uvmunmap end_ root TRAMPOLINE 1 false) (λ _ k', k_hart k' = push h ∧
    pt_pages 2 (k_mem k') root = pt_pages 2 (k_mem k) root ∧ space end_ root 0 k' fl ∧
    untouched (pt_pages 2 (k_mem k) root ++ fl) k k') k.
Proof.
  intros Hh Hk [Ht Hin Hl]. wp_call (uvmunmap_ok end_ end_pos 1 root TRAMPOLINE false k fl Ht); [done|done|done|done|].
  cbn [app]. intros [] k' [Ht' Hh' Htab Hl' Hin' Hun]. rewrite Hk in Hh'. apply push_same in Hh'; [|done]. split_and!; [done|done| |exact Hun].
  apply (tab_space _ _ _ _ (leaf (k_mem k') root)); [split; [done|by apply Hin'|done]|].
  intros va Hva. rewrite Hl' by done. unfold unmapped. case_decide as E; [destruct (has (leaf (k_mem k) root va) PTE_V) eqn:E'; [by rewrite has_0|done]|].
  rewrite Hl by done. unfold mapped. rewrite decide_False by done. apply has_0.
Qed.

Lemma proc_pagetable_ok s w l k i q fl h : hart_ok h → k_hart k = push h → l !! i = Some q →
  page_ok end_ (p_trapframe (p_priv q)) → kinv end_ k fl →
  wp (proc_pagetable end_ trampoline i) (λ r s', ∃ k', s' = put s w l k' ∧ k_hart k' = push h ∧ untouched fl k k' ∧
    (r = 0 ∧ (length fl < 5)%nat ∧ (∃ fl', fl' ≡ₚ fl ∧ kinv end_ k' fl') ∨
     r ≠ 0 ∧ ∃ fl', pt_pages 2 (k_mem k') r ++ fl' ≡ₚ fl ∧ (length fl <= length fl' + 5)%nat ∧
       tab end_ r k' fl' (new_top trampoline (p_trapframe (p_priv q)))))
    (put s w l k).
Proof.
  intros Hh Hk Hq Htf Hki. destruct tramp_ok as (Ht1 & Ht2 & Ht3). destruct (page_ok_range _ end_pos _ Htf) as (Hf1 & Hf2 & Hf3).
  assert (p_trapframe (p_priv q) + PGSIZE ≤ 2 ^ 56) as Hf4 by (change PHYSTOP with 0x88000000 in Hf2; lia).
  unfold proc_pagetable. wp_step. apply put_k. wp_call (uvmcreate_ok end_ end_pos k fl Hki).
  intros root k1 (Hk1 & H1). rewrite Hk, sync_push in Hk1 by done.
  destruct H1 as [(-> & -> & Hki1 & Hm1)|(fl1 & -> & Hroot & Htab1 & Hpg1 & Hm1)].
  { cbn [Z.eqb]. wp_step. exists k1. split_and!; [done|done|by intros a _; rewrite Hm1|]. left. split_and!; [done|cbn; lia|]. by exists []. }
  assert (untouched (root :: fl1) k k1) as Hun1 by (intros a Ha; apply Hm1, Ha; by left).
  rewrite (page_ok_eqb _ end_pos _ Hroot). wp_step. apply put_k.
  wp_call (map_top root TRAMPOLINE trampoline (Z.lor PTE_R PTE_X) k1 fl1 (λ _, 0) h); try done.
  intros r k2 (Hk2 & Hun2 & fl2 & Hp2 & H2). rewrite Hpg1 in Hp2, Hun2. apply (untouched_trans _ _ _ _ Hun1) in Hun2.
  destruct H2 as [(-> & Hc2 & Htab2)|(-> & Hc2 & Htab2)].
  2: { cbn [Z.ltb Z.compare]. wp_step. apply put_k.
       wp_call (uvmfree_empty root k2 fl2 h Hh Hk2); [eapply tab_space; [done|]; intros; apply has_0|].
       intros [] k3 (Hk3 & (fl3 & Hp3 & Hki3) & Hun3). rewrite Hp2 in Hun3. wp_step. exists k3. split_and!; [done|done|by eapply untouched_trans|]. left.
       split_and!; [done|cbn; lia|]. exists fl3. split; [by rewrite Hp3, Hp2|done]. }
  cbn [Z.ltb Z.compare]. wp_step. wp_step. wp_step. apply put_k. unfold prc. rewrite put_y_p. cbn [procs].
  rewrite (list_lookup_total_correct _ _ _ Hq).
  wp_call (map_top root TRAPFRAME (p_trapframe (p_priv q)) (Z.lor PTE_R PTE_W) k2 fl2 _ h Hh Hk2 Htab2); try done; [lia|apply Htf| |].
  { intros va. change TRAPFRAME with (2 ^ 38 - 8192). change PGSIZE with 4096. intros Hva. unfold mapped.
    change TRAMPOLINE with (2 ^ 38 - 4096). rewrite decide_False by lia. apply has_0. }
  intros r k3 (Hk3 & Hun3 & fl3 & Hp3 & H3). rewrite Hp2 in Hp3, Hun3. apply (untouched_trans _ _ _ _ Hun2) in Hun3.
  destruct H3 as [(-> & Hc3 & Htab3)|(-> & Hc3 & Htab3)]; cbn [Z.ltb Z.compare].
  - wp_step. exists k3. split_and!; [done|done|done|]. right. split; [pose proof (page_ok_range _ end_pos _ Hroot); lia|]. exists fl3. split_and!; [done|cbn [length]; lia|done].
  - wp_step. apply put_k. wp_call (tramp_unmapped root k3 fl3 h _ Hh Hk3 Htab3). intros [] k4 (Hk4 & Hpg4 & Hsp4 & Hun4). rewrite Hp3 in Hun4. apply (untouched_trans _ _ _ _ Hun3) in Hun4.
    wp_step. apply put_k. wp_call (uvmfree_empty root k4 fl3 h Hh Hk4 Hsp4). intros [] k5 (Hk5 & (fl5 & Hp5 & Hki5) & Hun5).
    rewrite Hpg4, Hp3 in Hun5. wp_step. exists k5. split_and!; [done|done|by eapply untouched_trans|]. left. split_and!; [done|cbn [length]; lia|]. exists fl5. split; [|done].
    by rewrite Hp5, Hpg4, Hp3.
Qed.

(** ** Process ids *)
Definition took_pid s : sys D :=
  Sys (y_f s) (pid_lock s) (i32 (nextpid s + 1)) (wait_lock s) (initproc s) (tickslock s) (ticks s).

Lemma allocpid_ok s w l k h : hart_ok h → k_hart k = push h → lock_free (pid_lock s) →
  allocpid (put s w l k) = Ok (nextpid s) (put (took_pid s) w l k).
Proof.
  intros Hh Hk Hf. unfold allocpid.
  erewrite bind_Ok; [|apply zoom_Ok; change (view on_pid (put s w l k)) with (k_hart k, pid_lock s); rewrite Hk; apply acquire_run; auto with hart].
  rewrite (bind_Ok (gets nextpid) _ _ _ _ eq_refl), (bind_Ok (modify _) _ _ _ _ eq_refl).
  erewrite bind_Ok; [|exact (zoom_Ok on_pid _ _ _ _ (release_run (push h) (pid_lock s) (push_ok h Hh) Hf))].
  rewrite sync_push by done. unfold ret. f_equal. destruct k as [kh klk kf km]. cbn in Hk. subst kh. reflexivity.
Qed.

(** ** The search for a slot *)
Definition find_slot (i : nat) : M (sys D) (option nat) :=
  zoom (on_proc i) acquire ;;
  do s <- get;
  if bool_decide (p_state (p_pub (prc i s)) = UNUSED) then ret (Some i)
  else zoom (on_proc i) release ;; ret None.

Lemma find_slot_ok s w l k i q : hart_ok (k_hart k) → l !! i = Some q → lock_free (p_lock q) →
  wp (find_slot i) (λ r s',
    if decide (p_state (p_pub q) = UNUSED)
    then r = Some i ∧ s' = put s w (<[i := with_lock (held (p_lock q) (tp (k_hart k))) q]> l) (khart (push (k_hart k)) k)
    else r = None ∧ s' = put s w l (khart (sync (k_hart k)) k)) (put s w l k).
Proof.
  intros Hh Hq Hf. pose proof (lookup_lt_Some _ _ _ Hq) as Hi. unfold find_slot. wp_step.
  apply (put_slot_acquire _ _ _ _ _ q); [done|done|done|]. wp_step. wp_step. unfold prc. rewrite put_y_p. cbn [procs].
  rewrite list_lookup_total_insert_eq by done. cbn [with_lock p_pub]. case_decide as E.
  - rewrite bool_decide_true by done. by wp_step.
  - rewrite bool_decide_false by done. wp_step.
    eapply (put_slot_release _ _ _ _ _ _ (k_hart k) (p_lock q)); [done|done|by apply list_lookup_insert_eq|done|done|].
    wp_step. split; [done|]. by rewrite list_insert_insert_eq, with_lock_id, list_insert_id.
Qed.

Lemma search_ok s w l k i q : hart_ok (k_hart k) → length l = Z.to_nat NPROC → (∀ j r, l !! j = Some r → lock_free (p_lock r)) →
  l !! i = Some q → p_state (p_pub q) = UNUSED →
  (∀ j r, (j < i)%nat → l !! j = Some r → p_state (p_pub r) ≠ UNUSED) →
  wp (first slots find_slot) (λ r s', r = Some i ∧ ∃ h, hart_same (k_hart k) h ∧
    s' = put s w (<[i := with_lock (held (p_lock q) (tp h)) q]> l) (khart (push h) k)) (put s w l k).
Proof.
  intros Hh Hlen Hl Hq Hu Hfst.
  apply (wp_first _ _ (λ pre s', (i ∉ pre) ∧ ∃ h, hart_same (k_hart k) h ∧ s' = put s w l (khart h k))).
  - split; [apply not_elem_of_nil|]. exists (k_hart k). split; [auto with hart|by destruct k].
  - intros pre j post s' Hs (Hni & h & Hsame & ->).
    destruct (slots_split pre j post i Hs Hni) as [Hle Hlt].
    destruct (lookup_lt_is_Some_2 l j) as [r Hr]; [lia|].
    wp_call (find_slot_ok s w l (khart h k) j r); [by eapply hart_same_ok|done|by eapply Hl|].
    intros x s'. destruct (decide (j = i)) as [->|Hne].
    + rewrite Hq in Hr. injection Hr as <-. rewrite decide_True by done. intros [-> ->]. split; [done|]. by exists h.
    + rewrite decide_False by (apply (Hfst j); [lia|done]). intros [-> ->].
      split; [rewrite elem_of_app, list_elem_of_singleton; intros [?|?]; [done|congruence]|].
      exists (sync h). split; [|done]. eapply hart_same_trans; [done|done|auto with hart].
  - intros s' [Hni _]. exfalso. apply Hni. unfold slots. apply elem_of_seq. apply lookup_lt_Some in Hq. lia.
Qed.

(** ** allocproc *)

(** A slot as freeproc and the boot leave it. *)
Definition vacant (q : proc) : Prop :=
  p_state (p_pub q) = UNUSED ∧ p_pgtbl (p_priv q) = 0 ∧ p_size (p_priv q) = 0.

(** The slot [q] taken for a process with this id, trapframe and page table. *)
Definition started (q : proc) (pid tf pt : Z) : proc :=
  let b := p_pub q in let r := p_priv q in
  Proc (p_lock q) (Ppub USED (p_chan b) (p_killed b) (p_xstate b) pid) (p_parent q)
    (Ppriv (p_kstack r) (p_size r) pt tf (forkret_addr :: u64 (p_kstack r + PGSIZE) :: replicate 12 0) (p_ofile r) (p_cwd r) (p_name r)).

(** The failure paths: freeproc and release after at most the trapframe was allocated. *)
Lemma give_back s w l k i q lk fl h tf :
  hart_ok h → k_hart k = push h → l !! i = Some q → lock_free lk → p_lock q = held lk (tp h) →
  p_trapframe (p_priv q) = tf → p_pgtbl (p_priv q) = 0 → (tf = 0 ∨ page_ok end_ tf ∧ tf ∉ fl) → kinv end_ k fl →
  wp (freeproc end_ i ;; zoom (on_proc i) release ;; ret None)
    (λ r s', r = @None nat ∧ ∃ k' fl', s' = put s w (<[i := with_lock lk (unused q)]> l) k' ∧ k_hart k' = sync h ∧
      fl' ≡ₚ (if decide (tf = 0) then [] else [tf]) ++ fl ∧ kinv end_ k' fl' ∧
      untouched ((if decide (tf = 0) then [] else [tf]) ++ fl) k k') (put s w l k).
Proof.
  intros Hh Hk Hq Hf Hlk Htf Hpt Htfo Hki. pose proof (lookup_lt_Some _ _ _ Hq) as Hi. wp_step.
  eapply (wp_mono _ (λ _ s', ∃ k', s' = put s w (<[i := unused q]> l) k' ∧ k_hart k' = push h ∧
    kinv end_ k' ((if decide (tf = 0) then [] else [tf]) ++ fl) ∧ untouched ((if decide (tf = 0) then [] else [tf]) ++ fl) k k')).
  - apply freeproc_parts; [done|]. rewrite Htf, Hpt. cbn [Z.eqb negb]. case_decide as E.
    + subst tf. rewrite E. cbn [Z.eqb negb when app]. wp_step. by wp_step.
    + destruct Htfo as [?|[Hp Hn]]; [done|]. rewrite (page_ok_eqb _ end_pos _ Hp). cbn [negb when app].
      wp_call (kfree_ok end_ end_pos tf k fl Hki Hp Hn). intros [] k1 (Hk1 & Hh1 & _ & Hun). wp_step. split_and!; [|done|intros a Ha; apply Hun, Ha; by left].
      by rewrite Hh1, Hk, sync_push.
  - intros [] s1 (k1 & -> & Hk1 & Hki1 & Hun). wp_step.
    eapply (put_slot_release _ _ _ _ _ _ h lk); [done|done|by apply list_lookup_insert_eq|done|done|].
    rewrite list_insert_insert_eq. wp_step. split; [done|]. eexists _, _. split_and!; [done|done|done| |exact Hun].
    apply kinv_hart; [by apply sync_ok|done].
Qed.

(** From the slot found to the page table: the rest of allocproc. *)
Lemma allocproc_fill s w l k i q lk fl h :
  hart_ok h → k_hart k = push h → lock_free (pid_lock s) → l !! i = Some q → lock_free lk → p_lock q = held lk (tp h) →
  vacant q → kinv end_ k fl →
  wp (do pid <- allocpid;
      set_pub i (with_pid pid) ;;
      set_pub i (with_state USED) ;;
      do tf <- zoom on_yk kalloc;
      set_priv i (with_tf tf) ;;
      if tf =? 0 then freeproc end_ i ;; zoom (on_proc i) release ;; ret None
      else
        do pt <- proc_pagetable end_ trampoline i;
        set_priv i (with_pgtbl pt) ;;
        if pt =? 0 then freeproc end_ i ;; zoom (on_proc i) release ;; ret None
        else
          do s <- get;
          set_priv i (with_context (forkret_addr :: u64 (p_kstack (p_priv (prc i s)) + PGSIZE) :: replicate 12 0)) ;;
          ret (Some i))
     (λ r s', ∃ k' fl', untouched fl k k' ∧
       ((r = Some i ∧ k_hart k' = push h ∧ ∃ tf pt, s' = put (took_pid s) w (<[i := started q (nextpid s) tf pt]> l) k' ∧
          owns end_ (started q (nextpid s) tf pt) 0 k' fl' ∧ holdings (started q (nextpid s) tf pt) 0 k' ++ fl' ≡ₚ fl ∧ (length fl <= length fl' + 6)%nat ∧
          ∀ va, 0 ≤ va < MAXVA → leaf (k_mem k') pt va = new_top trampoline tf va) ∨
       (r = None ∧ k_hart k' = sync h ∧ (length fl < 6)%nat ∧
          s' = put (took_pid s) w (<[i := with_lock lk (unused q)]> l) k' ∧ fl' ≡ₚ fl ∧ kinv end_ k' fl'))) (put s w l k).
Proof.
  intros Hh Hk Hpid Hq Hf Hlk (Hst & Hpt & Hsz) Hki. pose proof (lookup_lt_Some _ _ _ Hq) as Hi.
  destruct q as [ql [st ch kl xs pid0] par [ks sz pg tf0 cx fs cw nm]]. cbn [p_pub p_priv p_lock p_state p_pgtbl p_size] in Hst, Hpt, Hsz, Hlk.
  subst st pg sz ql. wp_step. eapply wp_of_Ok; [by apply (allocpid_ok s w l k h)|]. set (s1 := took_pid s).
  wp_step. eapply put_proc; [exact Hq|]. fields. wp_step. eapply put_proc; [by apply list_lookup_insert_eq|]. rewrite list_insert_insert_eq. fields.
  wp_step. apply put_k. destruct fl as [|p fl].
  - wp_call (kalloc_none end_ k Hki). intros tf k1 (-> & Hk1 & Hh1 & _ & Hm1). rewrite Hk, sync_push in Hh1 by done.
    wp_step. eapply put_proc; [by apply list_lookup_insert_eq|]. rewrite list_insert_insert_eq. fields. cbn [Z.eqb].
    eapply wp_mono; [eapply (give_back s1 w _ k1 i _ lk [] h 0); [done|done|by apply list_lookup_insert_eq|..]; try done; by left|].
    intros r s2 (-> & k2 & fl2 & -> & Hk2 & Hp2 & Hki2 & Hun2). exists k2, fl2. split; [intros a Ha; rewrite Hun2 by done; by rewrite Hm1|]. right. rewrite list_insert_insert_eq. split_and!; try done. cbn; lia.
  - pose proof (ki_pages _ _ _ Hki) as Hp. apply Forall_cons in Hp as [Hp _]. pose proof (ki_nodup _ _ _ Hki) as Hn.
    apply NoDup_cons in Hn as [Hnin Hn]. wp_call (kalloc_some end_ end_pos p k fl Hki). intros tf k1 (-> & Hk1 & Hh1 & _ & Hm1).
    rewrite Hk, sync_push in Hh1 by done.
    assert (untouched (p :: fl) k k1) as Hun1 by (intros a Ha; rewrite Hm1; rewrite decide_False; [done|apply Ha; by left]).
    wp_step. eapply put_proc; [by apply list_lookup_insert_eq|]. rewrite list_insert_insert_eq. fields. rewrite (page_ok_eqb _ end_pos _ Hp).
    wp_step. eapply wp_mono; [eapply (proc_pagetable_ok s1 w _ k1 i _ fl h); [done|done|by apply list_lookup_insert_eq|done|done]|].
    intros pt s2 (k2 & -> & Hk2 & Hun2 & H2). apply (untouched_more _ (p :: fl)) in Hun2; [|intros x Hx; by right].
    apply (untouched_trans _ _ _ _ Hun1) in Hun2. fields. wp_step. eapply put_proc; [by apply list_lookup_insert_eq|].
    rewrite list_insert_insert_eq. fields. destruct H2 as [(-> & Hc & fl2 & Hp2 & Hki2)|(Hne & fl2 & Hp2 & Hc & Htab)].
    + cbn [Z.eqb]. assert (p ∉ fl2) as Hnin2 by (by rewrite Hp2).
      eapply wp_mono; [eapply (give_back s1 w _ k2 i _ lk fl2 h p); [done|done|by apply list_lookup_insert_eq|..]; try done; by right|].
      intros r s3 (-> & k3 & fl3 & -> & Hk3 & Hp3 & Hki3 & Hun3). exists k3, fl3. rewrite list_insert_insert_eq.
      assert (p ≠ 0) as Hp0 by (intros ->; by pose proof (page_ok_eqb _ end_pos _ Hp)). rewrite decide_False in Hp3, Hun3 by done.
      cbn [app] in Hp3, Hun3. rewrite Hp2 in Hp3, Hun3. split; [by eapply untouched_trans|]. right. split_and!; try done. cbn [length]; lia.
    + rewrite (proj2 (Z.eqb_neq pt 0)) by done. wp_step. wp_step. wp_step. eapply put_proc; [by apply list_lookup_insert_eq|].
      rewrite list_insert_insert_eq. unfold prc. rewrite put_y_p. cbn [procs]. rewrite list_lookup_total_insert_eq by done. fields.
      wp_step. exists k2, fl2. split; [done|]. left. split_and!; [done|done|]. exists p, pt. split_and!; [done| | |cbn [length]; lia|apply Htab].
      * split; unfold started; fields; [|split; [done|reflexivity]|done|cbn [upages app]; by rewrite Hp2].
        eapply tab_user_space; [done|]. intros va Hva. rewrite new_top_low by done. apply has_0.
      * unfold holdings, started. fields. cbn [upages app]. by rewrite Hp2.
Qed.

Lemma allocproc_run s w l k i q fl :
  hart_ok (k_hart k) → length l = Z.to_nat NPROC → (∀ j r, l !! j = Some r → lock_free (p_lock r)) →
  lock_free (pid_lock s) → kinv end_ k fl → l !! i = Some q → vacant q →
  (∀ j r, (j < i)%nat → l !! j = Some r → p_state (p_pub r) ≠ UNUSED) →
  wp (allocproc end_ trampoline forkret_addr) (λ r s', ∃ k' fl' h, hart_same (k_hart k) h ∧ untouched fl k k' ∧
    (r = Some i ∧ (∃ tf pt, let q' := started (with_lock (held (p_lock q) (tp h)) q) (nextpid s) tf pt in
       s' = put (took_pid s) w (<[i := q']> l) k' ∧ k_hart k' = push h ∧
       owns end_ q' 0 k' fl' ∧ holdings q' 0 k' ++ fl' ≡ₚ fl ∧ (length fl <= length fl' + 6)%nat ∧
       ∀ va, 0 ≤ va < MAXVA → leaf (k_mem k') pt va = new_top trampoline tf va) ∨
     r = None ∧ (length fl < 6)%nat ∧ s' = put (took_pid s) w (<[i := unused q]> l) k' ∧
       k_hart k' = h ∧ fl' ≡ₚ fl ∧ kinv end_ k' fl')) (put s w l k).
Proof.
  intros Hok Hlen Hl Hpid Hki Hq Hv Hfst. pose proof (lookup_lt_Some _ _ _ Hq) as Hi. unfold allocproc. wp_step.
  wp_call (search_ok s w l k i q); [done|done|done|done|apply Hv|done|].
  intros r s1 (-> & h & Hsame & ->). assert (hart_ok h) as Hh by (by eapply hart_same_ok).
  wp_call (allocproc_fill s w _ (khart (push h) k) i (with_lock (held (p_lock q) (tp h)) q) (p_lock q) fl h); try done;
    [by apply list_lookup_insert_eq|by eapply Hl|apply kinv_hart; [by apply push_ok|done]|].
  setoid_rewrite list_insert_insert_eq. intros r s2 (k2 & fl2 & Hun & H2). exists k2, fl2.
  destruct H2 as [(-> & Hk2 & tf & pt & Es & Hown & Hhold & Hcnt & Hleaf)|(-> & Hk2 & Hc & -> & Hp2 & Hki2)].
  - exists h. split_and!; [done|exact Hun|]. left. split; [done|]. exists tf, pt. by split_and!.
  - exists (sync h). split; [eapply hart_same_trans; [done|done|auto with hart]|]. split; [exact Hun|]. right.
    by split_and!.
Qed.

(** ** Properties *)

(** C9: allocproc takes the first UNUSED slot and either sets it up or gives
    everything back. On success the slot is USED, locked by this CPU, has the next pid and
    starts at forkret on its kernel stack; its trapframe and the pages of its page table
    come from the free list, each once and six at most, and the page table maps TRAMPOLINE and
    TRAPFRAME and nothing else. With six free pages it succeeds; if memory runs out,
    at whichever step, the slot is UNUSED and unlocked again and no page is lost. *)
Theorem allocproc_allocates s i q fl :
  pst_ok (y_p s) → lock_free (pid_lock s) → kinv end_ (view on_yk s) fl →
  procs (y_p s) !! i = Some q → vacant q →
  (∀ j r, (j < i)%nat → procs (y_p s) !! j = Some r → p_state (p_pub r) ≠ UNUSED) →
  wp (allocproc end_ trampoline forkret_addr) (λ r s', ∃ k' fl' h, hart_same (yhart s) h ∧ untouched fl (view on_yk s) k' ∧
    (r = Some i ∧ (∃ tf pt, let q' := started (with_lock (held (p_lock q) (tp h)) q) (nextpid s) tf pt in
       s' = put (took_pid s) (wait_lock s) (<[i := q']> (procs (y_p s))) k' ∧ k_hart k' = push h ∧
       owns end_ q' 0 k' fl' ∧ holdings q' 0 k' ++ fl' ≡ₚ fl ∧ (length fl <= length fl' + 6)%nat ∧
       ∀ va, 0 ≤ va < MAXVA → leaf (k_mem k') pt va = new_top trampoline tf va) ∨
     r = None ∧ (length fl < 6)%nat ∧ s' = put (took_pid s) (wait_lock s) (<[i := unused q]> (procs (y_p s))) k' ∧
       k_hart k' = h ∧ fl' ≡ₚ fl ∧ kinv end_ k' fl')) s.
Proof.
  intros Hp Hpid Hki Hq Hv Hfst. pose proof (allocproc_run s (wait_lock s) (procs (y_p s)) (view on_yk s) i q fl) as H.
  rewrite <- put_self in H. apply H; try done; [apply Hp|apply Hp|].
  intros j r. apply (proj1 (Forall_lookup _ _) (ps_locks _ Hp)).
Qed.
End alloc.

(** Six free pages; slot 0 is taken, slot 1 free. *)
Definition demo_six : list Z := [0x87fff000; 0x87ffe000; 0x87ffd000; 0x87ffc000; 0x87ffb000; 0x87ffa000].
Definition demo_pages : mem :=
  st64 (st64 (st64 (st64 (st64 (st64 ∅ 0x87fff000 0x87ffe000) 0x87ffe000 0x87ffd000) 0x87ffd000 0x87ffc000)
    0x87ffc000 0x87ffb000) 0x87ffb000 0x87ffa000) 0x87ffa000 0.
Definition demo_start : sys ram_disk :=
  Sys (Fil (Pip (Fst (Lst (Bst (Pst demo_hart (<[0%nat := demo_child RUNNABLE]> (replicate 64 proc0))) (Spin 0 "" None) [] None None (RamDisk ∅ []))
        (Spin 0 "log" None) 2 0 0 ROOTDEV (Lh 0 []))
      (Kmem (Spin 0 "kmem" None) 0x87fff000 demo_pages) (Sb 0 0 0 0 0 0 0 0) (Spin 0 "itable" None) []) ∅) (Spin 0 "ftable" None) [])
    (Spin 0 "nextpid" None) 13 (Spin 0 "wait_lock" None) None (Spin 0 "time" None) 0.

Lemma demo_pages_ok : kinv 0x87ff8000 (view on_yk demo_start) demo_six.
Proof.
  split; [apply demo_hart_ok|by split|cbn [chain demo_six]; split_and!; vm_compute; reflexivity|repeat constructor; vm_compute; congruence|].
  apply (bool_decide_unpack _). vm_compute. done.
Qed.

Lemma allocproc_allocates_witness :
  wp (allocproc 0x87ff8000 0x80007000 0x80001234) (λ r s', r = Some 1%nat ∧ nextpid s' = 14 ∧ ∃ q, procs (y_p s') !! 1%nat = Some q ∧
    p_state (p_pub q) = USED ∧ p_pid (p_pub q) = 13) demo_start.
Proof.
  eapply wp_mono; [apply (allocproc_allocates 0x87ff8000 ltac:(done) 0x80007000 0x80001234 ltac:(split_and!; vm_compute; congruence) demo_start 1 proc0 demo_six)|].
  - split; [apply demo_hart_ok|reflexivity|]. apply Forall_insert; [apply Forall_replicate|]; by split.
  - by split.
  - exact demo_pages_ok.
  - reflexivity.
  - by split_and!.
  - intros j r Hj Hr. assert (j = 0%nat) as -> by lia. injection Hr as <-. done.
  - intros r s' (k' & fl' & h & _ & _ & H). destruct H as [(-> & tf & pt & -> & _)|(_ & Hc & _)]; [|cbn in Hc; lia].
    split; [done|]. split; [reflexivity|]. eexists. split; [reflexivity|]. by split.
Defined.
