(* ===== verification/Fork.v ===== *)
(** * fork (kernel/proc.c)

    kfork as a whole: a new process with the parent's memory, registers, open files,
    directory and name, or a failure that leaves nothing behind. *)
From S2P Require Import Prelude Memory KString Riscv Spinlock Kalloc Vm VmSpec VmOps VmProps VmCopy VmFree VmSpace Sched Sleeplock Disk Bio Log Fs Dir Pipe File Proc ProcProps ProcAlloc.

(** ** Address spaces under changes elsewhere *)
Section spaces.
Context (end_ : Z) (end_pos : 0 < end_).
Implicit Types (k : kst) (fl : list Z).

(** Pages of the free list were taken and written. *)
Lemma user_space_shrink root n k fl k' fl' : user_space end_ root n k fl → untouched fl k k' → kinv end_ k' fl' →
  (∀ x, x ∈ fl' → x ∈ fl) →
  user_space end_ root n k' fl' ∧ (∀ va, leaf (k_mem k') root va = leaf (k_mem k) root va) ∧
  pt_pages 2 (k_mem k') root = pt_pages 2 (k_mem k) root.
Proof.
  intros [Ht Hin [Hu1 Hu2] Hn Htop] Hun Hk Hsub. pose proof (twf_all_pages _ _ _ _ _ Ht) as Hall. rewrite Forall_forall in Hall.
  pose proof (tw_nodup _ _ _ _ _ Ht) as Hnd. apply NoDup_app in Hnd as (Hnd1 & Hnd2 & _).
  assert (∀ q a, q ∈ pt_pages 2 (k_mem k) root → in_page a q → rd (k_mem k') a = rd (k_mem k) a) as Hext.
  { intros q a Hq Ha. apply Hun. intros x Hx. apply (page_disjoint end_ q x); [apply Hall; ins|apply Hall; ins| |done].
    intros ->. by apply (Hnd2 x). }
  assert (∀ va, leaf (k_mem k') root va = leaf (k_mem k) root va) as Hl by (intros va; by apply leafv_ext).
  pose proof (pt_pages_ext 2 (k_mem k) (k_mem k') root Hext) as Htab.
  split_and!; [|done|done]. split; [|by eapply inner_ext| |done|intros va Hva; rewrite Hl; by apply Htop].
  - split; [done|rewrite Htab; apply Ht|]. rewrite Htab. apply NoDup_app. split_and!; [done| |apply Hk].
    intros x Hx Hx'. by apply (Hnd2 x Hx), Hsub.
  - rewrite (upages_ext (k_mem k)) by (intros; apply Hl). split; [done|]. rewrite Htab.
    rewrite app_assoc in Hu2 |- *. apply NoDup_app in Hu2 as (? & Hd & _). apply NoDup_app. split_and!; [done| |apply Hk].
    intros x Hx Hx'. by apply (Hd x Hx), Hsub.
Qed.

(** A page that is neither table nor free was written. *)
Lemma user_space_write root n k fl p m : user_space end_ root n k fl → page_ok end_ p → p ∉ pt_pages 2 (k_mem k) root ++ fl →
  (∀ a, ¬ in_page a p → rd m a = rd (k_mem k) a) →
  let k' := Kst (k_hart k) (k_lock k) (freelist k) m in
  user_space end_ root n k' fl ∧ (∀ va, leaf m root va = leaf (k_mem k) root va) ∧ pt_pages 2 m root = pt_pages 2 (k_mem k) root.
Proof.
  intros [Ht Hin [Hu1 Hu2] Hn Htop] Hp Hnin Hm k'. pose proof (twf_all_pages _ _ _ _ _ Ht) as Hall. rewrite Forall_forall in Hall.
  assert (∀ q a, q ∈ pt_pages 2 (k_mem k) root ++ fl → in_page a q → rd m a = rd (k_mem k) a) as Hext.
  { intros q a Hq Ha. apply Hm. apply (page_disjoint end_ q p); [by apply Hall|done| |done]. by intros ->. }
  assert (∀ q a, q ∈ pt_pages 2 (k_mem k) root → in_page a q → rd m a = rd (k_mem k) a) as Hext' by (intros q a Hq; apply Hext; ins).
  assert (∀ va, leaf m root va = leaf (k_mem k) root va) as Hl by (intros va; by apply leafv_ext).
  pose proof (pt_pages_ext 2 (k_mem k) m root Hext') as Htab.
  split_and!; [|done|done]. split; [|by eapply inner_ext| |done|intros va Hva; change (k_mem k') with m; rewrite Hl; by apply Htop].
  - split; change (k_mem k') with m; rewrite ?Htab; [|apply Ht|apply Ht]. apply kinv_mem; [apply Ht|]. intros q a Hq. apply Hext. ins.
  - change (k_mem k') with m. rewrite (upages_ext (k_mem k)) by (intros; apply Hl). split; [done|]. change (k_mem k') with m. by rewrite Htab.
Qed.

(** The pages of the free list [fl] of [k] that a new process has taken: the trapframe
    [tf] and the tables of [pt]; [fl1] are left. *)
Record taken k fl tf pt k1 fl1 : Prop := {
  tk_perm : (tf :: pt_pages 2 (k_mem k1) pt) ++ fl1 ≡ₚ fl;
  tk_frame : untouched fl k k1;
  tk_space : user_space end_ pt 0 k1 fl1;
  tk_tf : page_ok end_ tf;
  tk_own : tf ∉ pt_pages 2 (k_mem k1) pt ++ fl1
}.

Lemma taken_sub k fl tf pt k1 fl1 x : taken k fl tf pt k1 fl1 → x ∈ pt_pages 2 (k_mem k1) pt ++ fl1 → x ∈ fl.
Proof. intros Ht Hx. rewrite <- (tk_perm _ _ _ _ _ _ Ht). cbn [app]. by right. Qed.

Lemma fork_apart q n k fl tf pt k1 fl1 : owns end_ q n k fl → taken k fl tf pt k1 fl1 →
  apart end_ (p_pgtbl (p_priv q)) pt n k1 fl1 ∧
  (∀ va, leaf (k_mem k1) (p_pgtbl (p_priv q)) va = leaf (k_mem k) (p_pgtbl (p_priv q)) va).
Proof.
  intros [Hu _ _ _] Ht. pose proof Ht as [Hp Hun Hs _ _]. set (old := p_pgtbl (p_priv q)) in *.
  destruct (user_space_shrink old n k fl k1 fl1 Hu Hun) as (Hu1 & Hl & Htab); [apply Hs|intros x Hx; apply (taken_sub _ _ _ _ _ _ x Ht); ins|].
  split; [|done]. split; [done|done|]. rewrite (upages_ext (k_mem k)), Htab by (intros; apply Hl).
  destruct (us_user _ _ _ _ _ Hu) as [_ Hnd]. rewrite app_assoc in Hnd. apply NoDup_app in Hnd as (H1 & H2 & _). apply NoDup_app.
  split_and!; [done| |apply Hs]. intros x Hx Hx'. apply (H2 x Hx). by apply (taken_sub _ _ _ _ _ _ x Ht).
Qed.

(** The parent's pages are not touched by what is done to pages of the free list. *)
Lemma owner_bytes q n k fl k' a p : owns end_ q n k fl → untouched fl k k' → p ∈ holdings q n k → in_page a p →
  rd (k_mem k') a = rd (k_mem k) a.
Proof.
  intros [Hu _ Htf Hown] Hun Hp Ha. apply Hun. intros x Hx. pose proof (us_twf _ _ _ _ _ Hu) as Htw.
  pose proof (ki_pages _ _ _ (tw_kinv _ _ _ _ _ Htw)) as Hfl. pose proof (tw_pages _ _ _ _ _ Htw) as Hpt.
  destruct (us_user _ _ _ _ _ Hu) as [Hus Hnd]. rewrite Forall_forall in Hfl, Hpt, Hus. unfold holdings in Hp.
  rewrite app_assoc in Hnd, Hown. apply NoDup_app in Hnd as (_ & Hd & _). rewrite elem_of_cons, elem_of_app in Hp.
  apply (page_disjoint end_ p x); [|by apply Hfl| |done]; [destruct Hp as [->|[?|?]]; auto|]. intros ->.
  destruct Hp as [->|Hp]; [apply Hown; rewrite elem_of_app; by right|]. apply (Hd x); [by apply elem_of_app|done].
Qed.

(** The registers of the child: those of the parent, with 0 in a0. *)
Definition fork_regs k tfp k' tf : Prop :=
  ∀ o, 0 ≤ o < sizeof_trapframe →
    rd (k_mem k') (tf + o) = if decide (TF_a0 ≤ o < TF_a0 + 8) then 0 else rd (k_mem k) (tfp + o).

Definition fork_mem (m : mem) (tf tfp : Z) : mem :=
  st64 (wrs m tf (rds m tfp (Z.to_nat sizeof_trapframe))) (tf + TF_a0) 0.

Lemma fork_mem_out m tf tfp a : ¬ in_page a tf → rd (fork_mem m tf tfp) a = rd m a.
Proof.
  intros Ha. unfold fork_mem. unfold in_page, PGSIZE in Ha. rewrite rd_st_out by (unfold TF_a0; lia).
  apply rd_wrs_out. unfold rds. rewrite length_fmap, length_seqZ. unfold sizeof_trapframe. lia.
Qed.

Lemma fork_mem_regs m tf tfp o : 0 ≤ o < sizeof_trapframe →
  rd (fork_mem m tf tfp) (tf + o) = if decide (TF_a0 ≤ o < TF_a0 + 8) then 0 else rd m (tfp + o).
Proof.
  intros Ho. unfold fork_mem. case_decide as E.
  - unfold TF_a0 in *. unfold st. change (le_bytes 8 0) with (replicate 8 0). rewrite rd_wrs, decide_True by (cbn; lia).
    rewrite lookup_total_replicate_2 by lia. done.
  - rewrite rd_st_out by (unfold TF_a0 in *; lia). rewrite rd_wrs. unfold sizeof_trapframe in *.
    rewrite decide_True by (unfold rds; rewrite length_fmap, length_seqZ; lia).
    replace (tf + o - tf) with o by lia. rewrite (list_lookup_total_correct _ _ (rd m (tfp + o))); [apply u8_small, rd_range|].
    rewrite lookup_rds, decide_True by lia. by rewrite Z2Nat.id by lia.
Qed.

(** The child's memory and registers, and where its pages come from. *)
Record offspring (q : proc) (n : nat) k fl tf pt k' fl' : Prop := {
  of_space : user_space end_ pt n k' fl';
  of_perm : (tf :: upages (k_mem k') pt 0 n ++ pt_pages 2 (k_mem k') pt) ++ fl' ≡ₚ fl;
  of_tf : page_ok end_ tf ∧ tf ∉ upages (k_mem k') pt 0 n ++ pt_pages 2 (k_mem k') pt ++ fl';
  of_pages va : 0 ≤ va < Z.of_nat n * PGSIZE → same_page (p_pgtbl (p_priv q)) pt k k' va;
  of_regs : fork_regs k (p_trapframe (p_priv q)) k' tf;
  of_frame : untouched fl k k'
}.

Lemma forked_memory q n k fl tf pt k1 fl1 k2 fl2 : let tfp := p_trapframe (p_priv q) in
  owns end_ q n k fl → taken k fl tf pt k1 fl1 → copied end_ (p_pgtbl (p_priv q)) pt k1 fl1 n k2 fl2 →
  offspring q n k fl tf pt (Kst (k_hart k2) (k_lock k2) (freelist k2) (fork_mem (k_mem k2) tf tfp)) fl2.
Proof.
  intros tfp Hown Htk [[Hu2 Hp2 _ Hf2 _ _] Hpg _]. pose proof Htk as [Hp1 Hun1 Hs1 Htf Htfn]. set (old := p_pgtbl (p_priv q)) in *.
  set (m := fork_mem (k_mem k2) tf tfp). set (k3 := Kst _ _ _ m). pose proof (fork_mem_out (k_mem k2) tf tfp) as Hm. fold m in Hm.
  assert (untouched fl k k2) as Hun2.
  { eapply untouched_trans; [exact Hun1|]. intros a Ha. apply Hf2. intros x Hx. apply Ha. by apply (taken_sub _ _ _ _ _ _ x Htk). }
  assert (untouched fl k k3) as Hun3.
  { eapply untouched_trans; [exact Hun2|]. intros a Ha. apply Hm, Ha. rewrite <- Hp1. by left. }
  assert (tf ∉ upages (k_mem k2) pt 0 n ++ pt_pages 2 (k_mem k2) pt ++ fl2) as Htf2 by (by rewrite Hp2).
  destruct (user_space_write pt n k2 fl2 tf m Hu2 Htf) as (Hu3 & Hl3 & Htab3); [intros H; apply Htf2; rewrite elem_of_app; by right|exact Hm|].
  assert (upages m pt 0 n = upages (k_mem k2) pt 0 n) as Hup by (apply upages_ext; intros; apply Hl3).
  destruct (fork_apart q n k fl tf pt k1 fl1 Hown Htk) as [_ Hl1]. fold old in Hl1.
  split; change (k_mem k3) with m; rewrite ?Hup, ?Htab3; [exact Hu3| |by split| | |exact Hun3].
  - rewrite <- Hp1. cbn [app]. by rewrite <- app_assoc, Hp2.
  - intros va Hva. pose proof (Hpg va Hva) as H. unfold same_page in H |- *. change (k_mem k3) with m. rewrite Hl1 in H. rewrite Hl3. fold old.
    destruct (has (leaf (k_mem k) old va) PTE_V) eqn:HV; [|done]. destruct H as [E Hb]. split; [done|]. intros o Ho.
    assert (PTE2PA (leaf (k_mem k2) pt va) ∈ upages (k_mem k2) pt 0 n) as Hin by (apply upages_elem; [done|rewrite E; apply mkpte_V]).
    rewrite Hm, Hb by first [done|apply (page_disjoint end_ (PTE2PA (leaf (k_mem k2) pt va)) tf);
      [destruct (us_user _ _ _ _ _ Hu2) as [H _]; rewrite Forall_forall in H; by apply H|done|intros E'; apply Htf2; rewrite E' in Hin; ins|unfold in_page; lia]].
    apply (owner_bytes q n k fl k1 _ (PTE2PA (leaf (k_mem k) old va)) Hown Hun1); [|unfold in_page; lia].
    unfold holdings. right. rewrite elem_of_app. left. by apply upages_elem.
  - intros o Ho. change (k_mem k3) with m. unfold m. rewrite fork_mem_regs by done. case_decide; [done|].
    apply (owner_bytes q n k fl k2 _ tfp Hown Hun2); [by left|]. unfold in_page, sizeof_trapframe, PGSIZE in *. lia.
Qed.
End spaces.

Section fork.
Context {D : Type} `{!BlockDev D}.
Context (end_ : Z) (end_pos : 0 < end_) (trampoline forkret_addr : Z).
Context (tramp_ok : 0 ≤ trampoline ∧ trampoline `mod` PGSIZE = 0 ∧ trampoline + PGSIZE ≤ 2 ^ 56).
Implicit Types (s : sys D) (i j p f : nat) (l : list proc) (k : kst) (w : spinlock) (h : hart).

(** ** Open files and the current directory *)
Definition bump_file (f : nat) s : sys D :=
  Sys (Fil (fl_p (y_f s)) (ft_lock (y_f s)) (alter (λ x, with_fref (fl_ref x + 1) x) f (files (y_f s))))
    (pid_lock s) (nextpid s) (wait_lock s) (initproc s) (tickslock s) (ticks s).
Definition bump_files (ofs : list (option nat)) s : sys D :=
  foldl (λ s o, match o with None => s | Some f => bump_file f s end) s ofs.
Definition bump_ino (ip : nat) s : sys D :=
  over on_fs (with_inodes (alter (λ n, with_ref (i_ref n + 1) n) ip) (view on_fs s)) s.

Lemma put_filedup s w l k h f : hart_ok h → k_hart k = push h → lock_free (ft_lock (y_f s)) → 1 ≤ fl_ref (fobj f (y_f s)) →
  zoom on_fl (filedup f) (put s w l k) = Ok f (put (bump_file f s) w l k).
Proof.
  intros Hh Hk Hf Hr. assert (filedup f (y_f (put s w l k)) = Ok f (y_f (put (bump_file f s) w l k))) as E.
  { unfold filedup.
    erewrite bind_Ok; [|apply zoom_Ok; change (view on_ft (y_f (put s w l k))) with (k_hart k, ft_lock (y_f s)); rewrite Hk; apply acquire_run; auto with hart].
    rewrite (bind_Ok get _ _ _ _ eq_refl). change (fobj f (over on_ft _ (y_f (put s w l k)))) with (fobj f (y_f s)).
    rewrite (proj2 (Z.ltb_ge _ _)) by done. unfold set_file. rewrite (bind_Ok (modify _) _ _ _ _ eq_refl).
    erewrite bind_Ok; [|exact (zoom_Ok on_ft _ _ _ _ (release_run (push h) (ft_lock (y_f s)) (push_ok h Hh) Hf))].
    rewrite sync_push by done. unfold ret. f_equal. destruct k as [kh klk kf km]. cbn in Hk. subst kh. reflexivity. }
  erewrite zoom_Ok; [|exact E]. reflexivity.
Qed.

Lemma put_idup s w l k h ip : hart_ok h → k_hart k = push h → lock_free (it_lock (view on_fs s)) →
  zoom on_fs (idup ip) (put s w l k) = Ok ip (put (bump_ino ip s) w l k).
Proof.
  intros Hh Hk Hf. assert (idup ip (view on_fs (put s w l k)) = Ok ip (view on_fs (put (bump_ino ip s) w l k))) as E.
  { unfold idup.
    erewrite bind_Ok; [|apply zoom_Ok; change (view on_it (view on_fs (put s w l k))) with (k_hart k, it_lock (view on_fs s)); rewrite Hk; apply acquire_run; auto with hart].
    unfold set_ino. rewrite (bind_Ok (modify _) _ _ _ _ eq_refl).
    erewrite bind_Ok; [|exact (zoom_Ok on_it _ _ _ _ (release_run (push h) (it_lock (view on_fs s)) (push_ok h Hh) Hf))].
    rewrite sync_push by done. unfold ret. f_equal. destruct k as [kh klk kf km]. cbn in Hk. subst kh. reflexivity. }
  erewrite zoom_Ok; [|exact E]. reflexivity.
Qed.

Lemma put_mem s w l k g Q : Q tt (put s w l (Kst (k_hart k) (k_lock k) (freelist k) (g (k_mem k)))) →
  wp (zoom on_ymem (modify g)) Q (put s w l k).
Proof. intros H. wp_step. wp_step. exact H. Qed.

(** Every open file of a process is referenced. *)
Definition open_ok (ofs : list (option nat)) s : Prop := ∀ f, Some f ∈ ofs → 1 ≤ fl_ref (fobj f (y_f s)).

Lemma bump_ref f g s : fl_ref (fobj g (y_f s)) ≤ fl_ref (fobj g (y_f (bump_file f s))).
Proof.
  unfold fobj, bump_file. cbn [y_f files]. rewrite !list_lookup_total_alt. destruct (decide (g = f)) as [->|Hne].
  - rewrite list_lookup_alter_eq. destruct (files (y_f s) !! f); cbn; lia.
  - rewrite list_lookup_alter_ne by done. lia.
Qed.

Lemma bump_files_ref ofs g s : fl_ref (fobj g (y_f s)) ≤ fl_ref (fobj g (y_f (bump_files ofs s))).
Proof.
  revert s. induction ofs as [|[f|] ofs IH]; intros s; cbn [bump_files foldl]; [lia| |apply IH].
  etransitivity; [apply (bump_ref f g s)|apply (IH (bump_file f s))].
Qed.

Lemma bump_files_lock ofs s : ft_lock (y_f (bump_files ofs s)) = ft_lock (y_f s) ∧
  it_lock (view on_fs (bump_files ofs s)) = it_lock (view on_fs s) ∧ nextpid (bump_files ofs s) = nextpid s.
Proof. revert s. induction ofs as [|[f|] ofs IH]; intros s; cbn [bump_files foldl]; [done| |apply IH]. apply (IH (bump_file f s)). Qed.

Definition with_files (o : list (option nat)) (c : proc) : proc :=
  let r := p_priv c in
  Proc (p_lock c) (p_pub c) (p_parent c) (Ppriv (p_kstack r) (p_size r) (p_pgtbl r) (p_trapframe r) (p_context r) o (p_cwd r) (p_name r)).

(** The loop over the file descriptors. *)
Lemma dup_loop s w l k h p i q c : let ofs := p_ofile (p_priv q) in
  hart_ok h → k_hart k = push h → lock_free (ft_lock (y_f s)) → open_ok ofs s → length ofs = Z.to_nat NOFILE →
  l !! p = Some q → p ≠ i → (i < length l)%nat → p_ofile (p_priv c) = replicate (Z.to_nat NOFILE) None →
  wp (each (seq 0 (Z.to_nat NOFILE)) (λ j,
        do s <- get;
        match p_ofile (p_priv (prc p s)) !!! j with
        | None => ret tt
        | Some f => do f' <- zoom on_fl (filedup f); set_priv i (with_ofile j (Some f'))
        end))
     (λ _ s', s' = put (bump_files ofs s) w (<[i := with_files ofs c]> l) k) (put s w (<[i := c]> l) k).
Proof.
  intros ofs Hh Hk Hf Hopen Hlen Hq Hne Hi Hc. change (Z.to_nat NOFILE) with 16%nat in *.
  eapply wp_mono; [apply (wp_each_ind _ _ (λ pre s', s' = put (bump_files (take (length pre) ofs) s) w
    (<[i := with_files (take (length pre) ofs ++ replicate (16 - length pre) None) c]> l) k))|].
  - rewrite take_0. cbn [length app Nat.sub bump_files foldl]. rewrite <- Hc. f_equal. f_equal. unfold with_files. by destruct c as [? ? ? []].
  - intros pre j post s' Hs ->. assert (j = length pre ∧ (j < 16)%nat) as [-> Hj].
    { assert (seq 0 16 !! length pre = Some j) as E by (rewrite Hs; by apply list_lookup_middle). apply lookup_seq in E. lia. }
    set (m := length pre) in *. destruct (lookup_lt_is_Some_2 ofs m) as [o Ho]; [lia|].
    wp_step. wp_step. unfold prc. rewrite put_y_p. cbn [procs]. rewrite list_lookup_total_insert_ne by done.
    rewrite (list_lookup_total_correct _ _ _ Hq). fold ofs. rewrite (list_lookup_total_correct _ _ _ Ho).
    rewrite length_app. cbn [length]. fold m. replace (m + 1)%nat with (S m) by lia.
    rewrite (take_S_r _ _ _ Ho). unfold bump_files. rewrite foldl_app. fold (bump_files (take m ofs) s). cbn [foldl].
    replace (16 - m)%nat with (S (16 - S m)) by lia. cbn [replicate]. destruct o as [f|].
    + destruct (bump_files_lock (take m ofs) s) as (El & _). wp_step.
      eapply wp_of_Ok; [apply (put_filedup _ w _ k h f); [done|done|by rewrite El|]|].
      { etransitivity; [apply (Hopen f), (list_elem_of_lookup_2 _ m), Ho|apply bump_files_ref]. }
      eapply put_proc; [by apply list_lookup_insert_eq|]. rewrite list_insert_insert_eq. f_equal. f_equal.
      unfold with_files, with_ofile. cbn [p_lock p_pub p_parent p_priv p_kstack p_size p_pgtbl p_trapframe p_context p_ofile p_cwd p_name].
      do 2 f_equal. rewrite insert_app_r_alt by (rewrite length_take; lia). rewrite length_take, <- app_assoc.
      replace (m - m `min` length ofs)%nat with 0%nat by lia. done.
    + wp_step. by rewrite <- app_assoc.
  - intros [] s' ->. rewrite length_seq, take_ge by lia. cbn [Nat.sub replicate]. by rewrite app_nil_r.
Qed.

(** The child [c] of process [p] when it is set loose. *)
Definition born (p : nat) (q c : proc) : proc :=
  let r := p_priv c in
  Proc (p_lock c) (with_state RUNNABLE (p_pub c)) (Some p)
    (Ppriv (p_kstack r) (p_size r) (p_pgtbl r) (p_trapframe r) (p_context r) (p_ofile (p_priv q)) (p_cwd (p_priv q))
       (name_copy (p_name r) (p_name (p_priv q)))).

(** The part of kfork that does not touch memory. *)
Lemma fork_finish s w l k h p i q c lk ip : let ofs := p_ofile (p_priv q) in
  hart_ok h → k_hart k = push h → lock_free (ft_lock (y_f s)) → lock_free (it_lock (view on_fs s)) → lock_free w →
  open_ok ofs s → length ofs = Z.to_nat NOFILE → p_cwd (p_priv q) = Some ip →
  l !! p = Some q → p ≠ i → l !! i = Some c → p_ofile (p_priv c) = replicate (Z.to_nat NOFILE) None →
  p_lock c = held lk (tp h) → lock_free lk →
  wp (each (seq 0 (Z.to_nat NOFILE)) (λ j,
        do s <- get;
        match p_ofile (p_priv (prc p s)) !!! j with
        | None => ret tt
        | Some f => do f' <- zoom on_fl (filedup f); set_priv i (with_ofile j (Some f'))
        end) ;;
      do cwd <- of_option (p_cwd (p_priv q));
      do cwd' <- zoom on_fs (idup cwd);
      set_priv i (with_cwd (Some cwd')) ;;
      set_priv i (λ x, with_name (name_copy (p_name x) (p_name (p_priv q))) x) ;;
      do s <- get;
      let pid := p_pid (p_pub (prc i s)) in
      zoom (on_proc i) release ;;
      zoom on_wait acquire ;;
      set_parent i (Some p) ;;
      zoom on_wait release ;;
      zoom (on_proc i) acquire ;;
      set_pub i (with_state RUNNABLE) ;;
      zoom (on_proc i) release ;;
      ret pid)
     (λ r s', r = p_pid (p_pub c) ∧
       s' = put (bump_ino ip (bump_files ofs s)) w (<[i := born p q (with_lock lk c)]> l) (khart (sync h) k)) (put s w l k).
Proof.
  intros ofs Hh Hk Hft Hit Hw Hopen Hlen Hcwd Hq Hne Hc Hof Hlk Hf. pose proof (lookup_lt_Some _ _ _ Hc) as Hi.
  assert (hart_ok (sync h)) as Hsh by (by apply sync_ok).
  wp_step. rewrite <- (list_insert_id l i c) at 1 by done. wp_call (dup_loop s w l k h p i q c); try done.
  fold ofs. destruct (bump_files_lock ofs s) as (_ & Eit & _). intros [] s1 ->. set (s1 := bump_files ofs s) in *.
  rewrite Hcwd. wp_step. cbn [of_option]. wp_step. wp_step.
  eapply wp_of_Ok; [apply (put_idup s1 w _ k h ip); [done|done|by rewrite Eit]|]. set (s2 := bump_ino ip s1).
  destruct c as [cl pb par [ks sz pg tf cx fs cw nm]]. unfold with_files, born, with_lock. cbn [p_lock p_priv p_ofile] in Hlk, Hof. subst cl fs. fields.
  wp_step. eapply put_proc; [by apply list_lookup_insert_eq|]. rewrite list_insert_insert_eq. unfold with_cwd. fields.
  wp_step. eapply put_proc; [by apply list_lookup_insert_eq|]. rewrite list_insert_insert_eq. fields.
  wp_step. wp_step. cbv zeta. unfold prc. rewrite put_y_p. cbn [procs]. rewrite list_lookup_total_insert_eq by done. fields.
  wp_step. eapply (put_slot_release _ _ _ _ _ _ h lk); [done|done|by apply list_lookup_insert_eq|done|done|].
  rewrite list_insert_insert_eq. unfold with_lock. fields.
  wp_step. apply put_wait_acquire; [done|done|]. wp_step. eapply put_proc; [by apply list_lookup_insert_eq|]. rewrite list_insert_insert_eq. fields.
  wp_step. eapply (put_wait_release _ _ _ _ (sync h)); [done|done|done|]. rewrite sync_sync by done.
  wp_step. eapply put_slot_acquire; [done|by apply list_lookup_insert_eq|done|]. rewrite list_insert_insert_eq. unfold with_lock. fields.
  wp_step. eapply put_proc; [by apply list_lookup_insert_eq|]. rewrite list_insert_insert_eq. fields.
  wp_step. eapply (put_slot_release _ _ _ _ _ _ (sync h) lk); [done|done|by apply list_lookup_insert_eq|done|done|].
  rewrite list_insert_insert_eq. unfold with_lock. fields. wp_step. split; [done|]. rewrite sync_sync by done. by rewrite Hcwd.
Qed.

(** The child: the slot [qi], started, with the parent's size. *)
Definition forked (p : nat) (q qi : proc) (pid tf pt : Z) : proc :=
  let c := started forkret_addr qi pid tf pt in
  born p q (Proc (p_lock c) (p_pub c) (p_parent c) (with_sz (p_size (p_priv q)) (p_priv c))).

(** Process [p], with [n] pages of memory, calls fork and [i] is the first free slot. *)
Record can_fork s (p : nat) (q : proc) (i : nat) (qi : proc) (ip : nat) (n : nat) (fl : list Z) : Prop := {
  cf_pst : pst_ok (y_p s);
  cf_run : running (y_p s) p;
  cf_locks : lock_free (pid_lock s) ∧ lock_free (wait_lock s) ∧ lock_free (ft_lock (y_f s)) ∧ lock_free (it_lock (view on_fs s));
  cf_parent : procs (y_p s) !! p = Some q;
  cf_alive : p_state (p_pub q) ≠ UNUSED;
  cf_owns : owns end_ q n (view on_yk s) fl;
  cf_files : length (p_ofile (p_priv q)) = Z.to_nat NOFILE ∧ open_ok (p_ofile (p_priv q)) s;
  cf_cwd : p_cwd (p_priv q) = Some ip;
  cf_slot : procs (y_p s) !! i = Some qi;
  cf_vacant : vacant qi ∧ p_ofile (p_priv qi) = replicate (Z.to_nat NOFILE) None;
  cf_first j r : (j < i)%nat → procs (y_p s) !! j = Some r → p_state (p_pub r) ≠ UNUSED
}.

(** A free slot, whatever its saved registers. *)
Definition unused_cx (cx : list Z) (q : proc) : proc :=
  let u := unused q in Proc (p_lock u) (p_pub u) (p_parent u) (with_context cx (p_priv u)).

(** What fork has done when it returns [r]. *)
Definition fork_result s (p : nat) (q : proc) (i : nat) (qi : proc) (ip : nat) (n : nat) (fl : list Z) (r : Z) (s' : sys D) : Prop :=
  ∃ k' fl', hart_same (yhart s) (k_hart k') ∧ untouched fl (view on_yk s) k' ∧
    (r = nextpid s ∧ (∃ tf pt,
       s' = put (bump_ino ip (bump_files (p_ofile (p_priv q)) (took_pid s))) (wait_lock s)
              (<[i := forked p q qi (nextpid s) tf pt]> (procs (y_p s))) k' ∧
       offspring end_ q n (view on_yk s) fl tf pt k' fl') ∨
     r = -1 ∧ (length fl < 6 + 3 * n)%nat ∧
       (∃ cx, s' = put (took_pid s) (wait_lock s) (<[i := unused_cx cx qi]> (procs (y_p s))) k') ∧ fl' ≡ₚ fl ∧ kinv end_ k' fl').

(** uvmcopy failed: freeproc and release. *)
Lemma fork_undo s w l k k1 fl fl1 fl2 i qi lk h pid tf pt : let c := started forkret_addr (with_lock (held lk (tp h)) qi) pid tf pt in
  hart_ok h → lock_free lk → l !! i = Some c → taken end_ k fl tf pt k1 fl1 → k_hart k1 = push h → vacant qi →
  ∀ k2, built end_ pt 0 k1 fl1 0 k2 fl2 →
  wp (freeproc end_ i ;; zoom (on_proc i) release ;; ret (-1)) (λ r s', r = -1 ∧ ∃ k' fl',
    (∃ cx, s' = put s w (<[i := with_lock lk (unused_cx cx qi)]> l) k') ∧ k_hart k' = sync h ∧ untouched fl k k' ∧ fl' ≡ₚ fl ∧ kinv end_ k' fl') (put s w l k2).
Proof.
  intros c Hh Hf Hc Htk Hk1 (_ & _ & Hsz) k2 [Hu2 Hp2 Hh2 Hf2 _ _]. pose proof (lookup_lt_Some _ _ _ Hc) as Hi.
  rewrite Hk1 in Hh2. apply push_same in Hh2; [|done]. cbn [upages app] in Hp2. pose proof Htk as [Hp1 Hun1 _ Htf Htfn].
  assert (holdings c 0 k2 ++ fl2 ≡ₚ fl) as Hhold by (unfold holdings, c, started; fields; cbn [upages app]; by rewrite Hp2).
  assert (untouched fl k k2) as Hun2.
  { eapply untouched_trans; [exact Hun1|]. intros a Ha. apply Hf2. intros x Hx. apply Ha. by apply (taken_sub end_ _ _ _ _ _ _ x Htk). }
  wp_step. wp_call (freeproc_ok end_ end_pos s w l k2 i c 0 fl2 h Hh Hh2 Hc).
  { split; unfold c, started, with_lock; fields; [done|rewrite Hsz; split; [done|reflexivity]|done|cbn [upages app]; by rewrite Hp2]. }
  intros [] s1 (k3 & -> & Hk3 & (us & Hus & Hki) & Hun3). rewrite Hhold in Hun3. wp_step.
  eapply (put_slot_release _ _ _ _ _ _ h lk); [done|done|by apply list_lookup_insert_eq|done|done|]. rewrite list_insert_insert_eq.
  wp_step. split; [done|]. exists (khart (sync h) k3), (us ++ fl2). split_and!; [by eexists|done| |by rewrite Hus|].
  - eapply untouched_trans; [exact Hun2|exact Hun3].
  - apply kinv_hart; [by apply sync_ok|done].
Qed.

(** The child has its page table and its lock is held: the rest of kfork. *)
Lemma fork_child s p q i qi ip n fl k1 fl1 h tf pt : let l := procs (y_p s) in
  let c := started forkret_addr (with_lock (held (p_lock qi) (tp h)) qi) (nextpid s) tf pt in
  can_fork s p q i qi ip n fl → hart_ok h → hart_same (yhart s) h → k_hart k1 = push h →
  taken end_ (view on_yk s) fl tf pt k1 fl1 → (length fl <= length fl1 + 6)%nat → p ≠ i →
  wp (do r <- zoom on_yk (uvmcopy end_ (p_pgtbl (p_priv q)) pt (p_size (p_priv q)));
      if r <? 0 then freeproc end_ i ;; zoom (on_proc i) release ;; ret (-1)
      else
        set_priv i (with_sz (p_size (p_priv q))) ;;
        do s <- get;
        let tf := p_trapframe (p_priv (prc i s)) in
        zoom on_ymem (modify (λ m, wrs m tf (rds m (p_trapframe (p_priv q)) (Z.to_nat sizeof_trapframe)))) ;;
        zoom on_ymem (modify (λ m, st64 m (tf + TF_a0) 0)) ;;
        each (seq 0 (Z.to_nat NOFILE)) (λ j,
          do s <- get;
          match p_ofile (p_priv (prc p s)) !!! j with
          | None => ret tt
          | Some f => do f' <- zoom on_fl (filedup f); set_priv i (with_ofile j (Some f'))
          end) ;;
        do cwd <- of_option (p_cwd (p_priv q));
        do cwd' <- zoom on_fs (idup cwd);
        set_priv i (with_cwd (Some cwd')) ;;
        set_priv i (λ x, with_name (name_copy (p_name x) (p_name (p_priv q))) x) ;;
        do s <- get;
        let pid := p_pid (p_pub (prc i s)) in
        zoom (on_proc i) release ;;
        zoom on_wait acquire ;;
        set_parent i (Some p) ;;
        zoom on_wait release ;;
        zoom (on_proc i) acquire ;;
        set_pub i (with_state RUNNABLE) ;;
        zoom (on_proc i) release ;;
        ret pid) (fork_result s p q i qi ip n fl) (put (took_pid s) (wait_lock s) (<[i := c]> l) k1).
Proof.
  intros l c [Hp Hrun (Hpid & Hw & Hft & Hit) Hq Hal Hown (Hlen & Hopen) Hcwd Hqi (Hv & Hof) Hfst] Hh Hsame Hk1 Htk Hcnt Hne.
  fold l in Hq, Hqi. set (w := wait_lock s) in *. set (k := view on_yk s) in *. set (s1 := took_pid s). pose proof (lookup_lt_Some _ _ _ Hqi) as Hi.
  assert (lock_free (p_lock qi)) as Hlk by exact (proj1 (Forall_lookup _ _) (ps_locks _ Hp) i qi Hqi).
  assert (hart_same (yhart s) (sync h)) as Hsync by (eapply hart_same_trans; [apply Hp|exact Hsame|auto with hart]).
  destruct (fork_apart end_ q n k fl tf pt k1 fl1 Hown Htk) as [Hap _]. destruct (ow_size _ _ _ _ _ Hown) as [Hsz Hn].
  wp_step. apply put_k. wp_call (uvmcopy_run end_ end_pos (p_pgtbl (p_priv q)) pt n (p_size (p_priv q)) k1 fl1 Hsz Hn Hap).
  intros r k2 (fl2 & [[-> Hcp]|(-> & Hb & Hc2)]); cbn [Z.ltb Z.compare].
  - pose proof (forked_memory end_ q n k fl tf pt k1 fl1 k2 fl2 Hown Htk Hcp) as Hoff.
    pose proof (bu_hart _ _ _ _ _ _ _ _ (cp_built _ _ _ _ _ _ _ _ Hcp)) as Hk2. rewrite Hk1 in Hk2. apply push_same in Hk2; [|done].
    wp_step. eapply put_proc; [by apply list_lookup_insert_eq|]. rewrite list_insert_insert_eq.
    wp_step. wp_step. cbv zeta. unfold prc at 1 2. rewrite put_y_p. cbn [procs]. rewrite list_lookup_total_insert_eq by done.
    wp_step. apply put_mem. wp_step. apply put_mem. fields. cbn [k_hart k_lock freelist k_mem].
    change (p_trapframe (p_priv c)) with tf. fold (fork_mem (k_mem k2) tf (p_trapframe (p_priv q))). set (k3 := Kst _ _ _ _) in *.
    wp_call (fork_finish s1 w _ k3 h p i q _ (p_lock qi) ip);
      [exact Hh|exact Hk2|exact Hft|exact Hit|exact Hw|exact Hopen|exact Hlen|exact Hcwd|rewrite list_lookup_insert_ne by auto; exact Hq|exact Hne|
       by apply list_lookup_insert_eq|exact Hof|reflexivity|exact Hlk|].
    intros r s2 [-> ->]. rewrite list_insert_insert_eq. exists (khart (sync h) k3), fl2. split_and!; [exact Hsync|apply Hoff|].
    left. split; [done|]. exists tf, pt. split; [done|].
    destruct Hoff as [Hu3 Hp3 Htf3 Hpg3 Hrg3 Hun3]. split; [|done..]. apply user_space_hart; [by apply sync_ok|done].
  - wp_call (fork_undo s1 w (<[i := c]> l) k k1 fl fl1 fl2 i qi (p_lock qi) h (nextpid s) tf pt); try done; [by apply list_lookup_insert_eq|].
    intros r s2 (-> & k' & fl' & (cx & ->) & Hk' & Hun' & Hp' & Hki'). exists k', fl'. split_and!; [by rewrite Hk'|exact Hun'|].
    right. split_and!; [done|lia| |done|done]. exists cx. by rewrite list_insert_insert_eq.
Qed.

(** C6: fork. Either there is a new process: kfork returns its pid to the parent, and the child is
    RUNNABLE, has the parent as parent, its size, open files, directory and a copy of its name;
    every page of its memory is a copy of the parent's at the same address with
    the same permissions, its registers are the parent's with 0 in a0, all its pages come
    from the free list, each once, and the reference counts of the shared files and the
    directory have grown by one for each pointer. Or memory ran out, which six
    free pages and three for each page of the parent exclude: kfork returns -1, the
    slot is UNUSED again and every page is back on the free list. In both
    cases the parent's memory is untouched, all locks are free again and interrupts
    are as they were. *)
Theorem kfork_forks s p q i qi ip n fl : can_fork s p q i qi ip n fl →
  wp (kfork end_ trampoline forkret_addr) (fork_result s p q i qi ip n fl) s.
Proof.
  intros Hcf. pose proof Hcf as [Hp Hrun (Hpid & _) Hq Hal Hown _ _ Hqi (Hv & _) Hfst].
  assert (p ≠ i) as Hne by (intros ->; rewrite Hq in Hqi; injection Hqi as ->; by apply Hal, Hv).
  unfold kfork. wp_step. eapply wp_of_Ok; [by apply ymyproc_run|]. set (h0 := sync (yhart s)). assert (hart_ok h0) as Hh0 by (apply sync_ok, Hp).
  wp_step. wp_call (allocproc_run end_ end_pos trampoline forkret_addr tramp_ok s (wait_lock s) (procs (y_p s)) (khart h0 (view on_yk s)) i qi fl);
    [done|apply Hp|intros j r; apply (proj1 (Forall_lookup _ _) (ps_locks _ Hp))|done|apply kinv_hart; [done|apply (ow_space _ _ _ _ _ Hown)]|done|done|done|].
  intros r s1 (k1 & fl1 & h & Hsame & Hun1 & H1). assert (hart_ok h) as Hh by (by eapply hart_same_ok).
  assert (hart_same (yhart s) h) as Hs0 by (eapply hart_same_trans; [apply Hp|apply hart_same_sync|exact Hsame]).
  destruct H1 as [(-> & tf & pt & -> & Hk1 & Hown1 & Hhold1 & Hcnt & _)|(-> & Hc & -> & Hk1 & Hp1 & Hki1)].
  - wp_step. wp_step. cbv zeta. set (c := started _ _ _ _ _) in *. pose proof (lookup_lt_Some _ _ _ Hqi).
    assert (prc p (put (took_pid s) (wait_lock s) (<[i := c]> (procs (y_p s))) k1) = q) as ->
      by (unfold prc; rewrite put_y_p; cbn [procs]; rewrite list_lookup_total_insert_ne by auto; by apply list_lookup_total_correct).
    unfold prc at 1. rewrite put_y_p. cbn [procs]. rewrite list_lookup_total_insert_eq by done.
    apply (fork_child s p q i qi ip n fl k1 fl1 h tf pt); try done.
    destruct Hown1 as [Hu _ Htf Hnin]. split; [exact Hhold1|exact Hun1|exact Hu|exact Htf|exact Hnin].
  - wp_step. exists k1, fl1. split_and!; [by rewrite Hk1|exact Hun1|]. right. split_and!; [done|lia| |done|done].
    exists (p_context (p_priv qi)). unfold unused_cx, unused. by destruct qi as [? ? ? []].
Qed.
End fork.

(** Process 3 forks: one page of memory, one open file, nine free pages. *)
Definition demo_nine : list Z :=
  [0x87ffa000; 0x87ff9000; 0x87ff8000; 0x87ff7000; 0x87ff6000; 0x87ff5000; 0x87ff4000; 0x87ff3000; 0x87ff2000].
Definition demo_forker : proc :=
  Proc (Spin 0 "proc" None) (Ppub RUNNING None 0 0 7) None
    (Ppriv 0 100 0x87fff000 0x87ffb000 (replicate 14 0) (Some 0%nat :: replicate 15 None) (Some 0%nat) (replicate 16 0)).
Definition demo_forking : sys ram_disk :=
  Sys (Fil (Pip (Fst (Lst (Bst (Pst demo_hart (<[0%nat := demo_child RUNNABLE]> (<[3%nat := demo_forker]> (replicate 64 proc0))))
          (Spin 0 "" None) [] None None (RamDisk ∅ [])) (Spin 0 "log" None) 2 0 0 ROOTDEV (Lh 0 []))
      (Kmem (Spin 0 "kmem" None) 0x87ffa000 (foldr (λ a m, st64 m a (a - 0x1000)) (st64 (k_mem demo_space) 0x87ff2000 0) (take 8 demo_nine)))
      (Sb 0 0 0 0 0 0 0 0) (Spin 0 "itable" None) []) ∅) (Spin 0 "ftable" None) [File FD_INODE 1 1 1 0 0 0 0])
    (Spin 0 "nextpid" None) 13 (Spin 0 "wait_lock" None) None (Spin 0 "time" None) 0.

Lemma demo_forking_kinv : kinv 0x87ff0000 (view on_yk demo_forking) demo_nine.
Proof.
  split; [apply demo_hart_ok|by split|unfold demo_nine; cbn [chain]; split_and!; vm_compute; reflexivity|repeat constructor; vm_compute; congruence|].
  apply (bool_decide_unpack _). vm_compute. done.
Qed.

Lemma demo_forking_rd a : 0x87ffb000 ≤ a → rd (k_mem (view on_yk demo_forking)) a = rd (k_mem demo_space) a.
Proof.
  intros Ha. change (k_mem (view on_yk demo_forking)) with (foldr (λ a m, st64 m a (a - 0x1000)) (st64 (k_mem demo_space) 0x87ff2000 0) (take 8 demo_nine)).
  unfold demo_nine. cbn [take foldr]. by rewrite !rd_st_out by lia.
Qed.

Lemma demo_forker_owns : owns 0x87ff0000 demo_forker 1 (view on_yk demo_forking) demo_nine.
Proof.
  destruct (demo_user_space 0x87ff0000 (view on_yk demo_forking) demo_nine) as (Hs & Hp & Hu); [lia|exact demo_forking_kinv| | |].
  - intros a Ha. apply demo_forking_rd. lia.
  - intros x Hx. unfold demo_nine in Hx. rewrite !elem_of_cons, elem_of_nil in Hx. lia.
  - split; cbn [demo_forker p_priv p_pgtbl p_size p_trapframe]; [done|split; [split; vm_compute; discriminate|vm_compute; reflexivity]| |].
    + split; vm_compute; [reflexivity|]. split; [discriminate|reflexivity].
    + rewrite Hp, Hu. apply (bool_decide_unpack _). vm_compute. done.
Qed.

Lemma demo_forking_can : can_fork 0x87ff0000 demo_forking 3 demo_forker 1 proc0 0 1 demo_nine.
Proof.
  split.
  - split; [apply demo_hart_ok|reflexivity|]. repeat (apply Forall_insert; [|by split]). apply Forall_replicate. by split.
  - split; [reflexivity|vm_compute; lia].
  - by repeat split.
  - reflexivity.
  - discriminate.
  - exact demo_forker_owns.
  - split; [reflexivity|]. intros f Hf. cbn [demo_forker p_priv p_ofile] in Hf. rewrite elem_of_cons in Hf. destruct Hf as [[= ->]|Hf].
    + vm_compute. discriminate.
    + apply elem_of_replicate in Hf as [? _]. done.
  - reflexivity.
  - reflexivity.
  - by repeat split.
  - intros j r Hj Hr. assert (j = 0%nat) as -> by lia. injection Hr as <-. done.
Qed.

Lemma kfork_forks_witness :
  wp (kfork 0x87ff0000 0x80007000 0x80001234) (λ r s', r = 13 ∧ ∃ c, procs (y_p s') !! 1%nat = Some c ∧
    p_state (p_pub c) = RUNNABLE ∧ p_parent c = Some 3%nat ∧ p_pid (p_pub c) = 13 ∧ fl_ref (fobj 0 (y_f s')) = 2 ∧
    same_page 0x87fff000 (p_pgtbl (p_priv c)) (view on_yk demo_forking) (view on_yk s') 0) demo_forking.
Proof.
  eapply wp_mono; [apply (kfork_forks 0x87ff0000 ltac:(done) 0x80007000 0x80001234 ltac:(split_and!; vm_compute; congruence)
    demo_forking 3 demo_forker 1 proc0 0 1 demo_nine demo_forking_can)|].
  intros r s' (k' & fl' & _ & _ & H). destruct H as [(-> & tf & pt & -> & Hof)|(_ & Hc & _)]; [|cbn in Hc; lia].
  split; [done|]. exists (forked 0x80001234 3 demo_forker proc0 13 tf pt). split_and!; [reflexivity|reflexivity|reflexivity|reflexivity|reflexivity|].
  rewrite put_view. apply (of_pages _ _ _ _ _ _ _ _ _ Hof). unfold PGSIZE. lia.
Defined.
