(* ===== verification/Exec.v ===== *)
(** * kernel/exec.c, kernel/syscall.c, kernel/sysproc.c

    exec, the fetching of system call arguments and the process system calls.
    The local buffers of the C functions (struct elfhdr, struct proghdr, name and
    path arrays, ...) are at fixed, disjoint offsets of a frame at address [fr]
    of the kernel stack. *)
From S2P Require Import Prelude Memory KString Riscv Spinlock Kalloc Vm Sched Sleeplock Disk Bio Log Fs Dir Pipe File Proc.

(** elf.h *)
Definition ELF_MAGIC : Z := 0x464C457F.
Definition ELF_PROG_LOAD : Z := 1.
Definition sizeof_elfhdr : Z := 64.
Definition sizeof_proghdr : Z := 56.
Record elfhdr : Type := Elf { elf_magic : Z; elf_entry : Z; elf_phoff : Z; elf_phnum : Z }.
Record proghdr : Type := Ph {
  ph_type : Z; ph_flags : Z; ph_off : Z; ph_vaddr : Z; ph_filesz : Z; ph_memsz : Z
}.
Definition get_elf (m : mem) (a : Z) : elfhdr :=
  Elf (ld 4 m a) (ld64 m (a + 24)) (ld64 m (a + 32)) (ld 2 m (a + 56)).
Definition get_ph (m : mem) (a : Z) : proghdr :=
  Ph (ld 4 m a) (ld 4 m (a + 4)) (ld64 m (a + 8)) (ld64 m (a + 16)) (ld64 m (a + 32)) (ld64 m (a + 40)).

Definition flags2perm (flags : Z) : Z :=
  Z.lor (if has flags 1 then PTE_X else 0) (if has flags 2 then PTE_W else 0).

(** The frame. *)
Definition L_de (fr : Z) : Z := fr.
Definition L_name (fr : Z) : Z := fr + 16.
Definition L_iname (fr : Z) : Z := fr + 32.
Definition L_path (fr : Z) : Z := fr + 48.
Definition L_new (fr : Z) : Z := fr + 176.
Definition L_de2 (fr : Z) : Z := fr + 304.
Definition L_uarg (fr : Z) : Z := fr + 320.
Definition L_elf (fr : Z) : Z := fr + 328.
Definition L_ph (fr : Z) : Z := fr + 392.
Definition L_ustack (fr : Z) : Z := fr + 448.
Definition L_fd (fr : Z) : Z := fr + 712.

(** vm.h *)
Definition SBRK_EAGER : Z := 1.
Definition SBRK_LAZY : Z := 2.

(** The start of the last element of the string at [s]. *)
Fixpoint basename (fuel : nat) (s last : Z) (m : mem) : Z :=
  match fuel with
  | O => last
  | S n => if rd m s =? 0 then last
           else basename n (s + 1) (if rd m s =? chr_slash then s + 1 else last) m
  end.

Section exec.
Context {D : Type} `{!BlockDev D}.
Context (end_ : Z) (buf_addr : nat → Z) (loc trampoline forkret_addr fr : Z).
Implicit Types s : sys D.

Abbreviation readi := (readi end_ buf_addr).
Abbreviation namei := (namei end_ buf_addr (L_de fr) (L_iname fr)).

(** ** exec.c *)
Definition loadseg (pagetable va : Z) (ip : nat) (offset sz : Z) : M (sys D) Z :=
  do r <- first ((λ k, k * PGSIZE) <$> seqZ 0 ((sz + PGSIZE - 1) `div` PGSIZE)) (λ i,
    do pa <- zoom on_yk (walkaddr pagetable (u64 (va + i)));
    if pa =? 0 then panic "loadseg: address should exist"
    else
      let n := if sz - i <? PGSIZE then sz - i else PGSIZE in
      do r <- zoom on_fs (readi ip 0 pa (u32 (offset + i)) n);
      ret (if negb (r =? n) then Some (-1) else None));
  ret (default 0 r).

(** The label bad of kexec. *)
Definition kexec_bad (pagetable sz : Z) (ip : option nat) : M (sys D) Z :=
  when (negb (pagetable =? 0)) (proc_freepagetable end_ pagetable sz) ;;
  (match ip with
   | Some i => zoom on_fs (iunlockput i) ;; zoom on_fs (zoom on_l end_op)
   | None => ret tt
   end) ;;
  ret (-1).

(** The loop over the program headers: the new size, or [inl sz] for goto bad. *)
Definition kexec_load (pagetable : Z) (ip : nat) (phnum off : Z) : M (sys D) (Z + Z) :=
  loop (S (Z.to_nat phnum)) (λ '(i, off, sz),
    if negb (i <? phnum) then ret (inr (inr sz))
    else
      do r <- zoom on_fs (readi ip 0 (L_ph fr) (u32 off) sizeof_proghdr);
      if negb (r =? sizeof_proghdr) then ret (inr (inl sz))
      else
        do ph <- gets (λ s, get_ph (view on_ymem s) (L_ph fr));
        let next := i32 (off + sizeof_proghdr) in
        if negb (ph_type ph =? ELF_PROG_LOAD) then ret (inl (i + 1, next, sz))
        else if ph_memsz ph <? ph_filesz ph then ret (inr (inl sz))
        else if u64 (ph_vaddr ph + ph_memsz ph) <? ph_vaddr ph then ret (inr (inl sz))
        else if negb (ph_vaddr ph `mod` PGSIZE =? 0) then ret (inr (inl sz))
        else
          do sz1 <- zoom on_yk (uvmalloc end_ pagetable sz (u64 (ph_vaddr ph + ph_memsz ph)) (flags2perm (ph_flags ph)));
          if sz1 =? 0 then ret (inr (inl sz))
          else
            do r <- loadseg pagetable (ph_vaddr ph) ip (u32 (ph_off ph)) (u32 (ph_filesz ph));
            if r <? 0 then ret (inr (inl sz1)) else ret (inl (i + 1, next, sz1)))
    (0, i32 off, 0).

Definition ystrlen (a : Z) : M (sys D) Z := zoom on_ymem (strlen (Z.to_nat PGSIZE) a).

(** Copying the argument strings: sp and the strings' addresses, None for bad. *)
Definition kexec_args (pagetable sp stackbase : Z) (argv : list Z) : M (sys D) (option (Z * list Z)) :=
  loop (S (S (Z.to_nat MAXARG))) (λ '(sp, ustack),
    let argc := length ustack in
    let arg := default 0 (argv !! argc) in
    if arg =? 0 then ret (inr (Some (sp, ustack)))
    else if MAXARG <=? Z.of_nat argc then ret (inr None)
    else
      do len <- ystrlen arg;
      let sp := u64 (sp - (len + 1)) in
      let sp := sp - sp `mod` 16 in
      if sp <? stackbase then ret (inr None)
      else
        do r <- zoom on_yv (copyout end_ pagetable sp arg (len + 1));
        if r <? 0 then ret (inr None) else ret (inl (sp, ustack ++ [sp])))
    (sp, []).

(** From the label after end_op on: the new image is complete but for the stack. *)
Definition kexec_commit (path : Z) (argv : list Z) (entry pagetable sz : Z) : M (sys D) Z :=
  do p <- ymyproc;
  do s <- get;
  let oldsz := p_size (p_priv (prc p s)) in
  let sz := PGROUNDUP sz in
  do sz1 <- zoom on_yk (uvmalloc end_ pagetable sz (u64 (sz + (USERSTACK + 1) * PGSIZE)) PTE_W);
  if sz1 =? 0 then kexec_bad pagetable sz None
  else
    let sz := sz1 in
    zoom on_yk (uvmclear pagetable (sz - (USERSTACK + 1) * PGSIZE)) ;;
    let stackbase := sz - USERSTACK * PGSIZE in
    do r <- kexec_args pagetable sz stackbase argv;
    match r with
    | None => kexec_bad pagetable sz None
    | Some (sp, ustack) =>
        let argc := Z.of_nat (length ustack) in
        let sp := u64 (sp - (argc + 1) * 8) in
        let sp := sp - sp `mod` 16 in
        if sp <? stackbase then kexec_bad pagetable sz None
        else
          zoom on_ymem (modify (λ m, wrs m (L_ustack fr) (mjoin (le_bytes 8 <$> (ustack ++ [0]))))) ;;
          do r <- zoom on_yv (copyout end_ pagetable sp (L_ustack fr) ((argc + 1) * 8));
          if r <? 0 then kexec_bad pagetable sz None
          else
            do s <- get;
            let tf := p_trapframe (p_priv (prc p s)) in
            zoom on_ymem (modify (λ m, st64 m (tf + TF_a1) sp)) ;;
            do last <- gets (λ s, rds (view on_ymem s) (basename (Z.to_nat MAXPATH) path path (view on_ymem s)) 16);
            set_priv p (λ q, with_name (name_copy (p_name q) last) q) ;;
            do s <- get;
            let oldpagetable := p_pgtbl (p_priv (prc p s)) in
            set_priv p (with_pgtbl pagetable) ;;
            set_priv p (with_sz sz) ;;
            zoom on_ymem (modify (λ m, st64 m (tf + TF_epc) entry)) ;;
            zoom on_ymem (modify (λ m, st64 m (tf + TF_sp) sp)) ;;
            proc_freepagetable end_ oldpagetable oldsz ;;
            ret (i32 argc)
    end.

Definition kexec (path : Z) (argv : list Z) : M (sys D) Z :=
  do p <- ymyproc;
  zoom on_fs (zoom on_l begin_op) ;;
  do o <- zoom on_fs (namei path);
  match o with
  | None => zoom on_fs (zoom on_l end_op) ;; ret (-1)
  | Some ip =>
      zoom on_fs (ilock (Some ip)) ;;
      do r <- zoom on_fs (readi ip 0 (L_elf fr) 0 sizeof_elfhdr);
      if negb (r =? sizeof_elfhdr) then kexec_bad 0 0 (Some ip)
      else
        do elf <- gets (λ s, get_elf (view on_ymem s) (L_elf fr));
        if negb (elf_magic elf =? ELF_MAGIC) then kexec_bad 0 0 (Some ip)
        else
          do pagetable <- proc_pagetable end_ trampoline p;
          if pagetable =? 0 then kexec_bad 0 0 (Some ip)
          else
            do r <- kexec_load pagetable ip (elf_phnum elf) (elf_phoff elf);
            match r with
            | inl sz => kexec_bad pagetable sz (Some ip)
            | inr sz =>
                zoom on_fs (iunlockput ip) ;;
                zoom on_fs (zoom on_l end_op) ;;
                kexec_commit path argv (elf_entry elf) pagetable sz
            end
  end.

(** ** syscall.c: arguments *)
Definition argraw (n : Z) : M (sys D) Z :=
  do p <- ymyproc;
  if (0 <=? n) && (n <=? 5)
  then gets (λ s, ld64 (view on_ymem s) (p_trapframe (p_priv (prc p s)) + TF_a0 + 8 * n))
  else panic "argraw".
Definition argint (n : Z) : M (sys D) Z := do v <- argraw n; ret (i32 v).
Definition argaddr (n : Z) : M (sys D) Z := argraw n.

(** fetchaddr(addr, ip): the word is stored at [ip]. *)
Definition fetchaddr (addr ip : Z) : M (sys D) Z :=
  do p <- ymyproc;
  do s <- get;
  let sz := p_size (p_priv (prc p s)) in
  if (sz <=? addr) || (sz <? u64 (addr + 8)) then ret (-1)
  else
    do r <- zoom on_yv (copyin end_ (p_pgtbl (p_priv (prc p s))) ip addr 8);
    ret (if negb (r =? 0) then -1 else 0).

Definition fetchstr (addr buf max : Z) : M (sys D) Z :=
  do p <- ymyproc;
  do s <- get;
  do r <- zoom on_yv (copyinstr (p_pgtbl (p_priv (prc p s))) buf addr max);
  if r <? 0 then ret (-1) else ystrlen buf.

Definition argstr (n buf max : Z) : M (sys D) Z :=
  do addr <- argaddr n; fetchstr addr buf max.

(** ** sysproc.c. The results are the uint64 stored in a0. *)
Definition sys_exit : M (sys D) Z := do n <- argint 0; kexit end_ n ;; ret 0.
Definition sys_getpid : M (sys D) Z := do p <- ymyproc; gets (λ s, u64 (p_pid (p_pub (prc p s)))).
Definition sys_fork : M (sys D) Z := do r <- kfork end_ trampoline forkret_addr; ret (u64 r).
Definition sys_wait : M (sys D) Z := do p <- argaddr 0; do r <- kwait end_ loc p; ret (u64 r).

Definition sys_sbrk : M (sys D) Z :=
  do n <- argint 0;
  do t <- argint 1;
  do p <- ymyproc;
  do addr <- gets (λ s, p_size (p_priv (prc p s)));
  if (t =? SBRK_EAGER) || (n <? 0) then
    do r <- growproc end_ n;
    ret (if r <? 0 then u64 (-1) else addr)
  else if u64 (addr + n) <? addr then ret (u64 (-1))
  else if TRAPFRAME <? u64 (addr + n) then ret (u64 (-1))
  else
    do p <- ymyproc;
    set_priv p (λ q, with_sz (u64 (p_size q + n)) q) ;;
    ret addr.

Definition on_ticks : lens (sys D) lockst :=
  Lens (λ s, (yhart s, tickslock s))
       (λ t s, let s' := with_hart t.1 s in
               Sys (y_f s') (pid_lock s) (nextpid s) (wait_lock s) (initproc s) t.2 (ticks s)).
Definition on_tslst : lens (sys D) slst :=
  Lens (λ s, (y_p s, tickslock s))
       (λ t s, let s' := with_yp t.1 s in
               Sys (y_f s') (pid_lock s) (nextpid s) (wait_lock s) (initproc s) t.2 (ticks s)).

(** ticks - ticks0 is an unsigned difference, compared with n as unsigned. *)
Definition sys_pause : M (sys D) Z :=
  do n <- argint 0;
  let n := if n <? 0 then 0 else n in
  zoom on_ticks acquire ;;
  do ticks0 <- gets ticks;
  do k <- loop 1 (λ _,
    do s <- get;
    if u32 (ticks s - ticks0) <? n then
      do p <- ymyproc;
      do k <- zoom on_yp (killed p);
      if negb (k =? 0) then zoom on_ticks release ;; ret (inr true)
      else zoom on_tslst (sleep ChTicks) ;; ret (inl tt)
    else ret (inr false)) tt;
  if k : bool then ret (u64 (-1))
  else zoom on_ticks release ;; ret 0.

Definition sys_kill : M (sys D) Z := do pid <- argint 0; do r <- zoom on_yp (kkill pid); ret (u64 r).

Definition sys_uptime : M (sys D) Z :=
  zoom on_ticks acquire ;;
  do xticks <- gets ticks;
  zoom on_ticks release ;;
  ret xticks.
End exec.
