(* ===== verification/Sbrk.v ===== *)
(** * sbrk (kernel/proc.c growproc, kernel/sysproc.c sys_sbrk)

    The system call against the address space of the calling process: eager
    growth, lazy growth and shrinking. *)
From S2P Require Import Prelude Memory KString Riscv Spinlock Kalloc Vm VmSpec VmOps VmProps VmCopy VmFree VmSpace VmGrow Sched Sleeplock Disk Bio Log Fs Dir Pipe File Proc ProcProps Fork Exec.

(** The size after sbrk([d]); an underflow changes nothing. *)
Definition new_size (sz d : Z) : Z := if decide (sz + d < 0) then sz else sz + d.

Definition sized (sz : Z) (q : proc) : proc := Proc (p_lock q) (p_pub q) (p_parent q) (with_sz sz (p_priv q)).

(** Permissions of memory from sbrk. *)
Definition heap_perm : Z := Z.lor (Z.lor PTE_R PTE_U) PTE_W.

Lemma pages_of sz : 0 ≤ sz ≤ TRAPFRAME → ∃ n : nat, PGROUNDUP sz = Z.of_nat n * PGSIZE ∧ Z.of_nat n * PGSIZE ≤ TRAPFRAME.
Proof.
  change TRAPFRAME with (2 ^ 38 - 8192). intros Hsz. exists (Z.to_nat ((sz + PGSIZE - 1) `div` PGSIZE)).
  rewrite PGROUNDUP_eq by (unfold PGSIZE; lia). unfold PGSIZE. dlia.
Qed.

Section sbrk.
Context {D : Type} `{!BlockDev D}.
Context (end_ : Z) (end_pos : 0 < end_).
Implicit Types (s : sys D) (k : kst) (l : list proc) (w : spinlock) (h : hart).

Lemma owns_resized q b b' sz k fl k' fl' : owns end_ q b k fl → resized end_ (p_pgtbl (p_priv q)) b b' k fl k' fl' →
  0 ≤ sz ≤ TRAPFRAME → PGROUNDUP sz = Z.of_nat b' * PGSIZE → owns end_ (sized sz q) b' k' fl'.
Proof. intros [Hu Hs Htf Hn] [Hu' Hp _ _ _] Hsz Hb. split; cbn [sized with_sz p_priv p_pgtbl p_size p_trapframe]; [done|done|done|]. by rewrite Hp. Qed.

Lemma owns_kept q b k fl k' fl' : owns end_ q b k fl → resized end_ (p_pgtbl (p_priv q)) b b k fl k' fl' → owns end_ q b k' fl'.
Proof. intros [Hu Hs Htf Hn] [Hu' Hp _ _ _]. split; [done|done|done|]. by rewrite Hp. Qed.

Lemma owns_hart q b k fl h : hart_ok h → owns end_ q b k fl → owns end_ q b (khart h k) fl.
Proof. intros Hh [Hu Hs Htf Hn]. split; [by apply user_space_hart|done..]. Qed.

Lemma put_myproc s w l k p : pst_ok (Pst (k_hart k) l) → running (Pst (k_hart k) l) p →
  ymyproc (put s w l k) = Ok p (put s w l (khart (sync (k_hart k)) k)).
Proof.
  intros Hp Hr. rewrite (ymyproc_run (put s w l k) p) by (by rewrite put_y_p). rewrite put_put, put_view.
  unfold yhart. by rewrite put_y_p.
Qed.

(** What growproc and sbrk leave, with the result [good] or [bad]. *)
Definition grow_result s w l k p q b fl d (eager : bool) (good bad r : Z) s' : Prop :=
  let sz := p_size (p_priv q) in let pt := p_pgtbl (p_priv q) in
  ∃ k' fl' b', hart_same (k_hart k) (k_hart k') ∧ resized end_ pt b b' k fl k' fl' ∧
    ((r = good ∧ s' = put s w (<[p := sized (new_size sz d) q]> l) k' ∧ owns end_ (sized (new_size sz d) q) b' k' fl' ∧
        ∀ va, Z.of_nat b * PGSIZE ≤ va < Z.of_nat b' * PGSIZE →
          if eager then zero_page pt heap_perm k' va else has (leaf (k_mem k') pt va) PTE_V = false) ∨
     (r = bad ∧ s' = put s w l k' ∧ b' = b ∧ owns end_ q b k' fl' ∧ 0 < d ∧
        (TRAPFRAME < sz + d ∨ eager = true ∧ Z.of_nat (length fl) < 3 * ((PGROUNDUP (sz + d) - PGROUNDUP sz) `div` PGSIZE)))).

(** A step before it that only touches the hart. *)
Lemma grow_result_hart s w l k p q b fl d eager good bad r s' h : hart_ok (k_hart k) → hart_same (k_hart k) h →
  grow_result s w l (khart h k) p q b fl d eager good bad r s' → grow_result s w l k p q b fl d eager good bad r s'.
Proof.
  intros Hok Hh (k' & fl' & b' & Hs & [Hu Hp Hk Hb Hf] & H). exists k', fl', b'. split_and!; [by eapply hart_same_trans|by split|done].
Qed.

(** growproc once the process is known. *)
Lemma growproc_body s w l k p q b fl d : let sz := p_size (p_priv q) in let pt := p_pgtbl (p_priv q) in
  hart_ok (k_hart k) → l !! p = Some q → owns end_ q b k fl → -2 ^ 31 ≤ d < 2 ^ 31 →
  wp (if 0 <? d then
        if TRAPFRAME <? u64 (sz + d) then ret (-1)
        else
          do sz' <- zoom on_yk (uvmalloc end_ pt sz (u64 (sz + d)) PTE_W);
          if sz' =? 0 then ret (-1)
          else set_priv p (with_sz sz') ;; ret 0
      else if d <? 0 then
        do sz' <- zoom on_yk (uvmdealloc end_ pt sz (u64 (sz + d)));
        set_priv p (with_sz sz') ;; ret 0
      else set_priv p (with_sz sz) ;; ret 0) (grow_result s w l k p q b fl d true 0 (-1)) (put s w l k).
Proof.
  intros sz pt Hok Hq Hown Hd. pose proof Hown as [Hu [Hsz Hb] _ _]. fold sz in Hsz, Hb. fold pt in Hu.
  assert (TRAPFRAME = 2 ^ 38 - 8192) as ET by done.
  assert (∀ k' fl', hart_same (k_hart k) (k_hart k') → resized end_ pt b b k fl k' fl' →
    (0 < d → TRAPFRAME < sz + d ∨ Z.of_nat (length fl) < 3 * ((PGROUNDUP (sz + d) - PGROUNDUP sz) `div` PGSIZE)) → 0 < d →
    grow_result s w l k p q b fl d true 0 (-1) (-1) (put s w l k')) as Hbad.
  { intros k' fl' Hh Hr Hwhy H0. exists k', fl', b. split_and!; [done|done|]. right. split_and!; [done|done|done|by eapply owns_kept|done|].
    destruct (Hwhy H0); [by left|by right]. }
  assert (∀ k' fl' b', hart_same (k_hart k) (k_hart k') → resized end_ pt b b' k fl k' fl' → 0 ≤ new_size sz d ≤ TRAPFRAME →
    PGROUNDUP (new_size sz d) = Z.of_nat b' * PGSIZE →
    (∀ va, Z.of_nat b * PGSIZE ≤ va < Z.of_nat b' * PGSIZE → zero_page pt heap_perm k' va) →
    wp (set_priv p (with_sz (new_size sz d)) ;; ret 0) (grow_result s w l k p q b fl d true 0 (-1)) (put s w l k')) as Hgood.
  { intros k' fl' b' Hh Hr Hn Hb' Hz. wp_step. eapply put_proc; [exact Hq|]. wp_step. exists k', fl', b'. split_and!; [done|done|].
    left. split_and!; [done|done|by eapply owns_resized|done]. }
  assert (resized end_ pt b b k fl k fl) as Hrefl by (apply built_resized; [done|done|by apply built_refl]).
  unfold new_size in Hgood. destruct (Z.ltb_spec 0 d) as [Hpos|Hneg].
  - rewrite decide_False in Hgood by lia. rewrite u64_small by (rewrite ET in Hsz; lia).
    destruct (Z.ltb_spec TRAPFRAME (sz + d)) as [Hbig|Hfit].
    { wp_step. apply (Hbad k fl); [auto with hart|done|by left|done]. }
    destruct (pages_of (sz + d) ltac:(lia)) as (n & Hn & Hmax). wp_step. apply put_k.
    wp_call (uvmalloc_run end_ end_pos pt b n sz (sz + d) PTE_W k fl); [lia|done|done|done|by vm_compute|done|].
    intros r k' (fl' & [[-> Hz]|(-> & Hbu & Hlt)]).
    + rewrite (proj2 (Z.eqb_neq _ 0)) by lia. destruct Hz as [Hbu Hz _]. apply (Hgood k' fl' n); [apply Hbu| |lia|done|exact Hz].
      apply built_resized; [|done|done]. rewrite PGROUNDUP_eq in Hb, Hn by (unfold PGSIZE; lia). unfold PGSIZE in *. dlia.
    + cbn [Z.eqb]. wp_step. apply (Hbad k' fl'); [apply Hbu|by apply built_resized| |done]. intros _. right. rewrite Hn, Hb.
      replace ((Z.of_nat n * PGSIZE - Z.of_nat b * PGSIZE) `div` PGSIZE) with (Z.of_nat n - Z.of_nat b) by (unfold PGSIZE; dlia). lia.
  - destruct (Z.ltb_spec d 0) as [Hlt|H0].
    + wp_step. apply put_k. case_decide as Hun.
      * assert (u64 (sz + d) = sz + d + 2 ^ 64) as -> by (unfold u64; rewrite ET in Hsz; dlia).
        unfold uvmdealloc. rewrite (proj2 (Z.leb_le _ _)) by (rewrite ET in Hsz; lia). wp_step.
        apply (Hgood k fl b); [auto with hart|done|done|done|intros; lia].
      * rewrite u64_small by (rewrite ET in Hsz; lia). destruct (pages_of (sz + d) ltac:(lia)) as (n & Hn & Hmax).
        wp_call (uvmdealloc_run end_ end_pos pt n b sz (sz + d) k fl); [lia|lia|done|done|done|].
        intros r k' (-> & fl' & Hsh).
        assert (n <= b)%nat as Hnb by (rewrite PGROUNDUP_eq in Hb, Hn by (unfold PGSIZE; lia); unfold PGSIZE in *; dlia).
        apply (Hgood k' fl' n); [apply Hsh|by apply shrunk_resized|lia|done|intros; unfold PGSIZE in *; lia].
    + assert (d = 0) as -> by lia. rewrite decide_False, Z.add_0_r in Hgood by lia.
      apply (Hgood k fl b); [auto with hart|done|done|done|intros; lia].
Qed.

(** The process [p] makes a system call. *)
Record calling s p q b fl : Prop := {
  ca_pst : pst_ok (y_p s);
  ca_run : running (y_p s) p;
  ca_proc : procs (y_p s) !! p = Some q;
  ca_owns : owns end_ q b (view on_yk s) fl
}.

(** [s] after some calls of myproc(). *)
Abbreviation later s h := (put s (wait_lock s) (procs (y_p s)) (khart h (view on_yk s))).

Lemma later_pst s h p : pst_ok (y_p s) → running (y_p s) p → hart_same (yhart s) h →
  pst_ok (Pst h (procs (y_p s))) ∧ running (Pst h (procs (y_p s))) p.
Proof.
  intros [Hh Hl Hf] [Hc Hlt] Hs. split; [split; [by eapply hart_same_ok|done|done]|]. split; [|done].
  destruct (hart_same_proc _ _ Hh Hs) as [E _]. cbn [p_hart]. by rewrite E.
Qed.

Lemma later_myproc s h p : pst_ok (y_p s) → running (y_p s) p → hart_same (yhart s) h →
  ymyproc (later s h) = Ok p (later s (sync h)) ∧ hart_same (yhart s) (sync h).
Proof.
  intros Hp Hr Hs. destruct (later_pst s h p Hp Hr Hs) as [Hp' Hr']. split; [exact (put_myproc s _ _ (khart h (view on_yk s)) p Hp' Hr')|].
  eapply hart_same_trans; [apply Hp|exact Hs|auto with hart].
Qed.

Lemma later_self s : s = later s (yhart s).
Proof. transitivity (put s (wait_lock s) (procs (y_p s)) (view on_yk s)); [apply put_self|reflexivity]. Qed.

(** The fields of the process in such a state. *)
Lemma later_prc s h p q : procs (y_p s) !! p = Some q → prc p (later s h) = q.
Proof. intros Hq. unfold prc. rewrite put_y_p. by apply list_lookup_total_correct. Qed.

(** Argument [n] of the system call, from the saved registers. *)
Definition arg s q n : Z := i32 (ld64 (k_mem (view on_yk s)) (p_trapframe (p_priv q) + TF_a0 + 8 * n)).

Lemma argint_run s h p q b fl n : calling s p q b fl → hart_same (yhart s) h → 0 ≤ n ≤ 5 →
  argint n (later s h) = Ok (arg s q n) (later s (sync h)).
Proof.
  intros [Hp Hr Hq _] Hs Hn. unfold argint, argraw. destruct (later_myproc s h p Hp Hr Hs) as [E _]. unfold bind at 1 2. rewrite E.
  rewrite (proj2 (Z.leb_le 0 n)), (proj2 (Z.leb_le n 5)) by lia. cbn [andb]. unfold gets. by rewrite (later_prc _ _ _ _ Hq).
Qed.

Lemma growproc_run s h p q b fl d : calling s p q b fl → hart_same (yhart s) h → -2 ^ 31 ≤ d < 2 ^ 31 →
  wp (growproc end_ d) (grow_result s (wait_lock s) (procs (y_p s)) (view on_yk s) p q b fl d true 0 (-1)) (later s h).
Proof.
  intros [Hp Hr Hq Hown] Hs Hd. unfold growproc. destruct (later_myproc s h p Hp Hr Hs) as [E Hs1].
  assert (hart_ok (sync h)) as Hh by (eapply hart_same_ok; [apply Hp|exact Hs1]). wp_step. eapply wp_of_Ok; [exact E|]. wp_step. wp_step.
  rewrite (later_prc _ _ _ _ Hq). cbv zeta.
  eapply wp_mono; [apply (growproc_body s (wait_lock s) (procs (y_p s)) (khart (sync h) (view on_yk s)) p q b fl d); [done|done|by apply owns_hart|done]|].
  intros r s' H. eapply grow_result_hart; [apply Hp| |exact H]. exact Hs1.
Qed.

(** The lazy branch. *)
Lemma lazy_body s h p q b fl n : let sz := p_size (p_priv q) in calling s p q b fl → hart_same (yhart s) h → 0 ≤ n < 2 ^ 31 →
  wp (if u64 (sz + n) <? sz then ret (u64 (-1))
      else if TRAPFRAME <? u64 (sz + n) then ret (u64 (-1))
      else
        do p <- ymyproc;
        set_priv p (λ q, with_sz (u64 (p_size q + n)) q) ;;
        ret sz) (grow_result s (wait_lock s) (procs (y_p s)) (view on_yk s) p q b fl n false sz (u64 (-1))) (later s h).
Proof.
  intros sz [Hp Hr Hq Hown] Hs Hn. pose proof Hown as [Hu [Hsz Hb] _ _]. fold sz in Hsz, Hb. assert (TRAPFRAME = 2 ^ 38 - 8192) as ET by done.
  rewrite u64_small by (rewrite ET in Hsz; lia). rewrite (proj2 (Z.ltb_ge _ _)) by lia.
  assert (hart_ok h) as Hh by (eapply hart_same_ok; [apply Hp|exact Hs]).
  destruct (Z.ltb_spec TRAPFRAME (sz + n)) as [Hbig|Hfit].
  - wp_step. apply (grow_result_hart s _ _ _ p q b fl n false sz (u64 (-1)) _ _ h); [apply Hp|exact Hs|].
    exists (khart h (view on_yk s)), fl, b. pose proof (owns_hart q b _ fl h Hh Hown) as Hown'.
    split_and!; [auto with hart|apply built_resized; [done|apply Hown'|apply built_refl, Hown']|]. right.
    split_and!; [done|done|done|done|lia|by left].
  - destruct (later_myproc s h p Hp Hr Hs) as [E Hs1]. assert (hart_ok (sync h)) as Hh1 by (by apply sync_ok).
    wp_step. eapply wp_of_Ok; [exact E|]. wp_step. eapply put_proc; [exact Hq|]. wp_step.
    apply (grow_result_hart s _ _ _ p q b fl n false sz (u64 (-1)) _ _ (sync h)); [apply Hp|exact Hs1|].
    pose proof (owns_hart q b _ fl (sync h) Hh1 Hown) as Hown'. destruct (pages_of (sz + n) ltac:(lia)) as (j & Hj & Hmax).
    assert (b <= j)%nat as Hbj by (rewrite PGROUNDUP_eq in Hb, Hj by (unfold PGSIZE; lia); unfold PGSIZE in *; dlia).
    destruct (lazy_resized end_ _ b j (khart (sync h) (view on_yk s)) fl Hbj Hmax (ow_space _ _ _ _ _ Hown')) as [Hrs Hz].
    exists (khart (sync h) (view on_yk s)), fl, j. split_and!; [auto with hart|done|]. left.
    unfold new_size. rewrite decide_False by lia. fold sz. split_and!; [done| |by eapply owns_resized; [..|lia|]|done].
    unfold sized. fold sz. by rewrite u64_small by (rewrite ET in Hsz; lia).
Qed.

(** C11: sbrk. Its result is the old size, with three ways to get there: an eager call gives the process
    pages of zeros from the free list, readable and writable, up to the new size; a
    lazy call raises the size and leaves holes for the page faults to fill; a
    negative one gives back the pages above the new size, and changes
    nothing when it would go below zero. Or the result is -1, only for growth
    past TRAPFRAME or, when eager, with fewer free pages than three for each new one,
    and then size and memory are as before. In every case the memory below
    keeps its mappings and its bytes, the trapframe and trampoline mappings stay, and
    the pages of the process and the free pages together are the same pages. *)
Theorem sbrk_resizes s p q b fl : calling s p q b fl →
  let n := arg s q 0 in let eager := (arg s q 1 =? SBRK_EAGER) || (n <? 0) in
  wp (sys_sbrk end_) (grow_result s (wait_lock s) (procs (y_p s)) (view on_yk s) p q b fl n eager (p_size (p_priv q)) (u64 (-1))) s.
Proof.
  intros Hca n eager. pose proof Hca as [Hp Hr Hq Hown]. assert (-2 ^ 31 ≤ n < 2 ^ 31) as Hn by apply i32_range. set (Q := grow_result _ _ _ _ _ _ _ _ _ _ _ _).
  enough (wp (sys_sbrk end_) Q (later s (yhart s))) as H by (revert H; by rewrite <- (later_self s)). unfold sys_sbrk.
  assert (hart_same (yhart s) (yhart s)) as Hs by auto with hart.
  wp_step. eapply wp_of_Ok; [by eapply argint_run|]. fold n. destruct (later_myproc s _ p Hp Hr Hs) as [_ Hs1].
  wp_step. eapply wp_of_Ok; [by eapply argint_run|]. destruct (later_myproc s _ p Hp Hr Hs1) as [_ Hs2].
  destruct (later_myproc s _ p Hp Hr Hs2) as [E Hs3]. wp_step. eapply wp_of_Ok; [exact E|]. set (h := sync (sync (sync (yhart s)))) in *.
  wp_step. wp_step. rewrite (later_prc _ _ _ _ Hq). fold eager. destruct eager eqn:Ee.
  - wp_step. wp_call (growproc_run s h p q b fl n Hca Hs3 Hn). intros r s' (k' & fl' & b' & Hh & Hrs & H). wp_step.
    exists k', fl', b'. split_and!; [done|done|]. destruct H as [(-> & H)|(-> & H)]; [by left|by right].
  - apply orb_false_iff in Ee as [_ H0]. apply Z.ltb_ge in H0. apply (lazy_body s h p q b fl n Hca Hs3). lia.
Qed.
End sbrk.

(** Process 3 of [demo_forking] calls sbrk(5000, SBRK_EAGER). *)
Definition demo_sbrk_k : kst :=
  let k := view on_yk demo_forking in
  Kst (k_hart k) (k_lock k) (freelist k) (st64 (st64 (k_mem k) 0x87ffb070 5000) 0x87ffb078 SBRK_EAGER).
Definition demo_sbrk : sys ram_disk := put demo_forking (wait_lock demo_forking) (procs (y_p demo_forking)) demo_sbrk_k.

Lemma demo_sbrk_calling : calling 0x87ff0000 demo_sbrk 3 demo_forker 1 demo_nine.
Proof.
  destruct demo_forking_can as [Hp Hr _ Hq _ Hown _ _ _ _ _]. split; [exact Hp|exact Hr|exact Hq|].
  change (view on_yk demo_sbrk) with demo_sbrk_k. destruct Hown as [Hu Hsz Htf Htfo].
  destruct (user_space_write 0x87ff0000 (p_pgtbl (p_priv demo_forker)) 1 (view on_yk demo_forking) demo_nine 0x87ffb000 (k_mem demo_sbrk_k) Hu Htf) as (Hu' & Hl & Ht).
  - intros H. apply Htfo. rewrite elem_of_app. by right.
  - intros a Ha. unfold in_page, PGSIZE in Ha. unfold demo_sbrk_k, k_mem at 1. by rewrite !rd_st_out by lia.
  - split; [exact Hu'|exact Hsz|exact Htf|]. intros H. apply Htfo.
    rewrite Ht, (upages_ext (k_mem (view on_yk demo_forking))) in H by (intros; apply Hl). exact H.
Qed.

Lemma sbrk_resizes_witness :
  wp (sys_sbrk 0x87ff0000) (λ r s', r = 100 ∧ (∃ q', procs (y_p s') !! 3%nat = Some q' ∧ p_size (p_priv q') = 5100) ∧
    zero_page 0x87fff000 heap_perm (view on_yk s') 4096) demo_sbrk.
Proof.
  eapply wp_mono; [apply (sbrk_resizes 0x87ff0000 ltac:(done) demo_sbrk 3 demo_forker 1 demo_nine); exact demo_sbrk_calling|].
  assert (arg demo_sbrk demo_forker 0 = 5000) as -> by (vm_compute; reflexivity).
  assert (arg demo_sbrk demo_forker 1 = 1) as -> by (vm_compute; reflexivity).
  intros r s' (k' & fl' & b' & _ & _ & H).
  destruct H as [(-> & -> & Hown & Hz)|(_ & _ & _ & _ & _ & H)].
  - split; [done|]. split; [eexists; split; [reflexivity|reflexivity]|]. rewrite put_view. apply Hz.
    destruct (ow_size _ _ _ _ _ Hown) as [_ Hb]. change (PGROUNDUP (p_size (p_priv (sized (new_size (p_size (p_priv demo_forker)) 5000) demo_forker)))) with 8192 in Hb.
    unfold PGSIZE in *. lia.
  - destruct H as [H|[_ H]]; vm_compute in H; discriminate.
Defined.
