(* ===== verification/Sysfile.v ===== *)
(** * kernel/sysfile.c and the table of kernel/syscall.c

    The file system calls and the system call table; the dispatch and the trap
    handlers are in Trap.v. The literals "." and ".." are at the addresses [dot] and
    [dotdot]. The diagnostic printfs of the system calls are not modelled. *)
From S2P Require Import Prelude Memory KString Riscv Spinlock Kalloc Vm Sched Sleeplock Disk Bio Log Fs Dir Pipe File Proc Exec.

(** fcntl.h *)
Definition O_RDONLY : Z := 0.
Definition O_WRONLY : Z := 1.
Definition O_RDWR : Z := 2.
Definition O_CREATE : Z := 0x200.
Definition O_TRUNC : Z := 0x400.

Section sysfile.
Context {D : Type} `{!BlockDev D}.
Context (end_ : Z) (buf_addr : nat → Z) (loc trampoline forkret_addr fr dot dotdot : Z).
Context (dev_read dev_write : Z → option (Z → Z → Z → M (fil D) Z)).
Implicit Types s : sys D.

Abbreviation readi := (readi end_ buf_addr).
Abbreviation writei := (writei end_ buf_addr).
Abbreviation namei := (namei end_ buf_addr (L_de fr) (L_iname fr)).
Abbreviation nameiparent := (nameiparent end_ buf_addr (L_de fr)).
Abbreviation dirlookup := (dirlookup end_ buf_addr (L_de fr)).
Abbreviation dirlink := (dirlink end_ buf_addr (L_de fr)).
Abbreviation fileclose := (fileclose end_).

Definition ybegin_op : M (sys D) unit := zoom on_fs (zoom on_l begin_op).
Definition yend_op : M (sys D) unit := zoom on_fs (zoom on_l end_op).
Definition yino (i : nat) s : inode := ino i (view on_fs s).
Definition yset_d (i : nat) (f : dinode → dinode) : M (sys D) unit := zoom on_fs (set_ino i (with_d f)).
(** The failing return of a system call. *)
Definition fail : Z := u64 (-1).

(** argfd(n, &fd, &f), None for -1. *)
Definition argfd (n : Z) : M (sys D) (option (Z * nat)) :=
  do fd <- argint n;
  if (fd <? 0) || (NOFILE <=? fd) then ret None
  else
    do p <- ymyproc;
    do s <- get;
    ret (match p_ofile (p_priv (prc p s)) !!! Z.to_nat fd with Some f => Some (fd, f) | None => None end).

Definition fdalloc (f : nat) : M (sys D) Z :=
  do p <- ymyproc;
  do s <- get;
  match List.find (λ fd, bool_decide (p_ofile (p_priv (prc p s)) !!! fd = None)) (seq 0 (Z.to_nat NOFILE)) with
  | Some fd => set_priv p (with_ofile fd (Some f)) ;; ret (Z.of_nat fd)
  | None => ret (-1)
  end.

Definition sys_dup : M (sys D) Z :=
  do r <- argfd 0;
  match r with
  | None => ret fail
  | Some (_, f) =>
      do fd <- fdalloc f;
      if fd <? 0 then ret fail
      else zoom on_fl (filedup f) ;; ret fd
  end.

Definition sys_read : M (sys D) Z :=
  do p <- argaddr 1;
  do n <- argint 2;
  do r <- argfd 0;
  match r with
  | None => ret fail
  | Some (_, f) => do v <- zoom on_fl (fileread end_ buf_addr loc dev_read f p n); ret (u64 v)
  end.

Definition sys_write : M (sys D) Z :=
  do p <- argaddr 1;
  do n <- argint 2;
  do r <- argfd 0;
  match r with
  | None => ret fail
  | Some (_, f) => do v <- zoom on_fl (filewrite end_ buf_addr loc dev_write f p n); ret (u64 v)
  end.

Definition sys_close : M (sys D) Z :=
  do r <- argfd 0;
  match r with
  | None => ret fail
  | Some (fd, f) =>
      do p <- ymyproc;
      set_priv p (with_ofile (Z.to_nat fd) None) ;;
      zoom on_fl (fileclose f) ;;
      ret 0
  end.

Definition sys_fstat : M (sys D) Z :=
  do st <- argaddr 1;
  do r <- argfd 0;
  match r with
  | None => ret fail
  | Some (_, f) => do v <- zoom on_fl (filestat end_ loc f st); ret (u64 v)
  end.

Definition sys_link_bad (ip : nat) : M (sys D) Z :=
  zoom on_fs (ilock (Some ip)) ;;
  yset_d ip (λ d, with_nlink (i16 (d_nlink d - 1)) d) ;;
  zoom on_fs (iupdate ip) ;;
  zoom on_fs (iunlockput ip) ;;
  yend_op ;;
  ret fail.

Definition sys_link : M (sys D) Z :=
  do a <- argstr 0 (L_path fr) MAXPATH;
  if a <? 0 then ret fail else
  do b <- argstr 1 (L_new fr) MAXPATH;
  if b <? 0 then ret fail else
    ybegin_op ;;
    do o <- zoom on_fs (namei (L_path fr));
    match o with
    | None => yend_op ;; ret fail
    | Some ip =>
        zoom on_fs (ilock (Some ip)) ;;
        do s <- get;
        if d_type (i_d (yino ip s)) =? T_DIR then
          zoom on_fs (iunlockput ip) ;; yend_op ;; ret fail
        else
          yset_d ip (λ d, with_nlink (i16 (d_nlink d + 1)) d) ;;
          zoom on_fs (iupdate ip) ;;
          zoom on_fs (iunlock (Some ip)) ;;
          do o <- zoom on_fs (nameiparent (L_new fr) (L_name fr));
          match o with
          | None => sys_link_bad ip
          | Some dp =>
              zoom on_fs (ilock (Some dp)) ;;
              do s <- get;
              do bad <- (if negb (i_dev (yino dp s) =? i_dev (yino ip s)) then ret true
                         else do r <- zoom on_fs (dirlink dp (L_name fr) (i_inum (yino ip s))); ret (r <? 0));
              zoom on_fs (iunlockput dp) ;;
              if bad : bool then sys_link_bad ip
              else zoom on_fs (iput ip) ;; yend_op ;; ret 0
          end
    end.

Definition isdirempty (dp : nat) : M (sys D) bool :=
  do s <- get;
  let size := d_size (i_d (yino dp s)) in
  do r <- first (drop 2 (de_offs size)) (λ off,
    do r <- zoom on_fs (readi dp 0 (L_de2 fr) off sizeof_dirent);
    if negb (r =? sizeof_dirent) then panic "isdirempty: readi"
    else
      do i <- gets (λ s, de_inum (L_de2 fr) (view on_fs s));
      ret (if negb (i =? 0) then Some tt else None));
  ret (bool_decide (r = None)).

Definition sys_unlink_bad (dp : nat) : M (sys D) Z :=
  zoom on_fs (iunlockput dp) ;; yend_op ;; ret fail.

Definition sys_unlink : M (sys D) Z :=
  do a <- argstr 0 (L_path fr) MAXPATH;
  if a <? 0 then ret fail else
    ybegin_op ;;
    do o <- zoom on_fs (nameiparent (L_path fr) (L_name fr));
    match o with
    | None => yend_op ;; ret fail
    | Some dp =>
        zoom on_fs (ilock (Some dp)) ;;
        do c1 <- zoom on_ymem (namecmp (L_name fr) dot);
        do c2 <- zoom on_ymem (namecmp (L_name fr) dotdot);
        if (c1 =? 0) || (c2 =? 0) then sys_unlink_bad dp
        else
          do r <- zoom on_fs (dirlookup dp (L_name fr));
          match r with
          | None => sys_unlink_bad dp
          | Some (ip, off) =>
              zoom on_fs (ilock (Some ip)) ;;
              do s <- get;
              if d_nlink (i_d (yino ip s)) <? 1 then panic "unlink: nlink < 1"
              else
                let isdir := d_type (i_d (yino ip s)) =? T_DIR in
                do full <- (if isdir then do e <- isdirempty ip; ret (negb e) else ret false);
                if full : bool then zoom on_fs (iunlockput ip) ;; sys_unlink_bad dp
                else
                  zoom on_ymem (memset (L_de2 fr) 0 sizeof_dirent) ;;
                  do w <- zoom on_fs (writei dp 0 (L_de2 fr) off sizeof_dirent);
                  if negb (w =? sizeof_dirent) then panic "unlink: writei"
                  else
                    do s <- get;
                    when (d_type (i_d (yino ip s)) =? T_DIR)
                      (yset_d dp (λ d, with_nlink (i16 (d_nlink d - 1)) d) ;; zoom on_fs (iupdate dp)) ;;
                    zoom on_fs (iunlockput dp) ;;
                    yset_d ip (λ d, with_nlink (i16 (d_nlink d - 1)) d) ;;
                    zoom on_fs (iupdate ip) ;;
                    zoom on_fs (iunlockput ip) ;;
                    yend_op ;;
                    ret 0
          end
    end.

(** The label fail of create. *)
Definition create_fail (ip dp : nat) : M (sys D) (option nat) :=
  yset_d ip (with_nlink 0) ;;
  zoom on_fs (iupdate ip) ;;
  zoom on_fs (iunlockput ip) ;;
  zoom on_fs (iunlockput dp) ;;
  ret None.

(** create: returns the inode locked. *)
Definition create (path type major minor : Z) : M (sys D) (option nat) :=
  do o <- zoom on_fs (nameiparent path (L_name fr));
  match o with
  | None => ret None
  | Some dp =>
      zoom on_fs (ilock (Some dp)) ;;
      do r <- zoom on_fs (dirlookup dp (L_name fr));
      match r with
      | Some (ip, _) =>
          zoom on_fs (iunlockput dp) ;;
          zoom on_fs (ilock (Some ip)) ;;
          do s <- get;
          let t := d_type (i_d (yino ip s)) in
          if (type =? T_FILE) && ((t =? T_FILE) || (t =? T_DEVICE)) then ret (Some ip)
          else zoom on_fs (iunlockput ip) ;; ret None
      | None =>
          do s <- get;
          do o <- zoom on_fs (ialloc (i_dev (yino dp s)) type);
          match o with
          | None => zoom on_fs (iunlockput dp) ;; ret None
          | Some ip =>
              zoom on_fs (ilock (Some ip)) ;;
              yset_d ip (λ d, Dinode (d_type d) major minor 1 (d_size d) (d_addrs d)) ;;
              zoom on_fs (iupdate ip) ;;
              do s <- get;
              do bad <- (if type =? T_DIR then
                           do r <- zoom on_fs (dirlink ip dot (i_inum (yino ip s)));
                           if r <? 0 then ret true
                           else do r <- zoom on_fs (dirlink ip dotdot (i_inum (yino dp s))); ret (r <? 0)
                         else ret false);
              if bad : bool then create_fail ip dp
              else
                do r <- zoom on_fs (dirlink dp (L_name fr) (i_inum (yino ip s)));
                if r <? 0 then create_fail ip dp
                else
                  when (type =? T_DIR)
                    (yset_d dp (λ d, with_nlink (i16 (d_nlink d + 1)) d) ;; zoom on_fs (iupdate dp)) ;;
                  zoom on_fs (iunlockput dp) ;;
                  ret (Some ip)
          end
      end
  end.

(** The inode sys_open opens, locked: create or namei. *)
Definition open_inode (omode : Z) : M (sys D) (option nat) :=
  if has omode O_CREATE then create (L_path fr) T_FILE 0 0
  else
    do o <- zoom on_fs (namei (L_path fr));
    match o with
    | None => ret None
    | Some ip =>
        zoom on_fs (ilock (Some ip)) ;;
        do s <- get;
        if (d_type (i_d (yino ip s)) =? T_DIR) && negb (omode =? O_RDONLY)
        then zoom on_fs (iunlockput ip) ;; ret None
        else ret (Some ip)
    end.

Definition bool_Z (b : bool) : Z := if b then 1 else 0.

Definition sys_open : M (sys D) Z :=
  do omode <- argint 1;
  do n <- argstr 0 (L_path fr) MAXPATH;
  if n <? 0 then ret fail else
    ybegin_op ;;
    do o <- open_inode omode;
    match o with
    | None => yend_op ;; ret fail
    | Some ip =>
        do s <- get;
        let d := i_d (yino ip s) in
        if (d_type d =? T_DEVICE) && ((d_major d <? 0) || (NDEV <=? d_major d)) then
          zoom on_fs (iunlockput ip) ;; yend_op ;; ret fail
        else
          do of_ <- zoom on_fl filealloc;
          match of_ with
          | None => zoom on_fs (iunlockput ip) ;; yend_op ;; ret fail
          | Some f =>
              do fd <- fdalloc f;
              if fd <? 0 then
                zoom on_fl (fileclose f) ;; zoom on_fs (iunlockput ip) ;; yend_op ;; ret fail
              else
                zoom on_fl (set_file f (λ x,
                  if d_type d =? T_DEVICE
                  then File FD_DEVICE (fl_ref x) (bool_Z (negb (has omode O_WRONLY)))
                         (bool_Z (has omode O_WRONLY || has omode O_RDWR)) (fl_pipe x) ip (fl_off x) (d_major d)
                  else File FD_INODE (fl_ref x) (bool_Z (negb (has omode O_WRONLY)))
                         (bool_Z (has omode O_WRONLY || has omode O_RDWR)) (fl_pipe x) ip 0 (fl_major x))) ;;
                when (has omode O_TRUNC && (d_type d =? T_FILE)) (zoom on_fs (itrunc ip)) ;;
                zoom on_fs (iunlock (Some ip)) ;;
                yend_op ;;
                ret fd
          end
    end.

Definition sys_mkdir : M (sys D) Z :=
  ybegin_op ;;
  do n <- argstr 0 (L_path fr) MAXPATH;
  do o <- (if n <? 0 then ret None else create (L_path fr) T_DIR 0 0);
  match o with
  | None => yend_op ;; ret fail
  | Some ip => zoom on_fs (iunlockput ip) ;; yend_op ;; ret 0
  end.

Definition sys_mknod : M (sys D) Z :=
  ybegin_op ;;
  do major <- argint 1;
  do minor <- argint 2;
  do n <- argstr 0 (L_path fr) MAXPATH;
  do o <- (if n <? 0 then ret None else create (L_path fr) T_DEVICE (i16 major) (i16 minor));
  match o with
  | None => yend_op ;; ret fail
  | Some ip => zoom on_fs (iunlockput ip) ;; yend_op ;; ret 0
  end.

Definition sys_chdir : M (sys D) Z :=
  do p <- ymyproc;
  ybegin_op ;;
  do n <- argstr 0 (L_path fr) MAXPATH;
  do o <- (if n <? 0 then ret None else zoom on_fs (namei (L_path fr)));
  match o with
  | None => yend_op ;; ret fail
  | Some ip =>
      zoom on_fs (ilock (Some ip)) ;;
      do s <- get;
      if negb (d_type (i_d (yino ip s)) =? T_DIR) then
        zoom on_fs (iunlockput ip) ;; yend_op ;; ret fail
      else
        zoom on_fs (iunlock (Some ip)) ;;
        do cwd <- of_option (p_cwd (p_priv (prc p s)));
        zoom on_fs (iput cwd) ;;
        yend_op ;;
        set_priv p (with_cwd (Some ip)) ;;
        ret 0
  end.

(** sys_exec: the argument pages allocated so far are freed on every path. *)
Definition free_args (argv : list Z) : M (sys D) unit :=
  each argv (λ a, zoom on_yk (kfree end_ a)).

(** The loop that fetches the arguments: [inl] for goto bad, with the pages. *)
Definition fetch_args (uargv : Z) : M (sys D) (list Z + list Z) :=
  loop (S (Z.to_nat MAXARG)) (λ argv,
    let i := Z.of_nat (length argv) in
    if MAXARG <=? i then ret (inr (inl argv))
    else
      do r <- fetchaddr end_ (u64 (uargv + 8 * i)) (L_uarg fr);
      if r <? 0 then ret (inr (inl argv))
      else
        do uarg <- gets (λ s, ld64 (view on_ymem s) (L_uarg fr));
        if uarg =? 0 then ret (inr (inr argv))
        else
          do a <- zoom on_yk kalloc;
          if a =? 0 then ret (inr (inl argv))
          else
            do r <- fetchstr uarg a PGSIZE;
            if r <? 0 then ret (inr (inl (argv ++ [a]))) else ret (inl (argv ++ [a])))
    [].

Definition sys_exec : M (sys D) Z :=
  do uargv <- argaddr 1;
  do n <- argstr 0 (L_path fr) MAXPATH;
  if n <? 0 then ret fail else
    do r <- fetch_args uargv;
    match r with
    | inl argv => free_args argv ;; ret fail
    | inr argv =>
        do v <- kexec end_ buf_addr trampoline fr (L_path fr) argv;
        free_args argv ;;
        ret (u64 v)
    end.

Definition sys_pipe : M (sys D) Z :=
  do p <- ymyproc;
  do fdarray <- argaddr 0;
  do r <- zoom on_fl (pipealloc end_);
  match r with
  | None => ret fail
  | Some (rf, wf) =>
      do fd0 <- fdalloc rf;
      do fd1 <- (if fd0 <? 0 then ret (-1) else fdalloc wf);
      if (fd0 <? 0) || (fd1 <? 0) then
        when (0 <=? fd0) (set_priv p (with_ofile (Z.to_nat fd0) None)) ;;
        zoom on_fl (fileclose rf) ;;
        zoom on_fl (fileclose wf) ;;
        ret fail
      else
        do s <- get;
        let pt := p_pgtbl (p_priv (prc p s)) in
        zoom on_ymem (modify (λ m, st 4 (st 4 m (L_fd fr) fd0) (L_fd fr + 4) fd1)) ;;
        do a <- zoom on_yv (copyout end_ pt fdarray (L_fd fr) 4);
        do b <- (if a <? 0 then ret (-1) else zoom on_yv (copyout end_ pt (u64 (fdarray + 4)) (L_fd fr + 4) 4));
        if (a <? 0) || (b <? 0) then
          set_priv p (with_ofile (Z.to_nat fd0) None) ;;
          set_priv p (with_ofile (Z.to_nat fd1) None) ;;
          zoom on_fl (fileclose rf) ;;
          zoom on_fl (fileclose wf) ;;
          ret fail
        else ret 0
  end.

(** ** syscall.c: the table and the dispatch *)
Definition syscalls (num : Z) : option (M (sys D) Z) :=
  match num with
  | 1 => Some (sys_fork end_ trampoline forkret_addr)
  | 2 => Some (sys_exit end_)
  | 3 => Some (sys_wait end_ loc)
  | 4 => Some sys_pipe
  | 5 => Some sys_read
  | 6 => Some sys_kill
  | 7 => Some sys_exec
  | 8 => Some sys_fstat
  | 9 => Some sys_chdir
  | 10 => Some sys_dup
  | 11 => Some sys_getpid
  | 12 => Some (sys_sbrk end_)
  | 14 => Some sys_uptime
  | 15 => Some sys_open
  | 16 => Some sys_write
  | 17 => Some sys_mknod
  | 18 => Some sys_unlink
  | 19 => Some sys_link
  | 20 => Some sys_mkdir
  | 21 => Some sys_close
  | 22 => Some sys_pause
  | _ => None
  end.

End sysfile.
