(* ===== verification/Trap.v ===== *)
(** * The machine: kernel/trap.c, the dispatch of kernel/syscall.c, kernel/main.c

    [mach] is one hart with the whole kernel: the system of Proc.v, the console, the
    control registers, the interrupt controller, the disk driver, and the static
    variables of vm.c, main.c and forkret. The components are seen through lenses, and
    the trap handlers and main() are written on the machine as the code composes them,
    the printing included. The address of a function is an argument named after it;
    [uservec] and [userret] are the offsets of those labels in the trampoline page. *)
From S2P Require Import Prelude Memory KString Riscv Spinlock Mmio Csr Kalloc Vm Sched Sleeplock Disk Bio Log Fs Virtio Console Dir Pipe File Proc Exec Sysfile.
From Stdlib Require String Ascii.

(** The characters of a literal, without the NUL. *)
Definition str (s : string) : list Z := (λ a, Z.of_N (Ascii.N_of_ascii a)) <$> String.list_ascii_of_string s.
Definition lf : list Z := [10].
(** types.h *)
Definition RED : Z := 31.
Definition GREEN : Z := 32.

Record mach (D : Type) : Type := Mach {
  m_y : sys D;
  m_cons_lock : spinlock;
  m_pr_lock : spinlock;
  m_uart : mmio;
  m_panicking : Z;
  m_panicked : Z;
  m_devsw : list (option devfn * option devfn);
  m_csr : csrs;
  m_plic : mmio;
  m_vd : vdisk;
  m_bdisk : list Z;            (* the disk fields of the buffers *)
  m_vreg : mmio;               (* the registers of the disk *)
  m_kpt : Z;                   (* vm.c: kernel_pagetable *)
  m_started : Z;               (* main.c: started *)
  m_first : Z                  (* forkret: first *)
}.
Arguments Mach {D}.
Arguments m_y {D}.
Arguments m_cons_lock {D}.
Arguments m_pr_lock {D}.
Arguments m_uart {D}.
Arguments m_panicking {D}.
Arguments m_panicked {D}.
Arguments m_devsw {D}.
Arguments m_csr {D}.
Arguments m_plic {D}.
Arguments m_vd {D}.
Arguments m_bdisk {D}.
Arguments m_vreg {D}.
Arguments m_kpt {D}.
Arguments m_started {D}.
Arguments m_first {D}.

(** The symbols of the kernel's image. *)
Record symbols : Type := Symbols {
  y_end : Z; y_etext : Z; y_trampoline : Z; y_forkret : Z; y_kernelvec : Z; y_usertrap : Z;
  y_uservec : Z; y_userret : Z; y_bufs : nat → Z;
  y_loc : Z; y_fr : Z; y_dot : Z; y_dotdot : Z; y_root : Z; y_init : Z
}.

Section trap.
Context {D : Type} `{!BlockDev D}.
Context (y : symbols) (dev_read dev_write : Z → option (Z → Z → Z → M (fil D) Z)).
Implicit Types s : mach D.

(** ** The components of the machine *)
Definition with_y (t : sys D) s : mach D :=
  Mach t (m_cons_lock s) (m_pr_lock s) (m_uart s) (m_panicking s) (m_panicked s) (m_devsw s) (m_csr s) (m_plic s)
    (m_vd s) (m_bdisk s) (m_vreg s) (m_kpt s) (m_started s) (m_first s).
Definition on_y : lens (mach D) (sys D) := Lens m_y with_y.
Definition m_fs s : Fs.fst D := view on_fs (m_y s).
Definition with_fs (f : Fs.fst D) s : mach D := with_y (over on_fs f (m_y s)) s.
Definition on_con : lens (mach D) (con D) :=
  Lens (λ s, Con (m_fs s) (m_cons_lock s) (m_pr_lock s) (m_uart s) (m_panicking s) (m_panicked s) (m_devsw s))
       (λ c s, let s' := with_fs (co_f c) s in
               Mach (m_y s') (cons_lock c) (pr_lock c) (co_uart c) (panicking c) (panicked c) (devsw c) (m_csr s) (m_plic s)
                 (m_vd s) (m_bdisk s) (m_vreg s) (m_kpt s) (m_started s) (m_first s)).
Definition on_csr : lens (mach D) csrs :=
  Lens m_csr (λ c s, Mach (m_y s) (m_cons_lock s) (m_pr_lock s) (m_uart s) (m_panicking s) (m_panicked s) (m_devsw s) c (m_plic s)
                       (m_vd s) (m_bdisk s) (m_vreg s) (m_kpt s) (m_started s) (m_first s)).
Definition m_hart s : hart := yhart (m_y s).
Definition on_hart : lens (mach D) hart := Lens m_hart (λ h s, with_y (with_hart h (m_y s)) s).
Definition on_plic : lens (mach D) (hart * mmio) :=
  Lens (λ s, (m_hart s, m_plic s))
       (λ t s, let s' := with_y (with_hart t.1 (m_y s)) s in
               Mach (m_y s') (m_cons_lock s) (m_pr_lock s) (m_uart s) (m_panicking s) (m_panicked s) (m_devsw s) (m_csr s) t.2
                 (m_vd s) (m_bdisk s) (m_vreg s) (m_kpt s) (m_started s) (m_first s)).
Definition on_vio : lens (mach D) vio :=
  Lens (λ s, Vio (y_p (m_y s)) (f_km (m_fs s)) (m_vd s) (m_bdisk s) (m_vreg s))
       (λ v s, let s' := with_fs (with_fp (vi_p v) (m_fs s)) s in
               let f := m_fs s' in
               let s' := with_fs (Fst (f_l f) (vi_km v) (f_sb f) (it_lock f) (inodes f)) s' in
               Mach (m_y s') (m_cons_lock s) (m_pr_lock s) (m_uart s) (m_panicking s) (m_panicked s) (m_devsw s) (m_csr s) (m_plic s)
                 (vi_d v) (vi_bdisk v) (vi_reg v) (m_kpt s) (m_started s) (m_first s)).
Definition set_kpt (v : Z) : M (mach D) unit :=
  modify (λ s, Mach (m_y s) (m_cons_lock s) (m_pr_lock s) (m_uart s) (m_panicking s) (m_panicked s) (m_devsw s) (m_csr s) (m_plic s)
                 (m_vd s) (m_bdisk s) (m_vreg s) v (m_started s) (m_first s)).
Definition set_started (v : Z) : M (mach D) unit :=
  modify (λ s, Mach (m_y s) (m_cons_lock s) (m_pr_lock s) (m_uart s) (m_panicking s) (m_panicked s) (m_devsw s) (m_csr s) (m_plic s)
                 (m_vd s) (m_bdisk s) (m_vreg s) (m_kpt s) v (m_first s)).
Definition set_first (v : Z) : M (mach D) unit :=
  modify (λ s, Mach (m_y s) (m_cons_lock s) (m_pr_lock s) (m_uart s) (m_panicking s) (m_panicked s) (m_devsw s) (m_csr s) (m_plic s)
                 (m_vd s) (m_bdisk s) (m_vreg s) (m_kpt s) (m_started s) v).

Definition mprintf (fmt : list Z) (ap : list va) : M (mach D) unit := zoom on_con (printf fmt ap).
Definition mprintf_color (color : Z) (fmt : list Z) : M (mach D) unit := zoom on_con (printf_color color fmt []).
Definition mprc (p : nat) s : proc := prc p (m_y s).
(** p->name as a string. *)
Definition name_of (p : nat) s : va := VStr (Some (until_nul (p_name (p_priv (mprc p s))))).
Definition m_mem s : mem := view on_ymem (m_y s).
Definition tf_at (p : nat) s : Z := p_trapframe (p_priv (mprc p s)).
(** p->trapframe->field, by its offset. *)
Definition tf_get (p : nat) (o : Z) s : Z := ld64 (m_mem s) (tf_at p s + o).
Definition tf_set (p : nat) (o v : Z) : M (mach D) unit :=
  do s <- get; zoom on_y (zoom on_ymem (modify (λ m, st64 m (tf_at p s + o) v))).

(** ** syscall.c *)
Definition syscalls (num : Z) : option (M (sys D) Z) :=
  Sysfile.syscalls (y_end y) (y_bufs y) (y_loc y) (y_trampoline y) (y_forkret y) (y_fr y) (y_dot y) (y_dotdot y) dev_read dev_write num.

Definition syscall : M (mach D) unit :=
  do p <- zoom on_y ymyproc;
  do num <- gets (λ s, i32 (tf_get p TF_a7 s));
  match (if 0 <? num then syscalls num else None) with
  | Some h => do r <- zoom on_y h; tf_set p TF_a0 r
  | None =>
      do s <- get;
      mprintf (str "%d %s: unknown sys call %d" ++ lf) [VInt (p_pid (p_pub (mprc p s))); name_of p s; VInt num] ;;
      tf_set p TF_a0 fail
  end.

(** ** trap.c *)
Definition trapinit : M (mach D) unit := zoom on_y (zoom on_ticks (initlock "time")).
Definition trapinithart : M (mach D) unit := zoom on_csr (w_stvec (y_kernelvec y)).

(** A uint64 passed where the format has %d: va_arg takes the low half of the slot. *)
Definition print_exception_details (scause sepc stval : Z) : M (mach D) unit :=
  mprintf (str "  scause: 0x%p (cause code: %d)" ++ lf) [VPtr scause; VInt (i32 scause)] ;;
  mprintf (str "  sepc:   0x%p (faulting address)" ++ lf) [VPtr sepc] ;;
  mprintf (str "  stval:  0x%p (trap value)" ++ lf) [VPtr stval] ;;
  match scause with
  | 2 => mprintf_color RED (str "  -> Type: Illegal Instruction" ++ lf)
  | 12 => mprintf_color RED (str "  -> Type: Instruction Page Fault" ++ lf)
  | 13 => mprintf_color RED (str "  -> Type: Load Page Fault" ++ lf)
  | 15 => mprintf_color RED (str "  -> Type: Store Page Fault" ++ lf)
  | _ => mprintf_color RED (str "  -> Type: Unknown exception" ++ lf)
  end.

Definition clockintr : M (mach D) unit :=
  do id <- zoom on_hart cpuid;
  when (id =? 0)
    (zoom on_y
      (zoom on_ticks acquire ;;
       modify (λ t : sys D, Sys (y_f t) (pid_lock t) (nextpid t) (wait_lock t) (initproc t) (tickslock t) (u32 (ticks t + 1))) ;;
       zoom on_yp (wakeup ChTicks) ;;
       zoom on_ticks release)) ;;
  do t <- zoom on_csr r_time;
  zoom on_csr (w_stimecmp (u64 (t + 1000000))).

Definition devintr : M (mach D) Z :=
  do scause <- zoom on_csr r_scause;
  if scause =? 0x8000000000000009 then
    do irq <- zoom on_plic plic_claim;
    (if irq =? UART0_IRQ then panic "uartintr"
     else if irq =? VIRTIO0_IRQ then zoom on_vio virtio_disk_intr
     else when (negb (irq =? 0)) (mprintf (str "unexpected interrupt irq=%d" ++ lf) [VInt irq])) ;;
    when (negb (irq =? 0)) (zoom on_plic (plic_complete irq)) ;;
    ret 1
  else if scause =? 0x8000000000000005 then clockintr ;; ret 2
  else ret 0.

Definition prepare_return : M (mach D) unit :=
  do p <- zoom on_y ymyproc;
  zoom on_hart intr_off ;;
  zoom on_csr (w_stvec (TRAMPOLINE + y_uservec y)) ;;
  do v <- zoom on_csr r_satp; tf_set p TF_kernel_satp v ;;
  do s <- get;
  tf_set p TF_kernel_sp (u64 (p_kstack (p_priv (mprc p s)) + PGSIZE)) ;;
  tf_set p TF_kernel_trap (y_usertrap y) ;;
  do id <- zoom on_hart r_tp; tf_set p TF_kernel_hartid id ;;
  do x <- zoom on_hart r_sstatus;
  let x := Z.land x (Z.lnot SSTATUS_SPP) in
  let x := Z.lor x SSTATUS_SPIE in
  zoom on_hart (w_sstatus x) ;;
  do epc <- gets (tf_get p TF_epc);
  zoom on_csr (w_sepc epc).

Definition usertrap : M (mach D) Z :=
  do x <- zoom on_hart r_sstatus;
  if has x SSTATUS_SPP then panic "usertrap: not from user mode"
  else
    zoom on_csr (w_stvec (y_kernelvec y)) ;;
    do p <- zoom on_y ymyproc;
    do v <- zoom on_csr r_sepc; tf_set p TF_epc v ;;
    do scause <- zoom on_csr r_scause;
    do which_dev <-
      (if scause =? 8 then
         do k <- zoom on_y (zoom on_yp (killed p));
         when (negb (k =? 0)) (zoom on_y (kexit (y_end y) (-1))) ;;
         do epc <- gets (tf_get p TF_epc);
         tf_set p TF_epc (u64 (epc + 4)) ;;
         zoom on_hart intr_on ;;
         syscall ;;
         ret 0
       else
         do d <- devintr;
         when (d =? 0)
           (mprintf_color RED (lf ++ str ">>> USER EXCEPTION <<<" ++ lf) ;;
            do s <- get;
            mprintf (str "  Process %d (%s) triggered." ++ lf) [VInt (p_pid (p_pub (mprc p s))); name_of p s] ;;
            do a <- zoom on_csr r_scause;
            do b <- zoom on_csr r_sepc;
            do c <- zoom on_csr r_stval;
            print_exception_details a b c ;;
            zoom on_y (zoom on_yp (setkilled p))) ;;
         ret d);
    do k <- zoom on_y (zoom on_yp (killed p));
    when (negb (k =? 0)) (zoom on_y (kexit (y_end y) (-1))) ;;
    when (which_dev =? 2) (zoom on_y (zoom on_yp yield)) ;;
    prepare_return ;;
    gets (λ s, MAKE_SATP (p_pgtbl (p_priv (mprc p s)))).

Definition kerneltrap : M (mach D) unit :=
  do sepc <- zoom on_csr r_sepc;
  do sstatus <- zoom on_hart r_sstatus;
  if negb (has sstatus SSTATUS_SPP) then panic "kerneltrap: not from supervisor mode"
  else
    do i <- gets (λ s, intr_get (m_hart s));
    if i : bool then panic "kerneltrap: interrupts enabled"
    else
      do which_dev <- devintr;
      when (which_dev =? 0)
        (mprintf_color RED (lf ++ str ">>> KERNEL EXCEPTION <<<" ++ lf) ;;
         do a <- zoom on_csr r_scause;
         do c <- zoom on_csr r_stval;
         print_exception_details a sepc c ;;
         panic "Kernel exception") ;;
      do o <- (if which_dev =? 2 then zoom on_hart myproc else ret None);
      when (bool_decide (o ≠ None)) (zoom on_y (zoom on_yp yield)) ;;
      zoom on_csr (w_sepc sepc) ;;
      zoom on_hart (w_sstatus sstatus).
End trap.
