(* ===== verification/TrapProps.v ===== *)
(** * Traps from user space

    What usertrap does with an exception and with a system call number that does not
    exist, on the whole machine. *)
From S2P Require Import Prelude Memory KString Riscv Spinlock Mmio Csr Kalloc Vm Sched Sleeplock Disk Bio Log Fs Virtio Console ConsoleProps Dir Pipe File Proc Exec Sysfile Trap.

(** ** Code that never returns *)
Definition never {S A} (c : M S A) : Prop := ∀ s a s', c s ≠ Ok a s'.

Lemma never_bind {S A B} (c : M S B) (k : B → M S A) : (∀ b, never (k b)) → never (bind c k).
Proof. intros Hk s a s'. unfold bind. destruct (c s); [apply Hk|done]. Qed.

Lemma never_zoom {S T A} (l : lens S T) (c : M T A) : never c → never (zoom l c).
Proof. intros Hc s a s' E. unfold zoom in E. destruct (c (view l s)) eqn:Ec; [|done]. by apply Hc in Ec. Qed.

(** The code halts, and [Q] holds of the fault and the state. *)
Definition ends {S A} (c : M S A) (Q : fault → S → Prop) (s : S) : Prop :=
  match c s with Ok _ _ => False | Halt f s' => Q f s' end.

Lemma ends_bind {S A B} (c : M S B) (k : B → M S A) Q s : wp c (λ b s', ends (k b) Q s') s → ends (bind c k) Q s.
Proof. unfold ends, wp, bind. by destruct (c s). Qed.

Lemma ends_first {S A B} (c : M S B) (k : B → M S A) Q s : ends c Q s → ends (bind c k) Q s.
Proof. unfold ends, bind. by destruct (c s). Qed.

Lemma never_ends {S A} (c : M S A) s : never c → ends c (λ f s', c s = Halt f s') s.
Proof. intros H. unfold ends. destruct (c s) eqn:E; [by apply H in E|done]. Qed.

Section traps.
Context {D : Type} `{!BlockDev D}.
Context (y : symbols) (dev_read dev_write : Z → option (Z → Z → Z → M (fil D) Z)).
Implicit Types s : mach D.

Lemma kexit_never end_ status : never (kexit (D := D) end_ status).
Proof.
  unfold kexit. apply never_bind. intros p. apply never_bind. intros s. case_match; [done|].
  do 12 (apply never_bind; intros ?). do 4 (apply never_bind; intros ?). done.
Qed.

(** ** The state in a trap handler

    Process [p] is running with the table [ps]; the registers are [c], memory is [m],
    and the console will take [n] more characters. *)
Definition talks (n : nat) s : Prop :=
  lock_free (m_cons_lock s) ∧ lock_free (m_pr_lock s) ∧ m_panicking s = 0 ∧ ready n (m_uart s).

Record trap (p : nat) (ps : list proc) (c : csrs) (m : mem) (n : nat) s : Prop := {
  t_hart : hart_ok (m_hart s);
  t_run : cpu_proc (cur (m_hart s)) = Some p;
  t_noff : noff (cur (m_hart s)) = 0;
  t_procs : procs (y_p (m_y s)) = ps;
  t_csr : m_csr s = c;
  t_mem : m_mem s = m;
  t_talks : talks n s
}.

(** A process table no lock of which is held. *)
Definition free_table (ps : list proc) : Prop := length ps = Z.to_nat NPROC ∧ Forall (λ q, lock_free (p_lock q)) ps.

Lemma trap_pst p ps c m n s : trap p ps c m n s → free_table ps → pst_ok (y_p (m_y s)).
Proof. intros [H1 _ _ H3 _ _ _] [L1 L2]. split; [exact H1|by rewrite H3|by rewrite H3]. Qed.

Lemma hart_pass h h' p : hart_ok h → cpu_proc (cur h) = Some p → noff (cur h) = 0 → hart_same h h' →
  hart_ok h' ∧ cpu_proc (cur h') = Some p ∧ noff (cur h') = 0.
Proof. intros Hh Hp Hn Hs. destruct (hart_same_proc _ _ Hh Hs) as [-> ->]. split; [by eapply hart_same_ok|done]. Qed.

(** Reading a register changes nothing. *)
Lemma csrr_run r s : (r =? SIE) = false → zoom on_csr (csrr r) s = Ok (csr (m_csr s) r) s.
Proof. intros Hr. unfold zoom, csrr, gets, csr_get. rewrite Hr. by destruct s. Qed.

Lemma hart_get {A} (f : hart → A) s : zoom on_hart (gets f) s = Ok (f (m_hart s)) s.
Proof.
  unfold zoom, gets, on_hart. cbn. f_equal. destruct s as [[[[f0 pp] fl ff] pl np wl ip tl tk] ? ? ? ? ? ? ? ? ? ? ? ? ? ?].
  destruct f0 as [[[[h ps] b1 b2 b3 b4 b5] l1 l2 l3 l4 l5 l6] km sb il ino]. reflexivity.
Qed.

Lemma csrw_wp p ps c m n s r x : trap p ps c m n s →
  wp (zoom on_csr (csrw r x)) (λ _ s', ∃ c', csrw r x c = Ok tt c' ∧ trap p ps c' m n s' ∧ m_hart s' = m_hart s) s.
Proof. intros [H1 H2 H0 H3 H4 H5 H6]. wp_step. unfold csrw. wp_step. cbn [view on_csr]. rewrite H4. eexists. split; [done|]. split; [|done]. by split. Qed.

(** An operation on the process table that keeps the running process. *)
Lemma on_table_wp {A} (op : M pst A) (a : A) h' ps' p ps c m n s : trap p ps c m n s →
  op (y_p (m_y s)) = Ok a (Pst h' ps') → hart_same (m_hart s) h' →
  wp (zoom on_y (zoom on_yp op)) (λ b s', b = a ∧ trap p ps' c m n s' ∧ hart_same (m_hart s) (m_hart s')) s.
Proof.
  intros [H1 H2 H0 H3 H4 H5 H6] E Hs. wp_step. wp_step. cbn [view on_y on_yp]. eapply wp_of_Ok; [exact E|]. split; [done|].
  destruct (hart_pass _ _ _ H1 H2 H0 Hs) as (? & ? & ?). split; [by split|done].
Qed.

Lemma myproc_wp p ps c m n s : trap p ps c m n s → free_table ps → (p < length ps)%nat →
  wp (zoom on_y ymyproc) (λ b s', b = p ∧ trap p ps c m n s' ∧ hart_same (m_hart s) (m_hart s')) s.
Proof.
  intros Ht Hf Hp. assert (running (y_p (m_y s)) p) as Hr by (split; [apply Ht|by rewrite (t_procs _ _ _ _ _ _ Ht)]).
  eapply (on_table_wp me p); [exact Ht|rewrite (me_run _ _ (trap_pst _ _ _ _ _ _ Ht Hf) Hr); by rewrite (t_procs _ _ _ _ _ _ Ht)|auto with hart].
Qed.

Lemma killed_wp p ps c m n s q : trap p ps c m n s → free_table ps → ps !! p = Some q →
  wp (zoom on_y (zoom on_yp (killed p))) (λ b s', b = p_killed (p_pub q) ∧ trap p ps c m n s' ∧ hart_same (m_hart s) (m_hart s')) s.
Proof.
  intros Ht Hf Hq. eapply (on_table_wp (killed p)); [exact Ht|rewrite (killed_run _ _ q (trap_pst _ _ _ _ _ _ Ht Hf)); [by rewrite (t_procs _ _ _ _ _ _ Ht)|by rewrite (t_procs _ _ _ _ _ _ Ht)]|auto with hart].
Qed.

Definition set_killed (q : proc) : proc := Proc (p_lock q) (with_killed 1 (p_pub q)) (p_parent q) (p_priv q).

Lemma setkilled_run (t : pst) i q : pst_ok t → procs t !! i = Some q →
  setkilled i t = Ok tt (Pst (sync (p_hart t)) (<[i := set_killed q]> (procs t))).
Proof. intros Hok Hq. apply (slot_update t i q); done. Qed.

(** Printing. *)
Lemma print_wp (op : M (con D) unit) k p ps c m n s : trap p ps c m (k + n) s →
  (con_ok (view on_con s) → lock_free (pr_lock (view on_con s)) → panicking (view on_con s) = 0 → ready k (co_uart (view on_con s)) →
   wp op (λ _ t, sent_upto (view on_con s) k t) (view on_con s)) →
  wp (zoom on_con op) (λ _ s', trap p ps c m n s' ∧ hart_same (m_hart s) (m_hart s')) s.
Proof.
  intros [H1 H2 H0 H3 H4 H5 (T1 & T2 & T3 & T4)] Hop. wp_step.
  assert (con_ok (view on_con s)) as Hok by (by split).
  wp_call Hop; [done|done|done|by eapply ready_mono; [exact T4|lia]|].
  intros [] t Hu. pose proof (upto_ready (view on_con s) k t n T4 Hu) as Hr. destruct Hu as (cs & Hk & [S1 S2 S3 S4 S5 S6 (S7 & S8 & S9 & S10)]).
  destruct (hart_pass _ _ p H1 H2 H0 S4) as (Hh & Hp & Hn). split; [|exact S4]. split; [exact Hh|exact Hp|exact Hn|rewrite <- H3; exact S5|exact H4| |].
  - rewrite <- H5. unfold m_mem. cbn. by rewrite S6.
  - unfold talks. cbn. rewrite S10, S7, S8. by split_and!.
Qed.

Lemma mprintf_wp fmt ap k p ps c m n s : fits fmt ap = Some k → Forall va_ok ap → trap p ps c m (k + n) s →
  wp (mprintf fmt ap) (λ _ s', trap p ps c m n s' ∧ hart_same (m_hart s) (m_hart s')) s.
Proof. intros Hf Hv Ht. apply (print_wp _ k p ps c m n s Ht). intros. by apply printf_runs. Qed.

Lemma mprintf_color_wp color fmt k p ps c m n s : fits fmt [] = Some k → - 2 ^ 63 ≤ color < 2 ^ 63 → trap p ps c m (k + 28 + n) s →
  wp (mprintf_color color fmt) (λ _ s', trap p ps c m n s' ∧ hart_same (m_hart s) (m_hart s')) s.
Proof. intros Hf Hv Ht. apply (print_wp _ (k + 28) p ps c m n s Ht). intros. by apply printf_color_runs. Qed.

(** Writing a field of the trapframe. *)
Lemma tf_set_wp p ps c m n s q o v : trap p ps c m n s → ps !! p = Some q →
  wp (tf_set p o v) (λ _ s', trap p ps c (st64 m (p_trapframe (p_priv q) + o) v) n s' ∧ m_hart s' = m_hart s) s.
Proof.
  intros [H1 H2 H0 H3 H4 H5 H6] Hq. unfold tf_set. wp_step. wp_step. wp_step. wp_step. wp_step. split; [|done]. split; try done. rewrite <- H5.
  assert (tf_at p s = p_trapframe (p_priv q)) as E by (unfold tf_at, mprc, prc; by rewrite H3, (list_lookup_total_correct _ _ _ Hq)). rewrite <- E. done.
Qed.

Lemma tf_get_eq p ps c m n s q o : trap p ps c m n s → ps !! p = Some q → tf_get p o s = ld64 m (p_trapframe (p_priv q) + o).
Proof. intros [H1 H2 H0 H3 H4 H5 H6] Hq. unfold tf_get, tf_at, mprc, prc. by rewrite H3, H5, (list_lookup_total_correct _ _ _ Hq). Qed.

Lemma mprc_eq p ps c m n s q : trap p ps c m n s → ps !! p = Some q → mprc p s = q.
Proof. intros [H1 H2 H0 H3 H4 H5 H6] Hq. unfold mprc, prc. by rewrite H3, (list_lookup_total_correct _ _ _ Hq). Qed.

(** The values a handler prints are those of C's types. *)
Definition regs_ok (c : csrs) : Prop := ∀ r, 0 ≤ csr c r < 2 ^ 64.
Definition proc_prints (q : proc) : Prop := - 2 ^ 31 ≤ p_pid (p_pub q) < 2 ^ 31 ∧ (length (p_name (p_priv q)) ≤ 16)%nat.

Lemma until_nul_len l : (length (until_nul l) ≤ length l)%nat.
Proof. induction l as [|c l IH]; cbn; [lia|]. case_match; cbn; lia. Qed.

Lemma trap_le p ps c m n k s : trap p ps c m n s → (k ≤ n)%nat → trap p ps c m k s.
Proof. intros [H1 H2 H0 H3 H4 H5 (T1 & T2 & T3 & T4)] Hk. split; try done. split_and!; try done. by eapply ready_mono. Qed.

(** Printing [k] characters when [n] may be printed. *)
Lemma mprintf_step fmt ap k p ps c m n s : trap p ps c m n s → fits fmt ap = Some k → Forall va_ok ap → (k ≤ n)%nat →
  wp (mprintf fmt ap) (λ _ s', trap p ps c m (n - k) s' ∧ hart_same (m_hart s) (m_hart s')) s.
Proof. intros Ht Hf Hv Hk. apply (mprintf_wp fmt ap k); [done|done|]. by replace (k + (n - k))%nat with n by lia. Qed.

Lemma mprintf_color_step color fmt k p ps c m n s : trap p ps c m n s → fits fmt [] = Some k → - 2 ^ 63 ≤ color < 2 ^ 63 → (k + 28 ≤ n)%nat →
  wp (mprintf_color color fmt) (λ _ s', trap p ps c m (n - (k + 28)) s' ∧ hart_same (m_hart s) (m_hart s')) s.
Proof. intros Ht Hf Hv Hk. apply (mprintf_color_wp color fmt k); [done|done|]. by replace (k + 28 + (n - (k + 28)))%nat with n by lia. Qed.

Lemma i32_va x : va_ok (VInt (i32 x)).
Proof. unfold va_ok, i32, u32. case_match; dlia. Qed.

Lemma fits_lits l fmt ap : forallb (λ c, negb (c =? chr_percent)) l = true → fits (l ++ fmt) ap = Nat.add (length l) <$> fits fmt ap.
Proof.
  induction l as [|c l IH]; cbn; [by destruct (fits fmt ap)|]. intros [-> Hl]%andb_true_iff. rewrite (IH Hl). by destruct (fits fmt ap).
Qed.

Lemma fits_dec fmt v ap : fits ([37; 100] ++ fmt) (VInt v :: ap) = Nat.add 21 <$> fits fmt ap.
Proof. done. Qed.
Lemma fits_str fmt l ap : fits ([37; 115] ++ fmt) (VStr (Some l) :: ap) = Nat.add (length l) <$> fits fmt ap.
Proof. done. Qed.

(** The two messages that name the process. *)
Lemma fits_triggered pid l : fits (str "  Process %d (%s) triggered." ++ lf) [VInt pid; VStr (Some l)] = Some (46 + length l)%nat.
Proof.
  assert (str "  Process %d (%s) triggered." ++ lf = str "  Process " ++ [37; 100] ++ str " (" ++ [37; 115] ++ (str ") triggered." ++ lf) ++ []) as -> by (by vm_compute).
  rewrite fits_lits, fits_dec, fits_lits, fits_str, fits_lits by (by vm_compute). cbn [fits fmap option_fmap option_map]. f_equal.
  change (length (str "  Process ")) with 10%nat. change (length (str " (")) with 2%nat. change (length (str ") triggered." ++ lf)) with 13%nat. lia.
Qed.

Lemma fits_unknown pid l num : fits (str "%d %s: unknown sys call %d" ++ lf) [VInt pid; VStr (Some l); VInt num] = Some (63 + length l)%nat.
Proof.
  assert (str "%d %s: unknown sys call %d" ++ lf = [37; 100] ++ str " " ++ [37; 115] ++ str ": unknown sys call " ++ [37; 100] ++ lf ++ []) as -> by (by vm_compute).
  rewrite fits_dec, fits_lits, fits_str, fits_lits, fits_dec, fits_lits by (by vm_compute). cbn [fits fmap option_fmap option_map]. f_equal.
  change (length (str " ")) with 1%nat. change (length (str ": unknown sys call ")) with 19%nat. change (length lf) with 1%nat. lia.
Qed.

Lemma print_details_wp p ps c m n s a b d : trap p ps c m n s → (300 ≤ n)%nat → 0 ≤ a < 2 ^ 64 → 0 ≤ b < 2 ^ 64 → 0 ≤ d < 2 ^ 64 →
  wp (print_exception_details a b d) (λ _ s', trap p ps c m (n - 300) s') s.
Proof.
  intros Ht Hn Ha Hb Hd. unfold print_exception_details.
  wp_step. wp_call (mprintf_step _ _ 72 p ps c m n s Ht); [reflexivity|repeat constructor; [lia|lia|apply i32_va..]|lia|]. intros [] s1 [H1 _].
  wp_step. wp_call (mprintf_step _ _ 55 p ps c m _ s1 H1); [reflexivity|repeat constructor; lia|lia|]. intros [] s2 [H2 _].
  wp_step. wp_call (mprintf_step _ _ 49 p ps c m _ s2 H2); [reflexivity|repeat constructor; lia|lia|]. intros [] s3 [H3 _].
  assert (∀ fmt k, fits fmt [] = Some k → (k ≤ 34)%nat → wp (mprintf_color RED fmt) (λ _ s', trap p ps c m (n - 300) s') s3) as Hc.
  { intros fmt k Hf Hk. wp_call (mprintf_color_step RED fmt k p ps c m _ s3 H3 Hf); [unfold RED; lia|lia|]. intros [] s4 [H4 _]. eapply trap_le; [exact H4|lia]. }
  repeat case_match; (eapply Hc; [reflexivity|cbn; lia]).
Qed.

(** C36: an exception in user space other than a system call kills the process: usertrap
    marks it killed and runs kexit(-1), which does not return, so that control never
    goes back to user space. That holds for the page faults 13 and 15 at an address that
    sbrk allocated lazily as for every other exception: usertrap does not call vmfault. *)
Theorem user_exception_kills p q ps c m n s :
  trap p ps c m n s → (500 ≤ n)%nat → free_table ps → ps !! p = Some q → proc_prints q → regs_ok c →
  has (sstatus (m_hart s)) SSTATUS_SPP = false →
  csr c SCAUSE ≠ 8 → csr c SCAUSE ≠ 0x8000000000000009 → csr c SCAUSE ≠ 0x8000000000000005 →
  ends (usertrap y dev_read dev_write) (λ f s', ∃ s1, procs (y_p (m_y s1)) = <[p := set_killed q]> ps ∧
    zoom on_y (kexit (y_end y) (-1)) s1 = Halt f s') s.
Proof.
  intros Ht Hn Hf Hq [Hpid Hname] Hr Hspp H8 H9 H5. unfold usertrap. pose proof (lookup_lt_Some _ _ _ Hq) as Hlt.
  apply ends_bind. eapply wp_of_Ok; [apply hart_get|]. rewrite Hspp.
  apply ends_bind. wp_call (csrw_wp p ps c m n s STVEC (y_kernelvec y) Ht). intros [] s1 (c1 & Ec & H1 & _).
  assert (csr c1 SCAUSE = csr c SCAUSE ∧ csr c1 SEPC = csr c SEPC ∧ csr c1 STVAL = csr c STVAL) as (Es & Ee & Ev) by (by injection Ec as <-). clear Ec.
  apply ends_bind. wp_call (myproc_wp p ps c1 m n s1 H1 Hf Hlt). intros p' s2 (-> & H2 & _).
  apply ends_bind. eapply wp_of_Ok; [by apply csrr_run|]. apply ends_bind. wp_call (tf_set_wp p ps c1 m n s2 q _ _ H2 Hq). intros [] s3 [H3 _]. set (m3 := st64 m _ _) in *.
  apply ends_bind. eapply wp_of_Ok; [by apply csrr_run|]. rewrite (t_csr _ _ _ _ _ _ H3), Es, (proj2 (Z.eqb_neq _ _) H8).
  apply ends_bind. apply wp_bind. unfold devintr. apply wp_bind. eapply wp_of_Ok; [by apply csrr_run|].
  rewrite (t_csr _ _ _ _ _ _ H3), Es, (proj2 (Z.eqb_neq _ _) H9), (proj2 (Z.eqb_neq _ _) H5). wp_step. wp_step. rewrite Z.eqb_refl. cbn [when].
  wp_step. wp_call (mprintf_color_step RED _ 24 p ps c1 m3 n s3 H3); [reflexivity|unfold RED; lia|lia|]. intros [] s4 [H4 _].
  wp_step. wp_step. rewrite (mprc_eq _ _ _ _ _ _ _ H4 Hq). unfold name_of. rewrite (mprc_eq _ _ _ _ _ _ _ H4 Hq). pose proof (until_nul_len (p_name (p_priv q))) as Hun.
  wp_step. wp_call (mprintf_step _ _ (46 + length (until_nul (p_name (p_priv q)))) p ps c1 m3 _ s4 H4); [|constructor; [unfold va_ok; lia|by repeat constructor]|lia|].
  { apply fits_triggered. }
  intros [] s5 [H5' _]. wp_step. eapply wp_of_Ok; [by apply csrr_run|]. wp_step. eapply wp_of_Ok; [by apply csrr_run|]. wp_step. eapply wp_of_Ok; [by apply csrr_run|].
  rewrite (t_csr _ _ _ _ _ _ H5'), Es, Ee, Ev. wp_step. wp_call (print_details_wp p ps c1 m3 _ s5 _ _ _ H5'); [lia|apply Hr|apply Hr|apply Hr|]. intros [] s6 H6.
  set (ps' := <[p := set_killed q]> ps). assert (free_table ps') as Hf'.
  { destruct Hf as [L1 L2]. split; [by unfold ps'; rewrite length_insert|]. apply Forall_insert; [done|]. exact (proj1 (Forall_lookup _ _) L2 p q Hq). }
  assert (ps' !! p = Some (set_killed q)) as Hq' by (by apply list_lookup_insert_eq).
  wp_call (on_table_wp (setkilled p) tt (sync (m_hart s6)) ps' p ps c1 m3 _ s6 H6).
  { rewrite (setkilled_run _ _ q (trap_pst _ _ _ _ _ _ H6 Hf)); rewrite (t_procs _ _ _ _ _ _ H6); done. }
  { auto with hart. }
  intros [] s7 (_ & H7 & _). wp_step. apply ends_bind. wp_call (killed_wp p ps' c1 m3 _ s7 (set_killed q) H7 Hf' Hq'). intros k s8 (-> & H8' & _).
  cbn [p_killed set_killed p_pub with_killed Z.eqb negb when]. apply ends_first.
  pose proof (never_ends (zoom on_y (kexit (y_end y) (-1))) s8 (never_zoom _ _ (kexit_never _ _))) as He. unfold ends in *.
  destruct (zoom on_y (kexit (y_end y) (-1)) s8) eqn:E; [done|]. exists s8. split; [apply H8'|exact E].
Qed.

(** ** The way back to user space *)
Lemma sstatus_wp f p ps c m n s : trap p ps c m n s →
  wp (zoom on_hart (modify (λ h, Hart (f (sstatus h)) (tp h) (cpus h))))
    (λ _ s', trap p ps c m n s' ∧ sstatus (m_hart s') = f (sstatus (m_hart s)) ∧ tp (m_hart s') = tp (m_hart s)) s.
Proof.
  intros [[G1 G2 G3] H2 H0 H3 H4 H5 H6]. wp_step. wp_step. split; [|done]. split; try done. split; cbn; [done|done|].
  intros Hn. change (noff (cur (m_hart s)) > 0) in Hn || change (0 < noff (cur (m_hart s))) in Hn. lia.
Qed.

(** What usertrap leaves in the trapframe and the registers when it goes back. *)
Record returning (q : proc) ps (c : csrs) (m : mem) (id : Z) s : Prop := {
  rt_epc : ld64 (m_mem s) (p_trapframe (p_priv q) + TF_epc) = ld64 m (p_trapframe (p_priv q) + TF_epc);
  rt_sepc : csr (m_csr s) SEPC = ld64 m (p_trapframe (p_priv q) + TF_epc);
  rt_stvec : csr (m_csr s) STVEC = u64 (TRAMPOLINE + y_uservec y);
  rt_satp : ld64 (m_mem s) (p_trapframe (p_priv q) + TF_kernel_satp) = csr c SATP;
  rt_sp : ld64 (m_mem s) (p_trapframe (p_priv q) + TF_kernel_sp) = u64 (p_kstack (p_priv q) + PGSIZE);
  rt_trap : ld64 (m_mem s) (p_trapframe (p_priv q) + TF_kernel_trap) = y_usertrap y;
  rt_hartid : ld64 (m_mem s) (p_trapframe (p_priv q) + TF_kernel_hartid) = id;
  rt_user : has (sstatus (m_hart s)) SSTATUS_SPP = false;
  rt_spie : has (sstatus (m_hart s)) SSTATUS_SPIE = true;
  rt_intr : intr_get (m_hart s) = false;
  rt_other x : ¬ (p_trapframe (p_priv q) ≤ x < p_trapframe (p_priv q) + 40) → rd (m_mem s) x = rd m x;
  rt_procs : procs (y_p (m_y s)) = ps
}.

Lemma return_bits x : let z := Z.land (Z.lor (Z.land (Z.land x (Z.lnot SSTATUS_SIE)) (Z.lnot SSTATUS_SPP)) SSTATUS_SPIE) SSTATUS_BITS in
  has z SSTATUS_SPP = false ∧ has z SSTATUS_SPIE = true ∧ has z SSTATUS_SIE = false.
Proof.
  intros z. unfold SSTATUS_SPP, SSTATUS_SPIE, SSTATUS_SIE in *. rewrite !has_shiftl by lia. unfold z.
  rewrite !Z.land_spec, !Z.lor_spec, !Z.land_spec, !Z.lnot_spec by lia.
  by destruct (Z.testbit x 8), (Z.testbit x 5), (Z.testbit x 1).
Qed.

Lemma prepare_return_wp p q ps c m n s : trap p ps c m n s → free_table ps → ps !! p = Some q → regs_ok c → 0 ≤ tp (m_hart s) < 2 ^ 64 →
  0 ≤ y_usertrap y < 2 ^ 64 →
  wp (prepare_return y) (λ _ s', returning q ps c m (tp (m_hart s)) s') s.
Proof.
  intros Ht Hf Hq Hr Htp Hut. pose proof (lookup_lt_Some _ _ _ Hq) as Hlt. unfold prepare_return.
  wp_step. wp_call (myproc_wp p ps c m n s Ht Hf Hlt). intros p' s1 (-> & H1 & Hs1).
  wp_step. unfold intr_off. wp_call (sstatus_wp (λ x, Z.land x (Z.lnot SSTATUS_SIE)) p ps c m n s1 H1). intros [] s2 (H2 & E2 & T2).
  wp_step. wp_call (csrw_wp p ps c m n s2 STVEC _ H2). intros [] s3 (c3 & Ec & H3 & E3). injection Ec as <-. set (c3 := Csrs _ _ _ _) in *.
  wp_step. eapply wp_of_Ok; [by apply csrr_run|]. rewrite (t_csr _ _ _ _ _ _ H3). change (csr c3 SATP) with (csr c SATP).
  set (tf := p_trapframe (p_priv q)).
  wp_step. wp_call (tf_set_wp p ps c3 m n s3 q TF_kernel_satp (csr c SATP) H3 Hq). fold tf. intros [] s4 [H4 E4]. set (m4 := st64 m _ _) in *.
  wp_step. wp_step. rewrite (mprc_eq _ _ _ _ _ _ _ H4 Hq). wp_step. wp_call (tf_set_wp p ps c3 m4 n s4 q TF_kernel_sp _ H4 Hq). fold tf. intros [] s5 [H5 E5]. set (m5 := st64 m4 _ _) in *.
  wp_step. wp_call (tf_set_wp p ps c3 m5 n s5 q TF_kernel_trap _ H5 Hq). fold tf. intros [] s6 [H6 E6]. set (m6 := st64 m5 _ _) in *.
  wp_step. eapply wp_of_Ok; [apply hart_get|]. rewrite E6, E5, E4, E3, T2. assert (tp (m_hart s1) = tp (m_hart s)) as -> by (destruct Hs1 as [->| ->]; done).
  wp_step. wp_call (tf_set_wp p ps c3 m6 n s6 q TF_kernel_hartid _ H6 Hq). fold tf. intros [] s7 [H7 E7]. set (m7 := st64 m6 _ _) in *.
  wp_step. eapply wp_of_Ok; [apply hart_get|]. rewrite E7, E6, E5, E4, E3, E2.
  wp_step. unfold w_sstatus. wp_call (sstatus_wp (λ _, Z.land (Z.lor (Z.land (Z.land (sstatus (m_hart s1)) (Z.lnot SSTATUS_SIE)) (Z.lnot SSTATUS_SPP)) SSTATUS_SPIE) SSTATUS_BITS) p ps c3 m7 n s7 H7).
  intros [] s8 (H8 & E8 & _). wp_step. wp_step. rewrite (tf_get_eq _ _ _ _ _ _ _ _ H8 Hq). fold tf.
  assert (∀ o, TF_epc ≤ o → o ≠ TF_kernel_hartid → TF_kernel_hartid + 8 ≤ o ∨ o = TF_epc → ld64 m7 (tf + o) = ld64 m (tf + o)) as Hkeep.
  { intros o H1' H2' H3'. unfold m7, m6, m5, m4. unfold TF_epc, TF_kernel_hartid, TF_kernel_trap, TF_kernel_sp, TF_kernel_satp in *. rewrite !ld_st_ne by lia. done. }
  rewrite Hkeep by (unfold TF_epc, TF_kernel_hartid; lia).
  wp_call (csrw_wp p ps c3 m7 n s8 SEPC _ H8). intros [] s9 (c9 & Ec9 & H9 & E9). injection Ec9 as <-.
  destruct (return_bits (sstatus (m_hart s1))) as (B1 & B2 & B3). rewrite <- E8, <- E9 in B1, B2, B3.
  assert (∀ k v, 0 ≤ v < 2 ^ 64 → ld64 (st64 k (tf + TF_kernel_hartid) v) (tf + TF_kernel_hartid) = v) as Hst by (intros k v Hv; by apply (ld_st_eq 8)).
  pose proof (t_mem _ _ _ _ _ _ H9) as Em. split; rewrite ?Em, ?(t_csr _ _ _ _ _ _ H9); fold tf; try done.
  - apply Hkeep; unfold TF_epc, TF_kernel_hartid; lia.
  - cbn. rewrite (u64_small (ld64 _ _)) by apply ld64_range. done.
  - unfold m7, m6, m5, m4, TF_epc, TF_kernel_hartid, TF_kernel_trap, TF_kernel_sp, TF_kernel_satp. rewrite !(ld_st_ne 8 8 _ (tf + 0)) by lia. apply (ld_st_eq 8), Hr.
  - unfold m7, m6, m5, m4, TF_epc, TF_kernel_hartid, TF_kernel_trap, TF_kernel_sp, TF_kernel_satp. rewrite !(ld_st_ne 8 8 _ (tf + 8)) by lia. apply (ld_st_eq 8), u64_range.
  - unfold m7, m6, m5, m4, TF_epc, TF_kernel_hartid, TF_kernel_trap, TF_kernel_sp, TF_kernel_satp. rewrite !(ld_st_ne 8 8 _ (tf + 16)) by lia. by apply (ld_st_eq 8).
  - by apply Hst.
  - intros x Hx. unfold m7, m6, m5, m4, TF_epc, TF_kernel_hartid, TF_kernel_trap, TF_kernel_sp, TF_kernel_satp. rewrite !rd_st_out by lia. done.
  - apply H9.
Qed.

Lemma unknown_wp p q ps c m n s : trap p ps c m n s → (100 ≤ n)%nat → free_table ps → ps !! p = Some q → proc_prints q →
  (let num := i32 (ld64 m (p_trapframe (p_priv q) + TF_a7)) in num ≤ 0 ∨ syscalls y dev_read dev_write num = None) →
  wp (syscall y dev_read dev_write) (λ _ s', trap p ps c (st64 m (p_trapframe (p_priv q) + TF_a0) fail) (n - 100) s' ∧ tp (m_hart s') = tp (m_hart s)) s.
Proof.
  intros Ht Hn Hf Hq [Hpid Hname] Hnum. pose proof (lookup_lt_Some _ _ _ Hq) as Hlt. unfold syscall.
  wp_step. wp_call (myproc_wp p ps c m n s Ht Hf Hlt). intros p' s1 (-> & H1 & Hs1). wp_step. wp_step. rewrite (tf_get_eq _ _ _ _ _ _ _ _ H1 Hq).
  set (num := i32 _) in *. assert ((if 0 <? num then syscalls y dev_read dev_write num else None) = None) as ->.
  { destruct Hnum as [H|H]; [by rewrite (proj2 (Z.ltb_ge 0 num)) by lia|by destruct (0 <? num)]. }
  wp_step. wp_step. unfold name_of. rewrite (mprc_eq _ _ _ _ _ _ _ H1 Hq). pose proof (until_nul_len (p_name (p_priv q))) as Hun.
  wp_step. wp_call (mprintf_step _ _ (63 + length (until_nul (p_name (p_priv q)))) p ps c m n s1 H1); [apply fits_unknown| |lia|].
  { constructor; [unfold va_ok; lia|]. constructor; [done|]. constructor; [apply i32_va|done]. }
  intros [] s2 [H2 Hs2]. wp_call (tf_set_wp p ps c m _ s2 q TF_a0 fail H2 Hq). intros [] s3 [H3 E3]. split; [eapply trap_le; [exact H3|lia]|].
  rewrite E3. destruct Hs1 as [E1|E1], Hs2 as [E2|E2]; rewrite E2, ?E1; done.
Qed.

(** C37: a system call with a number the table does not have fails cleanly: usertrap
    returns to the process, which finds -1 in a0 and goes on after the ecall; its other
    registers, the rest of memory and the process table are untouched; the hart is set
    up for the return, in user mode with interrupts enabled by sret and traps going to
    the trampoline, and the trapframe for the next trap. *)
Theorem unknown_syscall_fails p q ps c m n s : let tf := p_trapframe (p_priv q) in
  trap p ps c m n s → (100 ≤ n)%nat → free_table ps → ps !! p = Some q → proc_prints q → regs_ok c →
  0 ≤ tp (m_hart s) < 2 ^ 64 → 0 ≤ y_usertrap y < 2 ^ 64 →
  has (sstatus (m_hart s)) SSTATUS_SPP = false → csr c SCAUSE = 8 → p_killed (p_pub q) = 0 →
  (let num := i32 (ld64 m (tf + TF_a7)) in num ≤ 0 ∨ syscalls y dev_read dev_write num = None) →
  wp (usertrap y dev_read dev_write) (λ satp s', satp = MAKE_SATP (p_pgtbl (p_priv q)) ∧ procs (y_p (m_y s')) = ps ∧
    ld64 (m_mem s') (tf + TF_a0) = u64 (-1) ∧ ld64 (m_mem s') (tf + TF_epc) = u64 (csr c SEPC + 4) ∧
    csr (m_csr s') SEPC = u64 (csr c SEPC + 4) ∧ csr (m_csr s') STVEC = u64 (TRAMPOLINE + y_uservec y) ∧
    has (sstatus (m_hart s')) SSTATUS_SPP = false ∧ has (sstatus (m_hart s')) SSTATUS_SPIE = true ∧ intr_get (m_hart s') = false ∧
    ld64 (m_mem s') (tf + TF_kernel_satp) = csr c SATP ∧ ld64 (m_mem s') (tf + TF_kernel_sp) = u64 (p_kstack (p_priv q) + PGSIZE) ∧
    ld64 (m_mem s') (tf + TF_kernel_trap) = y_usertrap y ∧ ld64 (m_mem s') (tf + TF_kernel_hartid) = tp (m_hart s) ∧
    ∀ x, ¬ (tf ≤ x < tf + 40) → ¬ (tf + TF_a0 ≤ x < tf + TF_a0 + 8) → rd (m_mem s') x = rd m x) s.
Proof.
  intros tf Ht Hn Hf Hq Hpp Hr Htp Hut Hspp H8 Hk Hnum. pose proof (lookup_lt_Some _ _ _ Hq) as Hlt. unfold usertrap.
  wp_step. eapply wp_of_Ok; [apply hart_get|]. rewrite Hspp.
  wp_step. wp_call (csrw_wp p ps c m n s STVEC (y_kernelvec y) Ht). intros [] s1 (c1 & Ec & H1 & E1).
  assert (regs_ok c1 ∧ csr c1 SCAUSE = 8 ∧ csr c1 SEPC = csr c SEPC ∧ csr c1 SATP = csr c SATP) as (Hr1 & Es & Ee & Ea).
  { injection Ec as <-. split_and!; [|done|done|done]. intros r. cbn. case_match; [apply u64_range|apply Hr]. }
  wp_step. wp_call (myproc_wp p ps c1 m n s1 H1 Hf Hlt). intros p' s2 (-> & H2 & Hs2).
  wp_step. eapply wp_of_Ok; [by apply csrr_run|]. rewrite (t_csr _ _ _ _ _ _ H2), Ee.
  wp_step. wp_call (tf_set_wp p ps c1 m n s2 q TF_epc _ H2 Hq). fold tf. intros [] s3 [H3 E3]. set (m3 := st64 m _ _) in *.
  wp_step. eapply wp_of_Ok; [by apply csrr_run|]. rewrite (t_csr _ _ _ _ _ _ H3), Es. cbn [Z.eqb Pos.eqb].
  wp_step. wp_step. wp_call (killed_wp p ps c1 m3 n s3 q H3 Hf Hq). intros k s4 (-> & H4 & Hs4). rewrite Hk. cbn [Z.eqb negb when]. wp_step. wp_step. wp_step.
  wp_step. rewrite (tf_get_eq _ _ _ _ _ _ _ _ H4 Hq). fold tf. assert (ld64 m3 (tf + TF_epc) = csr c SEPC) as -> by (apply (ld_st_eq 8), Hr).
  wp_step. wp_call (tf_set_wp p ps c1 m3 n s4 q TF_epc _ H4 Hq). fold tf. intros [] s5 [H5 E5]. set (m5 := st64 m3 _ _) in *.
  wp_step. unfold intr_on. wp_call (sstatus_wp (λ x, Z.lor x SSTATUS_SIE) p ps c1 m5 n s5 H5). intros [] s6 (H6 & _ & E6).
  wp_step. wp_call (unknown_wp p q ps c1 m5 n s6 H6 Hn Hf Hq Hpp).
  { fold tf. cbn zeta. unfold m5, m3. rewrite !ld_st_ne by (unfold TF_a7, TF_epc; lia). exact Hnum. }
  fold tf. intros [] s7 [H7 E7]. set (m7 := st64 m5 _ _) in *. wp_step. wp_step. wp_call (killed_wp p ps c1 m7 _ s7 q H7 Hf Hq). intros k s8 (-> & H8' & Hs8). rewrite Hk.
  cbn [Z.eqb negb when]. wp_step. wp_step. wp_step. wp_step. assert (tp (m_hart s8) = tp (m_hart s)) as Etp.
  { assert (∀ h h', hart_same h h' → tp h' = tp h) as Hsame by (by intros h h' [->| ->]). by rewrite (Hsame _ _ Hs8), E7, E6, E5, (Hsame _ _ Hs4), E3, (Hsame _ _ Hs2), E1. }
  wp_step. wp_call (prepare_return_wp p q ps c1 m7 _ s8 H8' Hf Hq Hr1); [by rewrite Etp|done|]. intros [] s9 [R1 R2 R3 R4 R5 R6 R7 R8 R9 R10 R11 R12]. fold tf in R1, R2, R4, R5, R6, R7, R11.
  assert (ld64 m7 (tf + TF_epc) = u64 (csr c SEPC + 4)) as E9.
  { unfold m7, m5. rewrite ld_st_ne by (unfold TF_a0, TF_epc; lia). apply (ld_st_eq 8), u64_range. }
  wp_step. assert (mprc p s9 = q) as -> by (unfold mprc, prc; by rewrite R12, (list_lookup_total_correct _ _ _ Hq)).
  rewrite R1, R2, E9, R4, R7, Ea, Etp. split_and!; try done.
  - transitivity (ld64 m7 (tf + TF_a0)); [|by apply (ld_st_eq 8)]. apply ld_ext. intros x Hx. apply R11. unfold TF_a0 in Hx. lia.
  - intros x Hx1 Hx2. rewrite R11 by done. unfold m7, m5, m3. unfold TF_epc, TF_a0 in *. rewrite !rd_st_out by lia. done.
Qed.
End traps.

(** ** Witnesses: process 3 of the demo table traps *)
Definition demo_fst : Fs.fst ram_disk := co_f (demo_con (Spin 0 "pr" None)).
Definition demo_csr (cause : Z) : csrs := Csrs (λ r, if r =? SCAUSE then cause else if r =? SEPC then 0x1000 else 0) true 1 0.
Definition demo_mach (cause : Z) (m : mem) : mach ram_disk :=
  Mach (Sys (Fil (Pip (over on_mem m demo_fst) ∅) (Spin 0 "ftable" None) []) (Spin 0 "nextpid" None) 10 (Spin 0 "wait_lock" None) (Some 1%nat) (Spin 0 "time" None) 0)
    (Spin 0 "cons" None) (Spin 0 "pr" None) (Mmio (replicate 500 32) []) 0 0 [] (demo_csr cause) (Mmio [] [])
    (Vdisk (0, 0, 0) [] 0 [] 0 [] [] 0 [] [] (Spin 0 "virtio_disk" None)) [] (Mmio [] []) 0x87fff000 1 0.
Definition demo_syms : symbols := Symbols 0x80030000 0x80008000 0x80007000 0x80002000 0x80001000 0x80003000 0 0x9c (λ _, 0) 0 0 0 0 0 0.
Definition no_dev : Z → option (Z → Z → Z → M (fil ram_disk) Z) := λ _, None.

Lemma demo_trap cause m : trap 3 demo_procs (demo_csr cause) m 500 (demo_mach cause m).
Proof.
  split; try done; [apply demo_hart_ok|]. unfold talks. split_and!; try done. split; [by vm_compute|]. by apply Forall_replicate.
Qed.
Lemma demo_table : free_table demo_procs.
Proof. destruct demo_pst_ok as [_ H1 H2]. by split. Qed.
Lemma demo_q : demo_procs !! 3%nat = Some demo_run.
Proof. reflexivity. Qed.
Lemma demo_prints : proc_prints demo_run.
Proof. split; [cbn; lia|vm_compute; lia]. Qed.
Lemma demo_regs cause : 0 ≤ cause < 2 ^ 64 → regs_ok (demo_csr cause).
Proof. intros H r. cbn. repeat case_match; lia. Qed.

(** A store to a page that was only promised. *)
Lemma user_exception_kills_witness :
  ends (usertrap demo_syms no_dev no_dev) (λ f s', ∃ s1, procs (y_p (m_y s1)) = <[3%nat := set_killed demo_run]> demo_procs ∧
    zoom on_y (kexit 0x80030000 (-1)) s1 = Halt f s') (demo_mach 15 ∅).
Proof.
  apply (user_exception_kills demo_syms no_dev no_dev 3 demo_run demo_procs (demo_csr 15) ∅ 500); [apply demo_trap|lia|apply demo_table|apply demo_q|apply demo_prints|by apply demo_regs|done|done|done|done].
Defined.

(** System call 13, the number SYS_sleep, has no handler. *)
Lemma unknown_syscall_fails_witness :
  wp (usertrap demo_syms no_dev no_dev) (λ satp s', ld64 (m_mem s') (p_trapframe (p_priv demo_run) + TF_a0) = u64 (-1) ∧
    csr (m_csr s') SEPC = 0x1004) (demo_mach 8 (st64 ∅ (p_trapframe (p_priv demo_run) + TF_a7) 13)).
Proof.
  eapply wp_mono; [apply (unknown_syscall_fails demo_syms no_dev no_dev 3 demo_run demo_procs (demo_csr 8) (st64 ∅ (p_trapframe (p_priv demo_run) + TF_a7) 13) 500); [apply demo_trap|lia|apply demo_table|apply demo_q|apply demo_prints|by apply demo_regs|done|done|done|done|done|by right]|].
  intros r s' (_ & _ & H1 & _ & H2 & _). by split.
Defined.
