(* ===== verification/Boot.v ===== *)
(** * Starting up: kernel/main.c, and what vm.c and proc.c do on the whole machine

    kvminit and kvminithart (vm.c), forkret and procdump (proc.c), main (main.c), on the
    machine of Trap.v. The switch to user mode at the end of forkret is its result, the
    value of satp that userret gets. *)
From S2P Require Import Prelude Memory KString Riscv Spinlock Mmio Csr Kalloc Vm Sched Sleeplock Disk Bio Log Fs Virtio Console Dir Pipe File Proc Exec Sysfile Trap.

Section boot.
Context {D : Type} `{!BlockDev D}.
Context (y : symbols) (dev_read dev_write : Z → option (Z → Z → Z → M (fil D) Z)).
Implicit Types s : mach D.

(** ** vm.c *)
Definition kvminit : M (mach D) unit :=
  do pt <- zoom on_y (zoom on_yk (kvmmake (y_etext y) (y_trampoline y)));
  set_kpt pt.

Definition kvminithart : M (mach D) unit :=
  zoom on_csr sfence_vma ;;
  do pt <- gets m_kpt;
  zoom on_csr (w_satp (MAKE_SATP pt)) ;;
  zoom on_csr sfence_vma.

(** ** proc.c *)
Definition forkret : M (mach D) Z :=
  do p <- zoom on_y ymyproc;
  zoom on_y (zoom (on_proc p) release) ;;
  do first <- gets m_first;
  when (negb (first =? 0))
    (zoom on_y (zoom on_fs (fsinit ROOTDEV)) ;;
     set_first 0 ;;
     do r <- zoom on_y (kexec (y_end y) (y_bufs y) (y_trampoline y) (y_fr y) (y_init y) [y_init y]);
     tf_set p TF_a0 (u64 r) ;;
     do a0 <- gets (tf_get p TF_a0);
     when (a0 =? u64 (-1)) (panic "exec")) ;;
  prepare_return y ;;
  gets (λ s, MAKE_SATP (p_pgtbl (p_priv (mprc p s)))).

Definition state_name (st : procstate) : list Z :=
  match st with
  | UNUSED => str "unused"
  | USED => str "used"
  | SLEEPING => str "sleep "
  | RUNNABLE => str "runble"
  | RUNNING => str "run   "
  | ZOMBIE => str "zombie"
  end.

(** The states are the six of the enumeration, so that "???" is never printed. *)
Definition procdump : M (mach D) unit :=
  mprintf lf [] ;;
  each slots (λ p,
    do s <- get;
    if bool_decide (p_state (p_pub (mprc p s)) = UNUSED) then ret tt
    else
      mprintf (str "%d %s %s") [VInt (p_pid (p_pub (mprc p s))); VStr (Some (state_name (p_state (p_pub (mprc p s))))); name_of p s] ;;
      mprintf lf []).

(** ** main.c

    [run] and [n] are those of the scheduler. A hart that waits for [started] and does
    not see it set spins. *)
Definition main (run : nat → M (sys D) unit) (n : nat) : M (mach D) unit :=
  do id <- zoom on_hart cpuid;
  (if id =? 0 then
     zoom on_con consoleinit ;;
     zoom on_con printfinit ;;
     mprintf lf [] ;;
     mprintf_color GREEN (str "===== Booting xv6-like Kernel =====" ++ lf) ;;
     zoom on_y (zoom on_yk (kinit (y_end y))) ;;
     kvminit ;;
     kvminithart ;;
     zoom on_y procinit ;;
     trapinit ;;
     trapinithart y ;;
     zoom on_plic (zoom on_mm plicinit) ;;
     zoom on_plic plicinithart ;;
     zoom on_y (zoom on_fs (zoom on_l (zoom on_b binit))) ;;
     zoom on_y (zoom on_fs iinit) ;;
     zoom on_y (zoom on_fl fileinit) ;;
     zoom on_vio virtio_disk_init ;;
     zoom on_y (userinit (y_end y) (y_bufs y) (y_trampoline y) (y_forkret y) (L_de (y_fr y)) (L_iname (y_fr y)) (y_root y)) ;;
     set_started 1 ;;
     mprintf_color GREEN (lf ++ str "All initializations complete. Starting scheduler..." ++ lf ++ lf)
   else
     do st <- gets m_started;
     if st =? 0 then halt Spun
     else
       do id <- zoom on_hart cpuid;
       mprintf (str "hart %d starting" ++ lf) [VInt id] ;;
       kvminithart ;;
       trapinithart y ;;
       zoom on_plic plicinithart) ;;
  zoom on_y (scheduler run n).
End boot.
