(* ===== verification/Ulib.v ===== *)
(** * user/ulib.c: the C library of user programs

    The string and memory routines work on the byte memory of the process; the
    routines that make system calls are written against the class [UserSys], one
    operation per stub of user/usys.S that the user code calls. [char] is unsigned
    on RISC-V; the counters that are [int] in the code are mathematical integers,
    but the value atoi computes wraps at 32 bits. The functions are in the module
    [User], for most have a namesake in the kernel. *)
From S2P Require Import Prelude Memory KString Riscv.

(** fcntl.h *)
Definition UO_RDONLY : Z := 0.
(** vm.h *)
Definition USBRK_EAGER : Z := 1.
Definition USBRK_LAZY : Z := 2.

(** ** System calls

    [u_mem] is the memory of the process. *)
Class UserSys (S : Type) : Type := {
  u_mem : lens S mem;
  sc_open : Z → Z → M S Z;        (* path, omode *)
  sc_read : Z → Z → Z → M S Z;    (* fd, buf, n *)
  sc_write : Z → Z → Z → M S Z;
  sc_fstat : Z → Z → M S Z;
  sc_close : Z → M S Z;
  sc_sbrk : Z → Z → M S Z         (* n, SBRK_EAGER or SBRK_LAZY *)
}.

Module User.

(** Each iteration copies one character and stops after the NUL. *)
Definition strcpy (fuel : nat) (s t : Z) : M mem Z :=
  loop fuel (λ p : Z * Z,
    do m <- get;
    let c := rd m p.2 in
    modify (λ m, wr m p.1 c) ;;
    ret (if c =? 0 then inr tt else inl (p.1 + 1, p.2 + 1))) (s, t) ;;
  ret s.

Fixpoint strcmp_loop (fuel : nat) (m : mem) (p q : Z) : option Z :=
  match fuel with
  | O => None
  | S n => if negb (rd m p =? 0) && (rd m p =? rd m q) then strcmp_loop n m (p + 1) (q + 1)
           else Some (rd m p - rd m q)
  end.
Definition strcmp (fuel : nat) (p q : Z) : M mem Z := λ m,
  match strcmp_loop fuel m p q with Some r => Ok r m | None => Halt NoFuel m end.

Definition strlen (fuel : nat) (s : Z) : M mem Z :=
  loop fuel (λ n, gets (λ m, if rd m (s + n) =? 0 then inr n else inl (n + 1))) 0.

Definition memset (dst c n : Z) : M mem Z :=
  each (seqZ 0 n) (λ i, modify (λ m, wr m (dst + i) c)) ;; ret dst.

(** The address of the character, 0 when it does not occur. *)
Definition strchr (fuel : nat) (s c : Z) : M mem Z :=
  loop fuel (λ s, gets (λ m, if rd m s =? 0 then inr 0 else if rd m s =? c then inr s else inl (s + 1))) s.

Definition chr_0 : Z := 48.
Definition chr_9 : Z := 57.
Definition atoi (fuel : nat) (s : Z) : M mem Z :=
  loop fuel (λ p : Z * Z, gets (λ m,
    let c := rd m p.1 in
    if (chr_0 <=? c) && (c <=? chr_9) then inl (p.1 + 1, i32 (p.2 * 10 + c - chr_0)) else inr p.2)) (s, 0).

Definition memmove (vdst vsrc n : Z) : M mem Z :=
  (if vdst <? vsrc then modify (copy_fwd (Z.to_nat n) vdst vsrc)
   else modify (copy_bwd (Z.to_nat n) (vdst + n) (vsrc + n))) ;;
  ret vdst.

Definition memcmp (s1 s2 n : Z) : M mem Z := gets (λ m, memcmp_loop (Z.to_nat n) m s1 s2).
Definition memcpy (dst src n : Z) : M mem Z := memmove dst src n.

Section calls.
Context {S : Type} `{!UserSys S}.

Definition sbrk (n : Z) : M S Z := sc_sbrk n USBRK_EAGER.
Definition sbrklazy (n : Z) : M S Z := sc_sbrk n USBRK_LAZY.

Definition stat (n st : Z) : M S Z :=
  do fd <- sc_open n UO_RDONLY;
  if fd <? 0 then ret (-1)
  else
    do r <- sc_fstat fd st;
    sc_close fd ;;
    ret r.

(** start: [main] is the program; exit does not return. *)
Definition start (main : M S Z) (sc_exit : Z → M S Empty_set) : M S Empty_set :=
  do r <- main; sc_exit r.

(** gets: [loc] is the address of the local variable c. *)
Definition chr_lf : Z := 10.
Definition chr_cr : Z := 13.
Definition gets_loop (loc buf max : Z) : M S Z :=
  loop (Z.to_nat max + 1) (λ i,
    if negb (i + 1 <? max) then ret (inr i)
    else
      do cc <- sc_read 0 loc 1;
      if cc <? 1 then ret (inr i)
      else
        do s <- get;
        let c := rd (view u_mem s) loc in
        zoom u_mem (modify (λ m, wr m (buf + i) c)) ;;
        ret (if (c =? chr_lf) || (c =? chr_cr) then inr (i + 1) else inl (i + 1))) 0.
Definition gets (loc buf max : Z) : M S Z :=
  do i <- gets_loop loc buf max;
  zoom u_mem (modify (λ m, wr m (buf + i) 0)) ;;
  ret buf.
End calls.
End User.

(** ** Strings *)
Lemma strcpy_loop_run fuel s t m l :
  cstr m t l → s + Z.of_nat (length l) < t ∨ t + Z.of_nat (length l) < s → (length l < fuel)%nat →
  ∃ m', User.strcpy fuel s t m = Ok s m' ∧ cstr m' s l ∧ ∀ a, ¬ (s ≤ a ≤ s + Z.of_nat (length l)) → rd m' a = rd m a.
Proof.
  intros Hl Hd Hf. unfold User.strcpy.
  cut (∃ m', loop fuel (λ p : Z * Z,
    do m <- get; let c := rd m p.2 in modify (λ m, wr m p.1 c) ;;
    ret (if c =? 0 then inr tt else inl (p.1 + 1, p.2 + 1))) (s, t) m = Ok tt m' ∧ cstr m' s l ∧
    ∀ a, ¬ (s ≤ a ≤ s + Z.of_nat (length l)) → rd m' a = rd m a).
  { intros (m' & E & H). exists m'. split; [|done]. by rewrite (bind_Ok _ _ _ _ _ E). }
  revert s t m l Hl Hd Hf. induction fuel as [|n IH]; intros s t m l Hl Hd Hf; [lia|]. cbn [loop].
  destruct l as [|b l].
  - apply cstr_nil in Hl. exists (wr m s 0). split_and!.
    + unfold bind, get, modify, ret. cbn. by rewrite Hl.
    + apply cstr_nil. by rewrite rd_wr_eq.
    + intros a Ha. cbn in Ha. by rewrite rd_wr_ne by lia.
  - apply cstr_cons in Hl as (Hb & Hb0 & Hl). cbn [length] in Hd, Hf.
    destruct (IH (s + 1) (t + 1) (wr m s b) l) as (m' & E & Hc & Ho).
    { eapply cstr_ext; [|exact Hl]. intros x Hx. by rewrite rd_wr_ne by lia. } { lia. } { lia. }
    exists m'. split_and!.
    + unfold bind, get, modify, ret in *. cbn in *. rewrite Hb, (proj2 (Z.eqb_neq b 0)) by done. exact E.
    + apply cstr_cons. split_and!; [|done|done]. rewrite Ho, rd_wr_eq, u8_small by (pose proof (rd_range m t); lia). done.
    + intros a Ha. cbn [length] in Ha. rewrite Ho by lia. by rewrite rd_wr_ne by lia.
Qed.

Lemma strcmp_loop_run fuel m p q l1 l2 :
  cstr m p l1 → cstr m q l2 → (length l1 < fuel)%nat →
  ∃ r, User.strcmp_loop fuel m p q = Some r ∧ (r = 0 ↔ l1 = l2).
Proof.
  revert p q l1 l2. induction fuel as [|n IH]; intros p q l1 l2 H1 H2 Hf; [lia|]. cbn [User.strcmp_loop].
  destruct l1 as [|b1 l1], l2 as [|b2 l2];
    repeat match goal with
    | H : cstr _ _ [] |- _ => apply cstr_nil in H
    | H : cstr _ _ (_ :: _) |- _ => apply cstr_cons in H as (? & ? & ?)
    end.
  - rewrite H1, H2. cbn. by exists 0.
  - rewrite H1. cbn. eexists. split; [done|]. split; [lia|done].
  - rewrite (proj2 (Z.eqb_neq (rd m p) 0)) by lia. rewrite H2. destruct (Z.eqb_spec (rd m p) 0); [lia|]. cbn.
    eexists. split; [done|]. split; [lia|done].
  - rewrite (proj2 (Z.eqb_neq (rd m p) 0)) by lia. cbn [negb andb].
    destruct (Z.eqb_spec (rd m p) (rd m q)).
    + destruct (IH (p + 1) (q + 1) l1 l2) as (r & E & Hr); [done|done|cbn in Hf; lia|]. exists r. split; [done|].
      rewrite Hr. replace b2 with b1 by congruence. split; [by intros ->|by intros [=]].
    + eexists. split; [done|]. split; [lia|]. intros [=]. congruence.
Qed.

Lemma strlen_run fuel s m l : cstr m s l → (length l < fuel)%nat → User.strlen fuel s m = Ok (Z.of_nat (length l)) m.
Proof. intros Hl Hf. apply (strlen_loop_run fuel s 0 m l); [by rewrite Z.add_0_r|done]. Qed.

(** A string copied by strcpy is found equal to the original by strcmp and has its
    length, whatever its length: all three loops end at its NUL. strcmp returns 0 for
    no other string. Nothing outside the copy changes. *)
Theorem strcpy_strcmp fuel s t q m l l' :
  cstr m t l → cstr m q l' → (length l < fuel)%nat →
  s + Z.of_nat (length l) < t ∨ t + Z.of_nat (length l) < s →
  s + Z.of_nat (length l) < q ∨ q + Z.of_nat (length l') < s →
  ∃ m' r, User.strcpy fuel s t m = Ok s m' ∧ cstr m' s l ∧
    User.strcmp fuel s t m' = Ok 0 m' ∧ User.strlen fuel s m' = Ok (Z.of_nat (length l)) m' ∧
    User.strcmp fuel s q m' = Ok r m' ∧ (r = 0 ↔ l = l') ∧
    ∀ a, ¬ (s ≤ a ≤ s + Z.of_nat (length l)) → rd m' a = rd m a.
Proof.
  intros Hl Hq Hf Hd Hd'. destruct (strcpy_loop_run fuel s t m l Hl Hd Hf) as (m' & E & Hc & Ho).
  assert (cstr m' t l) as Ht by (eapply cstr_ext; [|exact Hl]; intros x Hx; apply Ho; lia).
  assert (cstr m' q l') as Hq' by (eapply cstr_ext; [|exact Hq]; intros x Hx; apply Ho; lia).
  destruct (strcmp_loop_run fuel m' s t l l Hc Ht Hf) as (r0 & E0 & Hr0).
  destruct (strcmp_loop_run fuel m' s q l l' Hc Hq' Hf) as (r & E1 & Hr).
  rewrite (proj2 Hr0 eq_refl) in E0. exists m', r. split_and!; try done.
  - unfold User.strcmp. by rewrite E0.
  - by apply strlen_run.
  - unfold User.strcmp. by rewrite E1.
Qed.

Lemma strcpy_strcmp_witness :
  ∃ m' r, User.strcpy 10 200 100 (wrs (wrs ∅ 100 [97; 98; 0]) 110 [97; 99; 0]) = Ok 200 m' ∧ cstr m' 200 [97; 98] ∧
    User.strcmp 10 200 100 m' = Ok 0 m' ∧ User.strlen 10 200 m' = Ok 2 m' ∧
    User.strcmp 10 200 110 m' = Ok r m' ∧ r ≠ 0.
Proof.
  destruct (strcpy_strcmp 10 200 100 110 (wrs (wrs ∅ 100 [97; 98; 0]) 110 [97; 99; 0]) [97; 98] [97; 99])
    as (m' & r & H1 & H2 & H3 & H4 & H5 & H6 & _).
  - split; [repeat constructor; lia|reflexivity].
  - split; [repeat constructor; lia|reflexivity].
  - cbn. lia.
  - cbn. lia.
  - cbn. lia.
  - exists m', r. split_and!; try done. intros Hr. by apply H6 in Hr.
Defined.

(** The user library's memmove, which chooses the direction by comparing the two
    addresses only, leaves the same memory as the kernel's, which also tests for an
    overlap: from every memory and for every placement of the two regions. So does
    memcpy. *)
Theorem memmove_agrees dst src n m :
  0 ≤ n → ∃ m1 m2, User.memmove dst src n m = Ok dst m1 ∧ memmove dst src n m = Ok dst m2 ∧ m1 ≐ m2 ∧
    User.memcpy dst src n m = Ok dst m1.
Proof.
  intros Hn. destruct (wp_Ok _ _ _ (memmove_rd dst src n m Hn)) as (r & m2 & E2 & -> & H2).
  unfold User.memcpy, User.memmove. destruct (Z.ltb_spec dst src); eexists _, m2; (split; [done|]; split; [exact E2|]; split; [|done]); intros a.
  - rewrite copy_fwd_rd, H2 by lia. repeat case_decide; done || lia.
  - rewrite copy_bwd_rd, H2 by lia. repeat case_decide; try lia; f_equal; lia.
Qed.

Lemma memmove_agrees_witness :
  ∃ m1 m2, User.memmove 102 100 4 (wrs ∅ 100 [1; 2; 3; 4; 5; 6]) = Ok 102 m1 ∧
    memmove 102 100 4 (wrs ∅ 100 [1; 2; 3; 4; 5; 6]) = Ok 102 m2 ∧ m1 ≐ m2.
Proof. destruct (memmove_agrees 102 100 4 (wrs ∅ 100 [1; 2; 3; 4; 5; 6])) as (m1 & m2 & ? & ? & ? & _); [lia|eauto]. Defined.

(** ** Lines of input *)
(** What a read of one byte of standard input does: the next byte of the input goes
    to the buffer, or 0 is returned at the end of the input. *)
Class ReadLaw (S : Type) `{!UserSys S} : Type := {
  stdin : S → list Z;
  stdin_set s m : stdin (over u_mem m s) = stdin s;
  u_mem_set s m : view u_mem (over u_mem m s) = m;
  read_eof loc s : stdin s = [] → ∃ s', sc_read 0 loc 1 s = Ok 0 s' ∧ view u_mem s' = view u_mem s ∧ stdin s' = [];
  read_byte loc s c l : stdin s = c :: l →
    ∃ s', sc_read 0 loc 1 s = Ok 1 s' ∧ view u_mem s' = wr (view u_mem s) loc c ∧ stdin s' = l
}.

(** The first line of [l], its end-of-line included, cut after [n] bytes. *)
Fixpoint line (n : nat) (l : list Z) : list Z :=
  match n, l with
  | S n, c :: l => c :: (if (u8 c =? User.chr_lf) || (u8 c =? User.chr_cr) then [] else line n l)
  | _, _ => []
  end.

Lemma line_length n l : (length (line n l) ≤ n)%nat.
Proof. revert l. induction n as [|n IH]; intros [|c l]; cbn; try lia. case_match; cbn; [lia|]. specialize (IH l). lia. Qed.

Section gets.
Context {S : Type} `{!UserSys S, !ReadLaw S}.
Implicit Types s : S.

(** [i] bytes of the line have been stored. *)
Record got s0 loc buf (k : list Z) s : Prop := {
  got_in : stdin s0 = k ++ stdin s;
  got_buf : ∀ j c, k !! j = Some c → rd (view u_mem s) (buf + Z.of_nat j) = u8 c;
  got_out : ∀ a, a ≠ loc → ¬ (buf ≤ a < buf + Z.of_nat (length k)) → rd (view u_mem s) a = rd (view u_mem s0) a
}.

Lemma got_step s0 loc buf k s c l s1 :
  got s0 loc buf k s → stdin s = c :: l → loc ≠ buf + Z.of_nat (length k) →
  ¬ (buf ≤ loc < buf + Z.of_nat (length k)) →
  view u_mem s1 = wr (view u_mem s) loc c → stdin s1 = l →
  got s0 loc buf (k ++ [c]) (over u_mem (wr (view u_mem s1) (buf + Z.of_nat (length k)) (rd (view u_mem s1) loc)) s1).
Proof.
  intros [Hi Hb Ho] Hc Hl1 Hl2 Hm Hs. split.
  - by rewrite stdin_set, Hs, Hi, Hc, <- app_assoc.
  - intros j d Hj. rewrite u_mem_set, Hm. destruct (decide (j = length k)) as [->|Hne].
    + rewrite list_lookup_middle in Hj by done. injection Hj as ->. by rewrite !rd_wr_eq, u8_u8.
    + assert (j < length k)%nat as Hlt by (apply lookup_lt_Some in Hj; rewrite length_app in Hj; cbn in Hj; lia).
      rewrite lookup_app_l in Hj by done. rewrite !rd_wr_ne by lia. by apply Hb.
  - intros a Ha Hr. rewrite length_app in Hr. cbn in Hr. rewrite u_mem_set, Hm, !rd_wr_ne by lia. apply Ho; [done|lia].
Qed.

Lemma gets_loop_run loc buf max s : 0 < max → ¬ (buf ≤ loc < buf + max) →
  wp (User.gets_loop loc buf max) (λ i s', i = Z.of_nat (length (line (Z.to_nat (max - 1)) (stdin s))) ∧
    got s loc buf (line (Z.to_nat (max - 1)) (stdin s)) s') s.
Proof.
  intros Hmax Hloc. unfold User.gets_loop. set (N := Z.to_nat (max - 1)).
  apply (wp_loop (λ i s', ∃ k, i = Z.of_nat (length k) ∧ (length k ≤ N)%nat ∧ got s loc buf k s' ∧
     line N (stdin s) = k ++ line (N - length k) (stdin s')) (λ i _, Z.to_nat (max - i))).
  - intros i s' (k & -> & Hk & Hg & Hline). destruct (Z.ltb_spec (Z.of_nat (length k) + 1) max) as [Hlt|Hge]; cbn [negb].
    2: { wp_step. assert (N - length k = 0)%nat as E by lia. rewrite E in Hline. cbn in Hline.
         rewrite app_nil_r in Hline. by rewrite Hline. }
    wp_step. destruct (stdin s') as [|c l] eqn:Ein.
    + destruct (read_eof loc s' Ein) as (s1 & E & Hm & Hs). eapply wp_of_Ok; [exact E|]. cbn [Z.ltb Z.compare]. wp_step.
      assert (line (N - length k) [] = []) as El by (by destruct (N - length k)%nat). rewrite El, app_nil_r in Hline. rewrite Hline.
      split; [done|]. destruct Hg as [Hi Hb Ho]. split; [by rewrite Hs, Hi, Ein|by rewrite Hm|by rewrite Hm].
    + destruct (read_byte loc s' c l Ein) as (s1 & E & Hm & Hs). eapply wp_of_Ok; [exact E|]. cbn [Z.ltb Z.compare Pos.compare Pos.compare_cont].
      wp_step. wp_step. wp_step. wp_step. wp_step. wp_step.
      pose proof (got_step s loc buf k s' c l s1 Hg Ein ltac:(lia) ltac:(lia) Hm Hs) as Hg'.
      assert (rd (view u_mem s1) loc = u8 c) as Ec by (by rewrite Hm, rd_wr_eq).
      assert (N - length k = Datatypes.S (N - length (k ++ [c])))%nat as EN by (rewrite length_app; cbn; lia).
      rewrite EN in Hline. cbn [line] in Hline. rewrite Ec in *. destruct (_ || _).
      * rewrite Hline. split; [rewrite length_app; cbn; lia|done].
      * split; [|lia]. exists (k ++ [c]). rewrite length_app in *. cbn [length] in *.
        split_and!; [lia|lia|done|]. by rewrite stdin_set, Hs, <- app_assoc.
  - exists []. cbn. rewrite Nat.sub_0_r. split_and!; [done|lia| |done]. split; [done|done|done].
  - lia.
Qed.

(** Gets stores the next line of the input, its end-of-line included and cut to
    [max - 1] bytes, and terminates it with a NUL; it consumes exactly the bytes it
    stores, writes only the first [max] bytes of the buffer (besides its local
    variable) and stops at the end of the input. *)
Theorem gets_line loc buf max s : 0 < max → ¬ (buf ≤ loc < buf + max) →
  let k := line (Z.to_nat (max - 1)) (stdin s) in
  wp (User.gets loc buf max) (λ r s', r = buf ∧ stdin s = k ++ stdin s' ∧
    (∀ j c, (k ++ [0]) !! j = Some c → rd (view u_mem s') (buf + Z.of_nat j) = u8 c) ∧
    ∀ a, a ≠ loc → ¬ (buf ≤ a < buf + max) → rd (view u_mem s') a = rd (view u_mem s) a) s.
Proof.
  intros Hmax Hloc k. unfold User.gets. wp_step. wp_call (gets_loop_run loc buf max s Hmax Hloc).
  fold k. intros i s' (-> & [Hi Hb Ho]). pose proof (line_length (Z.to_nat (max - 1)) (stdin s)) as Hk. fold k in Hk.
  wp_step. wp_step. wp_step. wp_step. split_and!; [done|by rewrite stdin_set| |].
  - intros j c Hj. rewrite u_mem_set. destruct (decide (j = length k)) as [->|Hne].
    + rewrite list_lookup_middle in Hj by done. injection Hj as <-. by rewrite rd_wr_eq.
    + assert (j < length k)%nat as Hlt by (apply lookup_lt_Some in Hj; rewrite length_app in Hj; cbn in Hj; lia).
      rewrite lookup_app_l in Hj by done. rewrite rd_wr_ne by lia. by apply Hb.
  - intros a Ha Hr. rewrite u_mem_set, rd_wr_ne by lia. apply Ho; [done|lia].
Qed.
End gets.

(** A process whose standard input is a list of bytes. *)
Definition demo_read (loc : Z) : M (mem * list Z) Z := λ s,
  match s.2 with [] => Ok 0 s | c :: l => Ok 1 (wr s.1 loc c, l) end.
#[export] Instance demo_sys : UserSys (mem * list Z) := {
  u_mem := Lens (λ s, s.1) (λ m s, (m, s.2));
  sc_open _ _ := ret (-1);
  sc_read fd loc n := demo_read loc;
  sc_write _ _ n := ret n;
  sc_fstat _ _ := ret (-1);
  sc_close _ := ret (-1);
  sc_sbrk _ _ := ret (2 ^ 64 - 1)
}.
#[export] Instance demo_law : ReadLaw (mem * list Z).
Proof.
  refine {| stdin := snd |}; [done|done| |].
  - intros loc [m l] E. cbn in E. subst. eexists. by split_and!.
  - intros loc [m l'] c l E. cbn in E. subst. eexists. by split_and!.
Defined.

Lemma gets_line_witness :
  wp (User.gets 50 100 8) (λ r s', r = 100 ∧ s'.2 = [99] ∧ rd s'.1 102 = 10 ∧ rd s'.1 103 = 0) (∅ : mem, [97; 98; 10; 99]).
Proof.
  eapply wp_mono; [apply (gets_line (S := mem * list Z) 50 100 8 (∅, [97; 98; 10; 99])); lia|].
  intros r s' (-> & Hs & Hb & _). split_and!; [done| | |].
  - by injection Hs as <-.
  - apply (Hb 2%nat 10). reflexivity.
  - apply (Hb 3%nat 0). reflexivity.
Defined.
