(* ===== verification/Uprintf.v ===== *)
(** * user/printf.c: formatted output of user programs

    [putc] writes the byte of its parameter, which is at [loc] on the stack, with one
    system call. A format is the list of its bytes and the argument list a list of
    [va], as for the kernel's printf; reading an argument of another type is [Wild]. The
    functions are in the module [UserIO]. *)
From S2P Require Import Prelude Memory KString Riscv Spinlock Mmio Kalloc Vm Sched Sleeplock Disk Bio Log Fs Console ConsoleProps Ulib.

(** [digits[d]] *)
Definition udigit (d : Z) : Z := if d <? 10 then 48 + d else 55 + d.
(** A 64-bit pattern as a [long long]. *)
Definition i64 (x : Z) : Z := let y := u64 x in if y <? 2 ^ 63 then y else y - 2 ^ 64.

Module UserIO.
Section printf.
Context {S : Type} `{!UserSys S}.
Context (loc : Z).

Definition putc (fd c : Z) : M S unit :=
  zoom u_mem (modify (λ m, wr m loc c)) ;;
  sc_write fd loc 1 ;;
  ret tt.

(** The digits in buf, least significant first. *)
Fixpoint udigits (fuel : nat) (x base : Z) : list Z :=
  match fuel with
  | O => []
  | Datatypes.S n => udigit (x `mod` base) :: (if x `div` base =? 0 then [] else udigits n (x `div` base) base)
  end.

(** [char buf[20]] also holds the sign. *)
Definition printint (fd xx base sgn : Z) : M S unit :=
  let neg := negb (sgn =? 0) && (xx <? 0) in
  let buf := udigits 64 (u64 (if neg then - xx else xx)) base ++ (if neg then [chr_minus] else []) in
  if 20 <? Z.of_nat (length buf) then halt Wild
  else each (reverse buf) (putc fd).

Definition printptr (fd x : Z) : M S unit :=
  putc fd 48 ;;
  putc fd 120 ;;
  each (seqZ 0 16) (λ i, putc fd (udigit (Z.shiftr (u64 (Z.shiftl x (4 * i))) 60))).

Definition arg_int (ap : list va) (k : Z → M S unit) : M S (list va) :=
  match ap with VInt v :: ap' => k v ;; ret ap' | _ => halt Wild end.
Definition arg_u64 (ap : list va) (k : Z → M S unit) : M S (list va) :=
  match ap with VPtr v :: ap' => k v ;; ret ap' | _ => halt Wild end.

Definition chr_d : Z := 100.
Definition chr_l : Z := 108.
Definition chr_u : Z := 117.
Definition chr_x : Z := 120.

(** The conversion [c0 c1 c2]: how many more characters it takes, and the rest of
    the arguments. *)
Definition uconvert (fd c0 c1 c2 : Z) (ap : list va) : M S (nat * list va) :=
  let took n (c : M S (list va)) := do ap' <- c; ret (n, ap') in
  if c0 =? chr_d then took 0%nat (arg_int ap (λ v, printint fd (i32 v) 10 1))
  else if (c0 =? chr_l) && (c1 =? chr_d) then took 1%nat (arg_u64 ap (λ v, printint fd (i64 v) 10 1))
  else if (c0 =? chr_l) && (c1 =? chr_l) && (c2 =? chr_d) then took 2%nat (arg_u64 ap (λ v, printint fd (i64 v) 10 1))
  else if c0 =? chr_u then took 0%nat (arg_int ap (λ v, printint fd (u32 v) 10 0))
  else if (c0 =? chr_l) && (c1 =? chr_u) then took 1%nat (arg_u64 ap (λ v, printint fd (i64 v) 10 0))
  else if (c0 =? chr_l) && (c1 =? chr_l) && (c2 =? chr_u) then took 2%nat (arg_u64 ap (λ v, printint fd (i64 v) 10 0))
  else if c0 =? chr_x then took 0%nat (arg_int ap (λ v, printint fd (u32 v) 16 0))
  else if (c0 =? chr_l) && (c1 =? chr_x) then took 1%nat (arg_u64 ap (λ v, printint fd (i64 v) 16 0))
  else if (c0 =? chr_l) && (c1 =? chr_l) && (c2 =? chr_x) then took 2%nat (arg_u64 ap (λ v, printint fd (i64 v) 16 0))
  else if c0 =? 112 then took 0%nat (arg_u64 ap (λ v, printptr fd (u64 v)))
  else if c0 =? 99 then took 0%nat (arg_int ap (λ v, putc fd (u32 v)))
  else if c0 =? 115 then took 0%nat
    match ap with VStr o :: ap' => each (default str_null o) (putc fd) ;; ret ap' | _ => halt Wild end
  else if c0 =? chr_percent then putc fd chr_percent ;; ret (0%nat, ap)
  else putc fd chr_percent ;; putc fd c0 ;; ret (0%nat, ap).

(** [fmt[i]], with the NUL at its end. *)
Definition fmt_at (fmt : list Z) (i : nat) : Z := u8 (nth i fmt 0).

Definition vprintf (fd : Z) (fmt : list Z) (ap : list va) : M S unit :=
  loop (length fmt + 1) (λ x : nat * Z * list va,
    let '(i, state, ap) := x in
    let c0 := fmt_at fmt i in
    if c0 =? 0 then ret (inr tt)
    else if state =? 0 then
      if c0 =? chr_percent then ret (inl ((i + 1)%nat, chr_percent, ap))
      else putc fd c0 ;; ret (inl ((i + 1)%nat, state, ap))
    else if state =? chr_percent then
      let c1 := if negb (c0 =? 0) then fmt_at fmt (i + 1) else 0 in
      let c2 := if negb (c1 =? 0) then fmt_at fmt (i + 2) else 0 in
      do r <- uconvert fd c0 c1 c2 ap;
      ret (inl ((i + r.1 + 1)%nat, 0, r.2))
    else ret (inl ((i + 1)%nat, state, ap))) (0%nat, 0, ap).

Definition fprintf (fd : Z) (fmt : list Z) (ap : list va) : M S unit := vprintf fd fmt ap.
Definition printf (fmt : list Z) (ap : list va) : M S unit := vprintf 1 fmt ap.
End printf.
End UserIO.

(** ** What is written *)
(** What a write of one byte does: the byte at the address goes to the file. *)
Class WriteLaw (S : Type) `{!UserSys S} : Type := {
  written : S → list (Z * Z);  (* (fd, byte), oldest first *)
  written_set s m : written (over u_mem m s) = written s;
  view_set s m : view u_mem (over u_mem m s) = m;
  write_byte fd loc s : ∃ s', sc_write fd loc 1 s = Ok 1 s' ∧ view u_mem s' = view u_mem s ∧
    written s' = written s ++ [(fd, rd (view u_mem s) loc)]
}.

(** ** Digits *)

(** The digits of a number, least significant first: as many as it has, or [k] of them. *)
Fixpoint lsds (fuel : nat) (x base : Z) : list Z :=
  match fuel with
  | O => []
  | S n => x `mod` base :: (if x `div` base =? 0 then [] else lsds n (x `div` base) base)
  end.
Fixpoint nibbles (k : nat) (x : Z) : list Z :=
  match k with O => [] | S k => x `mod` 16 :: nibbles k (x `div` 16) end.

(** 'A' to 'Z' in lower case *)
Definition lower (c : Z) : Z := if (65 <=? c) && (c <=? 90) then c + 32 else c.

Lemma udigits_lsds n x base : UserIO.udigits n x base = udigit <$> lsds n x base.
Proof. revert x. induction n as [|n IH]; intros x; cbn; [done|]. f_equal. case_test; [done|apply IH]. Qed.

Lemma int_digits_lsds n x base : int_digits n x base = digit <$> lsds n x base.
Proof. revert x. induction n as [|n IH]; intros x; cbn; [done|]. f_equal. case_test; [done|apply IH]. Qed.

Lemma lsds_range n x base : 0 < base → Forall (λ d, 0 ≤ d < base) (lsds n x base).
Proof.
  intros Hb. revert x. induction n as [|n IH]; intros x; cbn [lsds]; [done|]. constructor; [by apply Z.mod_pos_bound|].
  case_test; [done|apply IH].
Qed.

Lemma length_lsds_hex x : 0 ≤ x < 2 ^ 64 → (length (lsds 64 x 16) ≤ 16)%nat.
Proof. intros Hx. pose proof (int_digits_len 64 16 x 16 ltac:(lia) ltac:(lia) Hx) as H. by rewrite int_digits_lsds, length_fmap in H. Qed.

Lemma lower_udigit l : Forall (λ d, 0 ≤ d < 16) l → lower <$> (udigit <$> l) = digit <$> l.
Proof.
  intros Hl. rewrite <- list_fmap_compose. apply list_fmap_ext. intros i d Hd. apply (proj1 (Forall_lookup _ _) Hl) in Hd. cbn.
  assert (d ∈ seqZ 0 16) as H by (apply elem_of_seqZ; lia). clear - H. revert d H. apply Forall_forall. by repeat constructor.
Qed.

Lemma lookup_nibbles k x i : (i < k)%nat → nibbles k x !! i = Some ((x `div` 16 ^ Z.of_nat i) `mod` 16).
Proof.
  revert x i. induction k as [|k IH]; intros x i Hi; [lia|]. destruct i as [|i]; cbn [nibbles lookup list_lookup].
  - by rewrite Z.div_1_r.
  - rewrite IH by lia. rewrite Nat2Z.inj_succ, Z.pow_succ_r, Z.div_div by lia. done.
Qed.

Lemma length_nibbles k x : length (nibbles k x) = k.
Proof. revert x. induction k as [|k IH]; intros x; cbn; [done|]. by rewrite IH. Qed.

Lemma nibbles_0 k : nibbles k 0 = replicate k 0.
Proof. induction k as [|k IH]; cbn [nibbles replicate]; [done|]. change (0 `div` 16) with 0. by rewrite IH. Qed.

(** The digit that printptr takes from the top of the word. *)
Lemma top_nibble x k : 0 ≤ k ≤ 15 → Z.shiftr (u64 (Z.shiftl x (4 * k))) 60 = (x `div` 16 ^ (15 - k)) `mod` 16.
Proof.
  intros Hk. change 16 with (2 ^ 4) at 1 2. rewrite <- Z.pow_mul_r, <- Z.shiftr_div_pow2 by lia. change (2 ^ 4) with (2 ^ 4).
  apply Z.bits_inj'. intros n Hn. rewrite Z.shiftr_spec by lia. unfold u64. destruct (decide (n < 4)) as [H|H].
  - rewrite !Z.mod_pow2_bits_low, Z.shiftl_spec, Z.shiftr_spec by lia. f_equal. lia.
  - by rewrite !Z.mod_pow2_bits_high by lia.
Qed.

(** [k] digits are the digits of the number and zeros above them. *)
Lemma nibbles_pad n k x : (1 ≤ k ≤ n)%nat → 0 ≤ x < 16 ^ Z.of_nat k → ∃ z, nibbles k x = lsds n x 16 ++ replicate z 0.
Proof.
  revert k x. induction n as [|n IH]; intros k x Hk Hx; [lia|]. destruct k as [|k]; [lia|]. cbn [nibbles lsds].
  rewrite Nat2Z.inj_succ, Z.pow_succ_r in Hx by lia. destruct (Z.eqb_spec (x `div` 16) 0) as [E|E].
  - exists k. by rewrite E, nibbles_0.
  - destruct k as [|k]; [cbn in Hx; rewrite Z.div_small in E by lia; done|].
    destruct (IH (S k) (x `div` 16)) as [z Hz]; [lia|split; [apply Z.div_pos; lia|apply Z.div_lt_upper_bound; lia]|]. exists z. by rewrite Hz.
Qed.

(** A number of exactly [k] digits. *)
Lemma nibbles_lsds n k x : (1 ≤ k ≤ n)%nat → 16 ^ (Z.of_nat k - 1) ≤ x < 16 ^ Z.of_nat k → lsds n x 16 = nibbles k x.
Proof.
  revert k x. induction n as [|n IH]; intros k x Hk Hx; [lia|]. destruct k as [|k]; [lia|]. cbn [nibbles lsds].
  rewrite Nat2Z.inj_succ in Hx. replace (Z.succ (Z.of_nat k) - 1) with (Z.of_nat k) in Hx by lia. rewrite Z.pow_succ_r in Hx by lia.
  destruct k as [|k].
  - cbn in Hx. by rewrite (Z.div_small x 16) by lia.
  - assert (16 ^ Z.of_nat k ≤ x `div` 16 < 16 ^ Z.of_nat (S k)) as Hd.
    { rewrite (Nat2Z.inj_succ k), Z.pow_succ_r in Hx |- * by lia. split; [apply Z.div_le_lower_bound; lia|apply Z.div_lt_upper_bound; lia]. }
    pose proof (Z.pow_pos_nonneg 16 (Z.of_nat k) ltac:(lia) ltac:(lia)). rewrite (proj2 (Z.eqb_neq _ 0)) by lia. f_equal.
    apply IH; [lia|]. rewrite Nat2Z.inj_succ at 1. replace (Z.succ (Z.of_nat k) - 1) with (Z.of_nat k) by lia. done.
Qed.

Lemma take_nibbles j k x y : (j ≤ k)%nat → y = x `mod` 16 ^ Z.of_nat j → take j (nibbles k x) = nibbles j y.
Proof.
  revert k x y. induction j as [|j IH]; intros k x y Hj Hy; [done|]. destruct k as [|k]; [lia|]. cbn [nibbles firstn].
  rewrite Nat2Z.inj_succ, Z.pow_succ_r in Hy by lia. pose proof (Z.pow_pos_nonneg 16 (Z.of_nat j) ltac:(lia) ltac:(lia)).
  rewrite Z.rem_mul_r in Hy by lia. f_equal.
  - rewrite Hy, Z.mul_comm, Z.mod_add, Z.mod_mod by lia. done.
  - apply IH; [lia|]. rewrite Hy, Z.mul_comm, Z.div_add, Z.div_small by (try apply Z.mod_pos_bound; lia). done.
Qed.

(** ** Formats

    A format with its arguments as a list of pieces: how a piece is spelled in the
    format, the arguments it takes and the text that the user's and the kernel's printf
    print for it. The conversions are those that both have, and a letter that is
    none for either. *)
Inductive piece : Type :=
| Lit (c : Z)
| Dec (v : Z)
| Chr (v : Z)
| Str (o : option (list Z))
| Pct
| Hex (v : Z)
| Ptr (v : Z)
| Unk (c : Z).

Definition spell (p : piece) : list Z :=
  match p with
  | Lit c => [c] | Dec _ => [chr_percent; 100] | Chr _ => [chr_percent; 99]
  | Str _ => [chr_percent; 115] | Pct => [chr_percent; chr_percent]
  | Hex _ => [chr_percent; 120] | Ptr _ => [chr_percent; 112] | Unk c => [chr_percent; c]
  end.
Definition args (p : piece) : list va :=
  match p with Lit _ | Pct | Unk _ => [] | Dec v | Chr v | Hex v => [VInt v] | Str o => [VStr o] | Ptr v => [VPtr v] end.
Definition decimal (v : Z) : list Z :=
  (if v <? 0 then [chr_minus] else []) ++ reverse (int_digits 64 (Z.abs v) 10).
(** The text of the conversions that do not print in base 16. *)
Definition text (p : piece) : list Z :=
  match p with
  | Lit c => [c] | Dec v => decimal v | Chr v => [u8 v] | Str o => default str_null o | Pct => [chr_percent]
  | Unk c => [chr_percent; c] | Hex _ | Ptr _ => []
  end.
Definition utext (p : piece) : list Z :=
  match p with
  | Hex v => udigit <$> reverse (lsds 64 (u32 v) 16)
  | Ptr v => 48 :: 120 :: (udigit <$> reverse (nibbles 16 v))
  | _ => text p
  end.
Definition ktext (p : piece) : list Z :=
  match p with
  | Hex v => digit <$> reverse (lsds 64 (u64 v) 16)
  | Ptr v => 48 :: 120 :: (digit <$> reverse (lsds 64 v 16))
  | _ => text p
  end.
Definition piece_ok (p : piece) : Prop :=
  match p with
  | Lit c => 0 < c < 256 ∧ c ≠ chr_percent
  | Dec v | Hex v => - 2 ^ 31 ≤ v < 2 ^ 31
  | Ptr v => 0 ≤ v < 2 ^ 64
  | Chr v => 0 ≤ v < 256
  | Str o => match o with Some l => char_list l | None => True end
  | Pct => True
  | Unk c => 0 < c < 256 ∧ c ∉ [37; 99; 100; 108; 112; 115; 117; 120]
  end.

(** How the two texts of a piece compare: the same, but in base 16 the user's digits
    are upper case; an int below 0 has its 8 digits in user programs and 16 in the
    kernel; a pointer has always 16 in user programs and no leading zeros in the kernel. *)
Definition alike (p : piece) : Prop :=
  match p with
  | Hex v => lower <$> utext p = if v <? 0 then drop 8 (ktext p) else ktext p
  | Ptr v => length (utext p) = 18%nat ∧ ∃ z, lower <$> utext p = 48 :: 120 :: replicate z 48 ++ drop 2 (ktext p)
  | _ => utext p = ktext p
  end.

Lemma hex_alike v : - 2 ^ 31 ≤ v < 2 ^ 31 → alike (Hex v).
Proof.
  intros Hv. cbn [alike utext ktext]. rewrite lower_udigit by (apply Forall_reverse, lsds_range; lia).
  destruct (Z.ltb_spec v 0) as [Hneg|Hpos]; [|by rewrite u32_small, u64_small by lia].
  assert (u64 v = v + 2 ^ 64) as -> by (unfold u64; dlia). assert (u32 v = v + 2 ^ 32) as -> by (unfold u32; dlia).
  rewrite (nibbles_lsds 64 16 (v + 2 ^ 64)), (nibbles_lsds 64 8 (v + 2 ^ 32)) by first [lia|cbn; lia].
  rewrite <- fmap_drop, <- (take_nibbles 8 16 (v + 2 ^ 64)) by (lia || (change (16 ^ Z.of_nat 8) with (2 ^ 32); dlia)).
  reflexivity.
Qed.

Lemma ptr_alike v : 0 ≤ v < 2 ^ 64 → alike (Ptr v).
Proof.
  intros Hv. cbn [alike utext ktext drop length]. split; [by rewrite length_fmap, length_reverse, length_nibbles|].
  destruct (nibbles_pad 64 16 v ltac:(lia) Hv) as [z E]. exists z. cbn [fmap list_fmap]. do 2 f_equal.
  rewrite lower_udigit, E, reverse_app, fmap_app, reverse_replicate, fmap_replicate; [done|].
  rewrite E, reverse_app. apply Forall_app. split; [apply Forall_reverse, Forall_replicate; lia|apply Forall_reverse, lsds_range; lia].
Qed.

Lemma piece_alike p : piece_ok p → alike p.
Proof. destruct p; intros Hp; try done; [by apply hex_alike|by apply ptr_alike]. Qed.

Definition bytes (cs : list Z) : Prop := Forall (λ c, 0 ≤ c < 256) cs.

Lemma digit_bytes l : Forall (λ d, 0 ≤ d < 16) l → bytes (udigit <$> l) ∧ bytes (digit <$> l).
Proof.
  intros Hl. split; apply Forall_fmap; (eapply Forall_impl; [exact Hl|]); cbn; intros d Hd; unfold udigit, digit; case_test; lia.
Qed.

Lemma text_bytes p : piece_ok p → bytes (text p).
Proof.
  unfold bytes. destruct p as [c|v|v|[l|]| |v|v|c]; cbn.
  - intros [? _]. repeat constructor; lia.
  - intros Hv. unfold decimal. apply Forall_app. split; [case_test; [|done]; unfold chr_minus; repeat constructor; lia|].
    apply Forall_reverse. rewrite int_digits_lsds. apply digit_bytes. eapply Forall_impl; [apply (lsds_range _ _ 10); lia|]. cbn. lia.
  - intros Hv. repeat constructor; apply u8_range.
  - intros Hl. eapply Forall_impl; [exact Hl|]. cbn. lia.
  - intros _. unfold str_null. repeat constructor; lia.
  - intros _. unfold chr_percent. repeat constructor; lia.
  - done.
  - done.
  - intros [? _]. unfold chr_percent. repeat constructor; lia.
Qed.

Lemma both_bytes p : piece_ok p → bytes (utext p) ∧ bytes (ktext p).
Proof.
  assert (∀ l, bytes l → bytes (48 :: 120 :: l)) as Hc by (intros l Hl; do 2 (apply Forall_cons; split; [lia|]); done).
  intros Hp. destruct p as [c|v|v|o| |v|v|c]; try (split; by apply (text_bytes _ Hp)); cbn [utext ktext].
  - split; apply digit_bytes, Forall_reverse, lsds_range; lia.
  - destruct (nibbles_pad 64 16 v ltac:(lia) Hp) as [z E]. split; apply Hc, digit_bytes, Forall_reverse; [rewrite E; apply Forall_app; split; [|apply Forall_replicate; lia]|];
      apply lsds_range; lia.
Qed.

Lemma decimal_len v : - 2 ^ 31 ≤ v < 2 ^ 31 → (length (int_digits 64 (Z.abs v) 10) ≤ 10)%nat.
Proof. intros Hv. apply int_digits_len; [lia|lia|]. change (10 ^ Z.of_nat 10) with 10000000000. lia. Qed.

Definition spells (ps : list piece) : list Z := ps ≫= spell.
Definition argss (ps : list piece) : list va := ps ≫= args.
Definition utexts (ps : list piece) : list Z := ps ≫= utext.
Definition ktexts (ps : list piece) : list Z := ps ≫= ktext.

Lemma udigits_eq n x base : 2 ≤ base ≤ 10 → UserIO.udigits n x base = int_digits n x base.
Proof.
  intros Hb. rewrite udigits_lsds, int_digits_lsds. apply list_fmap_ext. intros i d Hd.
  apply (proj1 (Forall_lookup _ _) (lsds_range n x base ltac:(lia))) in Hd. unfold udigit, digit. by rewrite (proj2 (Z.ltb_lt _ 10)) by lia.
Qed.

(** Every conversion is spelled with one letter after the percent sign. *)
Lemma spell_cases p : piece_ok p → (∃ c, p = Lit c) ∨ ∃ c, spell p = [chr_percent; c] ∧ 0 < c < 256.
Proof.
  destruct p as [x|v|v|o| |v|v|c]; cbn; intros Hp; [by left; exists x|..]; right; eexists; (split; [reflexivity|]); unfold chr_percent in *; tauto || lia.
Qed.

Section user.
Context {S : Type} `{!UserSys S, !WriteLaw S}.
Context (loc : Z).
Implicit Types s : S.

Record wrote s fd (cs : list Z) s' : Prop := {
  wt_out : written s' = written s ++ ((λ c, (fd, u8 c)) <$> cs);
  wt_mem a : a ≠ loc → rd (view u_mem s') a = rd (view u_mem s) a
}.

Lemma wrote_nil s fd : wrote s fd [] s.
Proof. split; [by rewrite app_nil_r|done]. Qed.

Lemma wrote_app s fd c1 s1 c2 s2 : wrote s fd c1 s1 → wrote s1 fd c2 s2 → wrote s fd (c1 ++ c2) s2.
Proof. intros [A1 A2] [B1 B2]. split; [by rewrite B1, A1, fmap_app, app_assoc|]. intros a Ha. by rewrite B2, A2. Qed.

Lemma putc_ok fd c s : wp (UserIO.putc loc fd c) (λ _ s', wrote s fd [c] s') s.
Proof.
  unfold UserIO.putc. wp_step. wp_step. wp_step. destruct (write_byte fd loc (over u_mem (wr (view u_mem s) loc c) s)) as (s' & E & Hm & Hw).
  wp_step. eapply wp_of_Ok; [exact E|]. wp_step. split.
  - rewrite Hw, written_set, view_set, rd_wr_eq. done.
  - intros a Ha. rewrite Hm, view_set. by apply rd_wr_ne.
Qed.

Lemma uputcs_ok fd cs s : wp (each cs (UserIO.putc loc fd)) (λ _ s', wrote s fd cs s') s.
Proof.
  revert s. induction cs as [|c cs IH]; intros s; cbn [each]; wp_step; [apply wrote_nil|].
  wp_call putc_ok. intros [] s1 H1. wp_call IH. intros [] s2 H2. by apply (wrote_app s fd [c] s1 cs).
Qed.

Lemma uprintint_ok fd v s : - 2 ^ 31 ≤ v < 2 ^ 31 →
  wp (UserIO.printint loc fd v 10 1) (λ _ s', wrote s fd (decimal v) s') s.
Proof.
  intros Hv. unfold UserIO.printint. cbn [Z.eqb negb andb]. rewrite udigits_eq by lia.
  assert (u64 (if v <? 0 then - v else v) = Z.abs v) as ->.
  { destruct (Z.ltb_spec v 0); rewrite u64_small by lia; lia. }
  pose proof (decimal_len v Hv) as HL. set (d := int_digits _ _ _) in *.
  rewrite (proj2 (Z.ltb_ge 20 _)) by (rewrite length_app; case_test; cbn [length]; lia).
  eapply wp_mono; [apply uputcs_ok|]. intros [] s'. unfold decimal. fold d. rewrite reverse_app. by destruct (v <? 0).
Qed.

Lemma fmt_at_mid pre c post : 0 ≤ c < 256 → UserIO.fmt_at (pre ++ c :: post) (length pre) = c.
Proof. intros Hc. unfold UserIO.fmt_at. rewrite app_nth2, Nat.sub_diag by lia. by apply u8_small. Qed.

Lemma fmt_at_end l : UserIO.fmt_at l (length l) = 0.
Proof. unfold UserIO.fmt_at. by rewrite nth_overflow by lia. Qed.

Lemma uprinthex_ok fd x s : 0 ≤ x < 2 ^ 64 →
  wp (UserIO.printint loc fd x 16 0) (λ _ s', wrote s fd (udigit <$> reverse (lsds 64 x 16)) s') s.
Proof.
  intros Hx. unfold UserIO.printint. cbn [Z.eqb negb andb]. rewrite u64_small, app_nil_r, udigits_lsds by done.
  rewrite (proj2 (Z.ltb_ge 20 _)) by (rewrite length_fmap; pose proof (length_lsds_hex x Hx); lia).
  rewrite <- fmap_reverse. apply uputcs_ok.
Qed.

Lemma each_fmap {A B T} (g : A → B) (f : B → M T unit) (l : list A) (s : T) : each (g <$> l) f s = each l (λ x, f (g x)) s.
Proof. revert s. induction l as [|x l IH]; intros s; cbn; [done|]. unfold bind. destruct (f (g x) s); [apply IH|done]. Qed.

Lemma printptr_ok fd x s : 0 ≤ x < 2 ^ 64 → wp (UserIO.printptr loc fd x) (λ _ s', wrote s fd (utext (Ptr x)) s') s.
Proof.
  intros Hx. unfold UserIO.printptr. wp_step. wp_call putc_ok. intros [] s1 H1. wp_step. wp_call putc_ok. intros [] s2 H2.
  unfold wp. rewrite <- (each_fmap (λ i, udigit (Z.shiftr (u64 (Z.shiftl x (4 * i))) 60)) (UserIO.putc loc fd)).
  assert ((λ i, udigit (Z.shiftr (u64 (Z.shiftl x (4 * i))) 60)) <$> seqZ 0 16 = udigit <$> reverse (nibbles 16 x)) as ->.
  { apply list_eq_same_length with 16%nat; [by rewrite length_fmap, length_reverse, length_nibbles|by rewrite length_fmap, length_seqZ|].
    intros i a b Hi. rewrite !list_lookup_fmap, lookup_seqZ_lt by lia. rewrite reverse_lookup, length_nibbles, lookup_nibbles by (rewrite ?length_nibbles; lia).
    cbn [fmap option_fmap option_map]. intros [= <-] [= <-]. f_equal. rewrite top_nibble by lia. do 3 f_equal. lia. }
  change (wp (each (udigit <$> reverse (nibbles 16 x)) (UserIO.putc loc fd)) (λ _ s', wrote s fd (utext (Ptr x)) s') s2).
  wp_call uputcs_ok. intros [] s3 H3. apply (wrote_app s fd [48] s1); [done|]. by apply (wrote_app s1 fd [120] s2).
Qed.

(** One conversion of a piece. *)
Lemma uconvert_ok fd p c c1 c2 ap s : piece_ok p → spell p = [chr_percent; c] →
  wp (UserIO.uconvert loc fd c c1 c2 (args p ++ ap)) (λ r s', r = (0%nat, ap) ∧ wrote s fd (utext p) s') s.
Proof.
  intros Hp E. destruct p as [x|v|v|o| |v|v|u]; cbn in E; [done|..]; injection E as <-;
    unfold UserIO.uconvert, UserIO.chr_d, UserIO.chr_l, UserIO.chr_u, UserIO.chr_x, chr_percent, UserIO.arg_int, UserIO.arg_u64.
  7: { destruct Hp as [Hu Hn]. rewrite !not_elem_of_cons in Hn. rewrite !(proj2 (Z.eqb_neq u _)) by tauto. cbn [andb]. wp_step.
       wp_call putc_ok. intros [] s1 H1. wp_step. wp_call putc_ok. intros [] s2 H2. wp_step. split; [done|]. by apply (wrote_app s fd [37] s1). }
  all: cbn [Z.eqb Pos.eqb andb args app utext text].
  - wp_step. wp_step. rewrite i32_small by done. wp_call (uprintint_ok fd v s Hp). intros [] s' H. wp_step. wp_step. done.
  - wp_step. wp_step. wp_call putc_ok. intros [] s' H. wp_step. wp_step. split; [done|].
    cbn in Hp. rewrite u32_small in H by lia. destruct H as [H1 H2]. split; [|done]. cbn. by rewrite H1, u8_u8.
  - wp_step. wp_step. wp_call uputcs_ok. intros [] s' H. wp_step. wp_step. done.
  - wp_step. wp_call putc_ok. intros [] s' H. wp_step. done.
  - wp_step. wp_step. wp_call (uprinthex_ok fd (u32 v) s); [pose proof (u32_range v); lia|]. intros [] s' H. wp_step. wp_step. done.
  - wp_step. wp_step. rewrite u64_small by done. wp_call (printptr_ok fd v s Hp). intros [] s' H. wp_step. wp_step. done.
Qed.

Lemma uvprintf_ok fd ps s : Forall piece_ok ps →
  wp (UserIO.vprintf loc fd (spells ps) (argss ps)) (λ _ s', wrote s fd (utexts ps) s') s.
Proof.
  intros Hps. unfold UserIO.vprintf. set (fmt := spells ps) at 2.
  cut (∀ ps pre fuel s, Forall piece_ok ps → fmt = pre ++ spells ps → (length (spells ps) < fuel)%nat →
    wp (loop fuel (λ x : nat * Z * list va,
      let '(i, state, ap) := x in
      let c0 := UserIO.fmt_at fmt i in
      if c0 =? 0 then ret (inr tt)
      else if state =? 0 then
        if c0 =? chr_percent then ret (inl ((i + 1)%nat, chr_percent, ap))
        else UserIO.putc loc fd c0 ;; ret (inl ((i + 1)%nat, state, ap))
      else if state =? chr_percent then
        let c1 := if negb (c0 =? 0) then UserIO.fmt_at fmt (i + 1) else 0 in
        let c2 := if negb (c1 =? 0) then UserIO.fmt_at fmt (i + 2) else 0 in
        do r <- UserIO.uconvert loc fd c0 c1 c2 ap;
        ret (inl ((i + r.1 + 1)%nat, 0, r.2))
      else ret (inl ((i + 1)%nat, state, ap))) (length pre, 0, argss ps)) (λ _ s', wrote s fd (utexts ps) s') s).
  { intros H. apply (H ps []); [done|done|]. fold fmt. lia. }
  clear s Hps. generalize fmt. clear fmt ps. intros fmt ps. induction ps as [|p ps IH]; intros pre fuel s Hps Hfmt Hfuel.
  - destruct fuel as [|fuel]; [cbn in Hfuel; lia|]. cbn in Hfmt. rewrite app_nil_r in Hfmt. subst fmt. cbn [loop].
    rewrite fmt_at_end. cbn [Z.eqb]. wp_step. wp_step. wp_step. apply wrote_nil.
  - apply Forall_cons in Hps as [Hp Hps]. change (spells (p :: ps)) with (spell p ++ spells ps) in *.
    change (argss (p :: ps)) with (args p ++ argss ps). change (utexts (p :: ps)) with (utext p ++ utexts ps).
    rewrite length_app in Hfuel. destruct fuel as [|fuel]; [lia|].
    destruct (spell_cases p Hp) as [[c ->]|(c & Ep & Hc)].
    + cbn in Hp. destruct Hp as [Hc Hne]. cbn [spell app length] in *. cbn [loop].
      assert (UserIO.fmt_at fmt (length pre) = c) as E1 by (rewrite Hfmt; apply fmt_at_mid; lia). rewrite E1.
      rewrite (proj2 (Z.eqb_neq c 0)), (proj2 (Z.eqb_neq c chr_percent)) by lia. cbn [Z.eqb].
      wp_step. wp_step. wp_call putc_ok. intros [] s1 H1. wp_step.
      replace (length pre + 1)%nat with (length (pre ++ [c])) by (rewrite length_app; cbn; lia).
      eapply wp_mono; [apply IH; [done|by rewrite <- app_assoc|lia]|]. intros [] s2 H2. by apply (wrote_app s fd [c] s1).
    + rewrite Ep in *. cbn [app length] in *. destruct fuel as [|fuel]; [lia|]. cbn [loop].
      assert (UserIO.fmt_at fmt (length pre) = chr_percent) as E1 by (rewrite Hfmt; by apply fmt_at_mid).
      assert (UserIO.fmt_at fmt (length pre + 1) = c) as E2.
      { rewrite Hfmt. replace (length pre + 1)%nat with (length (pre ++ [chr_percent])) by (rewrite length_app; cbn; lia).
        change (chr_percent :: c :: spells ps) with ([chr_percent] ++ c :: spells ps). rewrite app_assoc. apply fmt_at_mid. lia. }
      rewrite E1. cbn [Z.eqb Pos.eqb chr_percent]. wp_step. wp_step. cbn iota beta.
      rewrite E2. change (chr_percent =? 0) with false. change (chr_percent =? chr_percent) with true.
      rewrite (proj2 (Z.eqb_neq c 0)) by lia. cbn [negb]. wp_step. wp_step. wp_call (uconvert_ok fd p c); [done|done|].
      intros r s1 [-> H1]. cbn [Datatypes.fst Datatypes.snd]. wp_step. cbn iota beta.
      replace (length pre + 1 + 0 + 1)%nat with (length (pre ++ [chr_percent; c])) by (rewrite length_app; cbn; lia).
      eapply wp_mono; [apply IH; [done|by rewrite <- app_assoc|lia]|]. intros [] s2 H2. by apply (wrote_app s fd _ s1).
Qed.
End user.

(** ** The kernel's printf on the same formats *)
Section kernel.
Context {D : Type} `{!BlockDev D}.
Implicit Types s : con D.

Lemma ready_app n k s cs s' : ready (n + k) (co_uart s) → sent s cs s' → length cs = n → ready k (co_uart s').
Proof. intros Hr H <-. by apply (ready_drop (length cs) k (co_uart s)); [|apply H]. Qed.

Lemma ready_le n k u : ready n u → (k ≤ n)%nat → ready k u.
Proof. intros [? ?] ?. split; [lia|done]. Qed.

Lemma kprintint_ok v s : - 2 ^ 31 ≤ v < 2 ^ 31 → con_ok s → ready (length (decimal v)) (co_uart s) →
  wp (printint v 10 1) (λ _ s', sent s (decimal v) s') s.
Proof.
  intros Hv Hok Hr. unfold printint. cbn [Z.eqb negb andb]. pose proof (decimal_len v Hv) as HL. unfold decimal in *.
  assert (u64 (if v <? 0 then - v else v) = Z.abs v) as ->.
  { destruct (Z.ltb_spec v 0); rewrite u64_small by lia; lia. }
  set (d := int_digits _ _ _) in *. rewrite length_app, length_reverse in Hr.
  rewrite (proj2 (Z.ltb_ge 20 _)) by lia. wp_step.
  assert (wp (when (v <? 0) (consoleputc chr_minus)) (λ _ s1, sent s (if v <? 0 then [chr_minus] else []) s1) s) as Hm.
  { destruct (v <? 0); cbn [when]; [|wp_step; by apply sent_nil]. apply consoleputc_ok; [done|].
    eapply ready_le; [exact Hr|]. cbn. lia. }
  wp_call Hm. intros [] s1 H1. wp_call (putcs_ok (reverse d) s1 (se_ok _ _ _ H1)).
  { rewrite length_reverse. by eapply ready_app; [exact Hr|exact H1|]. }
  intros [] s2 H2. by apply (sent_app s _ s1).
Qed.

Lemma kprinthex_ok x s : con_ok s → ready (length (digit <$> reverse (lsds 64 (u64 x) 16))) (co_uart s) →
  wp (printint x 16 0) (λ _ s', sent s (digit <$> reverse (lsds 64 (u64 x) 16)) s') s.
Proof.
  intros Hok Hr. unfold printint. cbn [Z.eqb negb andb when]. wp_step. wp_step. rewrite int_digits_lsds.
  rewrite (proj2 (Z.ltb_ge 20 _)) by (rewrite length_fmap; pose proof (length_lsds_hex (u64 x) (u64_range x)); lia).
  rewrite <- fmap_reverse. by apply putcs_ok.
Qed.

Lemma convert_ok p c ap s : piece_ok p → spell p = [chr_percent; c] → con_ok s → ready (length (ktext p)) (co_uart s) →
  wp (convert c (args p ++ ap)) (λ r s', r = ap ∧ sent s (ktext p) s') s.
Proof.
  intros Hp E Hok Hr. destruct p as [x|v|v|o| |v|v|u]; cbn in E; [done|..]; injection E as <-; unfold convert, chr_percent.
  7: { destruct Hp as [Hu Hn]. rewrite !not_elem_of_cons in Hn. rewrite !(proj2 (Z.eqb_neq u _)) by tauto. cbn [args app ktext text] in *. wp_step.
       wp_call (consoleputc_ok 37 s Hok); [by eapply ready_le; [exact Hr|cbn; lia]|]. intros [] s1 H1. wp_step.
       wp_call (consoleputc_ok u s1 (se_ok _ _ _ H1)); [by eapply (ready_app 1 1); [exact Hr|exact H1|]|]. intros [] s2 H2. wp_step. split; [done|]. by apply (sent_app s [37] s1). }
  all: cbn [Z.eqb Pos.eqb args app ktext text] in *; wp_step.
  - wp_call (kprintint_ok v s Hp Hok Hr). intros [] s' H. by wp_step.
  - wp_call (consoleputc_ok v s Hok Hr). intros [] s' H. wp_step. cbn in Hp. by rewrite u8_small.
  - wp_call (putcs_ok _ s Hok Hr). intros [] s' H. by wp_step.
  - wp_call (consoleputc_ok 37 s Hok Hr). intros [] s' H. by wp_step.
  - wp_call (kprinthex_ok v s Hok Hr). intros [] s' H. by wp_step.
  - cbn [length] in Hr. wp_call (consoleputc_ok 48 s Hok); [by eapply ready_le; [exact Hr|lia]|]. intros [] s1 H1.
    pose proof (ready_app 1 _ s [48] s1 Hr H1 eq_refl) as Hr1. wp_step.
    wp_call (consoleputc_ok 120 s1 (se_ok _ _ _ H1)); [by eapply ready_le; [exact Hr1|lia]|]. intros [] s2 H2.
    pose proof (ready_app 1 _ s1 [120] s2 Hr1 H2 eq_refl) as Hr2. wp_step.
    pose proof (kprinthex_ok v s2 (se_ok _ _ _ H2)) as H. rewrite u64_small in H by done. wp_call (H Hr2). intros [] s3 H3. wp_step. split; [done|].
    apply (sent_app s [48] s1); [done|done|]. by apply (sent_app s1 [120] s2 _ _ (se_ok _ _ _ H1)).
Qed.

Lemma vprintf_ok ps s : Forall piece_ok ps → con_ok s → ready (length (ktexts ps)) (co_uart s) →
  wp (vprintf (spells ps) (argss ps)) (λ _ s', sent s (ktexts ps) s') s.
Proof.
  intros Hps. revert s. induction Hps as [|p ps Hp Hps IH]; intros s Hok Hr; [cbn; wp_step; by apply sent_nil|].
  change (spells (p :: ps)) with (spell p ++ spells ps) in *. change (argss (p :: ps)) with (args p ++ argss ps).
  change (ktexts (p :: ps)) with (ktext p ++ ktexts ps) in *. rewrite length_app in Hr.
  assert (ready (length (ktext p)) (co_uart s)) as Hr1 by (eapply ready_le; [exact Hr|lia]).
  assert (∀ s', sent s (ktext p) s' → wp (vprintf (spells ps) (argss ps)) (λ _ s', sent s (ktext p ++ ktexts ps) s') s') as Hk.
  { intros s1 H1. wp_call IH; [apply H1|by eapply ready_app|]. intros [] s2 H2. by apply (sent_app s _ s1). }
  destruct (spell_cases p Hp) as [[c ->]|(c & Ep & _)].
  - cbn in Hp. cbn [spell app vprintf]. rewrite (proj2 (Z.eqb_neq c chr_percent)) by lia. cbn [negb]. wp_step.
    wp_call (consoleputc_ok c s Hok Hr1). intros [] s1 H1. by apply Hk.
  - rewrite Ep. cbn [app vprintf]. cbn [Z.eqb Pos.eqb chr_percent negb]. wp_step.
    wp_call (convert_ok p c (argss ps) s Hp Ep Hok Hr1). intros ap s1 [-> H1]. by apply Hk.
Qed.

(** C34: On every format made of literal characters, the conversions that the two printfs
    share, %d, %c, %s, %%, %x and %p, and letters that are no conversion of either, the
    printf of user programs writes the text [utext] of each piece, one write system
    call per byte, and the kernel's printf sends [ktext], one byte after the other, to the
    UART. The two are the same text but for %x and %p, where the user's digits are upper
    case, and where, read in lower case, the user's %x of a negative int is the last 8 of
    the kernel's 16 digits and the user's %p has leading zeros up to 16 digits that the
    kernel's leaves out. *)
Theorem printf_agrees {S} `{!UserSys S, !WriteLaw S} loc fd ps (u : S) (s : con D) :
  Forall piece_ok ps → con_ok s → ready (length (ktexts ps)) (co_uart s) →
  wp (UserIO.fprintf loc fd (spells ps) (argss ps)) (λ _ u', written u' = written u ++ ((λ c, (fd, c)) <$> utexts ps)) u ∧
  wp (vprintf (spells ps) (argss ps))
    (λ _ s', mm_out (co_uart s') = mm_out (co_uart s) ++ ((λ c, (UART0, c)) <$> ktexts ps)) s ∧
  Forall alike ps.
Proof.
  intros Hps Hok Hr. assert (∀ (t : piece → list Z) (A : Z → Z * Z), (∀ p, piece_ok p → bytes (t p)) → (λ c, A (u8 c)) <$> (ps ≫= t) = A <$> (ps ≫= t)) as E.
  { intros t A Ht. apply list_fmap_ext. intros i c Hc. f_equal. apply u8_small.
    apply list_elem_of_lookup_2 in Hc. apply list_elem_of_bind in Hc as (p & Hc & Hp).
    exact (proj1 (Forall_forall _ _) (Ht p (proj1 (Forall_forall _ _) Hps p Hp)) c Hc). }
  split_and!.
  - eapply wp_mono; [by apply uvprintf_ok|]. intros [] u' [H _]. rewrite H. f_equal. apply (E utext (λ c, (fd, c))), both_bytes.
  - eapply wp_mono; [by apply vprintf_ok|]. intros [] s' H. rewrite (se_out _ _ _ H). f_equal. apply (E ktext (λ c, (UART0, c))), both_bytes.
  - eapply Forall_impl; [exact Hps|]. apply piece_alike.
Qed.
End kernel.

(** A process that writes to the list of its output. *)
#[export] Instance demo_out_sys : UserSys (mem * list (Z * Z)) := {
  u_mem := Lens (λ s, s.1) (λ m s, (m, s.2));
  sc_open _ _ := ret (-1);
  sc_read _ _ _ := ret 0;
  sc_write fd loc n := λ s, Ok 1 (s.1, s.2 ++ [(fd, rd s.1 loc)]);
  sc_fstat _ _ := ret (-1);
  sc_close _ := ret (-1);
  sc_sbrk _ _ := ret (2 ^ 64 - 1)
}.
#[export] Instance demo_out_law : WriteLaw (mem * list (Z * Z)).
Proof. refine {| written := snd |}; [done|done|]. intros fd loc s. eexists. by split_and!. Defined.

(** ["%d%x"] with the arguments -15 and 171 *)
Lemma printf_agrees_witness :
  wp (UserIO.fprintf 50 2 [37; 100; 37; 120] [VInt (-15); VInt 171])
    (λ _ u', u'.2 = [(2, 45); (2, 49); (2, 53); (2, 65); (2, 66)]) (∅ : mem, []) ∧
  wp (vprintf [37; 100; 37; 120] [VInt (-15); VInt 171])
    (λ _ s', mm_out (co_uart s') = [(UART0, 45); (UART0, 49); (UART0, 53); (UART0, 97); (UART0, 98)])
    (demo_con (Spin 0 "pr" None)).
Proof.
  assert (utexts [Dec (-15); Hex 171] = [45; 49; 53; 65; 66]) as E1 by (vm_compute; reflexivity).
  assert (ktexts [Dec (-15); Hex 171] = [45; 49; 53; 97; 98]) as E2 by (vm_compute; reflexivity).
  destruct (printf_agrees (S := mem * list (Z * Z)) 50 2 [Dec (-15); Hex 171] (∅, []) (demo_con (Spin 0 "pr" None))) as (H1 & H2 & _).
  - repeat constructor; cbn; lia.
  - split; [apply demo_hart_ok|by split].
  - rewrite E2. split; [vm_compute; lia|]. apply Forall_replicate. by vm_compute.
  - rewrite E1 in H1. rewrite E2 in H2. split; [exact H1|exact H2].
Defined.

(** ** Reading numbers back *)
Definition is_digit (c : Z) : Prop := User.chr_0 ≤ c ≤ User.chr_9.

Lemma atoi_run fuel m a n cs :
  rds m a (length cs) = cs → Forall is_digit cs → ¬ is_digit (rd m (a + Z.of_nat (length cs))) → (length cs < fuel)%nat →
  0 ≤ n → fold_left (λ v c, v * 10 + (c - 48)) cs n < 2 ^ 31 →
  loop fuel (λ p : Z * Z, gets (λ m,
    let c := rd m p.1 in
    if (User.chr_0 <=? c) && (c <=? User.chr_9) then inl (p.1 + 1, i32 (p.2 * 10 + c - User.chr_0)) else inr p.2)) (a, n) m
  = Ok (fold_left (λ v c, v * 10 + (c - 48)) cs n) m.
Proof.
  assert (∀ cs n, 0 ≤ n → Forall is_digit cs → n ≤ fold_left (λ v c, v * 10 + (c - 48)) cs n) as Hge.
  { clear. intros cs n Hn Hd. revert n Hn. induction Hd as [|c cs Hc Hd IH]; intros n Hn; cbn; [lia|].
    unfold is_digit, User.chr_0, User.chr_9 in Hc. specialize (IH (n * 10 + (c - 48)) ltac:(lia)). lia. }
  revert a n cs. induction fuel as [|fuel IH]; intros a n cs Hm Hd Hend Hf Hn Hb; [lia|]. cbn [loop].
  destruct cs as [|c cs]; cbn [length fold_left] in *.
  - rewrite Z.add_0_r in Hend. unfold bind, gets. cbn [Datatypes.fst Datatypes.snd].
    assert ((User.chr_0 <=? rd m a) && (rd m a <=? User.chr_9) = false) as -> by (unfold is_digit in Hend; lia). done.
  - apply Forall_cons in Hd as [Hc Hd]. rewrite rds_cons in Hm. injection Hm as Hc' Hm.
    pose proof (Hge cs (n * 10 + (c - 48)) ltac:(unfold is_digit, User.chr_0 in Hc; lia) Hd) as Hle.
    unfold bind, gets in *. cbn [Datatypes.fst Datatypes.snd]. rewrite Hc'.
    assert ((User.chr_0 <=? c) && (c <=? User.chr_9) = true) as -> by (unfold is_digit in Hc; lia).
    unfold is_digit, User.chr_0, User.chr_9 in Hc. replace (n * 10 + c - User.chr_0) with (n * 10 + (c - 48)) by (unfold User.chr_0; lia).
    rewrite i32_small by lia. apply IH; [done|done| |lia|lia|done].
    by replace (a + 1 + Z.of_nat (length cs)) with (a + Z.of_nat (Datatypes.S (length cs))) by lia.
Qed.

Lemma fold_lsd cs n : Forall is_digit cs →
  fold_left (λ v c, v * 10 + (c - 48)) cs n = n * 10 ^ Z.of_nat (length cs) + lsd_val 10 (reverse cs).
Proof.
  intros Hd. revert n. induction Hd as [|c cs Hc Hd IH]; intros n; cbn [fold_left length]; [cbn; lia|].
  rewrite IH, reverse_cons, Nat2Z.inj_succ, Z.pow_succ_r by lia.
  assert (∀ l, lsd_val 10 (l ++ [c]) = lsd_val 10 l + 10 ^ Z.of_nat (length l) * (c - 48)) as ->; [|rewrite length_reverse; lia].
  induction l as [|x l IHl]; cbn [app lsd_val length].
  - unfold digit_val, is_digit, User.chr_0, User.chr_9 in *. rewrite (proj2 (Z.ltb_lt c 58)) by lia. cbn. lia.
  - rewrite IHl, Nat2Z.inj_succ, Z.pow_succ_r by lia. lia.
Qed.

(** The digits of a number that fits an [int], where they stand in memory. *)
Lemma atoi_digits k m a fuel : let cs := reverse (int_digits 64 k 10) in
  0 ≤ k < 2 ^ 31 → rds m a (length cs) = cs → ¬ is_digit (rd m (a + Z.of_nat (length cs))) → (length cs < fuel)%nat →
  User.atoi fuel a m = Ok k m.
Proof.
  intros cs Hk Hm Hend Hf.
  assert (Forall is_digit (int_digits 64 k 10)) as Hd.
  { rewrite int_digits_lsds. apply Forall_fmap. eapply Forall_impl; [apply (lsds_range _ _ 10); lia|]. cbn. intros d Hd.
    unfold digit, is_digit, User.chr_0, User.chr_9. rewrite (proj2 (Z.ltb_lt _ 10)) by lia. lia. }
  assert (fold_left (λ v c, v * 10 + (c - 48)) cs 0 = k) as Ev.
  { unfold cs. rewrite fold_lsd by (by apply Forall_reverse). rewrite reverse_involutive, int_digits_val; [lia|lia|].
    split; [lia|]. transitivity (10 ^ 10); [lia|]. apply Z.pow_lt_mono_r; lia. }
  rewrite <- Ev at 1. apply (atoi_run fuel m a 0 cs); [done|by apply Forall_reverse|done|done|lia|]. rewrite Ev. lia.
Qed.

(** C35: What printint writes for an [int] stands for the number with atoi, but for the
    sign: where the text is in memory, followed by anything but a digit, atoi returns
    the number if it is not negative, for every number up to 2^31 - 1; atoi knows no sign
    and returns 0 for the text of a negative number, and the absolute value when it is
    called behind the sign, for every number down to - 2^31 + 1. *)
Theorem printint_atoi {S} `{!UserSys S, !WriteLaw S} loc fd n (u : S) :
  - 2 ^ 31 ≤ n < 2 ^ 31 →
  wp (UserIO.printint loc fd n 10 1) (λ _ u', ∃ cs, written u' = written u ++ ((λ c, (fd, c)) <$> cs) ∧
    ∀ m a fuel, rds m a (length cs) = cs → ¬ is_digit (rd m (a + Z.of_nat (length cs))) → (length cs < fuel)%nat →
      User.atoi fuel a m = Ok (if n <? 0 then 0 else n) m ∧ (- 2 ^ 31 < n < 0 → User.atoi fuel (a + 1) m = Ok (- n) m)) u.
Proof.
  intros Hn. eapply wp_mono; [by apply (uprintint_ok loc fd n u)|]. intros [] u' [Hw _]. exists (decimal n). split.
  { rewrite Hw. f_equal. apply list_fmap_ext. intros i c Hc%list_elem_of_lookup_2. f_equal. apply u8_small.
    exact (proj1 (Forall_forall _ _) (text_bytes (Dec n) Hn) c Hc). }
  unfold decimal. intros m a fuel. destruct (Z.ltb_spec n 0) as [Hneg|Hpos]; cbn [app].
  - remember (reverse (int_digits 64 (Z.abs n) 10)) as d eqn:Ed. cbn [length]. rewrite rds_cons. intros E Hend Hf. injection E as Ha Hm. split.
    + destruct fuel as [|fuel]; [lia|]. unfold User.atoi. cbn [loop]. unfold bind, gets. cbn [Datatypes.fst Datatypes.snd]. by rewrite Ha.
    + intros Hlo. replace (- n) with (Z.abs n) by lia. apply (atoi_digits (Z.abs n) m (a + 1) fuel); [lia|by rewrite <- Ed|rewrite <- Ed|rewrite <- Ed; lia].
      by replace (a + 1 + Z.of_nat (length d)) with (a + Z.of_nat (Datatypes.S (length d))) by lia.
  - rewrite Z.abs_eq by lia. intros Hm Hend Hf. split; [|lia]. apply (atoi_digits n m a fuel); [lia|exact Hm|exact Hend|exact Hf].
Qed.

Lemma printint_atoi_witness :
  wp (UserIO.printint 50 1 (-2147483647) 10 1) (λ _ u', ∃ cs, u'.2 = (λ c, (1, c)) <$> cs ∧
    ∀ m a fuel, rds m a (length cs) = cs → ¬ is_digit (rd m (a + Z.of_nat (length cs))) → (length cs < fuel)%nat →
      User.atoi fuel a m = Ok 0 m ∧ User.atoi fuel (a + 1) m = Ok 2147483647 m) (∅ : mem, []).
Proof.
  pose proof (printint_atoi (S := mem * list (Z * Z)) 50 1 (-2147483647) (∅, []) ltac:(lia)) as H.
  eapply wp_mono; [exact H|]. intros [] u' (cs & Hw & Hm). exists cs. split; [exact Hw|]. intros m a fuel H1 H2 H3.
  destruct (Hm m a fuel H1 H2 H3) as [H4 H5]. split; [exact H4|]. apply H5. lia.
Defined.
