(* ===== verification/Umalloc.v ===== *)
(** * user/umalloc.c: the memory allocator of user programs

    Kernighan and Ritchie's allocator. The free blocks form a ring in address order,
    threaded through the headers of the blocks themselves and through the static header
    [base], whose size is 0; [freep] points at the element at which the next search
    starts. A header is 16 bytes: the pointer to the next block and, at offset 8, the
    block's size in units of 16 bytes, the header included.

    [base] and [freep] are the addresses of the two static variables; the loops that
    follow the ring take fuel, and the theorems say how much is enough. The functions
    are in the module [Umalloc]; the rest of the file represents the ring as a list of
    blocks and shows what malloc and free do to it. *)
From S2P Require Import Prelude Memory KString Riscv Ulib.

(** user.h *)
Definition SBRK_ERROR : Z := 2 ^ 64 - 1.

Module Umalloc.
Definition sizeof_Header : Z := 16.
Definition h_ptr (m : mem) (p : Z) : Z := ld64 m p.
Definition h_size (m : mem) (p : Z) : Z := ld 4 m (p + 8).
Definition set_ptr (p v : Z) : M mem unit := modify (λ m, st64 m p v).
Definition set_size (p v : Z) : M mem unit := modify (λ m, st 4 m (p + 8) v).
(** [p + n] for a pointer to a Header. *)
Definition plus (p n : Z) : Z := u64 (p + n * sizeof_Header).

Section umalloc.
Context (base freep : Z).

(** The search of free: the block after which [bp] belongs. *)
Definition free_search (fuel : nat) (bp : Z) : M mem Z :=
  do p0 <- gets (λ m, ld64 m freep);
  loop fuel (λ p, gets (λ m,
    if (p <? bp) && (bp <? h_ptr m p) then inr p
    else if (h_ptr m p <=? p) && ((p <? bp) || (bp <? h_ptr m p)) then inr p
    else inl (h_ptr m p))) p0.

Definition free (fuel : nat) (ap : Z) : M mem unit :=
  let bp := plus ap (-1) in
  do p <- free_search fuel bp;
  do m <- get;
  (if plus bp (h_size m bp) =? h_ptr m p then
     set_size bp (u32 (h_size m bp + h_size m (h_ptr m p))) ;;
     do m <- get;
     set_ptr bp (h_ptr m (h_ptr m p))
   else set_ptr bp (h_ptr m p)) ;;
  do m <- get;
  (if plus p (h_size m p) =? bp then
     set_size p (u32 (h_size m p + h_size m bp)) ;;
     do m <- get;
     set_ptr p (h_ptr m bp)
   else set_ptr p bp) ;;
  modify (λ m, st64 m freep p).

Context {S : Type} `{!UserSys S}.

(** sbrk takes an int: the number of bytes is converted. *)
Definition morecore (fuel : nat) (nu : Z) : M S Z :=
  let nu := if nu <? 4096 then 4096 else nu in
  do p <- User.sbrk (i32 (u64 (nu * sizeof_Header)));
  if p =? SBRK_ERROR then ret 0
  else
    zoom u_mem (set_size p nu) ;;
    zoom u_mem (free fuel (plus p 1)) ;;
    gets (λ s, ld64 (view u_mem s) freep).

(** The block [p] is large enough: its tail, or all of it, is handed out. *)
Definition malloc_take (nunits prevp p : Z) : M mem Z :=
  do m <- get;
  do p <- (if h_size m p =? nunits then set_ptr prevp (h_ptr m p) ;; ret p
           else
             set_size p (u32 (h_size m p - nunits)) ;;
             do m <- get;
             let p := plus p (h_size m p) in
             set_size p nunits ;;
             ret p);
  modify (λ m, st64 m freep prevp) ;;
  ret (plus p 1).

Definition malloc_units (nbytes : Z) : Z := u32 (u64 (nbytes + sizeof_Header - 1) `div` sizeof_Header + 1).

(** The loop of malloc on (prevp, p). *)
Definition malloc_step (fuel : nat) (nunits : Z) (st : Z * Z) : M S ((Z * Z) + Z) :=
  let '(prevp, p) := st in
  do m <- gets (view u_mem);
  if nunits <=? h_size m p then
    do r <- zoom u_mem (malloc_take nunits prevp p); ret (inr r)
  else if p =? ld64 m freep then
    do p <- morecore fuel nunits;
    if p =? 0 then ret (inr 0)
    else do m <- gets (view u_mem); ret (inl (p, h_ptr m p))
  else ret (inl (p, h_ptr m p)).

Definition malloc (fuel : nat) (nbytes : Z) : M S Z :=
  let nunits := malloc_units nbytes in
  do prevp <- gets (λ s, ld64 (view u_mem s) freep);
  do prevp <- (if prevp =? 0 then
                 zoom u_mem (modify (λ m, st64 m freep base)) ;;
                 zoom u_mem (set_ptr base base) ;;
                 zoom u_mem (set_size base 0) ;;
                 ret base
               else ret prevp);
  do m <- gets (view u_mem);
  loop fuel (malloc_step fuel nunits) (prevp, h_ptr m prevp).
End umalloc.
End Umalloc.
Import Umalloc.

(** ** The ring as a list of blocks

    A block is its address and its size in units. *)
Abbreviation blk := (Z * Z)%type.
Definition hda (R : list blk) (e : Z) : Z := match R with [] => e | b :: _ => b.1 end.

(** The blocks of [R] are linked in memory, the last one to [e]. *)
Fixpoint lseg (m : mem) (R : list blk) (e : Z) : Prop :=
  match R with
  | [] => True
  | b :: R' => h_size m b.1 = b.2 ∧ h_ptr m b.1 = hda R' e ∧ lseg m R' e
  end.

(** In address order, each ending before the next begins: no two are adjacent. *)
Definition fin (b : blk) : Z := b.1 + 16 * Z.max 1 b.2.
Fixpoint chain (lo : Z) (R : list blk) (hi : Z) : Prop :=
  match R with
  | [] => lo ≤ hi
  | b :: R' => lo < b.1 ∧ 0 ≤ b.2 ∧ chain (fin b) R' hi
  end.

(** The bytes of the blocks. *)
Definition inb (b : blk) (x : Z) : Prop := b.1 ≤ x < b.1 + 16 * b.2.
Definition covers (R : list blk) (x : Z) : Prop := Exists (λ b, inb b x) R.

Lemma hda_app R1 R2 e : hda (R1 ++ R2) e = hda R1 (hda R2 e).
Proof. by destruct R1. Qed.

Lemma lseg_app m R1 R2 e : lseg m (R1 ++ R2) e ↔ lseg m R1 (hda R2 e) ∧ lseg m R2 e.
Proof. induction R1 as [|b R1 IH]; cbn; [tauto|]. rewrite IH, hda_app. tauto. Qed.

(** Changes outside the headers of the blocks keep the links. *)
Lemma lseg_frame m m' R e :
  (∀ b x, b ∈ R → b.1 ≤ x < b.1 + 12 → rd m' x = rd m x) → lseg m R e → lseg m' R e.
Proof.
  induction R as [|b R IH]; intros H; cbn; [done|]. intros (H1 & H2 & H3). split_and!.
  - unfold h_size in *. rewrite <- H1. apply ld_ext. intros x Hx. apply (H b); [constructor|lia].
  - unfold h_ptr in *. rewrite <- H2. apply ld_ext. intros x Hx. apply (H b); [constructor|lia].
  - apply IH; [|done]. intros c x Hc. apply H. by right.
Qed.

Lemma chain_app lo R1 R2 hi : chain lo (R1 ++ R2) hi ↔ ∃ mid, chain lo R1 mid ∧ chain mid R2 hi.
Proof.
  revert lo. induction R1 as [|b R1 IH]; intros lo; cbn.
  - split; [|intros (mid & Hm & H)].
    + intros H. exists lo. done.
    + destruct R2 as [|c R2]; cbn in *; [lia|]. intuition lia.
  - rewrite IH. split; [intros (? & ? & mid & ? & ?)|intros (mid & (? & ? & ?) & ?)]; eauto 10.
Qed.

Lemma chain_weaken lo lo' R hi hi' : lo' ≤ lo → hi ≤ hi' → chain lo R hi → chain lo' R hi'.
Proof. revert lo lo'. induction R as [|b R IH]; intros lo lo' Hl Hh; cbn; [lia|]. intros (? & ? & ?). split_and!; [lia|done|]. by apply (IH (fin b)). Qed.

Lemma chain_le lo R hi : chain lo R hi → lo ≤ hi.
Proof. revert lo. induction R as [|b R IH]; intros lo; cbn; [done|]. intros (? & ? & H%IH). unfold fin in H. lia. Qed.

Lemma chain_elem lo R hi b : chain lo R hi → b ∈ R → lo < b.1 ∧ fin b ≤ hi ∧ 0 ≤ b.2.
Proof.
  revert lo. induction R as [|c R IH]; intros lo; cbn; [by intros _ ?%not_elem_of_nil|].
  intros (? & ? & H) [->|Hb]%elem_of_cons; [split; [done|split; [by eapply chain_le|done]]|].
  destruct (IH _ H Hb) as (? & ? & ?). unfold fin in *. lia.
Qed.

Definition baddr (R : list blk) (i : nat) : Z := (R !!! i).1.
(** The index of the next element of the ring. *)
Definition next (R : list blk) (i : nat) : nat := (S i mod length R)%nat.

(** Where the linker put the static variables: below the heap, which starts at [lo].
    The header [base] is not at address 0, for a null [freep] says that malloc was
    never called. *)
Record statics (base freep lo : Z) : Prop := {
  st_base : 0 < base;
  st_lo : base + 16 < lo;
  st_freep : 0 ≤ freep ∧ freep + 8 ≤ lo ∧ (freep + 8 ≤ base ∨ base + 16 ≤ freep)
}.

(** The ring of free blocks of the memory [m], in a heap that ends at [hi]. A size is an
    unsigned int, so the heap is smaller than [2 ^ 36] bytes. *)
Record heap (base freep lo : Z) (m : mem) (R : list blk) (hi : Z) : Prop := {
  hp_base : ∃ L, R = (base, 0) :: L ∧ Forall (λ b, 1 ≤ b.2 ∧ lo ≤ b.1) L;
  hp_chain : chain (base - 1) R hi;
  hp_seg : lseg m R base;
  hp_freep : ∃ k, (k < length R)%nat ∧ ld64 m freep = baddr R k;
  hp_hi : hi ≤ 2 ^ 36
}.

Lemma baddr_lookup R i b : R !! i = Some b → baddr R i = b.1.
Proof. intros H. unfold baddr. by rewrite (list_lookup_total_correct _ _ _ H). Qed.

Lemma lookup_baddr R i : (i < length R)%nat → R !! i = Some (baddr R i, (R !!! i).2).
Proof. intros Hi. destruct (lookup_lt_is_Some_2 R i Hi) as [b Hb]. unfold baddr. rewrite (list_lookup_total_correct _ _ _ Hb). by destruct b. Qed.

Lemma chain_lt lo R hi i j b c : chain lo R hi → R !! i = Some b → R !! j = Some c → (i < j)%nat → fin b < c.1.
Proof.
  intros Hc Hb Hj Hij. rewrite <- (take_drop_middle R i b Hb) in Hc.
  apply chain_app in Hc as (mid & _ & Hc). cbn in Hc. destruct Hc as (_ & _ & Hc).
  apply (chain_elem _ _ _ c Hc). apply list_elem_of_lookup. exists (j - S i)%nat. rewrite lookup_drop, <- Hj. f_equal. lia.
Qed.

Lemma lseg_lookup m R e i b : lseg m R e → R !! i = Some b →
  h_size m b.1 = b.2 ∧ h_ptr m b.1 = default e (fst <$> R !! S i).
Proof.
  revert i. induction R as [|c R IH]; intros i; [done|]. cbn. intros (H1 & H2 & H3).
  destruct i as [|i]; cbn; [|by apply IH]. intros [= ->]. split; [done|]. rewrite H2. by destruct R.
Qed.

Section ring.
Context (base freep lo : Z) (Hst : statics base freep lo).
Implicit Types (m : mem) (R : list blk).

Lemma heap_len m R hi : heap base freep lo m R hi → (0 < length R)%nat.
Proof. intros [(L & -> & _) _ _ _ _]. cbn. lia. Qed.

Lemma next_spec R i : (i < length R)%nat → (S i < length R ∧ next R i = S i ∨ S i = length R ∧ next R i = 0)%nat.
Proof.
  intros Hi. unfold next. destruct (decide (S i = length R)) as [E|E].
  - right. split; [done|]. rewrite E. apply Nat.Div0.mod_same.
  - left. split; [lia|]. apply Nat.mod_small. lia.
Qed.

Lemma next_lt R i : (i < length R)%nat → (next R i < length R)%nat.
Proof. intros Hi. unfold next. apply Nat.mod_upper_bound. lia. Qed.

(** Following the pointer of an element is going to the next one. *)
Lemma heap_next m R hi i : heap base freep lo m R hi → (i < length R)%nat →
  h_ptr m (baddr R i) = baddr R (next R i) ∧ h_size m (baddr R i) = (R !!! i).2.
Proof.
  intros [(L & E & _) Hc Hs _ _] Hi. pose proof (lookup_baddr R i Hi) as Hb.
  destruct (lseg_lookup _ _ _ _ _ Hs Hb) as [H1 H2]. split; [|done]. cbn in H2. rewrite H2.
  destruct (next_spec R i Hi) as [[Hl ->]|[Hl ->]].
  - rewrite (lookup_baddr R (S i) Hl). done.
  - rewrite lookup_ge_None_2 by lia. rewrite E. done.
Qed.

Lemma heap_lt m R hi i j : heap base freep lo m R hi → (i < j < length R)%nat → baddr R i < baddr R j.
Proof.
  intros H [Hi Hj]. pose proof (chain_lt _ _ _ _ _ _ _ (hp_chain _ _ _ _ _ _ H) (lookup_baddr R i ltac:(lia)) (lookup_baddr R j Hj) Hi) as Hlt.
  unfold fin in Hlt. cbn in Hlt. lia.
Qed.

(** The place of a new block [bp] is after element [j]. *)
Definition place R (bp : Z) (j : nat) : Prop :=
  (j < length R)%nat ∧ baddr R j < bp ∧ ((S j < length R)%nat → bp < baddr R (S j)).

Lemma place_exists m R hi bp : heap base freep lo m R hi → base < bp →
  (∀ i, (i < length R)%nat → baddr R i ≠ bp) → ∃ j, place R bp j.
Proof.
  intros Hh Hbp Hne. assert (∀ n, (n < length R)%nat → ∃ j, (j ≤ n)%nat ∧ baddr R j < bp ∧ ((S j ≤ n)%nat → bp < baddr R (S j))) as Hn.
  { induction n as [|n IH]; intros Hn.
    - exists 0%nat. split; [lia|]. split; [|lia]. destruct Hh as [(L & -> & _) _ _ _ _]. done.
    - destruct (IH ltac:(lia)) as (j & Hj & Hlt & Hgt). destruct (decide (baddr R (S n) < bp)) as [Hs|Hs].
      + exists (S n). split; [lia|]. split; [done|lia].
      + exists j. split; [lia|]. split; [done|]. intros Hjn. specialize (Hne (S n) ltac:(lia)).
        destruct (decide (S j = S n)) as [->|]; [lia|]. apply Hgt. lia. }
  pose proof (heap_len _ _ _ Hh). destruct (Hn (length R - 1)%nat ltac:(lia)) as (j & Hj & Hlt & Hgt). exists j.
  split; [lia|]. split; [done|]. intros ?. apply Hgt. lia.
Qed.

(** How far the search still has to go from element [i] to element [j]. *)
Definition dist R (i j : nat) : nat := if decide (i ≤ j)%nat then (j - i)%nat else (length R - i + j)%nat.

Lemma free_search_run m R hi bp j fuel : heap base freep lo m R hi → base < bp → place R bp j →
  (length R < fuel)%nat → free_search freep fuel bp m = Ok (baddr R j) m.
Proof.
  intros Hh Hbp (Hj & Hlt & Hgt) Hfuel. cut (wp (free_search freep fuel bp) (λ p m', p = baddr R j ∧ m' = m) m).
  { intros (p & m' & E & -> & ->)%wp_Ok. done. }
  unfold free_search. wp_step. wp_step. destruct (hp_freep _ _ _ _ _ _ Hh) as (k & Hk & ->).
  assert (baddr R 0 = base) as E0 by (destruct (hp_base _ _ _ _ _ _ Hh) as (L & -> & _); done).
  apply (wp_loop (λ p m', ∃ i, (i < length R)%nat ∧ p = baddr R i ∧ m' = m)
    (λ p _, match list_find (λ b, b.1 = p) R with Some (i, _) => dist R i j | None => 0%nat end)).
  2: by exists k.
  2: { destruct (list_find _ R) as [[i b]|] eqn:E; [|lia]. apply list_find_Some in E as (E & _). apply lookup_lt_Some in E.
       unfold dist. case_decide; lia. }
  assert (∀ i, (i < length R)%nat → list_find (λ b, b.1 = baddr R i) R = Some (i, (baddr R i, (R !!! i).2))) as Hfind.
  { intros i Hi. apply list_find_Some. split_and!; [by apply lookup_baddr|done|]. intros i' y Hy Hlt'. rewrite <- (baddr_lookup _ _ _ Hy).
    pose proof (heap_lt _ _ _ i' i Hh ltac:(lia)). lia. }
  intros p m' (i & Hi & -> & ->). wp_step. destruct (heap_next _ _ _ i Hh Hi) as [-> _].
  pose proof (next_lt R i Hi) as Hn. rewrite !Hfind by done.
  assert (baddr R (next R i) ≤ baddr R i → S i = length R ∧ next R i = 0%nat) as Hwrap.
  { intros Hle. destruct (next_spec R i Hi) as [[Hl E]|[Hl E]]; [|done]. rewrite E in Hle. pose proof (heap_lt _ _ _ i (S i) Hh ltac:(lia)). lia. }
  destruct (lt_eq_lt_dec i j) as [[Hij|Hij]|Hij].
  - (* before the place *)
    destruct (next_spec R i Hi) as [[Hl E]|[Hl E]]; [|lia]. rewrite E in *.
    assert (baddr R (S i) < bp) as Hnb by (destruct (decide (S i = j)) as [->|]; [done|pose proof (heap_lt _ _ _ (S i) j Hh ltac:(lia)); lia]).
    pose proof (heap_lt _ _ _ i (S i) Hh ltac:(lia)) as Hlt'.
    rewrite (proj2 (Z.ltb_ge bp _)), andb_false_r, (proj2 (Z.leb_gt _ _)) by lia. cbn [andb].
    rewrite Hfind by done. split; [by exists (S i)|]. unfold dist. repeat case_decide; lia.
  - (* there *)
    subst i. rewrite (proj2 (Z.ltb_lt (baddr R j) bp)) by done. cbn [andb orb]. rewrite andb_true_r.
    destruct (Z.ltb_spec bp (baddr R (next R j))) as [Hx|Hx]; [done|].
    rewrite (proj2 (Z.leb_le _ _)); [done|]. destruct (next_spec R j Hj) as [[Hl E]|[Hl E]]; rewrite E in *; [specialize (Hgt Hl); lia|].
    destruct (decide (j = 0%nat)) as [->|]; [lia|]. pose proof (heap_lt _ _ _ 0 j Hh ltac:(lia)). lia.
  - (* past it *)
    assert (bp < baddr R i) as Hib by (specialize (Hgt ltac:(lia)); destruct (decide (i = S j)) as [->|]; [done|pose proof (heap_lt _ _ _ (S j) i Hh ltac:(lia)); lia]).
    rewrite (proj2 (Z.ltb_ge (baddr R i) bp)) by lia. cbn [andb orb].
    destruct (next_spec R i Hi) as [[Hl E]|[Hl E]]; rewrite E in *.
    + pose proof (heap_lt _ _ _ i (S i) Hh ltac:(lia)) as Hlt'. rewrite (proj2 (Z.leb_gt _ _)) by lia. cbn [andb].
      rewrite Hfind by done. split; [by exists (S i)|]. unfold dist. repeat case_decide; lia.
    + rewrite E0. rewrite (proj2 (Z.ltb_ge bp base)), andb_false_r by lia. rewrite <- E0, Hfind by lia. split; [exists 0%nat; split; [lia|done]|]. unfold dist. repeat case_decide; lia.
Qed.

(** ** free *)
Lemma chain_relo l l' R hi : chain l R hi → (∀ b, head R = Some b → l' < b.1) → l' ≤ hi → chain l' R hi.
Proof. destruct R as [|b R]; cbn; [done|]. intros (H1 & H2 & H3) Hb _. split; [by apply Hb|done]. Qed.

Lemma plus_small p n : 0 ≤ p + 16 * n < 2 ^ 64 → plus p n = p + 16 * n.
Proof. intros H. unfold plus, sizeof_Header. rewrite u64_small; lia. Qed.

Lemma h_size_st m p v : 0 ≤ v < 2 ^ 32 → h_size (st 4 m (p + 8) v) p = v.
Proof. intros H. apply (ld_st_eq 4). exact H. Qed.
Lemma h_ptr_st m p v : 0 ≤ v < 2 ^ 64 → h_ptr (st64 m p v) p = v.
Proof. intros H. apply (ld_st_eq 8). exact H. Qed.

Definition apart (a b : Z) : Prop := a + 16 ≤ b ∨ b + 16 ≤ a.

(** [m'] differs from [m] only in the header at [p]. *)
Definition only (p : Z) (m m' : mem) : Prop := ∀ x, ¬ (p ≤ x < p + 12) → rd m' x = rd m x.

Lemma only_ptr p v m : only p m (st64 m p v).
Proof. intros x Hx. apply rd_st_out. lia. Qed.
Lemma only_size p v m : only p m (st 4 m (p + 8) v).
Proof. intros x Hx. apply rd_st_out. lia. Qed.
Lemma only_trans p m m' m'' : only p m m' → only p m' m'' → only p m m''.
Proof. intros H1 H2 x Hx. by rewrite H2, H1. Qed.

Lemma only_lseg p m m' R e : only p m m' → (∀ b, b ∈ R → apart b.1 p) → lseg m R e → lseg m' R e.
Proof. intros H Ha. apply lseg_frame. intros b x Hb Hx. apply H. specialize (Ha b Hb). unfold apart in Ha. lia. Qed.

Lemma only_size_ne p q m m' : only p m m' → apart q p → h_size m' q = h_size m q.
Proof. intros H Ha. apply ld_ext. intros x Hx. apply H. unfold apart in Ha. lia. Qed.
Lemma only_ptr_ne p q m m' : only p m m' → apart q p → h_ptr m' q = h_ptr m q.
Proof. intros H Ha. apply ld_ext. intros x Hx. apply H. unfold apart in Ha. lia. Qed.

Lemma size_of_ptr p v m : h_size (st64 m p v) p = h_size m p.
Proof. apply ld_st_ne. lia. Qed.
Lemma ptr_of_size p v m : h_ptr (st 4 m (p + 8) v) p = h_ptr m p.
Proof. apply ld_st_ne. lia. Qed.

(** Joining [bp] with the block [q] that follows the place, or linking it to [q]. *)
Lemma free_upper m bp n p q R2 :
  h_size m bp = n → h_ptr m p = hda R2 base → lseg m R2 base → q = hda R2 base →
  apart p bp → (∀ c, c ∈ R2 → apart c.1 bp) → base < bp →
  0 ≤ n → 0 < bp → bp + 16 * n ≤ 2 ^ 36 → (∀ c, c ∈ R2 → 0 ≤ c.2 ∧ bp + 16 * (n + c.2) ≤ 2 ^ 36) → (0 ≤ q < 2 ^ 64) →
  (∀ c, c ∈ R2 → 0 ≤ c.1 < 2 ^ 64) →
  wp (if plus bp (h_size m bp) =? h_ptr m p then
        set_size bp (u32 (h_size m bp + h_size m (h_ptr m p))) ;;
        do m <- get;
        set_ptr bp (h_ptr m (h_ptr m p))
      else set_ptr bp (h_ptr m p))
    (λ _ m1, only bp m m1 ∧ ∃ n1 R2', lseg m1 ((bp, n1) :: R2') base ∧
       (n1 = n ∧ R2' = R2 ∧ bp + 16 * n ≠ q ∨ ∃ k, R2 = (bp + 16 * n, k) :: R2' ∧ n1 = n + k)) m.
Proof.
  intros Hn Hp Hs Eq Hap Ha Hb Hn0 Hbp0 Hfit Hfit2 Hq Hq2. subst q. rewrite Hn, Hp, plus_small by lia.
  destruct (Z.eqb_spec (bp + 16 * n) (hda R2 base)) as [E|E].
  - destruct R2 as [|[c k] R2]; cbn in E; [lia|]. subst c. cbn [hda fst] in *. cbn in Hs. destruct Hs as (H1 & H2 & H3).
    pose proof (Ha _ (list_elem_of_here _ _)) as Hac. destruct (Hfit2 _ (list_elem_of_here _ _)) as [Hk Hnk]. cbn in *.
    rewrite H1, u32_small by lia. unfold set_size, set_ptr. wp_step. wp_step. wp_step. wp_step. wp_step.
    rewrite (only_ptr_ne bp p m), Hp, (only_ptr_ne bp _ m), H2 by (done || apply only_size).
    set (m0 := st 4 m _ _). assert (only bp m (st64 m0 bp (hda R2 base))) as Ho by (eapply only_trans; [apply only_size|apply only_ptr]).
    split; [done|]. exists (n + k), R2. split; [|right; by exists k]. cbn. split_and!.
    + rewrite size_of_ptr. apply h_size_st. lia.
    + apply h_ptr_st. destruct R2 as [|c R2]; [cbn; pose proof (st_base _ _ _ Hst); lia|]. apply (Hq2 c). right. left.
    + apply (only_lseg bp m); [done|intros c Hc; apply Ha; by right|done].
  - unfold set_ptr. wp_step. split; [apply only_ptr|]. exists n, R2. split; [|by left]. cbn. split_and!.
    + by rewrite size_of_ptr.
    + by apply h_ptr_st.
    + apply (only_lseg bp m); [apply only_ptr|done|done].
Qed.

(** Joining the result with the block [p] before it, or linking [p] to it. *)
Lemma free_lower m bp n p k R2 :
  lseg m ((bp, n) :: R2) base → h_size m p = k → apart p bp → (∀ c, c ∈ R2 → apart c.1 p) →
  0 ≤ n → 0 ≤ k → 0 < p → 0 ≤ bp < 2 ^ 64 → p + 16 * (k + n) ≤ 2 ^ 36 → 0 ≤ hda R2 base < 2 ^ 64 →
  wp (if plus p (h_size m p) =? bp then
        set_size p (u32 (h_size m p + h_size m bp)) ;;
        do m <- get;
        set_ptr p (h_ptr m bp)
      else set_ptr p bp)
    (λ _ m1, only p m m1 ∧ ∃ X, lseg m1 X base ∧
       (X = (p, k) :: (bp, n) :: R2 ∧ p + 16 * k ≠ bp ∨ X = (p, k + n) :: R2 ∧ p + 16 * k = bp)) m.
Proof.
  intros Hs Hk Hap Ha Hn0 Hk0 Hp0 Hb Hfit Hq. rewrite Hk, plus_small by lia. pose proof Hs as (H1 & H2 & H3). cbn in H1, H2.
  destruct (Z.eqb_spec (p + 16 * k) bp) as [E|E].
  - rewrite H1, u32_small by lia. unfold set_size, set_ptr. wp_step. wp_step. wp_step. wp_step. wp_step.
    assert (apart bp p) as Hap' by (unfold apart in *; lia).
    rewrite (only_ptr_ne p bp m), H2 by (done || apply only_size).
    set (m0 := st 4 m _ _). assert (only p m (st64 m0 p (hda R2 base))) as Ho by (eapply only_trans; [apply only_size|apply only_ptr]).
    split; [done|]. exists ((p, k + n) :: R2). split; [|by right]. cbn. split_and!.
    + rewrite size_of_ptr. apply h_size_st. lia.
    + by apply h_ptr_st.
    + by apply (only_lseg p m).
  - unfold set_ptr. wp_step. split; [apply only_ptr|]. exists ((p, k) :: (bp, n) :: R2). split; [|by left]. change (h_size (st64 m p bp) p = k ∧ h_ptr (st64 m p bp) p = bp ∧ lseg (st64 m p bp) ((bp, n) :: R2) base). split; [|split].
    + by rewrite size_of_ptr.
    + by apply h_ptr_st.
    + apply (only_lseg p m); [apply only_ptr| |exact Hs]. intros c [->|Hc]%elem_of_cons; [cbn; unfold apart in *; lia|by apply Ha].
Qed.

(** A block that can be given to the ring: in the heap and clear of the free blocks. *)
Record outer m R hi (b : blk) : Prop := {
  ou_size : 1 ≤ b.2;
  ou_lo : lo ≤ b.1;
  ou_hi : b.1 + 16 * b.2 ≤ hi;
  ou_mem : h_size m b.1 = b.2;
  ou_apart : ∀ c, c ∈ R → fin c ≤ b.1 ∨ b.1 + 16 * b.2 ≤ c.1
}.

(** The bytes that malloc and free may write: the two variables and the free blocks. *)
Definition static (x : Z) : Prop := freep ≤ x < freep + 8 ∨ base ≤ x < base + 16.

Lemma ring_elem m R hi c : heap base freep lo m R hi → c ∈ R → c = (base, 0) ∨ 1 ≤ c.2 ∧ lo ≤ c.1.
Proof.
  intros [(L & -> & HL) _ _ _ _] [->|Hc]%elem_of_cons; [by left|]. right. by apply (proj1 (Forall_forall _ _) HL).
Qed.

Lemma ring_bounds m R hi c : heap base freep lo m R hi → c ∈ R → base ≤ c.1 ∧ fin c ≤ hi ∧ 0 ≤ c.2.
Proof. intros Hh Hc. destruct (chain_elem _ _ _ c (hp_chain _ _ _ _ _ _ Hh) Hc) as (? & ? & ?). lia. Qed.

(** The ring cut at the place of a new block [b], after the block [(p, k)]. *)
Record cut m R hi (b : blk) R1 p k R2 mid : Prop := {
  cu_ring : R = R1 ++ (p, k) :: R2;
  cu_chain1 : chain (base - 1) R1 mid;
  cu_mid : mid < p;
  cu_chain2 : chain (p + 16 * Z.max 1 k) R2 hi;
  cu_below : p + 16 * Z.max 1 k ≤ b.1;
  cu_base : k = 0 → p = base ∧ p + 16 < b.1;
  cu_above : ∀ c, c ∈ R2 → b.1 + 16 * b.2 ≤ c.1;
  cu_seg1 : lseg m R1 p;
  cu_size : h_size m p = k;
  cu_ptr : h_ptr m p = hda R2 base;
  cu_seg2 : lseg m R2 base
}.

Lemma place_cut m R hi b j : heap base freep lo m R hi → outer m R hi b → place R b.1 j →
  ∃ R1 k R2 mid, cut m R hi b R1 (baddr R j) k R2 mid.
Proof.
  intros Hh Ho (Hj & Hlt & Hgt). pose proof (lookup_baddr R j Hj) as Hb. set (p := baddr R j) in *. set (k := (R !!! j).2) in *.
  pose proof (take_drop_middle R j _ Hb) as ER. set (R1 := take j R) in *. set (R2 := drop (S j) R) in *.
  pose proof (hp_chain _ _ _ _ _ _ Hh) as Hc. pose proof (hp_seg _ _ _ _ _ _ Hh) as Hs. rewrite <- ER in Hc, Hs.
  apply chain_app in Hc as (mid & Hc1 & Hc2). cbn in Hc2. destruct Hc2 as (Hm & Hk & Hc2).
  apply lseg_app in Hs as (Hs1 & Hs2). cbn in Hs2. destruct Hs2 as (Hs2 & Hs3 & Hs4).
  exists R1, k, R2, mid. assert ((p, k) ∈ R) as Hin by (apply list_elem_of_lookup; eauto).
  assert (p + 16 * Z.max 1 k ≤ b.1) as Hfin by (destruct (ou_apart _ _ _ _ Ho _ Hin) as [H|H]; unfold fin in H; cbn in H; [done|pose proof (ou_size _ _ _ _ Ho); lia]).
  split; try done.
  - intros ->. destruct (ring_elem _ _ _ _ Hh Hin) as [[= E]|[H _]]; [|cbn in H; lia]. rewrite E in *.
    pose proof (st_lo _ _ _ Hst). pose proof (ou_lo _ _ _ _ Ho). lia.
  - intros c Hc. assert (c ∈ R) as HcR by (rewrite <- ER; apply elem_of_app; right; by right).
    destruct (ou_apart _ _ _ _ Ho _ HcR) as [H|H]; [|done]. exfalso.
    apply list_elem_of_lookup in Hc as (i & Hi). unfold R2 in Hi. rewrite lookup_drop in Hi.
    assert (S j < length R)%nat as Hl by (apply lookup_lt_Some in Hi; lia). specialize (Hgt Hl).
    assert (baddr R (S j) ≤ c.1) as Hle.
    { destruct i as [|i]; [rewrite Nat.add_0_r in Hi; rewrite (baddr_lookup _ _ _ Hi); lia|].
      pose proof (heap_lt _ _ _ (S j) (S j + S i) Hh) as Hx. rewrite (baddr_lookup _ _ _ Hi) in Hx. apply lookup_lt_Some in Hi. specialize (Hx ltac:(lia)). lia. }
    unfold fin in H. pose proof (ou_size _ _ _ _ Ho). lia.
Qed.

(** What free makes of [b], the block [(p, k)] before it and the blocks [R2] after it. *)
Definition upper (b : blk) R2 (n : Z) R2' : Prop :=
  n = b.2 ∧ R2' = R2 ∧ b.1 + 16 * b.2 ≠ hda R2 base ∨ ∃ k, R2 = (b.1 + 16 * b.2, k) :: R2' ∧ n = b.2 + k.
Definition lower (a n p k : Z) R2' X : Prop :=
  X = (p, k) :: (a, n) :: R2' ∧ p + 16 * k ≠ a ∨ X = (p, k + n) :: R2' ∧ p + 16 * k = a.

Lemma upper_facts m R hi b R1 p k R2 mid n R2' : heap base freep lo m R hi → outer m R hi b → cut m R hi b R1 p k R2 mid → upper b R2 n R2' →
  (∀ c, c ∈ R2' → c ∈ R2) ∧ b.2 ≤ n ∧ b.1 + 16 * n ≤ hi ∧ chain (b.1 + 16 * n) R2' hi.
Proof.
  intros Hh [On Ol Oh Om Oa] [-> C1 Cm C2 Cb Ck Ca _ _ _ _] [(-> & -> & Hne)|(kk & -> & ->)].
  - split_and!; [done|lia|done|]. apply (chain_relo _ _ _ _ C2); [|lia]. intros c Hc. destruct R2 as [|c' R2]; [done|]. injection Hc as ->.
    specialize (Ca c ltac:(left)). cbn in Hne. lia.
  - cbn in C2. destruct C2 as (_ & Hkk & C2). pose proof (chain_le _ _ _ C2) as Hle. unfold fin in Hle, C2. cbn in Hle, C2.
    split_and!; [intros c Hc; by right|lia|lia|]. revert C2. apply chain_weaken; lia.
Qed.

(** The new ring is a ring again. *)
Lemma joined_ring m R hi b R1 p k R2 mid n R2' X : heap base freep lo m R hi → outer m R hi b → cut m R hi b R1 p k R2 mid →
  upper b R2 n R2' → lower b.1 n p k R2' X →
  (∃ L, R1 ++ X = (base, 0) :: L ∧ Forall (λ b, 1 ≤ b.2 ∧ lo ≤ b.1) L) ∧ chain (base - 1) (R1 ++ X) hi.
Proof.
  intros Hh Ho Hc HU HX. destruct (upper_facts _ _ _ _ _ _ _ _ _ _ _ Hh Ho Hc HU) as (Hsub & Hn & Hle & C3).
  pose proof (hp_base _ _ _ _ _ _ Hh) as (L & EL & HL). destruct Ho as [On Ol Oh Om Oa], Hc as [-> C1 Cm C2 Cb Ck Ca _ _ _ _], Hst as [Sb Sl _]. split.
  - destruct R1 as [|c R1]; cbn in EL.
    + injection EL as -> -> ->. destruct HX as [[-> Hne]|[_ HE]]; [|lia]. cbn. eexists. split; [done|].
      constructor; [cbn; lia|]. apply Forall_forall. intros c Hc. apply (proj1 (Forall_forall _ _) HL). by apply Hsub.
    + injection EL as -> <-. exists (R1 ++ X). split; [done|]. apply Forall_app in HL as [HL1 HL2].
      apply Forall_cons in HL2 as [HLp HL2]. apply Forall_app. split; [done|].
      assert (Forall (λ b : blk, 1 ≤ b.2 ∧ lo ≤ b.1) R2') as HL3 by (apply Forall_forall; intros c Hc; apply (proj1 (Forall_forall _ _) HL2), Hsub, Hc).
      destruct HX as [[-> _]|[-> _]]; repeat constructor; cbn in *; try lia; done.
  - apply chain_app. exists mid. split; [done|]. assert (0 ≤ k) as Hk0.
    { destruct (chain_elem _ _ _ (p, k) (hp_chain _ _ _ _ _ _ Hh)) as (_ & _ & H); [apply elem_of_app; right; left|done]. }
    destruct HX as [[-> Hne]|[-> HE]]; cbn; unfold fin; cbn.
    + split_and!; [lia|lia| |lia|]; [destruct (decide (k = 0)) as [E|]; [specialize (Ck E)|]; lia|]. by rewrite Z.max_r by lia.
    + split_and!; [lia|lia|]. apply (chain_weaken (b.1 + 16 * n) _ _ hi hi); [lia|lia|done].
Qed.

Lemma joined_covers R1 b p k R2 n R2' X x : upper b R2 n R2' → lower b.1 n p k R2' X → 0 ≤ k → 0 ≤ b.2 → b.2 ≤ n →
  covers (R1 ++ X) x ↔ covers (R1 ++ (p, k) :: R2) x ∨ inb b x.
Proof.
  intros HU HX Hk Hb Hn. unfold covers. rewrite !Exists_app, Exists_cons. unfold inb at 2.
  destruct HU as [(-> & -> & _)|(kk & -> & ->)], HX as [[-> _]|[-> HE]]; rewrite !Exists_cons; unfold inb; cbn [fst snd]; intuition lia.
Qed.

Lemma joined_size R1 b p k R2 n R2' X : upper b R2 n R2' → lower b.1 n p k R2' X → 0 ≤ k → b.2 ≤ n →
  (∃ c, c ∈ R1 ++ X ∧ b.2 ≤ c.2) ∧ (length (R1 ++ X) ≤ S (length (R1 ++ (p, k) :: R2)))%nat.
Proof.
  intros HU HX Hk Hn. split.
  - destruct HX as [[-> _]|[-> _]]; [exists (b.1, n)|exists (p, k + n)]; rewrite elem_of_app, !elem_of_cons; cbn; (split; [tauto|lia]).
  - rewrite !length_app. destruct HX as [[-> _]|[-> _]], HU as [(_ & -> & _)|(kk & -> & _)]; cbn; lia.
Qed.

(** The writes of free: the headers at [b] and at [p], then freep. *)
Lemma free_writes m R hi b R1 p k R2 mid m1 m2 X :
  heap base freep lo m R hi → outer m R hi b → cut m R hi b R1 p k R2 mid → only b.1 m m1 → only p m1 m2 → lseg m2 X base →
  (∃ Y, X = (p, (hd (p, 0) X).2) :: Y ∧ ∀ c, c ∈ Y → lo ≤ c.1) →
  let m3 := st64 m2 freep p in
  lseg m3 (R1 ++ X) base ∧ (∃ i, (i < length (R1 ++ X))%nat ∧ ld64 m3 freep = baddr (R1 ++ X) i) ∧
  ∀ x, ¬ covers R x → ¬ inb b x → ¬ static x → rd m3 x = rd m x.
Proof.
  intros Hh Ho Hc O1 O2 SX (Y & EX & HY) m3. pose proof (hp_hi _ _ _ _ _ _ Hh) as Hhi. pose proof Hst as [Sb Sl (Sf1 & Sf2 & Sf3)].
  assert (∀ x, ¬ (freep ≤ x < freep + 8) → rd m3 x = rd m2 x) as O3 by (intros x Hx; apply rd_st_out; lia).
  pose proof Hc as [ER C1 Cm C2 Cb Ck Ca S1 _ _ _]. destruct Ho as [On Ol Oh Om Oa].
  assert ((p, k) ∈ R) as Hp by (rewrite ER; apply elem_of_app; right; left). pose proof (ring_bounds _ _ _ _ Hh Hp) as (P1 & P2 & P3). unfold fin in P2. cbn in P1, P2, P3.
  assert (p = base ∨ lo ≤ p) as Hplo by (destruct (ring_elem _ _ _ _ Hh Hp) as [[= ? _]|[_ ?]]; auto).
  split_and!.
  - apply lseg_app. rewrite EX at 1. cbn [hda fst]. split.
    + apply (lseg_frame m); [|done]. intros c x Hc' Hx. destruct (chain_elem _ _ _ c C1 Hc') as (H1 & H2 & _). unfold fin in H2.
      assert (c ∈ R) as HcR by (rewrite ER; apply elem_of_app; by left). destruct (ring_elem _ _ _ _ Hh HcR) as [->|[_ Hlo]]; cbn in *; rewrite O3, O2, O1 by lia; done.
    + apply (lseg_frame m2); [|done]. intros c x Hc' Hx. apply O3. rewrite EX in Hc'. apply elem_of_cons in Hc' as [->|Hc']; cbn in *; [lia|]. specialize (HY c Hc'). lia.
  - exists (length R1). rewrite EX. split; [rewrite length_app; cbn; lia|]. unfold m3. rewrite (ld_st_eq 8) by (change (256 ^ Z.of_nat 8) with (2 ^ 64); lia). unfold baddr.
    by rewrite list_lookup_total_middle.
  - intros x Hx Hxb Hxs. unfold static in Hxs. rewrite O3 by lia. rewrite O2; [rewrite O1; [done|unfold inb in Hxb; lia]|].
    intros Hxp. apply Hx. rewrite ER. unfold covers. rewrite Exists_app, Exists_cons. right. left. unfold inb. cbn.
    destruct (decide (k = 0)) as [E|]; [|lia]. destruct (Ck E). exfalso. apply Hxs. right. lia.
Qed.

Lemma free_heap m R hi b fuel : heap base freep lo m R hi → outer m R hi b → (length R < fuel)%nat →
  wp (free freep fuel (b.1 + 16)) (λ _ m', ∃ R', heap base freep lo m' R' hi ∧
    (∀ x, covers R' x ↔ covers R x ∨ inb b x) ∧
    (∀ x, ¬ covers R x → ¬ inb b x → ¬ static x → rd m' x = rd m x) ∧
    (∃ c, c ∈ R' ∧ b.2 ≤ c.2) ∧ (length R' ≤ S (length R))%nat) m.
Proof.
  intros Hh Ho Hfuel. pose proof Ho as [On Ol Oh Om Oa]. pose proof (hp_hi _ _ _ _ _ _ Hh) as Hhi. pose proof Hst as [Sb Sl _].
  destruct (place_exists m R hi b.1) as (j & Hj); [done|lia| |].
  { intros i Hi E. pose proof (lookup_baddr R i Hi) as Hb. rewrite E in Hb. apply list_elem_of_lookup_2 in Hb.
    destruct (Oa _ Hb) as [H|H]; unfold fin in H; cbn in H; lia. }
  destruct (place_cut m R hi b j Hh Ho Hj) as (R1 & k & R2 & mid & Hc). set (p := baddr R j) in *. pose proof Hc as [ER _ _ C2 Cb _ Ca _ Lk Lp L2].
  assert ((p, k) ∈ R) as Hp by (rewrite ER; apply elem_of_app; right; left). destruct (ring_bounds _ _ _ _ Hh Hp) as (P1 & _ & P3). cbn in P1, P3.
  assert (∀ c, c ∈ R2 → b.1 + 16 * b.2 ≤ c.1 ∧ c.1 + 16 * Z.max 1 c.2 ≤ hi ∧ 0 ≤ c.2) as A2.
  { intros c Hc'. destruct (chain_elem _ _ _ c C2 Hc') as (_ & H & H'). specialize (Ca c Hc'). unfold fin in H. lia. }
  unfold free. assert (plus (b.1 + 16) (-1) = b.1) as -> by (rewrite plus_small; lia).
  wp_step. eapply wp_of_Ok; [apply (free_search_run m R hi b.1 j fuel Hh ltac:(lia) Hj Hfuel)|]. fold p. wp_step. wp_step. wp_step.
  assert (∀ R', (∀ c, c ∈ R' → c ∈ R2) → 0 ≤ hda R' base < 2 ^ 64) as Hq by (intros [|c R'] H; cbn; [lia|]; destruct (A2 c (H c ltac:(left))); lia).
  eapply wp_mono; [apply (free_upper m b.1 b.2 p _ R2 Om Lp L2 eq_refl)|]; try (unfold apart; lia).
  1-2: intros c Hc'; destruct (A2 c Hc'); unfold apart; lia.
  { by apply Hq. }
  { intros c Hc'; destruct (A2 c Hc'); lia. }
  intros [] m1 (O1 & n & R2' & S1 & HU). change (upper b R2 n R2') in HU. wp_step. wp_step. wp_step.
  destruct (upper_facts _ _ _ _ _ _ _ _ _ _ _ Hh Ho Hc HU) as (Hsub & N1 & N2 & _).
  eapply wp_mono; [apply (free_lower m1 b.1 n p k R2' S1)|]; try (unfold apart; lia).
  { rewrite (only_size_ne b.1 p m m1 O1); [done|]. unfold apart. lia. }
  { intros c Hc'%Hsub. destruct (A2 c Hc'). unfold apart. lia. }
  { by apply Hq. }
  intros [] m2 (O2 & X & SX & HX). change (lower b.1 n p k R2' X) in HX. wp_step.
  destruct (joined_ring _ _ _ _ _ _ _ _ _ _ _ _ Hh Ho Hc HU HX) as [J1 J2].
  destruct (free_writes m R hi b R1 p k R2 mid m1 m2 X Hh Ho Hc O1 O2 SX) as (W1 & W2 & W3).
  { destruct HX as [[-> _]|[-> _]]; cbn; eexists; (split; [done|]); [intros c [->|Hc']%elem_of_cons; [done|]|intros c Hc']; destruct (A2 c (Hsub c Hc')); lia. }
  exists (R1 ++ X). rewrite ER in *. split_and!; [by split|intros x; by eapply joined_covers; eauto; lia|done|..]; by eapply joined_size.
Qed.

(** ** Taking a block from the ring *)
Definition taken R R' (b : blk) : Prop := ∀ x, (covers R' x ↔ covers R x ∧ ¬ inb b x) ∧ (inb b x → covers R x).

(** The new ring after the block [(p, n)] was cut down to [Y], empty or what is left of it. *)
Lemma take_heap m m' R hi R1 pp kk p n R2 Y : heap base freep lo m R hi → R = R1 ++ (pp, kk) :: (p, n) :: R2 →
  (Y = [] ∨ ∃ k, Y = [(p, k)] ∧ 1 ≤ k ≤ n) → 1 ≤ n →
  (∀ x, ¬ (pp ≤ x < pp + 12) → ¬ (p ≤ x < p + 16 * n) → ¬ (freep ≤ x < freep + 8) → rd m' x = rd m x) →
  h_size m' pp = kk → lseg m' Y (hda R2 base) → h_ptr m' pp = hda Y (hda R2 base) → ld64 m' freep = pp →
  heap base freep lo m' (R1 ++ (pp, kk) :: Y ++ R2) hi.
Proof.
  intros Hh ER HY Hn Hm Hk HsY Hpp Hf. pose proof Hst as [Sb Sl (Sf1 & Sf2 & Sf3)].
  pose proof (hp_chain _ _ _ _ _ _ Hh) as Hc. rewrite ER in Hc. apply chain_app in Hc as (mid & C1 & C2). cbn in C2.
  destruct C2 as (C2 & C3 & C4 & C5 & C6). unfold fin in C4, C6. cbn in C4, C6. rewrite (Z.max_r 1 n) in C6 by lia.
  assert (∀ c x, c ∈ R1 ++ R2 → c.1 ≤ x < c.1 + 12 → rd m' x = rd m x) as Hfr.
  { intros c x Hc Hx. assert (c ∈ R) as HcR by (rewrite ER; apply elem_of_app in Hc as [?|?]; apply elem_of_app; [by left|right; by do 2 right]).
    pose proof (ring_elem _ _ _ _ Hh HcR) as Hlo. assert (c.1 = base ∨ lo ≤ c.1) as Hlo' by (destruct Hlo as [->|[_ ?]]; auto).
    apply elem_of_app in Hc as [Hc|Hc]; [destruct (chain_elem _ _ _ c C1 Hc) as (_ & H & _)|destruct (chain_elem _ _ _ c C6 Hc) as (H & _ & _)]; unfold fin in *; apply Hm; lia. }
  destruct Hh as [(L & EL & HL) _ Hs _ Hhi]. rewrite ER in Hs. apply lseg_app in Hs as [S1 S2]. cbn in S1, S2. destruct S2 as (_ & _ & _ & _ & S2).
  split; [| | | |done].
  - rewrite ER in EL. destruct R1 as [|c R1]; cbn in EL |- *; [injection EL as -> -> <-|injection EL as -> <-]; eexists; (split; [done|]).
    + apply Forall_cons in HL as [[H1 H2] HL]. destruct HY as [->|(k & -> & Hk')]; cbn; [done|]. constructor; [cbn in *; lia|done].
    + apply Forall_app in HL as [HL1 HL2]. apply Forall_cons in HL2 as [H1 HL2]. apply Forall_cons in HL2 as [H2 HL2]. apply Forall_app. split; [done|].
      constructor; [done|]. destruct HY as [->|(k & -> & Hk')]; cbn; [done|]. constructor; [cbn in *; lia|done].
  - apply chain_app. exists mid. split; [done|]. cbn. split; [done|]. split; [done|]. unfold fin at 1. cbn.
    destruct HY as [->|(k & -> & Hk')]; cbn; [|split; [lia|]; split; [lia|]; unfold fin; cbn]; revert C6; apply chain_weaken; lia.
  - apply lseg_app. cbn. split; [apply (lseg_frame m); [|exact S1]; intros c x Hc; apply Hfr, elem_of_app; by left|].
    rewrite hda_app. split; [done|]. split; [done|]. apply lseg_app. split; [done|]. apply (lseg_frame m); [|done]. intros c x Hc. apply Hfr, elem_of_app. by right.
  - exists (length R1). rewrite length_app. cbn. split; [lia|]. unfold baddr. by rewrite list_lookup_total_middle.
Qed.

Lemma take_covers base' R1 pp kk p n R2 hi nu Y a : chain base' (R1 ++ (pp, kk) :: (p, n) :: R2) hi → 1 ≤ nu ≤ n →
  (Y = [] ∧ nu = n ∧ a = p ∨ Y = [(p, n - nu)] ∧ a = p + 16 * (n - nu)) →
  taken (R1 ++ (pp, kk) :: (p, n) :: R2) (R1 ++ (pp, kk) :: Y ++ R2) (a, nu).
Proof.
  intros (mid & C1 & C2 & C3 & C4 & C5 & C6)%chain_app Hnu HY x. unfold fin in C4, C6. cbn in C2, C3, C4, C5, C6. rewrite (Z.max_r 1 n) in C6 by lia.
  assert (∀ c, c ∈ R1 ++ R2 → inb c x → ¬ (p ≤ x < p + 16 * n)) as Ho.
  { intros c Hc Hx. unfold inb in Hx. apply elem_of_app in Hc as [Hc|Hc].
    - destruct (chain_elem _ _ _ c C1 Hc) as (_ & H & _). unfold fin in H. lia.
    - destruct (chain_elem _ _ _ c C6 Hc) as (H & _ & _). lia. }
  assert (Exists (λ b, inb b x) R1 ∨ Exists (λ b, inb b x) R2 → ¬ (p ≤ x < p + 16 * n)) as Ho'.
  { intros [H|H]; apply Exists_exists in H as (c & Hc & H); apply (Ho c); [apply elem_of_app; by left|done|apply elem_of_app; by right|done]. }
  unfold covers. rewrite !Exists_app, !Exists_cons, !Exists_app.
  destruct HY as [(-> & -> & ->)|(-> & ->)]; rewrite ?Exists_nil, ?Exists_cons, ?Exists_nil; unfold inb in *; cbn [fst snd] in *; intuition lia.
Qed.

Lemma malloc_take_run m R hi R1 pp kk p n R2 nu : heap base freep lo m R hi → R = R1 ++ (pp, kk) :: (p, n) :: R2 → 1 ≤ nu ≤ n →
  wp (malloc_take freep nu pp p) (λ r m', ∃ a R', r = a + 16 ∧ lo ≤ a ∧ a + 16 * nu ≤ hi ∧ heap base freep lo m' R' hi ∧ taken R R' (a, nu) ∧
    h_size m' a = nu ∧ ∀ x, ¬ covers R x → ¬ static x → rd m' x = rd m x) m.
Proof.
  intros Hh ER Hnu. pose proof Hst as [Sb Sl (Sf1 & Sf2 & Sf3)]. pose proof (hp_hi _ _ _ _ _ _ Hh) as Hhi.
  assert ((p, n) ∈ R) as Hp by (rewrite ER; apply elem_of_app; right; right; left). assert ((pp, kk) ∈ R) as Hpp by (rewrite ER; apply elem_of_app; right; left).
  destruct (ring_bounds _ _ _ _ Hh Hp) as (P1 & P2 & _). unfold fin in P2. cbn in P1, P2. rewrite Z.max_r in P2 by lia.
  destruct (ring_elem _ _ _ _ Hh Hp) as [[= _ ->]|[_ Plo]]; [lia|]. cbn in Plo.
  pose proof (ring_elem _ _ _ _ Hh Hpp) as Qlo. pose proof (hp_chain _ _ _ _ _ _ Hh) as Hc. pose proof (hp_seg _ _ _ _ _ _ Hh) as Hs. rewrite ER in Hc, Hs.
  apply chain_app in Hc as (mid & C1 & C2 & C3 & C4 & C5 & C6). unfold fin in C4. cbn in C2, C4. pose proof (chain_le _ _ _ C1).
  apply lseg_app in Hs as (S1 & S2 & S3 & S4 & S5 & S6). cbn in S2, S3, S4, S5.
  assert (0 ≤ hda R2 base < 2 ^ 64) as Hq by (destruct R2 as [|c R2]; cbn; [lia|]; destruct (chain_elem _ _ _ c C6) as (H1 & H2 & H3); [left|unfold fin in *; cbn in *; lia]).
  assert (∀ m' : mem, (∀ x, ¬ (pp ≤ x < pp + 12) → ¬ (p ≤ x < p + 16 * n) → ¬ (freep ≤ x < freep + 8) → rd m' x = rd m x) → ∀ x, ¬ covers R x → ¬ static x → rd m' x = rd m x) as Hfr.
  { intros m' H' x Hx Hxs. unfold static in Hxs. apply H'; [| |lia]; intros Hxx.
    - destruct Qlo as [[= -> ->]|[Q _]]; [lia|]. cbn in Q. apply Hx, Exists_exists. exists (pp, kk). split; [done|]. unfold inb. cbn. lia.
    - apply Hx, Exists_exists. exists (p, n). split; [done|]. exact Hxx. }
  assert (pp + 16 ≤ freep ∨ freep + 8 ≤ pp) as Qf by (destruct Qlo as [[= -> ->]|[_ Q]]; cbn in *; lia).
  unfold malloc_take. wp_step. wp_step. rewrite S4. wp_step. destruct (Z.eqb_spec n nu) as [<-|E].
  - unfold set_ptr. wp_step. wp_step. wp_step. wp_step. wp_step. wp_step. rewrite plus_small, S5 by lia. set (m1 := st64 m pp _). set (m2 := st64 m1 freep pp).
    assert (∀ x, ¬ (pp ≤ x < pp + 12) → ¬ (p ≤ x < p + 16 * n) → ¬ (freep ≤ x < freep + 8) → rd m2 x = rd m x) as Hm by (intros x H1 H2 H3; unfold m2, m1; rewrite !rd_st_out by lia; done).
    exists p, (R1 ++ (pp, kk) :: [] ++ R2). split_and!; [lia|done|lia| | | |by apply Hfr].
    + apply (take_heap m m2 R hi R1 pp kk p n R2 []); try done; [by left|lia| | |].
      * unfold h_size, m2, m1. rewrite !ld_st_ne by lia. done.
      * unfold h_ptr, m2, m1. rewrite ld_st_ne by lia. by apply (ld_st_eq 8).
      * unfold m2. apply (ld_st_eq 8). change (256 ^ Z.of_nat 8) with (2 ^ 64). lia.
    + rewrite ER. eapply take_covers; [rewrite <- ER; apply Hh|done|by left].
    + unfold h_size, m2, m1. rewrite !ld_st_ne by lia. done.
  - unfold set_size. wp_step. wp_step. wp_step. wp_step. wp_step. wp_step. wp_step. wp_step. wp_step. wp_step.
    rewrite (u32_small (n - nu)), h_size_st by lia. set (a := p + 16 * (n - nu)). rewrite !(plus_small p) by lia. fold a. rewrite plus_small by lia.
    set (m1 := st 4 m _ _). set (m2 := st 4 m1 _ _). set (m3 := st64 m2 freep pp).
    assert (∀ x, ¬ (pp ≤ x < pp + 12) → ¬ (p ≤ x < p + 16 * n) → ¬ (freep ≤ x < freep + 8) → rd m3 x = rd m x) as Hm by (intros x H1 H2 H3; unfold m3, m2, m1, a; rewrite !rd_st_out by lia; done).
    exists a, (R1 ++ (pp, kk) :: [(p, n - nu)] ++ R2). split_and!; [lia|lia|lia| | | |by apply Hfr].
    + apply (take_heap m m3 R hi R1 pp kk p n R2 [(p, n - nu)]); try done; [right; exists (n - nu); split; [done|lia]|lia| | | |].
      * unfold h_size, m3, m2, m1. rewrite !ld_st_ne by lia. done.
      * cbn. split_and!; [|unfold h_ptr, m3, m2, m1; by rewrite !ld_st_ne by lia|done].
        unfold h_size, m3, m2, m1. rewrite !(ld_st_ne 4) by lia. apply (ld_st_eq 4). change (256 ^ Z.of_nat 4) with (2 ^ 32). lia.
      * unfold h_ptr, m3, m2, m1. rewrite !ld_st_ne by lia. done.
      * unfold m3. apply (ld_st_eq 8). change (256 ^ Z.of_nat 8) with (2 ^ 64). lia.
    + rewrite ER. eapply take_covers; [rewrite <- ER; apply Hh|done|by right].
    + unfold h_size, m3, m2. rewrite ld_st_ne by lia. apply (ld_st_eq 4). change (256 ^ Z.of_nat 4) with (2 ^ 32). lia.
Qed.
End ring.

(** ** malloc

    What the allocator relies on of sbrk with a number of bytes that is not negative: it
    fails and changes nothing, or it returns the old break and moves it up; the memory
    below the old break stays. The break stays below [2 ^ 36]: the machine has 128 MB
    (memlayout.h), and sbrk fails when no page is left. *)
Class SbrkLaw (S : Type) `{!UserSys S} : Type := {
  brk : S → Z;
  sb_view s m : view u_mem (over u_mem m s) = m;
  sb_brk s m : brk (over u_mem m s) = brk s;
  sb_sbrk n s : 0 ≤ n < 2 ^ 31 → ∃ r s', User.sbrk n s = Ok r s' ∧
    (r = SBRK_ERROR ∧ brk s' = brk s ∧ view u_mem s' = view u_mem s ∨
     r = brk s ∧ brk s' = brk s + n ∧ brk s' ≤ 2 ^ 36 ∧ ∀ x, x < brk s → rd (view u_mem s') x = rd (view u_mem s) x)
}.

Section malloc.
Context (base freep lo : Z) (Hst : statics base freep lo).
Context {S : Type} `{!UserSys S, !SbrkLaw S}.
Implicit Types (s : S) (R : list blk).
Local Abbreviation heap s R := (heap base freep lo (view u_mem s) R (brk s)).
Local Abbreviation static := (static base freep).

(** A block of at least 4096 units joins the ring. *)
Lemma morecore_run s R nu fuel : heap s R → lo ≤ brk s → 1 ≤ nu < 2 ^ 27 → (length R < fuel)%nat →
  wp (morecore freep fuel nu) (λ r s',
    r = 0 ∧ brk s' = brk s ∧ view u_mem s' = view u_mem s ∨
    ∃ R' n k, nu ≤ n ∧ heap s' R' ∧ brk s' = brk s + 16 * n ∧ r = baddr R' k ∧ (k < length R')%nat ∧ 0 < r ∧
      ld64 (view u_mem s') freep = r ∧
      (∀ x, covers R' x ↔ covers R x ∨ inb (brk s, n) x) ∧ (∃ c, c ∈ R' ∧ nu ≤ c.2) ∧ (length R' ≤ Datatypes.S (length R))%nat ∧
      ∀ x, x < brk s → ¬ covers R x → ¬ static x → rd (view u_mem s') x = rd (view u_mem s) x) s.
Proof.
  intros Hh Hlo Hnu Hfuel. unfold morecore. set (n := if nu <? 4096 then 4096 else nu).
  assert (nu ≤ n ∧ 1 ≤ n < 2 ^ 27) as [Hn1 Hn2] by (unfold n; case_match; lia). pose proof (hp_hi _ _ _ _ _ _ Hh) as Hhi.
  pose proof (st_base _ _ _ Hst) as Hb. pose proof (st_lo _ _ _ Hst) as Hbl.
  unfold sizeof_Header. rewrite u64_small, i32_small by lia. destruct (sb_sbrk (n * 16) s) as (r & s1 & E & Hr); [lia|].
  wp_step. eapply wp_of_Ok; [exact E|]. destruct Hr as [(-> & H1 & H2)|(-> & H1 & H2 & H3)].
  - rewrite Z.eqb_refl. wp_step. by left.
  - destruct (Z.eqb_spec (brk s) SBRK_ERROR) as [E'|_]; [unfold SBRK_ERROR in E'; lia|]. unfold set_size. wp_step. wp_step. wp_step. wp_step.
    rewrite plus_small by lia. set (s2 := over u_mem _ s1). wp_step. rewrite Z.mul_1_r.
    assert (∀ x, x < brk s → rd (view u_mem s2) x = rd (view u_mem s) x) as Hm2 by (intros x Hx; unfold s2; rewrite sb_view, rd_st_out, H3; [done|lia|lia]).
    assert (Umalloc.heap base freep lo (view u_mem s2) R (brk s1)) as Hh2.
    { destruct Hh as [A1 A2 A3 (k & Hk & A4) A5]. split; [done| | |exists k; split; [done|]|lia].
      - revert A2. apply chain_weaken; lia.
      - apply (lseg_frame (view u_mem s)); [|done]. intros b x Hbb Hx. apply Hm2. destruct (chain_elem _ _ _ _ A2 Hbb) as (_ & H & _). unfold fin in H. lia.
      - rewrite <- A4. apply ld_ext. intros x Hx. apply Hm2. pose proof (st_freep _ _ _ Hst). lia. }
    assert (outer lo (view u_mem s2) R (brk s1) (brk s, n)) as Ho.
    { split; cbn; [lia|done|lia|unfold s2; rewrite sb_view; apply h_size_st; lia|]. intros c Hc. left.
      destruct (chain_elem _ _ _ _ (hp_chain _ _ _ _ _ _ Hh) Hc) as (_ & H & _). done. }
    wp_call (free_heap base freep lo Hst _ R (brk s1) (brk s, n) fuel Hh2 Ho Hfuel). intros [] m3 (R' & Hh3 & Hcov & Hm3 & (c & Hc & Hcn) & Hlen).
    wp_step. right. destruct (hp_freep _ _ _ _ _ _ Hh3) as (k & Hk & Ek). exists R', n, k. rewrite !sb_view, !sb_brk, Ek.
    pose proof (ring_bounds base freep lo _ _ _ _ Hh3 (list_elem_of_lookup_2 _ _ _ (lookup_baddr R' k Hk))) as (Hbk & _). cbn in Hbk, Hcn.
    assert (brk s2 = brk s1) as -> by apply sb_brk.
    split_and!; [done|done|lia|done|done|lia|done|done|exists c; split; [done|lia]|done|].
    intros x Hx Hx1 Hx2. rewrite Hm3, Hm2; [done|lia|done|unfold inb; cbn; lia|done].
Qed.

(** The end of an unsuccessful walk around the ring. *)
Definition malloc_more (fuel fuel' : nat) (nu : Z) : M S Z :=
  do p <- morecore freep fuel nu;
  if p =? 0 then ret 0 else do m <- gets (view u_mem); loop fuel' (malloc_step freep fuel nu) (p, h_ptr m p).

Lemma step_take s n fuel nu pp p : nu ≤ h_size (view u_mem s) p →
  loop (Datatypes.S n) (malloc_step freep fuel nu) (pp, p) s = zoom u_mem (malloc_take freep nu pp p) s.
Proof.
  intros H. cbn [loop]. unfold malloc_step at 1, bind, gets, ret. rewrite (proj2 (Z.leb_le _ _) H). by destruct (zoom _ _ s).
Qed.

Lemma step_more s n fuel nu pp p : h_size (view u_mem s) p < nu → p = ld64 (view u_mem s) freep →
  loop (Datatypes.S n) (malloc_step freep fuel nu) (pp, p) s = malloc_more fuel n nu s.
Proof.
  intros H E. cbn [loop]. unfold malloc_step at 1, malloc_more, bind, gets, ret. rewrite (proj2 (Z.leb_gt _ _) H), <- E, Z.eqb_refl.
  destruct (morecore _ _ _ s) as [q s'|]; [|done]. by destruct (q =? 0).
Qed.

Lemma step_next s n fuel nu pp p : h_size (view u_mem s) p < nu → p ≠ ld64 (view u_mem s) freep →
  loop (Datatypes.S n) (malloc_step freep fuel nu) (pp, p) s = loop n (malloc_step freep fuel nu) (p, h_ptr (view u_mem s) p) s.
Proof.
  intros H E%Z.eqb_neq. cbn [loop]. unfold malloc_step at 1, bind, gets, ret. by rewrite (proj2 (Z.leb_gt _ _) H), E.
Qed.

Lemma ring_mod (k d n : nat) : (k < n)%nat → (d < n)%nat → ((k + d) mod n = if decide (k + d < n) then k + d else k + d - n)%nat.
Proof.
  intros Hk Hd. case_decide; [by apply Nat.mod_small|]. symmetry. apply (Nat.mod_unique _ _ 1); lia.
Qed.

(** The walk from element [i] on finds a block, or comes to freep after [d] more elements. *)
Lemma malloc_scan s R f nu fuel : heap s R → ld64 (view u_mem s) freep = baddr R f → (f < length R)%nat → 1 ≤ nu →
  ∀ d i fuel', (i < length R)%nat → ((next R i + d) mod length R = f)%nat → (d < length R)%nat → (d < fuel')%nat →
  (∃ j, (Datatypes.S j < length R)%nat ∧ nu ≤ (R !!! Datatypes.S j).2 ∧
     loop fuel' (malloc_step freep fuel nu) (baddr R i, baddr R (next R i)) s =
     zoom u_mem (malloc_take freep nu (baddr R j) (baddr R (Datatypes.S j))) s) ∨
  (∀ e, (e ≤ d)%nat → (R !!! ((next R i + e) mod length R)%nat).2 < nu) ∧
     loop fuel' (malloc_step freep fuel nu) (baddr R i, baddr R (next R i)) s = malloc_more fuel (fuel' - Datatypes.S d) nu s.
Proof.
  intros Hh Hf Hfl Hnu. induction d as [|d IH]; intros i fuel' Hi Hd Hdl Hfu; (destruct fuel' as [|fuel']; [lia|]).
  all: pose proof (next_lt R i Hi) as Hn; destruct (heap_next _ _ _ _ _ _ _ Hh Hn) as [Ep Es].
  all: destruct (Z_le_gt_dec nu (R !!! next R i).2) as [Hle|Hgt].
  1, 3: left; exists i; assert (next R i = Datatypes.S i) as E by (destruct (next_spec R i Hi) as [[_ E]|[_ E]]; [done|]; exfalso;
    rewrite E in Hle; destruct (hp_base _ _ _ _ _ _ Hh) as (L & -> & _); cbn in Hle; lia);
    rewrite E in *; split; [done|]; split; [done|]; apply step_take; by rewrite Es.
  - right. rewrite Nat.add_0_r, Nat.mod_small in Hd by done. split.
    + intros e He. assert (e = 0%nat) as -> by lia. rewrite Nat.add_0_r, Nat.mod_small by done. lia.
    + cbn [Nat.sub]. rewrite Nat.sub_0_r. apply step_more; [rewrite Es; lia|]. by rewrite Hf, Hd.
  - assert (next R i ≠ f) as Hne.
    { intros E. rewrite ring_mod in Hd by lia. case_decide; lia. }
    assert (∀ e, ((next R (next R i) + e) mod length R = (next R i + Datatypes.S e) mod length R)%nat) as Hsh.
    { intros e. unfold next at 1. rewrite Nat.Div0.add_mod_idemp_l. f_equal. lia. }
    rewrite step_next; [|rewrite Es; lia|].
    2: { rewrite Hf. destruct (lt_eq_lt_dec (next R i) f) as [[H|H]|H]; [pose proof (heap_lt _ _ _ _ _ _ (next R i) f Hh ltac:(lia)); lia|done|pose proof (heap_lt _ _ _ _ _ _ f (next R i) Hh ltac:(lia)); lia]. }
    rewrite Ep. destruct (IH (next R i) fuel' Hn ltac:(by rewrite Hsh) ltac:(lia) ltac:(lia)) as [H|[H1 H2]]; [by left|right]. split; [|done].
    intros e He. destruct e as [|e]; [rewrite Nat.add_0_r, Nat.mod_small by done; lia|]. rewrite <- Hsh. apply H1. lia.
Qed.

(** malloc took the block [(a, nu)] from the free blocks and the memory it got from sbrk. *)
Record allocated s R nu a s' R' : Prop := {
  al_lo : lo ≤ a;
  al_hi : a + 16 * nu ≤ brk s';
  al_brk : brk s ≤ brk s';
  al_heap : heap s' R';
  al_size : h_size (view u_mem s') a = nu;
  al_covers x : covers R' x ↔ (covers R x ∨ brk s ≤ x < brk s') ∧ ¬ inb (a, nu) x;
  al_from x : inb (a, nu) x → covers R x ∨ brk s ≤ x < brk s';
  al_same x : x < brk s → ¬ covers R x → ¬ static x → rd (view u_mem s') x = rd (view u_mem s) x
}.

Lemma take_at s R j nu : heap s R → (Datatypes.S j < length R)%nat → 1 ≤ nu ≤ (R !!! Datatypes.S j).2 →
  wp (zoom u_mem (malloc_take freep nu (baddr R j) (baddr R (Datatypes.S j)))) (λ r s', ∃ a R', r = a + 16 ∧ allocated s R nu a s' R') s.
Proof.
  intros Hh Hj Hnu. pose proof (lookup_baddr R j ltac:(lia)) as H1. pose proof (lookup_baddr R _ Hj) as H2.
  assert (R = take j R ++ (baddr R j, (R !!! j).2) :: (baddr R (Datatypes.S j), (R !!! Datatypes.S j).2) :: drop (Datatypes.S (Datatypes.S j)) R) as ER
    by (by rewrite (drop_S _ _ _ H2) || (rewrite <- (drop_S R _ (Datatypes.S j) H2), take_drop_middle; done)).
  wp_step. wp_call (malloc_take_run base freep lo Hst _ R _ _ _ _ _ _ _ nu Hh ER Hnu).
  intros r m' (a & R' & -> & A1 & A2 & A3 & A4 & A5 & A6). exists a, R'. split; [done|].
  split; rewrite ?sb_view, ?sb_brk; try done.
  - intros x. destruct (A4 x) as [H _]. rewrite H. split; intros [Hx ?]; split; try done; [by left|]. destruct Hx; [done|lia].
  - intros x Hx. left. by apply (A4 x).
  - intros x _. apply A6.
Qed.

Lemma malloc_loop_run s R f nu fuel : heap s R → lo ≤ brk s → ld64 (view u_mem s) freep = baddr R f → (f < length R)%nat → 1 ≤ nu < 2 ^ 27 →
  (2 * length R + 2 < fuel)%nat →
  wp (loop fuel (malloc_step freep fuel nu) (baddr R f, baddr R (next R f))) (λ r s',
    r = 0 ∧ brk s' = brk s ∧ view u_mem s' = view u_mem s ∨ ∃ a R', r = a + 16 ∧ allocated s R nu a s' R') s.
Proof.
  intros Hh Hlo Hf Hfl Hnu Hfu.
  assert (∀ R f, (f < length R)%nat → ((next R f + (length R - 1)) mod length R = f)%nat) as Hround.
  { intros R0 f0 Hf0. rewrite ring_mod by (pose proof (next_lt R0 f0 Hf0); lia). destruct (next_spec R0 f0 Hf0) as [[? ->]|[? ->]]; case_decide; lia. }
  destruct (malloc_scan s R f nu fuel Hh Hf Hfl ltac:(lia) (length R - 1) f fuel Hfl (Hround _ _ Hfl)) as [(j & Hj & Hle & E)|[_ E]]; [lia|lia| |]; unfold wp; rewrite E; clear E.
  { pose proof (take_at s R j nu Hh Hj ltac:(lia)) as Ht. unfold wp in Ht. destruct (zoom _ _ s); [by right|done]. }
  set (fuel' := (fuel - Datatypes.S (length R - 1))%nat). assert (length R + 2 < fuel')%nat as Hfu' by lia. clearbody fuel'.
  fold (wp (malloc_more fuel fuel' nu) (λ r s', r = 0 ∧ brk s' = brk s ∧ view u_mem s' = view u_mem s ∨ ∃ a R', r = a + 16 ∧ allocated s R nu a s' R') s).
  unfold malloc_more. wp_step. wp_call (morecore_run s R nu fuel Hh Hlo Hnu); [lia|].
  intros r s1 [(-> & H1 & H2)|(R1 & n & k & Hn & Hh1 & Hb1 & -> & Hk & Hpos & Hfp & Hcov & (c & Hc & Hcn) & Hlen & Hsame)]; [rewrite Z.eqb_refl; wp_step; by left|].
  rewrite (proj2 (Z.eqb_neq _ _)) by lia. wp_step. wp_step. destruct (heap_next _ _ _ _ _ _ _ Hh1 Hk) as [-> _].
  destruct (malloc_scan s1 R1 k nu fuel Hh1 Hfp Hk ltac:(lia) (length R1 - 1) k fuel' Hk (Hround _ _ Hk)) as [(j & Hj & Hle & E)|[Hall _]]; [lia|lia| |].
  2: { exfalso. apply list_elem_of_lookup in Hc as (i & Hi). pose proof (lookup_lt_Some _ _ _ Hi) as Hil. pose proof (next_lt R1 k Hk) as Hnk.
       specialize (Hall (if decide (next R1 k ≤ i)%nat then i - next R1 k else i + length R1 - next R1 k)%nat ltac:(case_decide; lia)).
       rewrite ring_mod in Hall by (lia || (case_decide; lia)). assert (∀ a, a = i → (R1 !!! a).2 < nu → False) as Hx.
       { intros a ->. rewrite (list_lookup_total_correct _ _ _ Hi). lia. }
       apply (Hx _) in Hall; [done|]. repeat case_decide; lia. }
  unfold wp. rewrite E. clear E. pose proof (take_at s1 R1 j nu Hh1 Hj ltac:(lia)) as Ht. unfold wp in Ht. destruct (zoom _ _ s1) as [r s2|]; [|done].
  destruct Ht as (a & R2 & -> & [A1 A2 A3 A4 A5 A6 A7 A8]). right. exists a, R2. split; [done|].
  assert (∀ x, covers R1 x ∨ brk s1 ≤ x < brk s2 ↔ covers R x ∨ brk s ≤ x < brk s2) as Hx by (intros x; rewrite Hcov; unfold inb; cbn; lia || intuition lia).
  split; try done; [lia|intros x; by rewrite A6, Hx|intros x Hin; by apply Hx, A7|].
  intros x Hx1 Hx2 Hx3. rewrite A8, Hsame; [done|done|done|done|lia| |done]. rewrite Hcov. unfold inb. cbn. intuition lia.
Qed.

(** ** The allocator and its clients

    [live] are the blocks that malloc has handed out and free has not got back. *)
Record arena s R (live : list blk) : Prop := {
  ar_heap : heap s R;
  ar_lo : lo ≤ brk s;
  ar_live b : b ∈ live → 1 ≤ b.2 ∧ lo ≤ b.1 ∧ b.1 + 16 * b.2 ≤ brk s ∧ h_size (view u_mem s) b.1 = b.2;
  ar_free b x : b ∈ live → inb b x → ¬ covers R x;
  ar_disj i j b c x : live !! i = Some b → live !! j = Some c → i ≠ j → inb b x → ¬ inb c x
}.

(** Before the first call there is no ring yet. *)
Definition ready s R (live : list blk) : Prop :=
  arena s R live ∨ ld64 (view u_mem s) freep = 0 ∧ R = [(base, 0)] ∧ live = [] ∧ lo ≤ brk s ≤ 2 ^ 36.

Lemma malloc_units_spec nbytes : 0 ≤ nbytes ≤ 2 ^ 31 - 32 → 1 ≤ malloc_units nbytes < 2 ^ 27 ∧ nbytes ≤ 16 * (malloc_units nbytes - 1).
Proof. intros H. unfold malloc_units, sizeof_Header. rewrite u64_small, u32_small by dlia. dlia. Qed.

Lemma live_static s R live b x : arena s R live → b ∈ live → inb b x → ¬ static x ∧ x < brk s.
Proof.
  intros Ha Hb Hx. destruct (ar_live _ _ _ Ha b Hb) as (_ & H & H' & _). pose proof Hst as [? ? (? & ? & ?)]. unfold inb, Umalloc.static in *. lia.
Qed.

(** A change of memory that keeps the bytes of the live blocks keeps their headers. *)
Lemma live_size s R live (m : mem) b : arena s R live → b ∈ live → (∀ x, inb b x → rd m x = rd (view u_mem s) x) → h_size m b.1 = b.2.
Proof.
  intros Ha Hb Hm. destruct (ar_live _ _ _ Ha b Hb) as (H1 & _ & _ & H2). rewrite <- H2. apply ld_ext. intros x Hx. apply Hm. unfold inb. lia.
Qed.

Lemma arena_alloc s R live nu a s' R' : arena s R live → 1 ≤ nu → allocated s R nu a s' R' → arena s' R' ((a, nu) :: live).
Proof.
  intros Ha Hnu [A1 A2 A3 A4 A5 A6 A7 A8]. assert (∀ b x, b ∈ live → inb b x → ¬ inb (a, nu) x) as Hd.
  { intros b x Hb Hx Hin. destruct (A7 x Hin) as [H|H]; [by eapply ar_free|]. destruct (live_static _ _ _ _ _ Ha Hb Hx). lia. }
  split; [done|pose proof (ar_lo _ _ _ Ha); lia| | |].
  - intros b [->|Hb]%elem_of_cons; [done|]. destruct (ar_live _ _ _ Ha b Hb) as (H1 & H2 & H3 & H4). split_and!; [done|done|lia|].
    apply (live_size s R live); [done|done|]. intros x Hx. destruct (live_static _ _ _ _ _ Ha Hb Hx). apply A8; [done|by eapply ar_free|done].
  - intros b x [->|Hb]%elem_of_cons Hx; rewrite A6; [tauto|]. intros [[H|H] _]; [by eapply ar_free|]. destruct (live_static _ _ _ _ _ Ha Hb Hx). lia.
  - intros [|i] [|j] b c x Hi Hj Hne Hx; cbn in Hi, Hj; [done| | |by eapply (ar_disj _ _ _ Ha i j); eauto].
    + injection Hi as <-. apply list_elem_of_lookup_2 in Hj. intros Hx'. by eapply Hd.
    + injection Hj as <-. apply list_elem_of_lookup_2 in Hi. by eapply Hd.
Qed.

(** The first call makes the ring of [base] alone. *)
Lemma init_heap s : ld64 (view u_mem s) freep = 0 → lo ≤ brk s ≤ 2 ^ 36 →
  let m := st 4 (st64 (st64 (view u_mem s) freep base) base base) (base + 8) 0 in
  Umalloc.heap base freep lo m [(base, 0)] (brk s) ∧ ld64 m freep = base.
Proof.
  intros _ Hb m. pose proof Hst as [S1 S2 (S3 & S4 & S5)].
  assert (ld64 m freep = base) as Hf by (unfold m; rewrite !ld_st_ne by lia; apply (ld_st_eq 8); change (256 ^ Z.of_nat 8) with (2 ^ 64); lia).
  split; [|done]. split; [by exists []| | |by exists 0%nat; split; [cbn; lia|]|lia].
  - cbn. unfold fin. cbn. lia.
  - cbn. split_and!; [apply h_size_st; lia|unfold m; rewrite ptr_of_size; apply h_ptr_st; lia|done].
Qed.

(** C38: malloc returns a block of at least the bytes asked for that overlaps no block it
    handed out before, or null with nothing changed; it never changes a byte of a block
    in use, and every byte of the heap is afterwards in a free block, in use, or was
    never obtained: none is lost. It returns from every state of the allocator, the
    first call included. *)
Theorem malloc_allocates s R live nbytes fuel :
  ready s R live → 0 ≤ nbytes ≤ 2 ^ 31 - 32 → (2 * length R + 2 < fuel)%nat →
  wp (malloc base freep fuel nbytes) (λ r s', let n := malloc_units nbytes in ∃ R',
    (r = 0 ∧ arena s' R' live ∧ brk s' = brk s ∧ (∀ x, covers R' x ↔ covers R x) ∨
     ∃ a, r = a + 16 ∧ nbytes ≤ 16 * n - 16 ∧ arena s' R' ((a, n) :: live) ∧
       ∀ x, covers R x ∨ brk s ≤ x < brk s' ↔ covers R' x ∨ inb (a, n) x) ∧
    ∀ b x, b ∈ live → inb b x → rd (view u_mem s') x = rd (view u_mem s) x) s.
Proof.
  intros Hr Hnb Hfu. destruct (malloc_units_spec nbytes Hnb) as [Hn1 Hn2]. pose proof (st_base _ _ _ Hst) as Hbp. unfold malloc. set (n := malloc_units nbytes) in *. wp_step. wp_step. wp_step.
  eapply (wp_mono _ (λ p s1, brk s1 = brk s ∧ arena s1 R live ∧ (∃ f, (f < length R)%nat ∧ p = baddr R f ∧ ld64 (view u_mem s1) freep = baddr R f) ∧
     ∀ b x, b ∈ live → inb b x → rd (view u_mem s1) x = rd (view u_mem s) x)).
  { destruct Hr as [Ha|(E & -> & -> & Hb)].
    - destruct (hp_freep _ _ _ _ _ _ (ar_heap _ _ _ Ha)) as (f & Hf & Ef). rewrite Ef.
      pose proof (ring_bounds base freep lo _ _ _ _ (ar_heap _ _ _ Ha) (list_elem_of_lookup_2 _ _ _ (lookup_baddr R f Hf))) as [H _]. cbn in H.
      rewrite (proj2 (Z.eqb_neq _ _)) by lia. wp_step. split_and!; try done. by exists f.
    - rewrite E, Z.eqb_refl. unfold set_ptr, set_size. do 9 wp_step. wp_step. rewrite !sb_view, !sb_brk. destruct (init_heap s E Hb) as [H1 H2].
      split_and!; [done| |exists 0%nat; split_and!; [cbn; lia|done|done]|by intros b x ?%not_elem_of_nil].
      split; rewrite ?sb_view, ?sb_brk; [done|lia|by intros b ?%not_elem_of_nil|by intros b x ?%not_elem_of_nil|by intros i j b c x ?]. }
  intros p s1 (Hb & Ha & (f & Hf & -> & Ef) & Hs1). wp_step. wp_step. destruct (heap_next _ _ _ _ _ _ _ (ar_heap _ _ _ Ha) Hf) as [-> _].
  wp_call (malloc_loop_run s1 R f n fuel (ar_heap _ _ _ Ha) (ar_lo _ _ _ Ha) Ef Hf Hn1 Hfu).
  intros r s2 [(-> & H1 & H2)|(a & R2 & -> & Hal)].
  - exists R. rewrite H2. split; [|done]. left. split_and!; [done| |congruence|done]. destruct Ha as [A1 A2 A3 A4 A5]. split; rewrite ?H1, ?H2; done.
  - exists R2. split; [right; exists a; split_and!; [done|lia|apply (arena_alloc s1 R live); [done|lia|done]|]|].
    + intros x. rewrite (al_covers _ _ _ _ _ _ Hal). pose proof (al_from _ _ _ _ _ _ Hal x). unfold inb in *. cbn in *. rewrite <- Hb. destruct (decide (a ≤ x < a + 16 * n)); tauto.
    + intros b x Hb' Hx. rewrite <- (Hs1 b x Hb' Hx). destruct (live_static _ _ _ _ _ Ha Hb' Hx). apply Hal; [done|by eapply ar_free|done].
Qed.

Lemma live_outer s R l1 b l2 : arena s R (l1 ++ b :: l2) → outer lo (view u_mem s) R (brk s) b.
Proof.
  intros Ha. assert (b ∈ l1 ++ b :: l2) as Hb by (apply elem_of_app; right; left). destruct (ar_live _ _ _ Ha b Hb) as (H1 & H2 & H3 & H4).
  split; [done|done|done|done|]. intros c Hc. pose proof (st_lo _ _ _ Hst). destruct (ring_elem base freep lo _ _ _ _ (ar_heap _ _ _ Ha) Hc) as [->|[H5 H6]]; [unfold fin; cbn; left; lia|].
  unfold fin. rewrite Z.max_r by done. assert (∀ x, inb b x → ¬ inb c x) as Hd.
  { intros x Hx Hx'. apply (ar_free _ _ _ Ha b x Hb Hx), Exists_exists. eauto. }
  unfold inb in Hd. pose proof (Hd b.1) as D1. pose proof (Hd c.1) as D2. lia.
Qed.

Lemma lookup_without (l1 : list blk) b l2 i c : (l1 ++ l2) !! i = Some c →
  (l1 ++ b :: l2) !! (if decide (i < length l1)%nat then i else Datatypes.S i) = Some c.
Proof.
  intros H. case_decide as Hil; [by rewrite lookup_app_l in H |- * by done|].
  rewrite lookup_app_r in H |- * by lia. by replace (Datatypes.S i - length l1)%nat with (Datatypes.S (i - length l1)) by lia.
Qed.

Lemma free_run s R l1 b l2 fuel : arena s R (l1 ++ b :: l2) → (length R < fuel)%nat →
  wp (zoom u_mem (free freep fuel (b.1 + 16))) (λ _ s', brk s' = brk s ∧ ∃ R', arena s' R' (l1 ++ l2) ∧
    (∀ x, covers R' x ↔ covers R x ∨ inb b x) ∧ (length R' ≤ Datatypes.S (length R))%nat ∧
    ∀ c x, c ∈ l1 ++ l2 → inb c x → rd (view u_mem s') x = rd (view u_mem s) x) s.
Proof.
  intros Ha Hfu. wp_step. wp_call (free_heap base freep lo Hst _ R (brk s) b fuel (ar_heap _ _ _ Ha) (live_outer _ _ _ _ _ Ha) Hfu).
  intros [] m (R' & Hh & Hcov & Hsame & _ & Hlen). rewrite sb_view, sb_brk. split; [done|]. exists R'.
  assert (∀ c, c ∈ l1 ++ l2 → c ∈ l1 ++ b :: l2) as Hsub by (intros c; rewrite !elem_of_app, elem_of_cons; tauto).
  assert (∀ c x, c ∈ l1 ++ l2 → inb c x → ¬ inb b x) as Hd.
  { intros c x Hc Hx. apply list_elem_of_lookup in Hc as (i & Hi).
    apply (ar_disj _ _ _ Ha _ (length l1) c b x (lookup_without l1 b l2 i c Hi)); [by apply list_lookup_middle|case_decide; lia|done]. }
  assert (∀ c x, c ∈ l1 ++ l2 → inb c x → rd m x = rd (view u_mem s) x) as Hb.
  { intros c x Hc Hx. destruct (live_static _ _ _ _ _ Ha (Hsub c Hc) Hx). apply Hsame; [by eapply ar_free; eauto|by eapply Hd|done]. }
  split_and!; [|done|done|done]. split; rewrite ?sb_view, ?sb_brk; [done|apply Ha| | |].
  - intros c Hc. destruct (ar_live _ _ _ Ha c (Hsub c Hc)) as (H1 & H2 & H3 & H4). split_and!; [done..|]. eapply live_size; eauto.
  - intros c x Hc Hx. rewrite Hcov. intros [H|H]; [by eapply ar_free; eauto|by eapply Hd].
  - intros i j c d x Hi Hj Hne Hx.
    apply (ar_disj _ _ _ Ha _ _ _ _ _ (lookup_without _ b _ _ _ Hi) (lookup_without _ b _ _ _ Hj)); [repeat case_decide; lia|done].
Qed.

(** C39: free gives exactly the block back: the free bytes are those before and the bytes
    of the block; the ring is again in address order with no two blocks adjacent, so that
    the block was joined with its free neighbours; the other blocks in use, their bytes
    and the disjointness of all of them are kept. The search for the block's place ends
    wherever it starts. *)
Theorem free_releases s R l1 b l2 fuel : arena s R (l1 ++ b :: l2) → (length R < fuel)%nat →
  wp (zoom u_mem (free freep fuel (b.1 + 16))) (λ _ s', ∃ R', arena s' R' (l1 ++ l2) ∧
    (∀ x, covers R' x ↔ covers R x ∨ inb b x) ∧ chain (base - 1) R' (brk s') ∧
    ∀ c x, c ∈ l1 ++ l2 → inb c x → rd (view u_mem s') x = rd (view u_mem s) x) s.
Proof.
  intros Ha Hfu. wp_call (free_run s R l1 b l2 fuel Ha Hfu). intros [] s' (Hb & R' & H1 & H2 & _ & H3).
  exists R'. split_and!; [done|done|apply (hp_chain _ _ _ _ _ _ (ar_heap _ _ _ H1))|done].
Qed.
End malloc.

(** ** Witnesses and the conversion of large requests

    A process whose break is the second component; sbrk refuses to leave the heap. *)
Definition demo_sbrk (n mode : Z) : M (mem * Z) Z := λ s,
  if (0 <=? s.2 + n) && (s.2 + n <=? 2 ^ 36) then Ok s.2 (s.1, s.2 + n) else Ok SBRK_ERROR s.
#[export] Instance demo_usys : UserSys (mem * Z) := {
  u_mem := Lens (λ s, s.1) (λ m s, (m, s.2));
  sc_open _ _ := ret (-1);
  sc_read _ _ _ := ret (-1);
  sc_write _ _ _ := ret (-1);
  sc_fstat _ _ := ret (-1);
  sc_close _ := ret (-1);
  sc_sbrk := demo_sbrk
}.
#[export] Instance demo_brk : SbrkLaw (mem * Z).
Proof.
  refine {| brk s := s.2 |}; [done|done|]. intros n s Hn. unfold User.sbrk. cbn. unfold demo_sbrk.
  destruct (_ && _) eqn:E; eexists _, _; (split; [done|]); [right|by left]. cbn.
  apply andb_true_iff in E as [_ E%Z.leb_le]. by split_and!.
Defined.

(** The header [base] at 0x2000 and [freep] at 0x2010, the heap from 0x5000 on. *)
Lemma demo_statics : statics 0x2000 0x2010 0x5000.
Proof. split; lia. Qed.
Definition demo_us : mem * Z := (∅, 0x5000).
Lemma demo_ready : ready 0x2000 0x2010 0x5000 demo_us [(0x2000, 0)] [].
Proof. right. split_and!; done. Qed.

Lemma malloc_allocates_witness :
  wp (malloc 0x2000 0x2010 5 100) (λ r s', r = 0 ∨ ∃ a R', r = a + 16 ∧ arena 0x2000 0x2010 0x5000 s' R' [(a, 8)]) demo_us.
Proof.
  eapply wp_mono; [apply (malloc_allocates 0x2000 0x2010 0x5000 demo_statics demo_us [(0x2000, 0)] [] 100 5 demo_ready); [lia|cbn; lia]|].
  intros r s' (R' & [(-> & _)|(a & -> & _ & Ha & _)] & _); [by left|]. right. by exists a, R'.
Defined.

(** After one call: the block of 8 units at the end of the 4096 that sbrk gave. *)
Definition demo_us1 : mem * Z :=
  match malloc 0x2000 0x2010 5 100 demo_us with Ok _ s => s | Halt _ s => s end.
Lemma demo_arena : ∃ R, (length R < 5)%nat ∧ arena 0x2000 0x2010 0x5000 demo_us1 R [(0x5000 + 16 * 4088, 8)].
Proof.
  exists [(0x2000, 0); (0x5000, 4088)]. split; [cbn; lia|]. split.
  - split; [eexists; split; [reflexivity|]; repeat constructor; cbn; lia| | |exists 0%nat; split; [cbn; lia|by vm_compute]|by vm_compute].
    + cbn. unfold fin. cbn. replace (demo_us1.2) with (0x5000 + 65536) by by vm_compute. lia.
    + cbn. split_and!; by vm_compute.
  - by vm_compute.
  - intros b ->%list_elem_of_singleton. split_and!; by vm_compute.
  - intros b x ->%list_elem_of_singleton Hx. unfold covers. rewrite !Exists_cons, Exists_nil. unfold inb in *. cbn in *. lia.
  - intros [|i] [|j] b c x Hi Hj Hne; done.
Qed.

Lemma free_releases_witness :
  wp (zoom u_mem (free 0x2010 5 (0x5000 + 16 * 4088 + 16))) (λ _ s', ∃ R', arena 0x2000 0x2010 0x5000 s' R' []) demo_us1.
Proof.
  destruct demo_arena as (R & HR & Ha).
  eapply wp_mono; [apply (free_releases 0x2000 0x2010 0x5000 demo_statics demo_us1 R [] (0x5000 + 16 * 4088, 8) [] 5 Ha HR)|].
  intros [] s' (R' & H & _). by exists R'.
Defined.

(** A request that needs [2 ^ 28 + 1] units makes morecore pass 16 bytes to sbrk, for
    the product is converted to int: malloc(0xffffffff) returns a block although the
    break moved by 16 bytes only, and the header it wrote claims all the units. *)
Theorem malloc_huge_wraps : ∃ r s', malloc 0x2000 0x2010 5 0xffffffff demo_us = Ok r s' ∧
  malloc_units 0xffffffff = 2 ^ 28 + 1 ∧ r = 0x5010 ∧ brk s' = brk demo_us + 16 ∧ h_size (view u_mem s') 0x5000 = 2 ^ 28 + 1.
Proof. eexists _, _. split; [vm_compute; reflexivity|]. split_and!; by vm_compute. Qed.
