(* ===== verification/Uinit.v ===== *)
(** * user/init.c and user/test.c: the first user programs

    The main functions over the system calls. The string literals that are passed
    to the kernel are at the addresses [console] and [test], the array argv of the
    child at [argv]; the literals that are only printed are lists of bytes. *)
From S2P Require Import Prelude Memory KString Riscv Spinlock Mmio Kalloc Vm Sched Sleeplock Disk Bio Log Fs Console ConsoleProps Ulib Uprintf.

(** fcntl.h *)
Definition UO_RDWR : Z := 2.

(** The calls of user/usys.S that the programs make beyond those of the library. *)
Class UserProc (S : Type) : Type := {
  sc_mknod : Z → Z → Z → M S Z;     (* path, major, minor *)
  sc_dup : Z → M S Z;
  sc_fork : M S Z;
  sc_exec : Z → Z → M S Z;          (* path, argv *)
  sc_wait : Z → M S Z;
  sc_exit : Z → M S unit            (* does not return *)
}.

Definition lit (s : string) : list Z := (λ a, Z.of_N (Ascii.N_of_ascii a)) <$> String.list_ascii_of_string s.
Definition nl : list Z := [10].

Section programs.
Context {S : Type} `{!UserSys S, !UserProc S}.
Context (loc : Z).
Abbreviation printf := (UserIO.printf loc).

Definition test_main : M S unit :=
  printf (lit "hello test program!" ++ nl) [] ;;
  sc_exit 0.

(** The wait loop: the pid of the child, or an error, ends it; [fuel] bounds the
    number of orphans that are reaped before. *)
Definition init_wait (fuel : nat) (pid : Z) : M S Z :=
  loop fuel (λ _ : unit,
    do wpid <- sc_wait 0;
    ret (if (0 <=? wpid) && negb (wpid =? pid) then inl tt else inr wpid)) tt.

Definition init_main (fuel : nat) (console test argv : Z) : M S unit :=
  do fd <- sc_open console UO_RDWR;
  when (fd <? 0) (sc_mknod console 1 1 ;; sc_open console UO_RDWR ;; ret tt) ;;
  sc_dup 0 ;;
  sc_dup 0 ;;
  printf (lit "init: starting" ++ nl) [] ;;
  do pid <- sc_fork;
  when (pid <? 0) (printf (lit "init: fork failed" ++ nl) [] ;; sc_exit 1) ;;
  when (pid =? 0)
    (printf (lit "init: execing test" ++ nl) [] ;;
     zoom u_mem (modify (λ m, st64 (st64 m argv test) (argv + 8) 0)) ;;
     sc_exec test argv ;;
     printf (lit "init: exec test failed" ++ nl) [] ;;
     sc_exit 1) ;;
  printf (lit "init: waiting for child %d" ++ nl) [VInt pid] ;;
  init_wait fuel pid ;;
  printf (lit "init: test finished. looping forever." ++ nl) [] ;;
  halt Spun.
End programs.
